(* ===== verification/_CoqProject ===== *)
-Q . S2P
Prelude.v
Interleaving.v
Hiding.v
Platform.v
StdLib.v
Float32.v
MmapUtil.v
VertexTable.v
Bitmap.v
Stats.v
PackWindow.v
Engine.v
IntervalBatch.v
EdgeMap.v
EngineConcurrent.v
EdgeEngine.v
Workers.v
Bfs.v
BfsConcurrent.v
Kcore.v
KcoreConcurrent.v
ConnectedComponents.v
CcConcurrent.v
Mis.v
MisConcurrent.v
PagerankDelta.v
PagerankConcurrent.v
EngineKernels.v
Csr.v
CsrWeighted.v
GrTools.v
ServerFile.v
Options.v
CommandLine.v
ToolMains.v
KernelCtx.v
EndToEnd.v
Analyses.v
Ranks.v
RacingEndToEnd.v
Rdma.v
QpTest.v
ConnectionUtils.v
AbstractServer.v
Numa.v
ClientRuntime.v
FamServer.v
Session.v
Protocol.v
Refinement.v
Sessions.v
Witnesses.v
ConcurrentWitnesses.v
EngineWitnesses.v
SessionWitnesses.v
EdgeMapWitnesses.v
ToolWitnesses.v
CommandLineWitnesses.v
ToolMainWitnesses.v
