(* ===== verification/Prelude.v ===== *)
(** * FAM-Graph: graph analytics on far memory, modelled and verified

    The program keeps the edges of a graph in the memory of a server and the
    vertices in the memory of a client, which fetches adjacency lists by one-sided
    RDMA reads while a graph kernel runs.  This library is a shallow embedding of
    its C++ sources and the theorems that make it correct.  [Prelude] is the root:
    faults and their monad, machine integers, arrays, loops, sums, byte encodings.

    ** How the parts interact

<<
      text edges --Csr--> .idx file            .adj file
                             |                    |
                    VertexTable (client)     ServerFile (server)
                             |                    |  one registered region
        client: ClientRuntime   <-- messages -->   FamServer :server
                ConnectionUtils    (Session)       AbstractServer
                             |
                 KernelCtx: index, frontiers, edge buffers
                             |
      Bfs Kcore ConnectedComponents Mis PagerankDelta
                             |   (EdgeEngine: what kernels rely on)
                 Engine: post, spin, call      EdgeMap (older engine)
                             |                     |
                 PackWindow: batch, coalesce   IntervalBatch
                             |
                 Bitmap  Stats  VertexTable

      Interleaving, Hiding, Workers: racing workers of a round
      BfsConcurrent KcoreConcurrent CcConcurrent MisConcurrent PagerankConcurrent
      EngineConcurrent: racing workers of the engine, and the card
      EngineKernels: the kernels on it
>>

    ** Files and sources

    - [Platform]: build options, oneTBB ([combinable], [parallel_for],
      [parallel_reduce], [enumerable_thread_specific]), the RDMA card, the vertex
      caches, Boost and the operating system, as classes of operations with the
      laws the code relies on, and instances under which everything computes.
    - [StdLib]: what is used of the C++ library: [float] as IEEE binary32, its
      order, representation and decimal notation, and [std::sort]; [Float32]:
      arithmetic of non-negative numbers makes no NaN.
    - [MmapUtil]: src/mmap_util.hpp, include/fam_common.hpp.
    - [VertexTable]: src/vertex_table.hpp, .cpp, src/graph_types.hpp.
    - [Bitmap], [PackWindow], [Engine]: src/bitmap.hpp - the class [Bitmap], the
      packing routines, and the three parallel engines.
    - [IntervalBatch], [EdgeMap]: src/edgemap.hpp.
    - [Stats]: src/stats.hpp.
    - [EdgeEngine]: the interface between engines and kernels, a class whose laws
      the theorems of [Engine] discharge and the kernels are proved against.
    - [Bfs], [Kcore], [ConnectedComponents], [Mis], [PagerankDelta]: the kernels,
      one file of src/ each.
    - [Interleaving]: programs of atomic operations, their interleavings, and the
      rule for machines whose rounds are such programs; [Workers]: [set_bit] as
      atomic operations, and the rule for the workers of one round;
      [BfsConcurrent], [KcoreConcurrent], [CcConcurrent], [MisConcurrent],
      [PagerankConcurrent]: the functions the kernels pass to the engines, as such
      programs.
    - [Hiding]: programs that do the work of other programs;  [EngineConcurrent]: the
      workers of [ccy_for_each_active_batch] and [for_each_range] (src/bitmap.hpp) and
      the card as programs of atomic operations; [EngineKernels]: the functions the
      kernels pass to the engines, reading every edge from the edge buffer, and the
      kernels on these engines.
    - [Csr], [CsrWeighted]: util/edge_list_to_csr.cpp and edge_list_to_decsr.cpp,
      without and with edge weights; [GrTools]: fg2gr, compare_gr, maxd, memusage;
      [ToolMains]: the [main] functions of all of them, on a world of files.
    - [ServerFile]: how src/FAMServer.cpp loads the edge file; [Options]: the
      choices of src/main.cpp and of [run_client]; [CommandLine]: the options of
      src/main.cpp, their types and defaults, and how they are read; [KernelCtx]:
      src/graph_kernel.hpp.
    - [QpTest]: [test_all_qp] and [temporary_test] of src/client_runtime.cpp.
    - [Rdma]: data shared by both sides (include/messages.hpp); [ConnectionUtils]:
      src/connection_utils.cpp; [AbstractServer]: src/AbstractServer.cpp;
      [Numa] and [ClientRuntime]: src/client_runtime.cpp and
      src/communication_runtime.cpp; [FamServer]: src/FAMServer.cpp.
    - [Session]: client, server and network as one transition system; [Protocol]:
      what a session does, abstractly; [Refinement]: the handlers implement the
      protocol; [Sessions]: the consequences.
    - [EndToEnd], [Analyses], [Ranks]: converter, server, context, engine and kernel composed;
      [RacingEndToEnd]: the same with the workers and the card racing.
    - [Witnesses], [ConcurrentWitnesses], [EngineWitnesses], [SessionWitnesses],
      [EdgeMapWitnesses], [ToolWitnesses], [CommandLineWitnesses],
      [ToolMainWitnesses]: the theorems applied to concrete
      inputs, runs that exhibit defects, and schedules of racing workers.

    A definition has the name of the C++ function it translates.  A step of a loop
    is a definition of its own ([..._step]); a class is a record and one definition
    per method; the bodies of [parallel_for] are functions of the worker's number
    and its subrange.

    ** What the theorems show

    - Kernels ([bfs_correct], [kcore_correct], [cc_correct], [mis_correct],
      [pagerank_correct], [mis_stalls]): each ends with the mathematical result -
      distances, the k-core, the least label that reaches a vertex, the greedy
      independent set, rounds of the delta iteration in binary32 - for every
      schedule; [update_atomic_min] and [update_add_atomic_adds] for their
      compare-and-swap loops under interference.
    - Racing workers ([bfs_concurrent], [kcore_concurrent], [cc_concurrent],
      [mis_concurrent], [pagerank_concurrent]): the same results however the atomic
      operations of the workers of a round are interleaved; every interleaving
      ends and none faults.  Each file also shows that a worker that is not
      interrupted does what the sequential kernel does ([run_bfs_push] and its
      like), so the two models are of one function.
    - Racing workers and the card ([ccy_refines], [range_refines]): whatever holds of
      all rounds in which workers apply a function to constant adjacency lists, holds
      of all rounds of the engine, however posts, looks at the buffers, reads of
      edges, operations of the function and deliveries of the card interleave;
      [bfs_on_engine], [kcore_on_engine], [cc_on_engine], [mis_on_engine],
      [pagerank_on_engine]: so the kernels compute the same results there, and leave
      nothing in flight.
    - Engines ([ccy_engine_correct], [range_engine_correct], [edgemap_correct],
      [window_drained_correctly], [workers_isolated], [requests_posted]): the
      client's function sees every adjacency list once, complete, whatever the
      timing of the card; busy-waits end; workers do not interfere.  Packing:
      [pack_window_correct], [cache_pack_window_correct], [next_batch_correct].
    - Sessions ([session_safe], [session_ends]): for every interleaving the kernel
      starts only on an announced region over established connections, the only
      possible faults are two races after the kernel's end, and every session ends;
      [event_loops_agree]: the two event loops are one.
    - Files ([encode_roundtrip], against the grammar [edges_of_text];
      [weighted_encode_correct], [decsr_transposes],
      [make_undirected_symmetric], [index_file_roundtrip], [get_edge_list_correct],
      [out_degrees_correct], [fg2gr_correct], [compare_gr_correct],
      [max_degree_tools_correct]), and the tools as programs ([converter_main_correct],
      [text_to_gr], [fg2gr_main_correct], [compare_gr_main_correct],
      [undirected_converters_agree], [outdir_extension_lost]): which files they read
      and write, what they print and the status they return.
    - Start ([generic_ctx_correct], [default_threads_fail], [main_mode],
      [choose_cache_correct], [do_numa_map_correct]), the command line
      ([options_typed], [main_argv_correct]: every option is read at the type it is
      declared with) and data structures
      ([set_bits_any_order], [frontier_fill_correct],
      [clear_stats_round_conserves], [comm_runtime_worker2_ends]).
    - Composition ([bfs_end_to_end], [kcore_end_to_end], [cc_end_to_end],
      [mis_end_to_end], [pagerank_end_to_end]): from the text of the edges to the
      result of the kernel, in terms of that text; for PageRank also that no rank is
      negative or a NaN, so that the twenty ranks printed are the largest.  The same from
      the text on the racing engine ([bfs_racing_end_to_end], [kcore_racing_end_to_end],
      [cc_racing_end_to_end], [mis_racing_end_to_end], [pagerank_racing_end_to_end]): the
      text's result in every execution of workers and card.

    ** Modelling choices

    - Integers are [Z]; every unsigned operation that can leave its range is
      wrapped with [u32] or [u64].  An access out of bounds, a failing [assert], an
      exception, [rc_die], a division by zero and an endless busy-wait are faults,
      and [Ok] excludes them all.
    - Loops whose number of iterations the code does not fix have fuel.  It is
      either a bound computed from the arguments ([range_fuel], the words in flight
      of [spin], one more than the edges in [edgemap], the length of the input of
      [read_edges]) or an argument of the definition that a theorem bounds from
      below (the rounds of the kernels, the retries of [post_retry], the rounds of
      [comm_runtime_worker2]).  The theorems state that this fuel gives a result.
    - In [Engine], [EdgeMap] and the sequential kernels the workers of one
      [parallel_for] run one after the other, in the order, on the subranges and on the
      threads that a scheduler picks.
    - In the files [..Concurrent] the workers of one round are programs of atomic
      operations on the vertices and the next frontier, which interleave in any
      order, sequentially consistently (the reordering of relaxed operations on
      different locations is not modelled).  What only the worker itself can see is
      part of an adjacent operation.  These files leave the engine out: the active
      vertices are distributed among the workers in any way ([split]).  A weak exchange may
      fail without reason as often as a finite list says; the fuel of the
      compare-and-swap loops is at least the vertices plus these failures for
      labels, which only decrease, and more than the edges plus these failures for
      residuals, where each failure is another worker's success.
    - In [EngineConcurrent] every write of a signature, post, look at the edge buffer,
      read of an edge and update of the statistics is an operation of its own.  The
      requests of a worker's queue pair are served in order, those of different
      workers in any order.  The card is a program too, a finite list of deliveries that
      interleaves with the workers; in addition some word of a worker's requests lands
      whenever that worker has looked for one in vain, so that it needs at most
      [edge_buf_size + 1] looks, the fuel of [spin_c].  How often a post finds its queue
      full is a function of the worker and the number of its posts ([qp_drains]).
    - In [Engine] the card delivers the words of posted requests in order, an arbitrary number
      between any two looks at the memory.  Clock readings are arbitrary.
    - A session is cut at the points where a thread can block; the steps of event
      loops, polling threads, kernel and completion threads and the network
      interleave in any order.  A message is read from the sender's buffer when it
      is delivered.  A connection and a buffer that have been destroyed cannot be
      used.
    - A tool is a function on a world, the files by their paths and the lines printed;
      it reads a file as it is when the stream is opened, and an output stream that could
      not be opened swallows what is written.  [main] catches [Thrown] faults only.
    - Library calls are parameters, with their documented behaviour as laws of the
      classes of [Platform], [Rdma], [Numa] and [Session].

    ** Not modelled

    - src/server_runtime.cpp: commented out but for a copy of [file_mapper];
      util/main.cpp: an earlier copy of the converter that is not built; the tests
      and the build files.
    - The parser of the command line (boost::program_options, a class with the two
      laws the code relies on), replacing extensions of paths (boost::filesystem, a
      class with two laws), logging, progress output and the two functions that print
      the statistics.
    - The deleters of mappings, which only release resources.

    ** Plan

    Every component that is built and keeps state is modelled. *)

From stdpp Require Export prelude list numbers gmap strings.

Open Scope Z_scope.

(** ** Outcomes of C++ code

    A computation either returns or ends in a [fault].  [OutOfBounds] is an
    access outside an array, [AssertionFailed] a failing [assert], [Thrown] an
    exception, [Terminated] an exception that no handler catches, [Died] a call of
    [rc_die], [DivByZero] a division or remainder by zero, [SpinsForever] a busy-wait
    whose condition can no longer change, [OutOfFuel] the exhaustion of the fuel of a loop of the model. *)
Inductive fault :=
  | OutOfBounds
  | AssertionFailed
  | Thrown (msg : string)
  | Terminated (msg : string)
  | Died (reason : string)
  | DivByZero
  | SpinsForever
  | OutOfFuel.

Inductive result (A : Type) :=
  | Ok (a : A)
  | Fault (f : fault).
Arguments Ok {A} a.
Arguments Fault {A} f.

#[global] Instance result_ret : MRet result := @Ok.
#[global] Instance result_bind : MBind result :=
  λ A B k m, match m with Ok a => k a | Fault f => Fault f end.
#[global] Instance result_fmap : FMap result :=
  λ A B f m, match m with Ok a => Ok (f a) | Fault e => Fault e end.

Definition is_ok {A} (m : result A) : bool :=
  match m with Ok _ => true | Fault _ => false end.

#[global] Instance fault_eq_dec : EqDecision fault.
Proof. solve_decision. Defined.
#[global] Instance result_eq_dec {A} `{EqDecision A} : EqDecision (result A).
Proof. solve_decision. Defined.

Lemma bind_ok {A B} (a : A) (k : A → result B) : (Ok a ≫= k) = k a.
Proof. done. Qed.

Lemma bind_ok_inv {A B} (m : result A) (k : A → result B) b :
  m ≫= k = Ok b → ∃ a, m = Ok a ∧ k a = Ok b.
Proof. destruct m; naive_solver. Qed.

(** ** Machine integers: values of [uintN_t] are the integers of [0, 2^N) and
    every arithmetic operation that may leave that range is wrapped. *)
Definition u32 (z : Z) : Z := z mod 2 ^ 32.
Definition u64 (z : Z) : Z := z mod 2 ^ 64.
Definition in_u32 (z : Z) : Prop := 0 ≤ z < 2 ^ 32.
Definition in_u64 (z : Z) : Prop := 0 ≤ z < 2 ^ 64.

#[global] Instance in_u32_dec z : Decision (in_u32 z).
Proof. unfold in_u32. apply _. Defined.
#[global] Instance in_u64_dec z : Decision (in_u64 z).
Proof. unfold in_u64. apply _. Defined.

Lemma u32_range z : in_u32 (u32 z).
Proof. unfold in_u32, u32. apply Z.mod_pos_bound. lia. Qed.
Lemma u64_range z : in_u64 (u64 z).
Proof. unfold in_u64, u64. apply Z.mod_pos_bound. lia. Qed.
Lemma u32_id z : in_u32 z → u32 z = z.
Proof. intros H. unfold u32. by apply Z.mod_small. Qed.
Lemma u64_id z : in_u64 z → u64 z = z.
Proof. intros H. unfold u64. by apply Z.mod_small. Qed.
Lemma u32_id' z : 0 ≤ z < 2 ^ 32 → u32 z = z.
Proof. apply u32_id. Qed.
Lemma u64_id' z : 0 ≤ z < 2 ^ 64 → u64 z = z.
Proof. apply u64_id. Qed.
Lemma u32_add_u32_l a b : u32 (u32 a + b) = u32 (a + b).
Proof. unfold u32. apply Zplus_mod_idemp_l. Qed.
Lemma u32_add_u32_r a b : u32 (a + u32 b) = u32 (a + b).
Proof. unfold u32. apply Zplus_mod_idemp_r. Qed.
Lemma u32_sub_u32_l a b : u32 (u32 a - b) = u32 (a - b).
Proof. unfold u32. apply Zminus_mod_idemp_l. Qed.
Lemma u32_u32 a : u32 (u32 a) = u32 a.
Proof. apply u32_id, u32_range. Qed.

Lemma u64_u64 a : u64 (u64 a) = u64 a.
Proof. apply u64_id, u64_range. Qed.

(** Equality modulo [2^32] by exhibiting the multiple. *)
Lemma u32_congr a b k : a = b + k * 2 ^ 32 → u32 a = u32 b.
Proof. intros ->. unfold u32. apply Z_mod_plus_full. Qed.
Lemma u32_decomp z : ∃ k, u32 z = z + k * 2 ^ 32.
Proof. exists (- (z / 2 ^ 32)). unfold u32. rewrite Z.mod_eq; lia. Qed.

Create HintDb fam discriminated.
Create Rewrite HintDb famr.
#[export] Hint Resolve u32_range u64_range : fam.
#[export] Hint Rewrite u32_add_u32_l u32_add_u32_r u32_sub_u32_l u32_u32 : famr.

(** [ulia] removes the wrap-around of every expression that linear arithmetic
    shows to be in range, then calls [lia]. *)
Ltac u_simpl :=
  unfold in_u32, in_u64 in *;
  repeat match goal with
  | |- context [u32 ?z] => rewrite (u32_id' z) by lia
  | |- context [u64 ?z] => rewrite (u64_id' z) by lia
  | H : context [u32 ?z] |- _ => rewrite (u32_id' z) in H by lia
  | H : context [u64 ?z] |- _ => rewrite (u64_id' z) in H by lia
  end.
Ltac ulia := u_simpl; lia.

(** ** Arrays: reading and writing out of range is a fault *)
Definition aget {A} (l : list A) (i : Z) : result A :=
  if decide (0 ≤ i) then
    match l !! Z.to_nat i with Some x => Ok x | None => Fault OutOfBounds end
  else Fault OutOfBounds.

Definition aset {A} (l : list A) (i : Z) (x : A) : result (list A) :=
  if decide (0 ≤ i < Z.of_nat (length l)) then Ok (<[Z.to_nat i:=x]> l)
  else Fault OutOfBounds.

(** Total reading of an array, for specifications. *)
Definition at_ {A} `{Inhabited A} (l : list A) (i : Z) : A := l !!! Z.to_nat i.

(** Length of an array as an integer. *)
Definition zlen {A} (l : list A) : Z := Z.of_nat (length l).

Section arrays.
  Context {A : Type} `{Inhabited A}.
  Implicit Types (l : list A) (i j : Z).

Lemma aget_at l i : 0 ≤ i < zlen l → aget l i = Ok (at_ l i).
Proof.
  intros [??]. unfold aget, at_, zlen in *. rewrite decide_True by done.
  destruct (lookup_lt_is_Some_2 l (Z.to_nat i)) as [x Hx]; [lia|].
  by rewrite Hx, (list_lookup_total_correct _ _ _ Hx).
Qed.

Lemma aget_ok_inv l i x : aget l i = Ok x → 0 ≤ i < zlen l ∧ x = at_ l i.
Proof.
  unfold aget, at_, zlen. case_decide; [|done].
  destruct (l !! Z.to_nat i) eqn:E; [|done]. intros [= ->].
  split; [|by rewrite (list_lookup_total_correct _ _ _ E)].
  apply lookup_lt_Some in E. lia.
Qed.

Lemma aset_ok l i x : 0 ≤ i < zlen l → aset l i x = Ok (<[Z.to_nat i:=x]> l).
Proof. intros. unfold aset. by rewrite decide_True. Qed.

Lemma at_insert_eq l i x : 0 ≤ i < zlen l → at_ (<[Z.to_nat i:=x]> l) i = x.
Proof. unfold at_, zlen. intros. apply list_lookup_total_insert_eq. lia. Qed.

Lemma at_insert_ne l i j x :
  0 ≤ i → 0 ≤ j → i ≠ j → at_ (<[Z.to_nat i:=x]> l) j = at_ l j.
Proof. unfold at_. intros. apply list_lookup_total_insert_ne. lia. Qed.

Lemma at_insert l i j x :
  0 ≤ i < zlen l → 0 ≤ j →
  at_ (<[Z.to_nat i:=x]> l) j = if decide (i = j) then x else at_ l j.
Proof.
  intros. case_decide as E; [subst; by apply at_insert_eq|].
  apply at_insert_ne; lia.
Qed.

Lemma insert_at_id l i : 0 ≤ i < zlen l → <[Z.to_nat i := at_ l i]> l = l.
Proof.
  intros Hi. apply list_insert_id, list_lookup_lookup_total_lt. unfold zlen in Hi. lia.
Qed.

Lemma zlen_insert l (n : nat) x : zlen (<[n:=x]> l) = zlen l.
Proof. unfold zlen. by rewrite length_insert. Qed.

Lemma zlen_app l l' : zlen (l ++ l') = zlen l + zlen l'.
Proof. unfold zlen. rewrite length_app. lia. Qed.

Lemma aget_middle l1 x l2 i : i = zlen l1 → aget (l1 ++ x :: l2) i = Ok x.
Proof.
  intros ->. unfold aget, zlen. rewrite decide_True by lia.
  by rewrite Nat2Z.id, list_lookup_middle.
Qed.

Lemma aset_middle l1 x y l2 i : i = zlen l1 → aset (l1 ++ x :: l2) i y = Ok (l1 ++ y :: l2).
Proof.
  intros ->. unfold aset, zlen. rewrite length_app. simpl. rewrite decide_True by lia.
  rewrite Nat2Z.id, insert_app_r_alt by lia. by rewrite Nat.sub_diag.
Qed.

(** A non-empty tail has a first element. *)
Lemma zlen_split l r n : zlen (l ++ r) = n → zlen l < n → ∃ x r', r = x :: r'.
Proof. unfold zlen. rewrite length_app. destruct r; simpl; intros; [lia|eauto]. Qed.

Lemma zlen_nonneg l : 0 ≤ zlen l.
Proof. unfold zlen. lia. Qed.

Lemma list_eq_at l l' :
  zlen l = zlen l' → (∀ i, 0 ≤ i < zlen l → at_ l i = at_ l' i) → l = l'.
Proof.
  unfold zlen, at_. intros Hl Hat. apply list_eq_same_length with (length l); [lia|done|].
  intros n x y Hn Hx Hy. specialize (Hat (Z.of_nat n)).
  rewrite Nat2Z.id in Hat. rewrite (list_lookup_total_correct _ _ _ Hx),
    (list_lookup_total_correct _ _ _ Hy) in Hat. apply Hat. lia.
Qed.

(** Choosing a value for every element of a list. *)
Lemma list_choice {B C} (P : nat → B → C → Prop) (bs : list B) :
  (∀ (i : nat) b, bs !! i = Some b → ∃ c, P i b c) →
  ∃ cs, length cs = length bs ∧ ∀ (i : nat) b c, bs !! i = Some b → cs !! i = Some c → P i b c.
Proof.
  induction bs as [|b bs IH] using rev_ind; intros HP; [by exists []|].
  destruct IH as (cs & Hl & Hcs). { intros i b' Hi. apply HP. by apply lookup_app_l_Some. }
  destruct (HP (length bs) b) as [c Hc]; [by apply list_lookup_middle|].
  exists (cs ++ [c]). split; [by rewrite !length_app, Hl|]. intros i b' c'.
  rewrite !lookup_app_Some. intros [Hb|[Hge Hb]] [Hc'|[Hge' Hc']].
  - by eapply Hcs.
  - apply lookup_lt_Some in Hb. lia.
  - apply lookup_lt_Some in Hc'. lia.
  - apply list_lookup_singleton_Some in Hb as [Hi <-], Hc' as [_ <-].
    by replace i with (length bs) by lia.
Qed.
End arrays.
#[export] Hint Rewrite @zlen_insert @zlen_app : famr.
#[export] Hint Resolve zlen_nonneg : fam.

Lemma Forall2_insert_l {A B} (P : A → B → Prop) l k i x y :
  Forall2 P l k → k !! i = Some y → P x y → Forall2 P (<[i := x]> l) k.
Proof. intros HF Hi Hp. rewrite <- (list_insert_id k i y) by done. by apply Forall2_insert. Qed.

Lemma elem_of_concat {A} (x : A) (ls : list (list A)) :
  x ∈ concat ls ↔ ∃ l, x ∈ l ∧ l ∈ ls.
Proof.
  rewrite list_elem_of_In, in_concat. setoid_rewrite <- list_elem_of_In. naive_solver.
Qed.

(** ** Slices of arrays: [n] elements of [l] starting at index [i] *)
Definition slice {A} (i n : Z) (l : list A) : list A :=
  take (Z.to_nat n) (drop (Z.to_nat i) l).

Section slices.
  Context {A : Type}.
  Implicit Types (l : list A).

Lemma slice_app i n1 n2 l :
  0 ≤ i → 0 ≤ n1 → 0 ≤ n2 → slice i (n1 + n2) l = slice i n1 l ++ slice (i + n1) n2 l.
Proof.
  intros. unfold slice. rewrite !Z2Nat.inj_add, <- drop_drop by lia.
  generalize (drop (Z.to_nat i) l). intros k.
  rewrite <- (take_drop (Z.to_nat n1) k) at 1. rewrite take_app, take_take.
  rewrite Nat.min_r by lia. f_equal.
  destruct (decide (Z.to_nat n1 ≤ length k)%nat).
  - rewrite length_take, Nat.min_l by lia. f_equal. lia.
  - rewrite drop_ge by lia. by rewrite !take_nil.
Qed.

Lemma zlen_slice i n l : 0 ≤ i → 0 ≤ n → i + n ≤ zlen l → zlen (slice i n l) = n.
Proof. unfold zlen, slice. intros. rewrite length_take, length_drop. lia. Qed.

Lemma at_slice `{Inhabited A} i n l j :
  0 ≤ i → 0 ≤ j < n → i + n ≤ zlen l → at_ (slice i n l) j = at_ l (i + j).
Proof.
  unfold at_, slice, zlen. intros.
  rewrite !list_lookup_total_alt, lookup_take, lookup_drop.
  rewrite decide_True by lia. do 3 f_equal. lia.
Qed.

Lemma slice_middle l1 l2 l3 : slice (zlen l1) (zlen l2) (l1 ++ l2 ++ l3) = l2.
Proof.
  unfold slice, zlen. rewrite !Nat2Z.id, drop_app_length. by rewrite take_app_length.
Qed.

Lemma Forall_slice (P : A → Prop) i n l : Forall P l → Forall P (slice i n l).
Proof. intros. by apply Forall_take, Forall_drop. Qed.

Lemma slice_full l : slice 0 (zlen l) l = l.
Proof. unfold slice, zlen. rewrite drop_0. apply take_ge. lia. Qed.

Lemma slice_fmap {B} (f : A → B) i n l : slice i n (f <$> l) = f <$> slice i n l.
Proof. unfold slice. by rewrite fmap_take, fmap_drop. Qed.
End slices.

(** ** Loops

    [forM] is a [for] over a known list of values, [rng lo hi] the values of
    [for (i = lo; i < hi; ++i)], and [loopM] a [while] with early exits: one
    evaluation of the condition and the body either continues with a new state
    ([inl]) or leaves the loop with a result ([inr]). *)
Fixpoint forM {A S} (l : list A) (body : A → S → result S) (s : S) : result S :=
  match l with
  | [] => Ok s
  | x :: l' => s' ← body x s; forM l' body s'
  end.

Definition rng (lo hi : Z) : list Z := seqZ lo (hi - lo).

Definition for_u32 {S} (lo hi : Z) (body : Z → S → result S) (s : S) : result S :=
  forM (rng lo hi) body s.

Fixpoint loopM {S R} (fuel : nat) (step : S → result (S + R)) (s : S) : result R :=
  match fuel with
  | O => Fault OutOfFuel
  | S n => r ← step s; match r with inl s' => loopM n step s' | inr x => Ok x end
  end.

(** Enough iterations for a [while] that advances [v] from [lo] to at most [hi]. *)
Definition range_fuel (lo hi : Z) : nat := S (Z.to_nat (hi - lo)).

Lemma elem_of_rng lo hi i : i ∈ rng lo hi ↔ lo ≤ i < hi.
Proof. unfold rng. rewrite elem_of_seqZ. lia. Qed.

Lemma rng_nil lo hi : hi ≤ lo → rng lo hi = [].
Proof. intros. unfold rng. apply seqZ_nil. lia. Qed.

Lemma rng_cons lo hi : lo < hi → rng lo hi = lo :: rng (lo + 1) hi.
Proof. intros. unfold rng. rewrite seqZ_cons by lia. f_equal. f_equal; lia. Qed.

Lemma rng_app lo mid hi : lo ≤ mid ≤ hi → rng lo hi = rng lo mid ++ rng mid hi.
Proof.
  intros. unfold rng. replace (hi - lo) with ((mid - lo) + (hi - mid)) by lia.
  rewrite seqZ_app by lia. f_equal. f_equal. lia.
Qed.

Lemma rng_snoc lo hi : lo ≤ hi → rng lo (hi + 1) = rng lo hi ++ [hi].
Proof.
  intros. rewrite (rng_app lo hi) by lia. f_equal.
  rewrite rng_cons by lia. by rewrite rng_nil by lia.
Qed.

Lemma NoDup_rng lo hi : NoDup (rng lo hi).
Proof. apply NoDup_seqZ. Qed.

Lemma length_rng lo hi : length (rng lo hi) = Z.to_nat (hi - lo).
Proof. apply length_seqZ. Qed.
#[export] Hint Resolve NoDup_rng : fam.

Section loops.
  Context {S : Type}.

Lemma forM_app {A} (l1 l2 : list A) (body : A → S → result S) s :
  forM (l1 ++ l2) body s = forM l1 body s ≫= forM l2 body.
Proof.
  revert s. induction l1 as [|x l1 IH]; intros s; simpl; [done|].
  destruct (body x s); simpl; [apply IH|done].
Qed.

(** An invariant over the part of the list already processed. *)
Lemma forM_prefix_inv {A} (I : list A → S → Prop) (l : list A) body s :
  I [] s →
  (∀ pre x suf s, l = pre ++ x :: suf → I pre s →
     ∃ s', body x s = Ok s' ∧ I (pre ++ [x]) s') →
  ∃ s', forM l body s = Ok s' ∧ I l s'.
Proof.
  intros H0 Hstep.
  cut (∀ suf pre s, l = pre ++ suf → I pre s →
         ∃ s', forM suf body s = Ok s' ∧ I l s'); [by intros H; eapply (H l [])|].
  induction suf as [|x suf IH]; intros pre t Hl HI; simpl.
  - rewrite app_nil_r in Hl. subst. by exists t.
  - destruct (Hstep pre x suf t Hl HI) as (t' & Ht & HI'). rewrite Ht. simpl.
    apply (IH (pre ++ [x])); [by rewrite <- app_assoc|done].
Qed.

Lemma for_u32_inv (I : Z → S → Prop) lo hi body s :
  lo ≤ hi → I lo s →
  (∀ i s, lo ≤ i < hi → I i s → ∃ s', body i s = Ok s' ∧ I (i + 1) s') →
  ∃ s', for_u32 lo hi body s = Ok s' ∧ I hi s'.
Proof.
  intros Hle H0 Hstep. unfold for_u32.
  destruct (forM_prefix_inv (λ pre s, I (lo + zlen pre) s) (rng lo hi) body s)
    as (s' & E & HI).
  - unfold zlen. simpl. by rewrite Z.add_0_r.
  - intros pre x suf t Hl HI.
    assert (Hx : lo + zlen pre = x ∧ x < hi).
    { assert (rng lo hi !! length pre = Some x) as Hlk.
      { rewrite Hl, lookup_app_r by lia. by rewrite Nat.sub_diag. }
      unfold rng in Hlk. apply lookup_seqZ in Hlk. unfold zlen. lia. }
    destruct (Hstep x t) as (t' & Ht & HI'); [unfold zlen in *; lia|by destruct Hx as [<- _]|].
    exists t'. split; [done|]. rewrite zlen_app. unfold zlen at 2. simpl.
    replace (lo + (zlen pre + Z.of_nat 1)) with (x + 1) by lia. done.
  - exists s'. split; [done|]. unfold zlen in HI. rewrite length_rng in HI.
    by replace hi with (lo + Z.of_nat (Z.to_nat (hi - lo))) by lia.
Qed.

(** A loop over the indices of an array is a loop over its elements. *)
Lemma for_u32_aget {A} (l : list A) (body : A → S → result S) s :
  for_u32 0 (zlen l) (λ i s, x ← aget l i; body x s) s = forM l body s.
Proof.
  unfold for_u32. revert s.
  cut (∀ suf pre s, l = pre ++ suf →
    forM (rng (zlen pre) (zlen l)) (λ i s, x ← aget l i; body x s) s = forM suf body s).
  { intros H s. by apply (H l []). }
  induction suf as [|x suf IH]; intros pre s ->.
  - rewrite app_nil_r, rng_nil by lia. done.
  - rewrite zlen_app, rng_cons by (unfold zlen; simpl; lia). cbn [forM].
    rewrite aget_middle, bind_ok by done. destruct (body x s) as [s'|]; [|done]. cbn.
    specialize (IH (pre ++ [x]) s'). rewrite <- app_assoc, !zlen_app in IH. cbn [app] in IH.
    by rewrite <- IH by done.
Qed.

(** A loop whose body never faults is a fold. *)
Lemma forM_fold {A} (I : S → Prop) (f : A → S → S) (l : list A) body s :
  I s → (∀ x s, x ∈ l → I s → body x s = Ok (f x s) ∧ I (f x s)) →
  forM l body s = Ok (fold_left (λ s x, f x s) l s) ∧ I (fold_left (λ s x, f x s) l s).
Proof.
  intros H0 Hb. revert s H0. induction l as [|x l IH]; intros s H0; simpl; [done|].
  destruct (Hb x s) as [E HI]; [set_solver|done|]. rewrite E. simpl.
  apply IH; [|done]. intros y t Hy. apply Hb. set_solver.
Qed.

Lemma forM_ext {A} (l : list A) (b1 b2 : A → S → result S) s :
  (∀ x s, x ∈ l → b1 x s = b2 x s) → forM l b1 s = forM l b2 s.
Proof.
  revert s. induction l as [|x l IH]; intros s H; simpl; [done|].
  rewrite H by set_solver. destruct (b2 x s); simpl; [|done].
  apply IH. intros. apply H. set_solver.
Qed.

(** Total correctness of a [while]: an invariant and a decreasing measure. *)
Lemma loopM_total {R} (I : S → Prop) (Q : R → Prop) (m : S → nat) step fuel s :
  I s → (m s < fuel)%nat →
  (∀ s, I s → ∃ r, step s = Ok r ∧
     match r with inl s' => I s' ∧ (m s' < m s)%nat | inr x => Q x end) →
  ∃ x, loopM fuel step s = Ok x ∧ Q x.
Proof.
  intros HI Hm Hstep. revert s HI Hm.
  induction fuel as [|n IH]; intros s HI Hm; [lia|]. simpl.
  destruct (Hstep s HI) as ([s'|x] & E & H); rewrite E; simpl; [|by exists x].
  destruct H as [HI' Hlt]. apply IH; [done|lia].
Qed.

(** The same with the measure as part of the invariant. *)
Lemma loopM_total_ind {R} (I : nat → S → Prop) (Q : R → Prop) step fuel m s :
  I m s → (m < fuel)%nat →
  (∀ m s, I m s → ∃ r, step s = Ok r ∧
     match r with inl s' => ∃ m', I m' s' ∧ (m' < m)%nat | inr x => Q x end) →
  ∃ x, loopM fuel step s = Ok x ∧ Q x.
Proof.
  intros HI Hm Hstep. revert m s HI Hm.
  induction fuel as [|n IH]; intros m s HI Hm; [lia|]. simpl.
  destruct (Hstep m s HI) as ([s'|x] & E & H); rewrite E; simpl; [|by exists x].
  destruct H as (m' & HI' & Hlt). apply (IH m'); [done|lia].
Qed.

Lemma loopM_fuel_mono {R} (step : S → result (S + R)) n m s x :
  loopM n step s = Ok x → (n ≤ m)%nat → loopM m step s = Ok x.
Proof.
  revert m s. induction n as [|n IH]; intros [|m] s Hl Hle; simpl in *; [done|done|lia|].
  destruct (step s) as [[s'|y]|]; simpl in *; [|done|done]. apply IH; [done|lia].
Qed.
End loops.

(** A loop on a state that embeds another. *)
Lemma forM_embed {S S' A} (h : S → S') (l : list A) (b : A → S → result S) b' s :
  (∀ x s, b' x (h s) = h <$> b x s) → forM l b' (h s) = h <$> forM l b s.
Proof.
  intros Hb. revert s. induction l as [|x l IH]; intros s; [done|]. simpl. rewrite Hb.
  destruct (b x s) as [s'|]; [apply IH|done].
Qed.

(** ** Finite sums of integers over lists, counting as a special case *)
Definition zsum {A} (f : A → Z) (l : list A) : Z := foldr (λ x acc, f x + acc) 0 l.
Definition zcount {A} (p : A → bool) (l : list A) : Z := zsum (λ x, Z.b2z (p x)) l.

Section sums.
  Context {A : Type}.
  Implicit Types (f g : A → Z) (l : list A).

Lemma zsum_cons f x l : zsum f (x :: l) = f x + zsum f l.
Proof. done. Qed.

Lemma zsum_app f l1 l2 : zsum f (l1 ++ l2) = zsum f l1 + zsum f l2.
Proof. unfold zsum. induction l1; simpl; lia. Qed.

#[global] Instance zsum_perm f : Proper ((≡ₚ) ==> (=)) (zsum f).
Proof. intros l1 l2 H. unfold zsum. induction H; simpl; lia. Qed.

Lemma zsum_add f g l : zsum (λ x, f x + g x) l = zsum f l + zsum g l.
Proof. unfold zsum. induction l; simpl; lia. Qed.

Lemma zsum_ext f g l : (∀ x, x ∈ l → f x = g x) → zsum f l = zsum g l.
Proof.
  unfold zsum. induction l as [|x l IH]; intros H; simpl; [done|].
  rewrite (H x) by set_solver. rewrite IH; [done|]. intros. apply H. set_solver.
Qed.

Lemma zsum_le f g l : (∀ x, x ∈ l → f x ≤ g x) → zsum f l ≤ zsum g l.
Proof.
  unfold zsum. induction l as [|x l IH]; intros H; simpl; [lia|].
  specialize (H x ltac:(set_solver)) as Hx. specialize (IH ltac:(set_solver)). lia.
Qed.

Lemma zsum_nonneg f l : (∀ x, x ∈ l → 0 ≤ f x) → 0 ≤ zsum f l.
Proof.
  intros H. transitivity (zsum (λ _ : A, 0) l); [|by apply zsum_le].
  clear. unfold zsum. induction l; simpl; lia.
Qed.

(** Changing the summand at one element of a duplicate-free list. *)
Lemma zsum_update f g l x :
  NoDup l → x ∈ l → (∀ y, y ∈ l → y ≠ x → g y = f y) →
  zsum g l = zsum f l + g x - f x.
Proof.
  intros Hnd Hx Hg. destruct (list_elem_of_split l x Hx) as (l1 & l2 & ->).
  assert (x ∉ l1 ∧ x ∉ l2) as [].
  { apply NoDup_app in Hnd as (_ & Hd & Hnd). apply NoDup_cons in Hnd as [? _]. set_solver. }
  rewrite !zsum_app. unfold zsum at 2 4. simpl. fold (zsum g l2) (zsum f l2).
  rewrite (zsum_ext g f l1) by set_solver. rewrite (zsum_ext g f l2) by set_solver. lia.
Qed.

Lemma zcount_bounds (p : A → bool) l : 0 ≤ zcount p l ≤ zlen l.
Proof.
  unfold zcount, zsum, zlen. induction l as [|x l IH]; simpl; [lia|]. destruct (p x); simpl; lia.
Qed.

Lemma zcount_zero (p : A → bool) l : zcount p l = 0 ↔ ∀ x, x ∈ l → p x = false.
Proof.
  induction l as [|x l IH]; [split; [set_solver|done]|].
  pose proof (zcount_bounds p l). unfold zcount, zsum in *. simpl.
  destruct (p x) eqn:E; simpl.
  - split; [lia|]. intros Hf. rewrite (Hf x) in E by set_solver. done.
  - rewrite Z.add_0_l, IH. split; intros Hf y; [|set_solver].
    intros [->|]%elem_of_cons; eauto.
Qed.

Lemma zcount_pos (p : A → bool) l : 0 < zcount p l ↔ ∃ x, x ∈ l ∧ p x = true.
Proof.
  split.
  - intros Hc. destruct (decide (Exists (λ x, p x = true) l)) as [He|He].
    + apply Exists_exists in He. naive_solver.
    + assert (zcount p l = 0) as ?; [|lia]. apply zcount_zero. intros x Hx.
      destruct (p x) eqn:E; [|done]. destruct He. apply Exists_exists. eauto.
  - intros (x & Hx & Hp). pose proof (zcount_bounds p l).
    destruct (decide (zcount p l = 0)) as [E|]; [|lia].
    apply zcount_zero with (x := x) in E; congruence.
Qed.

Lemma zsum_lt f g l x :
  (∀ y, y ∈ l → f y ≤ g y) → x ∈ l → f x < g x → zsum f l < zsum g l.
Proof.
  intros Hle Hx Hlt. destruct (list_elem_of_split l x Hx) as (l1 & l2 & ->).
  rewrite !zsum_app, !zsum_cons.
  assert (zsum f l1 ≤ zsum g l1) by (apply zsum_le; set_solver).
  assert (zsum f l2 ≤ zsum g l2) by (apply zsum_le; set_solver). lia.
Qed.

Lemma zcount_le (p q : A → bool) l :
  (∀ x, x ∈ l → q x = true → p x = true) → zcount q l ≤ zcount p l.
Proof.
  intros H. apply zsum_le. intros x Hx. specialize (H x Hx).
  destruct (q x), (p x); simpl; first [lia|by discriminate H].
Qed.

Lemma zcount_lt (p q : A → bool) l x :
  (∀ y, y ∈ l → q y = true → p y = true) → x ∈ l → p x = true → q x = false →
  zcount q l < zcount p l.
Proof.
  intros H Hx Hp Hq. apply (zsum_lt _ _ _ x); [|done|by rewrite Hp, Hq].
  intros y Hy. specialize (H y Hy). destruct (q y), (p y); simpl; first [lia|by discriminate H].
Qed.
Lemma zcount_disjoint (p q : A → bool) l :
  (∀ x, x ∈ l → p x = true → q x = false) → zcount p l + zcount q l ≤ zlen l.
Proof.
  unfold zcount, zsum, zlen. induction l as [|x l IH]; intros H; simpl; [lia|].
  specialize (IH ltac:(set_solver)). specialize (H x ltac:(set_solver)).
  destruct (p x), (q x); simpl; first [lia|naive_solver].
Qed.

Lemma zcount_negb (p : A → bool) l : zcount (λ x, negb (p x)) l = zlen l - zcount p l.
Proof.
  unfold zcount, zsum, zlen. induction l as [|x l IH]; simpl; [lia|]. destruct (p x); simpl; lia.
Qed.

Lemma zsum_const c l : zsum (λ _, c) l = c * Z.of_nat (length l).
Proof. unfold zsum. induction l; simpl; lia. Qed.
End sums.

Lemma zsum_fmap {A B} (f : B → Z) (h : A → B) l : zsum f (h <$> l) = zsum (λ x, f (h x)) l.
Proof. unfold zsum. induction l as [|x l IH]; [done|]. simpl. by rewrite <- IH. Qed.

(** A sum over a duplicate-free part of a duplicate-free list. *)
Lemma zsum_sublist (f : Z → Z) (l rs : list Z) :
  NoDup l → NoDup rs → (∀ x, x ∈ l → x ∈ rs) →
  zsum f l = zsum (λ x, if decide (x ∈ l) then f x else 0) rs.
Proof.
  intros Hl Hrs Hin.
  assert (Hp : rs ≡ₚ l ++ filter (λ x, x ∉ l) rs).
  { apply NoDup_Permutation; [done| |].
    - apply NoDup_app. split; [done|]. split; [|by apply NoDup_filter].
      intros x Hx. rewrite list_elem_of_filter. naive_solver.
    - intros x. rewrite elem_of_app, list_elem_of_filter.
      destruct (decide (x ∈ l)); naive_solver. }
  rewrite Hp, zsum_app. set (h := λ x : Z, if decide (x ∈ l) then f x else 0).
  rewrite (zsum_ext h f l) by (intros x Hx; unfold h; by rewrite decide_True).
  rewrite (zsum_ext h (λ _, 0) (filter _ _)); [rewrite zsum_const; lia|]. unfold h.
  intros x [Hx _]%list_elem_of_filter. by rewrite decide_False.
Qed.

(** ** Occurrences in a list of integers *)
Definition occ (w : Z) (l : list Z) : Z := zcount (λ x, bool_decide (x = w)) l.

Lemma occ_cons w x l : occ w (x :: l) = Z.b2z (bool_decide (x = w)) + occ w l.
Proof. done. Qed.
Lemma occ_app w l1 l2 : occ w (l1 ++ l2) = occ w l1 + occ w l2.
Proof. apply zsum_app. Qed.
Lemma occ_snoc w x l : occ w (l ++ [x]) = occ w l + Z.b2z (bool_decide (x = w)).
Proof. unfold occ, zcount. rewrite zsum_app, zsum_cons. unfold zsum at 2. simpl. lia. Qed.
Lemma occ_nonneg w l : 0 ≤ occ w l.
Proof. apply zcount_bounds. Qed.

Lemma occ_pos w l : 0 < occ w l ↔ w ∈ l.
Proof. unfold occ. rewrite zcount_pos. setoid_rewrite bool_decide_eq_true. naive_solver. Qed.

(** One element of the list replaced. *)
Lemma zsum_insert {A} (f : A → Z) (l : list A) i x y :
  l !! i = Some x → zsum f (<[i := y]> l) = zsum f l + f y - f x.
Proof.
  unfold zsum. revert i. induction l as [|z l IH]; intros [|i] Hi; simpl in *; simplify_eq; [lia|].
  rewrite (IH i) by done. lia.
Qed.

(** Counting the occurrences of all elements of a duplicate-free list. *)
Lemma zsum_occ l (R : list Z) :
  NoDup R → zsum (λ w, occ w l) R = zcount (λ x, bool_decide (x ∈ R)) l.
Proof.
  intros Hnd. induction l as [|x l IH].
  - unfold occ, zcount, zsum. simpl. clear. induction R; simpl; lia.
  - unfold zcount. rewrite zsum_cons. fold (zcount (λ x, bool_decide (x ∈ R)) l). rewrite <- IH.
    case_bool_decide as Hx.
    + rewrite (zsum_update (λ w, occ w l) _ R x); [|done|done|]; cbv beta.
      * rewrite occ_cons, bool_decide_eq_true_2 by done. simpl. lia.
      * intros y _ Hy. rewrite occ_cons, bool_decide_eq_false_2 by congruence. done.
    + apply zsum_ext. intros y Hy. rewrite occ_cons, bool_decide_eq_false_2; [done|].
      intros ->. done.
Qed.

(** ** Little-endian words in byte sequences *)
Fixpoint le_encode (n : nat) (z : Z) : list Z :=
  match n with O => [] | S n' => z mod 256 :: le_encode n' (z / 256) end.
Fixpoint le_decode (bs : list Z) : Z :=
  match bs with [] => 0 | b :: bs' => b + 256 * le_decode bs' end.

Lemma length_le_encode n z : length (le_encode n z) = n.
Proof. revert z. induction n as [|n IH]; intros z; simpl; [done|]. by rewrite IH. Qed.

Lemma le_decode_encode n z : 0 ≤ z < 256 ^ Z.of_nat n → le_decode (le_encode n z) = z.
Proof.
  revert z. induction n as [|n IH]; intros z Hz; simpl.
  - change (256 ^ Z.of_nat 0) with 1 in Hz. lia.
  - rewrite IH.
    + pose proof (Z.div_mod z 256). lia.
    + rewrite Nat2Z.inj_succ, Z.pow_succ_r in Hz by lia.
      split; [apply Z.div_pos; lia|apply Z.div_lt_upper_bound; lia].
Qed.
#[global] Arguments le_encode : simpl never.
#[export] Hint Rewrite length_le_encode : famr.

(** [words n bs]: the byte sequence cut into [n]-byte little-endian words. *)
Definition le_words (n : nat) (zs : list Z) : list Z := zs ≫= le_encode n.

Lemma length_le_words n zs : length (le_words n zs) = (n * length zs)%nat.
Proof.
  unfold le_words. induction zs as [|z zs IH]; [simpl; lia|].
  rewrite bind_cons, length_app, length_le_encode, IH. simpl. lia.
Qed.
