(* ===== verification/Interleaving.v ===== *)
(** * Interleaving: worker threads that share memory

    A worker is a resumable program, a tree of atomic operations on the shared
    state; a round of a kernel runs a list of them, one operation of one worker at
    a time in any order ([advance]).  [par_ends] is the proof rule for a round:
    every worker has a ghost value of its own, an invariant ties the shared state
    to the ghost values of all of them, and every operation of a worker keeps it
    and changes no ghost value but its own.  [ends] says of a machine that
    alternates such rounds with sequential code that all its executions are finite,
    free of faults and end as they should. *)

From S2P Require Import Prelude.

(** ** Programs *)
Inductive prog (S A : Type) : Type :=
  | Ret (a : A)
  | Act {X : Type} (op : S → result (S * X)) (k : X → prog S A).
Arguments Ret {S A} a.
Arguments Act {S A X} op k.

#[export] Instance prog_ret {S} : MRet (prog S) := λ A a, Ret a.
#[export] Instance prog_bind {S} : MBind (prog S) := λ A B f,
  fix go (p : prog S A) : prog S B :=
    match p with Ret a => f a | Act op k => Act op (λ x, go (k x)) end.

(** One atomic operation. *)
Definition atomically {S A} (op : S → result (S * A)) : prog S A := Act op Ret.

Fixpoint each {S A} (l : list A) (f : A → prog S unit) : prog S unit :=
  match l with [] => Ret () | x :: l => f x ≫= λ _, each l f end.

(** A program that is not interrupted. *)
Fixpoint run {S A} (p : prog S A) (s : S) : result (S * A) :=
  match p with
  | Ret a => Ok (s, a)
  | Act op k => '(s, x) ← op s; run (k x) s
  end.

Lemma run_bind {S A B} (p : prog S A) (f : A → prog S B) s :
  run (p ≫= f) s = ('(s, a) ← run p s; run (f a) s).
Proof.
  revert s. induction p as [a|X op k IH]; intros s; [done|]. cbn.
  destruct (op s) as [[s' x]|]; [|done]. cbn. apply IH.
Qed.

Lemma run_each {S A} (l : list A) (f : A → prog S unit) s :
  run (each l f) s = ((λ s, (s, ())) <$> forM l (λ x s, fst <$> run (f x) s) s).
Proof.
  revert s. induction l as [|x l IH]; intros s; [done|]. cbn [each forM]. rewrite run_bind.
  destruct (run (f x) s) as [[s' []]|]; [|done]. cbn. apply IH.
Qed.

(** ** Rounds *)
Record cfg (S : Type) := Cfg { shared : S; workers : list (prog S unit) }.
Arguments Cfg {S} shared workers.
Arguments shared {S} c.
Arguments workers {S} c.

Definition busy {S A} (p : prog S A) : bool := match p with Ret _ => false | Act _ _ => true end.
Definition finished {S} (c : cfg S) : bool := forallb (λ p, negb (busy p)) (workers c).

(** The next operation of worker [i]. *)
Definition advance {S} (i : nat) (c : cfg S) : result (cfg S) :=
  match workers c !! i with
  | Some (Act op k) => '(s, x) ← op (shared c); Ok (Cfg s (<[i := k x]> (workers c)))
  | _ => Ok c
  end.

(** The operations of a round in the order of a schedule. *)
Definition interleave {S} (schedule : list nat) (c : cfg S) : result (cfg S) :=
  forM schedule advance c.

Lemma finished_idle {S} (c : cfg S) i p :
  finished c = true → workers c !! i = Some p → busy p = false.
Proof.
  unfold finished. rewrite forallb_forall. intros Hf Hi. apply negb_true_iff, Hf, list_elem_of_In.
  by eapply list_elem_of_lookup_2.
Qed.

Lemma unfinished_busy {S} (c : cfg S) :
  finished c = false → ∃ i p, workers c !! i = Some p ∧ busy p = true.
Proof.
  unfold finished. intros Hf. apply not_true_iff_false in Hf. rewrite forallb_forall in Hf.
  destruct (decide (Exists (λ p, busy p = true) (workers c))) as [He|Hno].
  - apply Exists_exists in He as (p & Hp & Hb). apply list_elem_of_lookup in Hp as [i Hi]. by exists i, p.
  - destruct Hf. intros p Hp%list_elem_of_In. destruct (busy p) eqn:E; [|done].
    destruct Hno. apply Exists_exists. by exists p.
Qed.

(** All executions of a round are finite, free of faults and establish [Q]. *)
Inductive round_ends {S} (Q : S → Prop) : cfg S → Prop :=
  | round_done c : finished c = true → Q (shared c) → round_ends Q c
  | round_step c : finished c = false →
      (∀ i p, workers c !! i = Some p → busy p = true → is_ok (advance i c) = true) →
      (∀ i p c', workers c !! i = Some p → busy p = true → advance i c = Ok c' → round_ends Q c') →
      round_ends Q c.

Lemma round_ends_mono {S} (P Q : S → Prop) c :
  (∀ s, P s → Q s) → round_ends P c → round_ends Q c.
Proof.
  intros HPQ. induction 1 as [c Hf HP|c Hf Hok _ IH]; [apply round_done; auto|by apply round_step].
Qed.

(** Whatever the schedule, no operation faults, and once all workers are done [Q]
    holds. *)
Theorem round_adequate {S} (Q : S → Prop) schedule c :
  round_ends Q c → ∃ c', interleave schedule c = Ok c' ∧ (finished c' = true → Q (shared c')).
Proof.
  unfold interleave. revert c. induction schedule as [|i l IH]; intros c Hc; cbn [forM].
  - exists c. split; [done|]. intros Hf. destruct Hc; [done|congruence].
  - destruct (advance i c) as [c1|f] eqn:E.
    + apply (IH c1). destruct (workers c !! i) as [p|] eqn:Hi.
      * destruct Hc as [c Hf HQ|c Hf Hok Hnext].
        -- assert (c1 = c) as ->; [|by apply round_done]. pose proof (finished_idle _ _ _ Hf Hi).
           unfold advance in E. rewrite Hi in E. destruct p; [congruence|done].
        -- destruct (busy p) eqn:Hb; [by eapply Hnext|]. unfold advance in E. rewrite Hi in E.
           destruct p; [|done]. injection E as <-. by apply round_step.
      * unfold advance in E. rewrite Hi in E. by injection E as <-.
    + exfalso. destruct (workers c !! i) as [[|X op k]|] eqn:Hi; [by unfold advance in E; rewrite Hi in E| |by unfold advance in E; rewrite Hi in E].
      destruct Hc as [c Hf HQ|c Hf Hok Hnext].
      * by pose proof (finished_idle _ _ _ Hf Hi).
      * specialize (Hok i _ Hi eq_refl). by rewrite E in Hok.
Qed.

(** Programs get smaller. *)
Definition child {S A} (p' p : prog S A) : Prop :=
  match p with Ret _ => False | @Act _ _ X _ k => ∃ x : X, p' = k x end.

Lemma child_wf {S A} (p : prog S A) : Acc child p.
Proof.
  induction p as [a|X op k IH]; constructor; intros p' Hp; cbn in Hp; [done|].
  destruct Hp as [x ->]. apply IH.
Qed.

Definition children {S A} (l' l : list (prog S A)) : Prop :=
  ∃ i p p', l !! i = Some p ∧ child p' p ∧ l' = <[i := p']> l.

Lemma children_wf {S A} (l : list (prog S A)) : Acc children l.
Proof.
  induction l as [|p l IH].
  { constructor. intros l' (i & p & p' & Hi & _). by rewrite lookup_nil in Hi. }
  revert l IH. induction (child_wf p) as [p _ IHp]. intros l Hl.
  induction Hl as [l Hacc IHl]. constructor.
  intros l' ([|i] & q & q' & Hi & Hc & ->); cbn in *.
  - simplify_eq. apply IHp; [done|]. by constructor.
  - apply IHl. by exists i, q, q'.
Qed.

(** ** The proof rule *)
Section logic.
  Context {S L : Type} (I : S → list L → Prop).

(** Worker [i] with ghost value [g] can run [p] to the end, and then [Q] holds of
    its ghost value and result. *)
Fixpoint safe {A} (i : nat) (g : L) (p : prog S A) (Q : L → A → Prop) : Prop :=
  match p with
  | Ret a => Q g a
  | Act op k => ∀ s ls, I s ls → ls !! i = Some g →
      ∃ s' x g', op s = Ok (s', x) ∧ I s' (<[i := g']> ls) ∧ safe i g' (k x) Q
  end.

Lemma safe_bind {A B} i g (p : prog S A) (f : A → prog S B) Q :
  safe i g p (λ g' a, safe i g' (f a) Q) → safe i g (p ≫= f) Q.
Proof.
  revert g. induction p as [a|X op k IH]; intros g Hp; [done|]. intros s ls HI Hg.
  destruct (Hp s ls HI Hg) as (s' & x & g' & E & HI' & Hk). exists s', x, g'.
  split; [done|]. split; [done|]. by apply IH.
Qed.

Lemma safe_mono {A} i g (p : prog S A) (Q Q' : L → A → Prop) :
  (∀ g a, Q g a → Q' g a) → safe i g p Q → safe i g p Q'.
Proof.
  intros HQ. revert g. induction p as [a|X op k IH]; intros g Hp; [by apply HQ|].
  intros s ls HI Hg. destruct (Hp s ls HI Hg) as (s' & x & g' & E & HI' & Hk). naive_solver.
Qed.

(** A loop, with the ghost value as a function of the elements done. *)
Lemma safe_each {A} i (l : list A) (f : A → prog S unit) (g : list A → L) :
  (∀ pre x suf, l = pre ++ x :: suf → safe i (g pre) (f x) (λ g' _, g' = g (pre ++ [x]))) →
  safe i (g []) (each l f) (λ g' _, g' = g l).
Proof.
  intros Hf.
  cut (∀ suf pre, l = pre ++ suf → safe i (g pre) (each suf f) (λ g' _, g' = g l));
    [intros H; by apply H|].
  induction suf as [|x suf IH]; intros pre Hl; [cbn; by rewrite app_nil_r in Hl; subst|].
  cbn [each]. apply safe_bind. eapply safe_mono; [|by eapply Hf].
  intros g' [] ->. apply IH. by rewrite Hl, <- app_assoc.
Qed.

(** All workers of a round. *)
Theorem par_ends (Q : S → Prop) (fin : nat → L → Prop) s ls ts :
  I s ls → length ls = length ts →
  (∀ i p, ts !! i = Some p → ∃ g, ls !! i = Some g ∧ safe i g p (λ g' _, fin i g')) →
  (∀ s ls', I s ls' → length ls' = length ls → (∀ i g, ls' !! i = Some g → fin i g) → Q s) →
  round_ends Q (Cfg s ts).
Proof.
  intros HI Hlen Hts HQ. revert s ls HI Hlen Hts HQ.
  induction (children_wf ts) as [ts _ IH]. intros s ls HI Hlen Hts HQ.
  destruct (finished (Cfg s ts)) eqn:Ef.
  - apply round_done; [done|]. apply (HQ s ls); [done|done|]. intros i g Hg.
    assert (is_Some (ts !! i)) as [p Hp].
    { apply lookup_lt_is_Some. rewrite <- Hlen. by eapply lookup_lt_Some. }
    destruct (Hts i p Hp) as (g' & Hg' & Hsafe). simplify_eq.
    pose proof (finished_idle _ i p Ef Hp). by destruct p.
  - assert (Hadv : ∀ i X (op : S → result (S * X)) k, ts !! i = Some (Act op k) →
        ∃ s' x ls', advance i (Cfg s ts) = Ok (Cfg s' (<[i := k x]> ts)) ∧ I s' ls'
          ∧ ∃ g g', ls !! i = Some g ∧ ls' = <[i := g']> ls ∧ safe i g' (k x) (λ g' _, fin i g')).
    { intros i X op k Hp. destruct (Hts i _ Hp) as (g & Hg & Hsafe).
      destruct (Hsafe s ls HI Hg) as (s' & x & g' & E & HI' & Hk).
      exists s', x, (<[i := g']> ls). split; [|by eauto 6].
      unfold advance. cbn [workers shared]. by rewrite Hp, E. }
    apply round_step; [done| |].
    { intros i [|X op k] Hp Hb; [done|]. destruct (Hadv i X op k Hp) as (? & ? & ? & -> & _). done. }
    intros i [|X op k] c' Hp Hb Ec; [done|]. cbn [workers] in Hp.
    destruct (Hadv i X op k Hp) as (s' & x & ? & E & HI' & g & g' & Hg & -> & Hk).
    rewrite E in Ec. injection Ec as <-. apply (IH (<[i := k x]> ts)) with (ls := <[i := g']> ls); [|done| | |].
    + exists i, (Act op k), (k x). split; [done|]. split; [by exists x|done].
    + by rewrite !length_insert.
    + intros j q Hq. destruct (decide (i = j)) as [<-|Hne].
      * rewrite list_lookup_insert_eq in Hq by (by eapply lookup_lt_Some). simplify_eq.
        exists g'. split; [|done]. apply list_lookup_insert_eq. by eapply lookup_lt_Some.
      * rewrite list_lookup_insert_ne in Hq by done. rewrite list_lookup_insert_ne by done.
        by apply Hts.
    + intros s1 ls1 HI1 Hl1. rewrite length_insert in Hl1. by apply HQ.
Qed.
End logic.

(** ** Machines

    A kernel in state [k] ends when [stop k]; otherwise the engine hands the work
    of a round to workers in one of the ways [tasks] allows, they run interleaved
    on the state [open k], and [close] is the sequential code after the round. *)
Section machine.
  Context {K S : Type} (stop : K → bool) (tasks : K → list (prog S unit) → Prop).
  Context (open : K → S) (close : K → S → result K).

Inductive mstate := Head (k : K) | Round (k : K) (c : cfg S).

Inductive mstep : mstate → result mstate → Prop :=
  | step_open k ts : stop k = false → tasks k ts → mstep (Head k) (Ok (Round k (Cfg (open k) ts)))
  | step_work k c i p : workers c !! i = Some p → busy p = true →
      mstep (Round k c) (Round k <$> advance i c)
  | step_close k c : finished c = true → mstep (Round k c) (Head <$> close k (shared c)).

Definition at_head (V : K → Prop) (m : mstate) : Prop :=
  match m with Head k => V k | Round _ _ => True end.

(** Every execution from a state ends, without a fault, in a head with [Q], and all
    heads on the way have [V]. *)
Inductive ends_in (V Q : K → Prop) : mstate → Prop :=
  | ends_stop k : V k → stop k = true → Q k → ends_in V Q (Head k)
  | ends_step m : at_head V m → (∃ r, mstep m r) → (∀ r, mstep m r → is_ok r = true) →
      (∀ m', mstep m (Ok m') → ends_in V Q m') → ends_in V Q m.

Definition ends : (K → Prop) → mstate → Prop := ends_in (λ _, True).

Lemma ends_in_mono (V V' : K → Prop) Q m :
  (∀ k, V k → V' k) → ends_in V Q m → ends_in V' Q m.
Proof.
  intros HV. induction 1 as [k Hv Hs HQ|m Hv Hex Hok _ IH]; [by apply ends_stop; auto|].
  apply ends_step; [destruct m; cbn in *; auto|done..].
Qed.

Lemma ends_in_impl (V Q Q' : K → Prop) m : (∀ k, Q k → Q' k) → ends_in V Q m → ends_in V Q' m.
Proof.
  intros HQ. induction 1 as [k Hv Hs Hk|m Hv Hex Hok _ IH]; [by apply ends_stop; auto|].
  by apply ends_step.
Qed.

(** What that means for the steps themselves. *)
Definition next (m' m : mstate) : Prop := mstep m (Ok m').
Definition reachable (m m' : mstate) : Prop := rtc (λ a b, next b a) m m'.

Lemma ends_reachable V Q m m' : ends_in V Q m → reachable m m' → ends_in V Q m'.
Proof.
  intros Hm Hr. revert Hm. induction Hr as [m|m m1 m' Hn Hr IH]; [done|]. intros Hm. apply IH.
  destruct Hm as [k _ Hs HQ|m _ _ _ Hall]; [inversion Hn; congruence|by apply Hall].
Qed.

Theorem ends_adequate Q m :
  ends Q m →
  Acc next m
  ∧ ∀ m', reachable m m' →
      (∀ f, ¬ mstep m' (Fault f)) ∧ ((∀ r, ¬ mstep m' r) → ∃ k, m' = Head k ∧ Q k).
Proof.
  intros Hm. split.
  - induction Hm as [k _ Hs HQ|m _ _ _ _ IH]; constructor; intros m' Hn; [|by apply IH].
    unfold next in Hn. inversion Hn; congruence.
  - intros m' Hr. pose proof (ends_reachable _ Q m m' Hm Hr) as [k _ Hs HQ|m1 _ [r Hr1] Hok _].
    + split; [intros f Hf; inversion Hf|by eauto].
    + split; [intros f Hf; by apply Hok in Hf|]. intros Hno. by destruct (Hno r).
Qed.

Lemma round_inv_step k c r :
  mstep (Round k c) r →
  (∃ i p, workers c !! i = Some p ∧ busy p = true ∧ r = Round k <$> advance i c)
  ∨ finished c = true ∧ r = Head <$> close k (shared c).
Proof. inversion 1; subst; [left; eauto|by right]. Qed.

(** A round that ends well, then what follows. *)
Lemma ends_round V Q k c (P : S → Prop) :
  round_ends P c → (∀ s, P s → ∃ k', close k s = Ok k' ∧ ends_in V Q (Head k')) →
  ends_in V Q (Round k c).
Proof.
  intros Hc HP. induction Hc as [c Hf HPc|c Hf Hok _ IH].
  - destruct (HP _ HPc) as (k' & E & Hk').
    assert (Hstep : ∀ r, mstep (Round k c) r → r = Ok (Head k')).
    { intros r [(i & p & Hi & Hb & _)|[_ ->]]%round_inv_step; [|by rewrite E].
      by rewrite (finished_idle c i p) in Hb. }
    apply ends_step; [done|eexists; by apply step_close| |].
    + intros r Hr. by rewrite (Hstep r Hr).
    + intros m' Hr. by injection (Hstep _ Hr) as ->.
  - apply ends_step; [done|..].
    + destruct (unfinished_busy c Hf) as (i & p & Hi & Hb). eexists. by eapply step_work.
    + intros r [(i & p & Hi & Hb & ->)|[? _]]%round_inv_step; [|congruence].
      specialize (Hok i p Hi Hb). by destruct (advance i c).
    + intros m' [(i & p & Hi & Hb & E)|[? _]]%round_inv_step; [|congruence].
      destruct (advance i c) as [c'|] eqn:Ea; [|done]. injection E as ->. by eapply IH.
Qed.

(** Rounds that keep an invariant and decrease a measure. *)
Theorem machine_ends (Inv : nat → K → Prop) Q m k :
  (∀ m k, Inv m k → stop k = true → Q k) →
  (∀ m k, Inv m k → stop k = false → (∃ ts, tasks k ts)
     ∧ ∀ ts, tasks k ts →
         round_ends (λ s, ∃ m' k', close k s = Ok k' ∧ Inv m' k' ∧ (m' < m)%nat) (Cfg (open k) ts)) →
  Inv m k → ends_in (λ k, ∃ m, Inv m k) Q (Head k).
Proof.
  intros HQ Hround. revert k. induction (lt_wf m) as [m _ IH]. intros k Hk.
  destruct (stop k) eqn:Es; [apply ends_stop; by eauto|].
  destruct (Hround m k Hk Es) as [[ts Hts] Hends]. apply ends_step; [by exists m|..].
  - eexists. by apply (step_open k ts).
  - intros r Hr. by inversion Hr.
  - intros m' Hr. inversion Hr as [k0 ts' _ Hts'| |]; subst.
    eapply ends_round; [by apply Hends|]. cbv beta. intros s (m1 & k' & E & Hk' & Hlt).
    exists k'. split; [done|]. by eapply IH.
Qed.
End machine.
