(* ===== verification/Hiding.v ===== *)
(** * Hiding: programs that do the work of another program

    A worker of the engine does the operations of a kernel on the kernel's state,
    and between them operations of its own on the state of the engine.  [hides] says
    that a program does the operations of another one in their order, and that
    what it does besides leaves the kernel's state alone, keeps an invariant of the
    rest and changes no ghost value but the worker's own.  [hidden_ends] carries a
    theorem about all executions of the kernel over to the programs of the engine. *)

From S2P Require Import Prelude Interleaving.

(** A program on a part of the state. *)
Fixpoint lift {E U A} (q : prog U A) : prog (E * U) A :=
  match q with
  | Ret a => Ret a
  | Act op k => Act (λ s, '(u, x) ← op s.2; Ok ((s.1, u), x)) (λ x, lift (k x))
  end.

Definition on_engine {E U A} (op : E → result (E * A)) : prog (E * U) A :=
  atomically (λ s, '(e, a) ← op s.1; Ok ((e, s.2), a)).

(** A result that does not depend on the state. *)
Definition of_result {S A} (r : result A) : prog S A :=
  match r with Ok a => Ret a | Fault f => atomically (λ _, Fault f) end.

(** [loopM] and [forM] with a program as their body. *)
Fixpoint loop_c {S A B} (fuel : nat) (step : A → prog S (A + B)) (a : A) : prog S B :=
  match fuel with
  | O => of_result (Fault OutOfFuel)
  | S fuel => r ← step a; match r with inl a => loop_c fuel step a | inr b => mret b end
  end.

Fixpoint fold_c {S A B} (l : list A) (f : A → B → prog S B) (b : B) : prog S B :=
  match l with [] => mret b | x :: l => b ← f x b; fold_c l f b end.

(** The vertices [vs] one after the other, then [q]. *)
Fixpoint each_then {S A B} (vs : list A) (push : A → prog S unit) (q : prog S B) : prog S B :=
  match vs with [] => q | v :: vs => push v ≫= λ _, each_then vs push q end.

Lemma each_then_ret {S A} (vs : list A) (push : A → prog S unit) :
  each_then vs push (Ret ()) = each vs push.
Proof. induction vs as [|v vs IH]; [done|]. cbn [each_then each]. by rewrite IH. Qed.

Lemma each_then_app {S A B} vs1 vs2 (push : A → prog S unit) (q : prog S B) :
  each_then (vs1 ++ vs2) push q = each_then vs1 push (each_then vs2 push q).
Proof. induction vs1 as [|v vs IH]; [done|]. cbn [each_then app]. by rewrite IH. Qed.

(** What a program may return. *)
Fixpoint returns {S A} (r : prog S A) (a : A) : Prop :=
  match r with Ret b => b = a | @Act _ _ X _ k => ∃ x : X, returns (k x) a end.

(** ** The relation *)
Section hiding.
  Context {E U L : Type} (Inv : E → list L → Prop).

(** Worker [i] with ghost value [g] runs [p], which does the operations of [q]; when
    it returns, [Q] holds of the ghost value, the result and the rest of [q]. *)
Fixpoint hides {A B} (i : nat) (g : L) (p : prog (E * U) A) (q : prog U B)
    (Q : L → A → prog U B → Prop) : Prop :=
  match p with
  | Ret a => Q g a q
  | @Act _ _ X op k =>
      (∀ e ls, Inv e ls → ls !! i = Some g → ∃ e' x g',
         (∀ u, op (e, u) = Ok ((e', u), x)) ∧ Inv e' (<[i:=g']> ls) ∧ hides i g' (k x) q Q)
      ∨ match q with
        | Ret _ => False
        | @Act _ _ Y opq kq => ∃ conv : Y → X,
            (∀ e u, op (e, u) = ('(u, y) ← opq u; Ok ((e, u), conv y)))
            ∧ ∀ y, hides i g (k (conv y)) (kq y) Q
        end
  end.

Lemma hides_mono {A B} i g (p : prog (E * U) A) (q : prog U B) (Q Q' : L → A → prog U B → Prop) :
  (∀ g a q, Q g a q → Q' g a q) → hides i g p q Q → hides i g p q Q'.
Proof.
  intros HQ. revert g q. induction p as [a|X op k IH]; intros g q; [apply HQ|].
  intros [Hp|Hk]; [left|right].
  - intros e ls HI Hg. destruct (Hp e ls HI Hg) as (e' & x & g' & ? & ? & ?). eauto 8.
  - destruct q as [|Y opq kq]; [done|]. destruct Hk as (conv & ? & ?). eauto.
Qed.

Lemma hides_bind {A A' B} i g (p : prog (E * U) A) (f : A → prog (E * U) A') (q : prog U B) Q :
  hides i g p q (λ g' a q', hides i g' (f a) q' Q) → hides i g (p ≫= f) q Q.
Proof.
  revert g q. induction p as [a|X op k IH]; intros g q; [done|].
  intros [Hp|Hk]; [left|right].
  - intros e ls HI Hg. destruct (Hp e ls HI Hg) as (e' & x & g' & ? & ? & ?). eauto 8.
  - destruct q as [|Y opq kq]; [done|]. destruct Hk as (conv & ? & ?). eauto.
Qed.

(** A program that does the operations of [r] and returns what [r] returns. *)
Definition performs {A} (i : nat) (g : L) (p : prog (E * U) A) (r : prog U A) (g' : L) : Prop :=
  hides i g p r (λ g1 a r', g1 = g' ∧ r' = Ret a).

Lemma performs_then {A B} i g (p : prog (E * U) A) (r : prog U A) g' (s : A → prog U B) Q :
  performs i g p r g' → (∀ a, returns r a → Q g' a (s a)) → hides i g p (r ≫= s) Q.
Proof.
  unfold performs. revert g r. induction p as [a|X op k IH]; intros g r.
  { intros [-> ->] HQ. by apply HQ. }
  intros [Hp|Hk] HQ; [left|right].
  - intros e ls HI Hg. destruct (Hp e ls HI Hg) as (e' & x & g1 & ? & ? & ?). eauto 8.
  - destruct r as [|Y opq kq]; [done|]. destruct Hk as (conv & ? & Hk). exists conv.
    split; [done|]. intros y. apply IH; [apply Hk|]. intros a Ha. apply HQ. by exists y.
Qed.

Lemma performs_bind {A B} i g (p : prog (E * U) A) (f : A → prog (E * U) B) (r : prog U A) s g1 g2 :
  performs i g p r g1 → (∀ a, returns r a → performs i g1 (f a) (s a) g2) →
  performs i g (p ≫= f) (r ≫= s) g2.
Proof. intros Hp Hf. apply hides_bind. by eapply performs_then. Qed.

Lemma performs_lift {A} i g (r : prog U A) : performs i g (lift r) r g.
Proof.
  unfold performs. induction r as [a|X op k IH]; [done|]. right. by exists id.
Qed.

(** A step of the worker's own. *)
Lemma performs_own {A} i g (op : E → result (E * A)) a g' :
  (∀ e ls, Inv e ls → ls !! i = Some g → ∃ e', op e = Ok (e', a) ∧ Inv e' (<[i:=g']> ls)) →
  performs i g (on_engine op) (Ret a) g'.
Proof.
  intros Hop. left. intros e ls HI Hg. destruct (Hop e ls HI Hg) as (e' & E' & HI').
  exists e', a, g'. cbn. by rewrite E'.
Qed.

Lemma performs_result {A} i g (r : result A) a :
  r = Ok a → performs i g (of_result r) (Ret a) g.
Proof. intros ->. done. Qed.

Lemma performs_each {A} i g (l : list A) f h :
  (∀ x, x ∈ l → performs i g (f x) (h x) g) → performs i g (each l f) (each l h) g.
Proof.
  induction l as [|x l IH]; intros Hf; [done|]. cbn [each]. eapply performs_bind; [by apply Hf; left|].
  intros [] _. apply IH. intros y Hy. apply Hf. by right.
Qed.

(** ** Calls of a function *)
Section calls.
Context (push : nat → Z → prog U unit).

(** Worker [i] runs [p], calls the function on [vs] and returns [a]. *)
Definition calls {A} (i : nat) (g : L) (p : prog (E * U) A) (vs : list Z) (g' : L) (a : A) : Prop :=
  ∀ (q : prog U unit) Q, Q g' a q → hides i g p (each_then vs (push i) q) Q.

Lemma calls_ret {A} i g (a : A) : calls i g (mret a) [] g a.
Proof. by intros q Q HQ. Qed.

Lemma calls_bind {A B} i g (p : prog (E * U) A) (f : A → prog (E * U) B) vs1 vs2 g1 g2 a b :
  calls i g p vs1 g1 a → calls i g1 (f a) vs2 g2 b → calls i g (p ≫= f) (vs1 ++ vs2) g2 b.
Proof.
  intros Hp Hf q Q HQ. rewrite each_then_app. apply hides_bind. apply Hp. by apply Hf.
Qed.

Lemma calls_before {A B} i g (p : prog (E * U) A) (f : A → prog (E * U) B) vs g1 g2 a b :
  calls i g p vs g1 a → calls i g1 (f a) [] g2 b → calls i g (p ≫= f) vs g2 b.
Proof. intros Hp Hf. rewrite <- (app_nil_r vs). by eapply calls_bind. Qed.

(** A step without a call, then what follows. *)
Lemma calls_after {A B} i g (p : prog (E * U) A) (f : A → prog (E * U) B) vs g1 g2 a b :
  performs i g p (Ret a) g1 → calls i g1 (f a) vs g2 b → calls i g (p ≫= f) vs g2 b.
Proof.
  intros Hp Hf q Q HQ. apply hides_bind.
  change (each_then vs (push i) q) with (Ret a ≫= λ _ : A, each_then vs (push i) q).
  eapply performs_then; [exact Hp|]. intros a' [= <-]. by apply Hf.
Qed.

Lemma calls_result {A B} i g (r : result A) (f : A → prog (E * U) B) vs g2 a b :
  r = Ok a → calls i g (f a) vs g2 b → calls i g (of_result r ≫= f) vs g2 b.
Proof. intros ->. done. Qed.

Lemma calls_push i g p v g' :
  performs i g p (push i v) g' → calls i g p [v] g' ().
Proof. intros Hp q Q HQ. cbn. eapply performs_then; [exact Hp|]. by intros [] _. Qed.

Lemma calls_fold {A B} i (l : list A) f (G : list A → L) (b : list A → B) (vs : A → list Z) :
  (∀ pre x suf, l = pre ++ x :: suf →
     calls i (G pre) (f x (b pre)) (vs x) (G (pre ++ [x])) (b (pre ++ [x]))) →
  calls i (G []) (fold_c l f (b [])) (l ≫= vs) (G l) (b l).
Proof.
  intros Hf.
  cut (∀ suf pre, l = pre ++ suf → calls i (G pre) (fold_c suf f (b pre)) (suf ≫= vs) (G l) (b l));
    [intros H; by apply H|].
  induction suf as [|x suf IH]; intros pre Hl.
  { rewrite app_nil_r in Hl. subst pre. apply calls_ret. }
  cbn [fold_c]. rewrite bind_cons. eapply calls_bind; [by eapply Hf|]. apply IH.
  by rewrite Hl, <- app_assoc.
Qed.
(** A loop that follows a loop without interruption: [R] and [RB] relate their
    states and results, [trA] and [trB] are the vertices called so far. *)
Lemma calls_loop {A A' B B'} i (step : A → result (A + B)) (step_c : A' → prog (E * U) (A' + B'))
    (R : A → A' → L → Prop) (RB : B → B' → L → Prop) (trA : A → list Z) (trB : B → list Z) :
  (∀ s s' g r, R s s' g → step s = Ok r → match r with
     | inl s1 => ∃ vs g1 s1', trA s1 = trA s ++ vs ∧ R s1 s1' g1 ∧ calls i g (step_c s') vs g1 (inl s1')
     | inr b => ∃ vs g1 b', trB b = trA s ++ vs ∧ RB b b' g1 ∧ calls i g (step_c s') vs g1 (inr b')
     end) →
  ∀ fuel s s' g b, R s s' g → loopM fuel step s = Ok b →
  ∃ vs g1 b', trB b = trA s ++ vs ∧ RB b b' g1 ∧ calls i g (loop_c fuel step_c s') vs g1 b'.
Proof.
  intros Hstep. induction fuel as [|fuel IH]; intros s s' g b HR Hl; [done|]. cbn [loopM] in Hl.
  apply bind_ok_inv in Hl as (r & Er & Hl). specialize (Hstep s s' g r HR Er).
  destruct r as [s1|b1].
  - destruct Hstep as (vs & g1 & s1' & E1 & HR1 & Hc).
    destruct (IH _ _ _ _ HR1 Hl) as (vs2 & g2 & b' & E2 & HB & Hc2).
    exists (vs ++ vs2), g2, b'. rewrite E2, E1, <- app_assoc. split; [done|]. split; [done|].
    cbn [loop_c]. eapply calls_bind; [exact Hc|exact Hc2].
  - injection Hl as <-. destruct Hstep as (vs & g1 & b' & E1 & HB & Hc).
    exists vs, g1, b'. split; [done|]. split; [done|]. cbn [loop_c].
    eapply calls_before; [exact Hc|]. apply calls_ret.
Qed.
End calls.

(** ** Rounds and machines *)

(** Every worker of a round does the work of a kernel worker. *)
Definition hidden (fin : nat → L → Prop) (e : E) (ps : list (prog (E * U) unit))
    (qs : list (prog U unit)) : Prop :=
  ∃ ls, Inv e ls ∧ length ls = length ps ∧ length qs = length ps
    ∧ ∀ i p, ps !! i = Some p → ∃ g q, ls !! i = Some g ∧ qs !! i = Some q
        ∧ hides i g p q (λ g' _ q', busy q' = false ∧ fin i g').

(** A step of worker [i] is a step of its own or one of the kernel. *)
Lemma hidden_step fin e u ps qs i X op (k : X → prog (E * U) unit) :
  hidden fin e ps qs → ps !! i = Some (Act op k) →
  (∃ e' x, op (e, u) = Ok ((e', u), x) ∧ hidden fin e' (<[i:=k x]> ps) qs)
  ∨ (∃ Y opq (kq : Y → prog U unit) conv, qs !! i = Some (Act opq kq)
      ∧ op (e, u) = ('(u, y) ← opq u; Ok ((e, u), conv y))
      ∧ ∀ y, hidden fin e (<[i:=k (conv y)]> ps) (<[i:=kq y]> qs)).
Proof.
  intros (ls & HI & Hl & Hq & Hall) Hp. destruct (Hall i _ Hp) as (g & q & Hg & Hqi & Hh).
  assert (Hi : (i < length ps)%nat) by (by eapply lookup_lt_Some).
  destruct Hh as [Hown|Hk].
  - left. destruct (Hown e ls HI Hg) as (e' & x & g' & Eop & HI' & Hh). exists e', x.
    split; [apply Eop|]. exists (<[i:=g']> ls). rewrite !length_insert. do 3 (split; [done|]).
    intros j p' [(<- & <- & _)|[Hne Hj]]%list_lookup_insert_Some.
    + exists g', q. by rewrite list_lookup_insert_eq by lia.
    + rewrite list_lookup_insert_ne by done. by apply Hall.
  - right. destruct q as [|Y opq kq]; [done|]. destruct Hk as (conv & Eop & Hh).
    exists Y, opq, kq, conv. split; [done|]. split; [apply Eop|]. intros y. exists ls.
    rewrite !length_insert. do 3 (split; [done|]).
    intros j p' [(<- & <- & _)|[Hne Hj]]%list_lookup_insert_Some.
    + exists g, (kq y). by rewrite list_lookup_insert_eq by lia.
    + rewrite list_lookup_insert_ne by done. by apply Hall.
Qed.

Lemma hidden_finished fin e e1 u u1 ps qs :
  hidden fin e ps qs → finished (Cfg (e1, u1) ps) = true →
  finished (Cfg u qs) = true ∧ ∃ ls, Inv e ls ∧ length ls = length ps ∧ ∀ i g, ls !! i = Some g → fin i g.
Proof.
  intros (ls & HI & Hl & Hq & Hall) Hf.
  assert (Hret : ∀ i p g, ps !! i = Some p → ls !! i = Some g →
      fin i g ∧ ∃ q, qs !! i = Some q ∧ busy q = false).
  { intros i p g Hp Hg. destruct (Hall i p Hp) as (g' & q & Hg' & Hqi & Hh). simplify_eq.
    pose proof (finished_idle _ i p Hf Hp) as Hb. destruct p; [|done]. destruct Hh. eauto. }
  split.
  - unfold finished. apply forallb_forall. intros q [i Hqi]%list_elem_of_In%list_elem_of_lookup.
    assert (is_Some (ps !! i)) as [p Hp].
    { apply lookup_lt_is_Some. rewrite <- Hq. by eapply lookup_lt_Some. }
    destruct (Hall i p Hp) as (g & _ & Hg & _). destruct (Hret i p g Hp Hg) as (_ & q' & Hq' & Hb).
    cbn in Hqi. simplify_eq. by rewrite Hb.
  - exists ls. split; [done|]. split; [done|]. intros i g Hg.
    assert (is_Some (ps !! i)) as [p Hp].
    { apply lookup_lt_is_Some. rewrite <- Hl. by eapply lookup_lt_Some. }
    by eapply Hret.
Qed.

(** The invariant at the end of a round. *)
Definition settled (fin : nat → L → Prop) (e : E) : Prop :=
  ∃ ls, Inv e ls ∧ ∀ i g, ls !! i = Some g → fin i g.

Lemma hidden_round_step fin P c :
  (finished c = true → P (shared c)) →
  (∀ i p, workers c !! i = Some p → busy p = true → is_ok (advance i c) = true) →
  (∀ i p c', workers c !! i = Some p → busy p = true → advance i c = Ok c' →
     ∀ e ps, hidden fin e ps (workers c') →
       round_ends (λ s, settled fin s.1 ∧ P s.2) (Cfg (e, shared c') ps)) →
  ∀ e ps, hidden fin e ps (workers c) →
    round_ends (λ s, settled fin s.1 ∧ P s.2) (Cfg (e, shared c) ps).
Proof.
  intros HP Hok Hnext e ps. revert e. induction (children_wf ps) as [ps _ IH]. intros e Hh.
  destruct (finished (Cfg (e, shared c) ps)) eqn:Ef.
  { destruct (hidden_finished fin e e (shared c) (shared c) ps (workers c) Hh Ef) as (Hfc & ls & HI & _ & Hfin).
    apply round_done; [done|]. split; [by exists ls|]. apply HP. by destruct c. }
  assert (Hadv : ∀ i p, ps !! i = Some p → busy p = true →
      ∃ c', advance i (Cfg (e, shared c) ps) = Ok c' ∧ round_ends (λ s, settled fin s.1 ∧ P s.2) c').
  { intros i [|X op kp] Hp Hb; [done|]. unfold advance. cbn [workers shared]. rewrite Hp.
    destruct (hidden_step fin e (shared c) ps (workers c) i X op kp Hh Hp)
      as [(e' & x & -> & Hh')|(Y & opq & kq & conv & Hq & -> & Hh')].
    - eexists; split; [done|]. apply IH; [|done].
      exists i, (Act op kp), (kp x). split; [done|]. split; [by exists x|done].
    - assert (Ea : advance i c = '(u', y) ← opq (shared c); Ok (Cfg u' (<[i:=kq y]> (workers c))))
        by (unfold advance; by rewrite Hq).
      specialize (Hok i _ Hq eq_refl). specialize (Hnext i (Act opq kq)).
      rewrite Ea in Hok, Hnext. destruct (opq (shared c)) as [[u' y]|]; [|done].
      eexists; split; [done|]. by apply (Hnext _ Hq eq_refl eq_refl). }
  apply round_step; [done| |].
  - intros i p Hp Hb. by destruct (Hadv i p Hp Hb) as (c' & -> & _).
  - intros i p c' Hp Hb Ec. destruct (Hadv i p Hp Hb) as (c1 & E1 & Hc). congruence.
Qed.

(** What all executions of a round of the kernel do, all executions of a round on the
    engine do. *)
Theorem hidden_round fin P c :
  round_ends P c → ∀ e ps, hidden fin e ps (workers c) →
    round_ends (λ s, settled fin s.1 ∧ P s.2) (Cfg (e, shared c) ps).
Proof.
  induction 1 as [c Hf HP|c Hf Hok _ IH]; apply hidden_round_step; try done.
  - intros i p Hp Hb. by rewrite (finished_idle c i p) in Hb.
  - intros i p c' Hp Hb. by rewrite (finished_idle c i p) in Hb.
  - by rewrite Hf.
Qed.

Context {K : Type} (stop : K → bool) (tasks : K → list (prog U unit) → Prop).
Context (open : K → U) (close : K → U → result K).
Context (after : E → E) (tasks_e : K → list (prog (E * U) unit) → Prop).

Definition stop_e (s : E * K) : bool := stop s.2.
Definition open_e (s : E * K) : E * U := (s.1, open s.2).
Definition close_e (s : E * K) (su : E * U) : result (E * K) :=
  k ← close s.2 su.2; Ok (after su.1, k).
Definition round_e (s : E * K) : list (prog (E * U) unit) → Prop := tasks_e s.2.

Context (Ready : E → Prop) (fin : nat → L → Prop) (Hafter : ∀ e, settled fin e → Ready (after e)).
Context (V : K → Prop) (Hsome : ∀ k, V k → stop k = false → ∃ ps, tasks_e k ps).
Context (Htasks : ∀ e k ps, Ready e → V k → stop k = false → tasks_e k ps →
  ∃ qs, tasks k qs ∧ hidden fin e ps qs).

Abbreviation ends_engine Q := (ends stop_e round_e open_e close_e (λ s, Ready s.1 ∧ Q s.2)).

(** What all executions of the kernel do, all executions on the engine do. *)
Theorem hidden_ends Q k e :
  ends_in stop tasks open close V Q (Head k) → Ready e → ends_engine Q (Head (e, k)).
Proof using Hafter Hsome Htasks.
  intros Hk He.
  cut (∀ m, ends_in stop tasks open close V Q m → match m with
     | Head k => ∀ e, Ready e → ends_engine Q (Head (e, k))
     | Round k c => round_ends (λ u, ∃ k', close k u = Ok k'
         ∧ ∀ e, Ready e → ends_engine Q (Head (e, k'))) c
     end); [intros H; by apply (H _ Hk)|].
  clear k e Hk He. induction 1 as [k Hv Hs HQ|[k|k c] Hv Hex Hok Hall IH].
  - intros e He. by apply ends_stop.
  - intros e He. destruct (stop k) eqn:Es.
    { destruct Hex as [r Hr]. inversion Hr. congruence. }
    apply ends_step; [done|..].
    + destruct (Hsome k Hv Es) as [ps Hps]. eexists. by apply (step_open _ _ _ _ (e, k) ps).
    + intros r Hr. by inversion Hr.
    + intros m' Hr. inversion Hr as [k0 ps _ Hps| |]; subst.
      destruct (Htasks e k ps He Hv Es Hps) as (qs & Hqs & Hh).
      pose proof (IH _ (step_open stop tasks open close k qs Es Hqs)) as Hround.
      eapply ends_round; [exact (hidden_round fin _ _ Hround e ps Hh)|].
      intros [e' u] (He' & k' & Ec & Hk'). exists (after e', k'). split; [|by apply Hk', Hafter].
      cbn in Ec. unfold close_e. cbn. by rewrite Ec.
  - destruct (finished c) eqn:Ef.
    + pose proof (step_close stop tasks open close k c Ef) as Hs. pose proof (Hok _ Hs) as Hc.
      destruct (close k (shared c)) as [k'|] eqn:Ec; [|done].
      apply round_done; [done|]. exists k'. split; [done|]. by apply (IH _ Hs).
    + apply round_step; [done| |].
      * intros i p Hp Hb. pose proof (Hok _ (step_work stop tasks open close k c i p Hp Hb)) as Hc.
        by destruct (advance i c).
      * intros i p c' Hp Hb Ec. pose proof (step_work stop tasks open close k c i p Hp Hb) as Hs.
        rewrite Ec in Hs. by apply (IH _ Hs).
Qed.
End hiding.
