(* ===== verification/Platform.v ===== *)
(** * Platform: what the program uses and does not define

    Each class states the documented behaviour of something outside the
    repository: the build configuration, oneTBB's [combinable] and
    [parallel_for], the RDMA network card, and the vertex caches of the two
    external cache libraries.  The components are developed against these
    classes; concrete instances at the end let the definitions run. *)

From S2P Require Import Prelude.

(** ** Build options ([src/build_options.hpp.in]) and the [NDEBUG] setting *)
Class BuildOptions := {
  opt_wr_window : Z;
  vertex_coalescing : bool;
  asserts_enabled : bool;
}.

(** A C [assert]: checked only in builds without [NDEBUG]. *)
Definition cassert `{BuildOptions} (b : bool) : result () :=
  if asserts_enabled then (if b then Ok () else Fault AssertionFailed) else Ok ().

Lemma cassert_true `{BuildOptions} b : b = true → cassert b = Ok ().
Proof. intros ->. unfold cassert. by destruct asserts_enabled. Qed.

(** [TEST_NZ] and [TEST_Z] of [fam_common.hpp] end the process through [rc_die]. *)
Definition TEST_NZ (what : string) (x : Z) : result () :=
  if bool_decide (x = 0) then Ok () else Fault (Died what).
Definition TEST_Z (what : string) (x : Z) : result () :=
  if bool_decide (x = 0) then Fault (Died what) else Ok ().

(** ** [tbb::combinable<uint32_t>]: one counter per thread.  [comb_local t] reads
    and [comb_store t] writes through the reference [local()] returns to thread
    [t], [comb_sum] is [combine(std::plus<uint32_t>{})] and [comb_new] the state
    after construction and after [clear()]. *)
Class Combinable := {
  combinable : Type;
  comb_new : combinable;
  comb_local : nat → combinable → Z;
  comb_store : nat → Z → combinable → combinable;
  comb_sum : combinable → Z;
  comb_local_new t : comb_local t comb_new = 0;
  comb_local_range t c : in_u32 (comb_local t c);
  comb_local_store_eq t x c : comb_local t (comb_store t x c) = u32 x;
  comb_local_store_ne t t' x c :
    t ≠ t' → comb_local t' (comb_store t x c) = comb_local t' c;
  comb_sum_new : comb_sum comb_new = 0;
  comb_sum_range c : in_u32 (comb_sum c);
  comb_sum_store t x c :
    comb_sum (comb_store t x c) = u32 (comb_sum c + x - comb_local t c);
}.
#[export] Hint Resolve comb_local_range comb_sum_range : fam.

Section combinable.
  Context {CB : Combinable}.

(** [++c.local()] on thread [t]. *)
Definition comb_incr (t : nat) (c : combinable) : combinable :=
  comb_store t (u32 (comb_local t c + 1)) c.

Lemma comb_sum_incr t c : comb_sum (comb_incr t c) = u32 (comb_sum c + 1).
Proof.
  unfold comb_incr. rewrite comb_sum_store. unfold u32.
  rewrite Zminus_mod, Zplus_mod_idemp_r, <- Zminus_mod. f_equal. lia.
Qed.
End combinable.

(** ** [tbb::enumerable_thread_specific<T>]: like [combinable], with iteration
    over the elements the threads have created so far; [ets_local] creates a
    value-initialised element ([inhabitant]) on first use. *)
Class EnumerableThreadSpecific := {
  ets : Type → Type;
  ets_new {A : Type} : ets A;
  ets_local {A : Type} `{Inhabited A} : nat → ets A → A;
  ets_store {A : Type} : nat → A → ets A → ets A;
  ets_elems {A : Type} : ets A → list A;
  ets_fmap {A : Type} : (A → A) → ets A → ets A;
  ets_elems_new {A : Type} : ets_elems (@ets_new A) = [];
  ets_elems_fmap {A : Type} (f : A → A) e : ets_elems (ets_fmap f e) = f <$> ets_elems e;
  ets_elems_store {A : Type} `{Inhabited A} t (x : A) e :
    ∃ rest, ets_elems (ets_store t x e) ≡ₚ x :: rest
      ∧ (ets_elems e ≡ₚ ets_local t e :: rest
         ∨ ets_elems e ≡ₚ rest ∧ ets_local t e = inhabitant);
}.

(** ** [tbb::parallel_for] over a [blocked_range].  TBB splits the range into
    non-empty subranges and hands each to a worker thread; neither the cut nor
    the assignment nor the order is specified.  A [Scheduler] is any choice of
    these, one per call site and round (the argument [k]). *)
Record chunk := Chunk { worker : nat; c_begin : Z; c_end : Z }.

Definition chunk_rng (c : chunk) : list Z := rng (c_begin c) (c_end c).

Definition tiles (sched : list chunk) (lo hi : Z) : Prop :=
  Forall (λ c, c_begin c < c_end c) sched ∧ (sched ≫= chunk_rng) ≡ₚ rng lo hi.

Class Scheduler := {
  n_workers : nat;
  schedule : nat → Z → Z → list chunk;
  schedule_tiles k lo hi : tiles (schedule k lo hi) lo hi;
  schedule_workers k lo hi : Forall (λ c, (worker c < n_workers)%nat) (schedule k lo hi);
}.

(** There is a worker. *)
Lemma some_worker `{Scheduler} : (0 < n_workers)%nat.
Proof.
  destruct (schedule_tiles 0 0 1) as [_ Ht]. pose proof (schedule_workers 0 0 1) as Hw.
  destruct (schedule 0 0 1) as [|c cs]; [by apply Permutation_nil_l in Ht|].
  inversion Hw; subst. lia.
Qed.

Definition parallel_for `{Scheduler} {S} (k : nat) (lo hi : Z)
    (body : nat → Z → Z → S → result S) (s : S) : result S :=
  forM (schedule k lo hi) (λ c, body (worker c) (c_begin c) (c_end c)) s.

(** The iterations of a [parallel_for] tagged with the worker that runs them. *)
Definition sched_items (sched : list chunk) : list (nat * Z) :=
  sched ≫= λ c, (λ i, (worker c, i)) <$> chunk_rng c.

Lemma sched_items_snd sched : (sched_items sched).*2 = sched ≫= chunk_rng.
Proof.
  unfold sched_items. induction sched as [|c sched IH]; [done|].
  rewrite !bind_cons, fmap_app, IH. f_equal. rewrite <- list_fmap_compose. apply list_fmap_id.
Qed.

Section parallel_for.
  Context {SC : Scheduler} {S : Type}.

(** A [parallel_for] whose body loops over its subrange runs the loop's body
    once for every index of the range, in an order of the scheduler's choice. *)
Lemma parallel_for_items k lo hi (body : nat → Z → S → result S) s :
  parallel_for k lo hi (λ t a b, for_u32 a b (body t)) s
  = forM (sched_items (schedule k lo hi)) (λ ti, body ti.1 ti.2) s.
Proof.
  unfold parallel_for. generalize (schedule k lo hi). intros sched. revert s.
  unfold sched_items.
  induction sched as [|c sched IH]; intros s; [done|].
  rewrite bind_cons, forM_app. simpl. unfold for_u32, chunk_rng.
  assert (∀ l s, forM l (body (worker c)) s
                 = forM ((λ i, (worker c, i)) <$> l) (λ ti, body ti.1 ti.2) s) as E.
  { clear. induction l as [|x l IH]; intros s; simpl; [done|].
    destruct (body (worker c) x s); simpl; [apply IH|done]. }
  rewrite E. destruct (forM _ _ s); simpl; [apply IH|done].
Qed.

Lemma parallel_for_perm k lo hi : (sched_items (schedule k lo hi)).*2 ≡ₚ rng lo hi.
Proof. rewrite sched_items_snd. apply schedule_tiles. Qed.

(** Rule for a data-parallel [parallel_for]: an invariant indexed by the list
    of the indices processed so far. *)
Lemma parallel_for_inv (I : list Z → S → Prop) k lo hi (body : nat → Z → S → result S) s :
  I [] s →
  (∀ t done i s, NoDup (i :: done) → lo ≤ i < hi → (∀ j, j ∈ done → lo ≤ j < hi) → I done s →
     ∃ s', body t i s = Ok s' ∧ I (i :: done) s') →
  ∃ s' done, parallel_for k lo hi (λ t a b, for_u32 a b (body t)) s = Ok s'
    ∧ done ≡ₚ rng lo hi ∧ I done s'.
Proof.
  intros H0 Hstep. rewrite parallel_for_items.
  pose proof (parallel_for_perm k lo hi) as Hp.
  set (items := sched_items (schedule k lo hi)) in *.
  destruct (forM_prefix_inv (λ pre s, I (reverse pre.*2) s) items
              (λ ti, body ti.1 ti.2) s) as (s' & E & HI); [done| |].
  - intros pre [t i] suf u Hl HI. simpl.
    assert (Hnd : NoDup (pre.*2 ++ i :: suf.*2)).
    { replace (pre.*2 ++ i :: suf.*2) with items.*2 by (by rewrite Hl, fmap_app).
      rewrite Hp. apply NoDup_rng. }
    assert (Hin : ∀ j, j ∈ items.*2 → lo ≤ j < hi).
    { intros j. rewrite Hp. apply elem_of_rng. }
    rewrite Hl, fmap_app in Hin. simpl in Hin.
    destruct (Hstep t (reverse pre.*2) i u) as (u' & Eu & HI').
    + rewrite reverse_Permutation.
      rewrite <- Permutation_middle, app_comm_cons in Hnd.
      by apply NoDup_app in Hnd as [? _].
    + apply Hin. set_solver.
    + intros j Hj. rewrite elem_of_reverse in Hj. apply Hin. set_solver.
    + done.
    + exists u'. split; [done|]. by rewrite fmap_app, reverse_app.
  - exists s', (reverse items.*2). split; [done|]. split; [|done].
    by rewrite reverse_Permutation.
Qed.
End parallel_for.

(** ** [tbb::parallel_reduce]: the subranges are folded separately, starting from
    the identity, and the partial results are joined. *)
Definition parallel_reduce `{Scheduler} {A} (k : nat) (lo hi : Z) (identity : A)
    (func : Z → Z → A → result A) (reduction : A → A → A) : result A :=
  forM (schedule k lo hi) (λ c acc,
    r ← func (c_begin c) (c_end c) identity; Ok (reduction acc r)) identity.

(** Counting the indices with a property, in [uint32_t]. *)
Lemma parallel_reduce_count `{Scheduler} k lo hi (test : Z → result bool) (p : Z → bool) :
  (∀ i, lo ≤ i < hi → test i = Ok (p i)) →
  parallel_reduce k lo hi 0 (λ a b, for_u32 a b (λ i init,
      b ← test i; Ok (if b : bool then u32 (init + 1) else init)))
    (λ a b, u32 (a + b))
  = Ok (u32 (zcount p (rng lo hi))).
Proof.
  intros Htest. unfold parallel_reduce. destruct (schedule_tiles k lo hi) as [_ Hp].
  unfold zcount. rewrite <- Hp.
  assert (Hin : ∀ c i, c ∈ schedule k lo hi → c_begin c ≤ i < c_end c → lo ≤ i < hi).
  { intros c i Hc Hi. apply elem_of_rng. rewrite <- Hp. apply list_elem_of_bind.
    exists c. split; [by apply elem_of_rng|done]. }
  clear Hp. change (Ok 0) with (Ok (u32 0)).
  enough (∀ acc, forM (schedule k lo hi) (λ c acc,
      r ← for_u32 (c_begin c) (c_end c) (λ i init,
        b ← test i; Ok (if b : bool then u32 (init + 1) else init)) 0;
      Ok (u32 (acc + r))) (u32 acc)
    = Ok (u32 (acc + zsum (λ x, Z.b2z (p x)) (schedule k lo hi ≫= chunk_rng)))) as Hgen.
  { specialize (Hgen 0). done. }
  induction (schedule k lo hi) as [|c cs IH]; intros acc; [simpl; by rewrite Z.add_0_r|].
  assert (Hc : ∀ l init, (∀ i, i ∈ l → test i = Ok (p i)) →
    forM l (λ i init, b ← test i; Ok (if b : bool then u32 (init + 1) else init)) (u32 init)
    = Ok (u32 (init + zsum (λ x, Z.b2z (p x)) l))).
  { clear. induction l as [|i l IH]; intros init Hl; [simpl; by rewrite Z.add_0_r|].
    simpl forM. rewrite Hl by set_solver. rewrite bind_ok, zsum_cons.
    destruct (p i); simpl; autorewrite with famr;
      rewrite IH by (intros; apply Hl; set_solver); do 2 f_equal; lia. }
  cbn [forM]. specialize (Hc (rng (c_begin c) (c_end c)) 0).
  change (u32 0) with 0 in Hc. fold (for_u32 (c_begin c) (c_end c)
    (λ i init, b ← test i; Ok (if b : bool then u32 (init + 1) else init)) 0) in Hc. rewrite Hc by (intros i Hi%elem_of_rng; apply Htest, (Hin c); set_solver).
  rewrite !bind_ok, bind_cons, zsum_app. autorewrite with famr.
  rewrite IH by (intros c' i' Hc'; apply Hin; set_solver).
  unfold chunk_rng. do 2 f_equal. lia.
Qed.

(** ** RDMA READ through libibverbs.  Memory regions are arrays of 32-bit words
    at a base address.  [rdma_read] is the transfer of one work request: the
    words it writes, as (index in the client's region, value), in the order in
    which they land.  The code relies on the card writing a transfer in
    increasing address order and the transfers of a queue pair in posting order.
    [nic_burst k] is the number of words beyond the first that land between the
    [k]-th and the next look at the memory, and [post_ret k] the return code of
    the [k]-th call of [ibv_post_send] (0, ENOMEM when the queue is full, or
    another error). *)
Class Nic := {
  rdma_read (src_base : Z) (src : list Z) (dst_base : Z)
    (remote_addr local_addr len : Z) : list (Z * Z);
  rdma_read_spec src_base src dst_base r l n :
    0 ≤ r → 0 ≤ n → r + n ≤ zlen src → 0 ≤ l →
    rdma_read src_base src dst_base (src_base + 4 * r) (dst_base + 4 * l) (4 * n)
    = zip (rng l (l + n)) (slice r n src);
  nic_burst : nat → nat;
  post_ret : nat → Z;
}.

Definition ENOMEM : Z := 12.

(** ** Vertex caches.  [CacheMap] comes with [COrder/Binning.hpp], [CacheManager]
    with the [ccy-csr-cache] library; only the calls the program makes are seen. *)
Record CacheElem := {
  getId : Z;
  elem_get_neighbors : list Z;
  elem_get_out_degree : Z;
}.
Record CacheMap := { cm_get : Z → option CacheElem }.
Record CacheManager := {
  is_vertex_exist : Z → bool;
  get_neighbors : Z → list Z;
  get_out_degree : Z → Z;
}.

(** A cache manager that agrees with the graph it caches. *)
Definition cache_coherent (cm : CacheManager) (adj : Z → list Z) : Prop :=
  ∀ v, is_vertex_exist cm v = true →
    get_neighbors cm v = adj v ∧ get_out_degree cm v = zlen (adj v).

(** ** Boost: [numeric_cast<uint32_t>] throws on overflow, [align_up] rounds to
    the next multiple of the alignment. *)
Class Boost := {
  numeric_cast_u32 : Z → result Z;
  numeric_cast_u32_ok z : in_u32 z → numeric_cast_u32 z = Ok z;
  numeric_cast_u32_overflow z :
    2 ^ 32 ≤ z → numeric_cast_u32 z = Fault (Thrown "positive_overflow");
  align_up : Z → Z → Z;
  align_up_spec v a : 0 ≤ v → 0 < a → (a | align_up v a) ∧ v ≤ align_up v a < v + a;
}.

(** ** The operating system's memory calls and memory registration.  [mmap_anon]
    maps zero-filled memory and yields the number of accessible bytes, or [None]
    for [MAP_FAILED]; the kernel rejects an empty mapping and rounds the length
    up to whole pages of at least 4096 bytes.  [ibv_reg_mr] pins a mapped region
    ([None] is its null result). *)
Record ibv_mr := { mr_addr : Z; mr_length : Z; mr_lkey : Z; mr_rkey : Z }.

Class Os := {
  mmap_anon : Z → bool → option Z;
  mmap_anon_zero hp : mmap_anon 0 hp = None;
  mmap_anon_pages len hp n : mmap_anon len hp = Some n → len ≤ n ∧ (4096 | n);
  ibv_reg_mr : Z → Z → option ibv_mr;
  ibv_reg_mr_length ptr len mr :
    ibv_reg_mr ptr len = Some mr → mr_length mr = len ∧ mr_addr mr = ptr;
  map_base : Z;
}.

(** ** Files seen through [boost::filesystem] and [std::ifstream] *)
Inductive fs_node :=
  | Missing
  | NotRegular
  | Regular (content : list Z).

Definition fs_exists (f : fs_node) : bool := match f with Missing => false | _ => true end.
Definition fs_is_regular_file (f : fs_node) : bool :=
  match f with Regular _ => true | _ => false end.
Definition fs_content (f : fs_node) : list Z := match f with Regular bs => bs | _ => [] end.
Definition fs_file_size (f : fs_node) : Z := zlen (fs_content f).

(** ** Concrete instances, under which every definition computes *)
Definition default_build : BuildOptions :=
  {| opt_wr_window := 40; vertex_coalescing := true; asserts_enabled := false |}.

Section gmap_combinable.
  Abbreviation gcomb := (gmap nat Z).
Definition gcomb_local (t : nat) (c : gcomb) : Z := u32 (default 0 (c !! t)).
Definition gcomb_store (t : nat) (x : Z) (c : gcomb) : gcomb := <[t:=u32 x]> c.
Definition gcomb_sum (c : gcomb) : Z := u32 (zsum snd (map_to_list c)).

Lemma gcomb_sum_store_law t x c :
  gcomb_sum (gcomb_store t x c) = u32 (gcomb_sum c + x - gcomb_local t c).
Proof.
  unfold gcomb_sum, gcomb_store, gcomb_local in *.
  rewrite <- (insert_delete_eq c t), map_to_list_insert by apply lookup_delete_eq.
  destruct (c !! t) as [y|] eqn:E; simpl.
  - rewrite <- (insert_delete_id c t y E) at 2.
    rewrite map_to_list_insert by apply lookup_delete_eq.
    unfold zsum. simpl. set (r := foldr _ 0 _).
    destruct (u32_decomp x) as [k1 ->], (u32_decomp (y + r)) as [k2 ->], (u32_decomp y) as [k3 ->].
    apply (u32_congr _ _ (k1 - k2 + k3)). lia.
  - rewrite delete_id by done. unfold zsum. simpl. set (r := foldr _ 0 _).
    destruct (u32_decomp x) as [k1 ->], (u32_decomp r) as [k2 ->], (u32_decomp 0) as [k3 ->].
    apply (u32_congr _ _ (k1 - k2 + k3)). lia.
Qed.

Program Definition gmap_combinable : Combinable := {|
  combinable := gcomb;
  comb_new := ∅;
  comb_local := gcomb_local;
  comb_store := gcomb_store;
  comb_sum := gcomb_sum;
|}.
Next Obligation. intros t. unfold gcomb_local. by rewrite lookup_empty. Qed.
Next Obligation. intros. apply u32_range. Qed.
Next Obligation.
  intros. unfold gcomb_local, gcomb_store. rewrite lookup_insert_eq. simpl. apply u32_u32.
Qed.
Next Obligation.
  intros. unfold gcomb_local, gcomb_store. by rewrite lookup_insert_ne.
Qed.
Next Obligation. unfold gcomb_sum. by rewrite map_to_list_empty. Qed.
Next Obligation. intros. apply u32_range. Qed.
Next Obligation. apply gcomb_sum_store_law. Qed.
End gmap_combinable.

Section gmap_ets.
  Context {A : Type}.
  Implicit Types e : gmap nat A.

Lemma gets_elems_fmap (f : A → A) e : (map_to_list (f <$> e)).*2 = f <$> (map_to_list e).*2.
Proof. rewrite map_to_list_fmap, <- !list_fmap_compose. by apply list_fmap_ext. Qed.

Lemma gets_elems_store `{Inhabited A} t (x : A) e :
  ∃ rest, (map_to_list (<[t:=x]> e)).*2 ≡ₚ x :: rest
    ∧ ((map_to_list e).*2 ≡ₚ default inhabitant (e !! t) :: rest
       ∨ (map_to_list e).*2 ≡ₚ rest ∧ default inhabitant (e !! t) = inhabitant).
Proof.
  exists ((map_to_list (delete t e)).*2).
  rewrite <- insert_delete_eq, map_to_list_insert by apply lookup_delete_eq.
  split; [done|]. destruct (e !! t) as [y|] eqn:E; simpl; [left|right].
  - rewrite <- (insert_delete_id e t y E) at 1.
    by rewrite map_to_list_insert by apply lookup_delete_eq.
  - by rewrite delete_id.
Qed.
End gmap_ets.

Definition gmap_ets : EnumerableThreadSpecific := {|
  ets := λ A, gmap nat A;
  ets_new := λ A, ∅;
  ets_local := λ A _ t e, default inhabitant (e !! t);
  ets_store := λ A t x e, <[t:=x]> e;
  ets_elems := λ A e, (map_to_list e).*2;
  ets_fmap := λ A f e, @fmap (gmap nat) _ A A f e;
  ets_elems_new := λ A, f_equal (fmap snd) (map_to_list_empty (M := gmap nat));
  ets_elems_fmap := λ A, gets_elems_fmap;
  ets_elems_store := λ A _, gets_elems_store;
|}.

(** Two workers, the second half of the range first. *)
Definition halves (lo hi : Z) : list chunk :=
  let mid := (lo + hi) / 2 in
  (if decide (mid < hi) then [Chunk 1 mid hi] else []) ++
  (if decide (lo < mid) then [Chunk 0 lo mid] else []).

Program Definition halves_scheduler : Scheduler := {|
  n_workers := 2;
  schedule := λ _, halves;
|}.
Next Obligation.
  intros k lo hi. unfold halves, tiles. set (mid := (lo + hi) / 2). split.
  - repeat case_decide; repeat constructor; simpl; lia.
  - destruct (decide (lo < hi)).
    + assert (lo ≤ mid < hi) by (unfold mid; split; [apply Z.div_le_lower_bound|apply Z.div_lt_upper_bound]; lia).
      rewrite decide_True by lia. case_decide; unfold chunk_rng; simpl.
      * rewrite app_nil_r, (rng_app lo mid hi) by lia. apply Permutation_app_comm.
      * replace mid with lo by lia. by rewrite app_nil_r.
    + assert (hi ≤ mid) by (unfold mid; apply Z.div_le_lower_bound; lia).
      assert (mid ≤ lo) by (unfold mid; apply Z.div_le_upper_bound; lia).
      rewrite !decide_False by lia. by rewrite rng_nil by lia.
Qed.
Next Obligation.
  intros k lo hi. unfold halves. repeat case_decide; repeat constructor; simpl; lia.
Qed.

(** A card that delivers three words at a time and whose queue is full at every
    third call. *)
Program Definition word_nic : Nic := {|
  rdma_read sb src db remote local len :=
    let l := (local - db) / 4 in
    zip (rng l (l + len / 4)) (slice ((remote - sb) / 4) (len / 4) src);
  nic_burst _ := 2%nat;
  post_ret k := if decide (Nat.modulo k 3 = 0)%nat then ENOMEM else 0;
|}.
Next Obligation.
  intros sb src db r l n ????. cbv beta zeta. rewrite !Z.add_simpl_l, !(Z.mul_comm 4), !Z.div_mul by lia.
  done.
Qed.

(** The same card with a queue that is never full. *)
Definition ready_nic : Nic :=
  {| rdma_read := @rdma_read word_nic; rdma_read_spec := @rdma_read_spec word_nic;
     nic_burst := λ _, 0%nat; post_ret := λ _, 0 |}.

Program Definition plain_boost : Boost := {|
  numeric_cast_u32 z := if decide (in_u32 z) then Ok z else Fault (Thrown "positive_overflow");
  align_up v a := (v + (a - 1)) / a * a;
|}.
Next Obligation. intros z Hz. simpl. by case_decide. Qed.
Next Obligation. intros z Hz. simpl. case_decide as E; [unfold in_u32 in E; lia|done]. Qed.
Next Obligation.
  intros v a Hv Ha. simpl. split; [apply Z.divide_factor_r|].
  pose proof (Z.div_mod (v + (a - 1)) a ltac:(lia)).
  pose proof (Z.mod_pos_bound (v + (a - 1)) a Ha). lia.
Qed.

Program Definition plain_os : Os := {|
  mmap_anon len _ := if decide (0 < len) then Some ((len + 4095) / 4096 * 4096) else None;
  ibv_reg_mr ptr len := Some {| mr_addr := ptr; mr_length := len; mr_lkey := 7; mr_rkey := 9 |};
  map_base := 65536;
|}.
Next Obligation. done. Qed.
Next Obligation.
  intros len hp n. simpl. case_decide; [|done]. intros [= <-]. split; [|apply Z.divide_factor_r].
  pose proof (Z.div_mod (len + 4095) 4096 ltac:(lia)).
  pose proof (Z.mod_pos_bound (len + 4095) 4096 ltac:(lia)). lia.
Qed.
Next Obligation. by intros ptr len mr [= <-]. Qed.
