(* ===== verification/StdLib.v ===== *)
(** * StdLib: what the program uses of the C++ standard library

    [float] is IEEE binary32, computed by [SpecFloat] with round-to-nearest-even
    (all NaNs are one value); [f32_key] gives its order, [f32_bits] its
    representation and [f32_of_decimal] the value [strtof] reads.  [std_sort] is
    [std::sort] by a strict weak order. *)

From Stdlib Require Import SpecFloat.
From stdpp Require Import sorting.
From S2P Require Import Prelude.

(** ** [float] *)
Abbreviation f32 := spec_float.
Definition f32_add : f32 → f32 → f32 := SFadd 24 128.
Definition f32_sub : f32 → f32 → f32 := SFsub 24 128.
Definition f32_mul : f32 → f32 → f32 := SFmul 24 128.
Definition f32_div : f32 → f32 → f32 := SFdiv 24 128.
(** [static_cast<float>] of a [uint32_t]. *)
Definition f32_of_u32 (m : Z) : f32 := binary_normalize 24 128 m 0 false.
Definition f32_zero : f32 := S754_zero false.

#[export] Instance f32_eq_dec : EqDecision f32.
Proof. solve_decision. Defined.
#[export] Instance f32_inhabited : Inhabited f32 := populate f32_zero.

Definition not_nan (x : f32) : Prop := x ≠ S754_nan.

(** Numbers are ordered as triples are, lexicographically. *)
Definition f32_key (x : f32) : Z * Z * Z :=
  match x with
  | S754_infinity s => (if s then -2 else 2, 0, 0)
  | S754_zero _ => (0, 0, 0)
  | S754_finite s m e => if s then (-1, - e, Z.neg m) else (1, e, Z.pos m)
  | S754_nan => (3, 0, 0)
  end.

Definition key_lt (a b : Z * Z * Z) : Prop :=
  a.1.1 < b.1.1 ∨ a.1.1 = b.1.1 ∧ (a.1.2 < b.1.2 ∨ a.1.2 = b.1.2 ∧ a.2 < b.2).

Lemma f32_lt_key x y : not_nan x → not_nan y → SFltb x y = true ↔ key_lt (f32_key x) (f32_key y).
Proof.
  intros Hx Hy. unfold SFltb, key_lt.
  destruct x as [s1|s1| |s1 m1 e1], y as [s2|s2| |s2 m2 e2]; try done;
    try (destruct s1); try (destruct s2); cbn; try (split; [done|lia]); try (split; [lia|done]).
  - change (Pos.compare_cont Eq m1 m2) with (Pos.compare m1 m2).
    destruct (Z.compare_spec e1 e2), (Pos.compare_spec m1 m2); cbn; split; intros; done || lia.
  - change (Pos.compare_cont Eq m1 m2) with (Pos.compare m1 m2).
    destruct (Z.compare_spec e1 e2), (Pos.compare_spec m1 m2); cbn; split; intros; done || lia.
Qed.

(** The laws of a strict weak order. *)
Lemma f32_lt_asym x y : not_nan x → not_nan y → SFltb x y = true → SFltb y x = false.
Proof.
  intros Hx Hy Hxy. apply not_true_iff_false. rewrite f32_lt_key in * by done. unfold key_lt in *. lia.
Qed.
Lemma f32_lt_trans x y z : not_nan x → not_nan y → not_nan z →
  SFltb x y = true → SFltb y z = true → SFltb x z = true.
Proof. intros Hx Hy Hz. rewrite !f32_lt_key by done. unfold key_lt. lia. Qed.
Lemma f32_nlt_trans x y z : not_nan x → not_nan y → not_nan z →
  SFltb x y = false → SFltb y z = false → SFltb x z = false.
Proof.
  intros Hx Hy Hz. rewrite <- !not_true_iff_false, !f32_lt_key by done. unfold key_lt. lia.
Qed.

(** The 32 bits of a [float]: sign, biased exponent, fraction. *)
Definition f32_bits (x : f32) : Z :=
  match x with
  | S754_zero s => if s then 2 ^ 31 else 0
  | S754_infinity s => (if s then 2 ^ 31 else 0) + 255 * 2 ^ 23
  | S754_nan => 255 * 2 ^ 23 + 2 ^ 22
  | S754_finite s m e =>
      (if s then 2 ^ 31 else 0)
      + if bool_decide (Z.pos m < 2 ^ 23) then Z.pos m else (e + 150) * 2 ^ 23 + (Z.pos m - 2 ^ 23)
  end.

(** [strtof]: the [float] nearest to [m * 10 ^ e]. *)
Definition f32_of_decimal (neg : bool) (m e : Z) : f32 :=
  match m with
  | Z.pos _ =>
      if bool_decide (0 ≤ e) then binary_round 24 128 neg (Z.to_pos (m * 10 ^ e)) 0
      else
        let '(q, e', l) := SFdiv_core_binary 24 128 m 0 (10 ^ (- e)) 0 in
        binary_round_aux 24 128 neg q e' l
  | _ => S754_zero neg
  end.

(** ** [std::sort] *)
Section sort.
  Context {A : Type} (lt : A → A → bool).

Fixpoint sort_insert (x : A) (l : list A) : list A :=
  match l with
  | [] => [x]
  | y :: l' => if lt y x then y :: sort_insert x l' else x :: l
  end.

Definition std_sort (l : list A) : list A := foldr sort_insert [] l.

Lemma sort_insert_perm x l : sort_insert x l ≡ₚ x :: l.
Proof.
  induction l as [|y l IH]; [done|]. cbn. destruct (lt y x); [|done].
  rewrite IH. by rewrite Permutation_swap.
Qed.

Lemma std_sort_perm l : std_sort l ≡ₚ l.
Proof. induction l as [|x l IH]; [done|]. cbn. by rewrite sort_insert_perm, IH. Qed.

(** When the order is a strict weak order on the elements, no element of the
    result is before a smaller one. *)
Context (P : A → Prop).
Context (Hasym : ∀ x y, P x → P y → lt x y = true → lt y x = false).
Context (Hnlt : ∀ x y z, P x → P y → P z → lt x y = false → lt y z = false → lt x z = false).

Definition sorted_by (l : list A) : Prop := StronglySorted (λ x y, lt y x = false) l.

Lemma sorted_by_reverse l : sorted_by l → StronglySorted (λ x y, lt x y = false) (reverse l).
Proof.
  induction 1 as [|x l _ IH Hx]; [constructor|]. rewrite reverse_cons.
  apply StronglySorted_app_2; [|done|by repeat constructor].
  intros y z Hy Hz. apply list_elem_of_singleton in Hz as ->. rewrite elem_of_reverse in Hy.
  rewrite Forall_forall in Hx. by apply Hx.
Qed.

Lemma sort_insert_sorted x l : P x → Forall P l → sorted_by l → sorted_by (sort_insert x l).
Proof using Hasym Hnlt.
  intros Hx Hl. unfold sorted_by. induction 1 as [|y l Hs IH Hy]; cbn; [by repeat constructor|].
  apply Forall_cons in Hl as [HPy HPl]. destruct (lt y x) eqn:E.
  - constructor; [by apply IH|]. rewrite sort_insert_perm. constructor; [by apply Hasym|done].
  - constructor; [by constructor|]. constructor; [done|]. rewrite Forall_forall in *.
    intros z Hz. apply (Hnlt z y x); [by apply HPl|done..|by apply Hy|done].
Qed.

Lemma std_sort_sorted l : Forall P l → sorted_by (std_sort l).
Proof using Hasym Hnlt.
  induction 1 as [|x l Hx Hl IH]; [constructor|]. cbn. apply sort_insert_sorted; [done| |done].
  by rewrite std_sort_perm.
Qed.
End sort.
