(* ===== verification/Float32.v ===== *)
(** * Float32: binary32 numbers that are not negative

    Sums of non-negative numbers, and their products with and quotients by positive
    ones, are non-negative: no operation of PageRank makes a NaN.  A positive
    [uint32_t] is a positive number as a [float]. *)

From Stdlib Require Import SpecFloat.
From S2P Require Import Prelude StdLib.

(** Zero, a positive number or infinity. *)
Definition f32_nonneg (x : f32) : Prop :=
  match x with
  | S754_nan => False
  | S754_zero s | S754_infinity s | S754_finite s _ _ => s = false
  end.
(** A positive number below infinity. *)
Definition f32_positive (x : f32) : Prop :=
  match x with S754_finite s _ _ => s = false | _ => False end.

Lemma f32_nonneg_number x : f32_nonneg x → not_nan x.
Proof. by intros H ->. Qed.

(** The significand after a right shift. *)
Lemma shr_1_div r : 0 ≤ shr_m r → shr_m (shr_1 r) = shr_m r / 2.
Proof.
  destruct r as [[|[p|p|]|p] b s]; intros Hm; try done.
  - cbn. rewrite (Pos2Z.inj_xI p). apply Z.div_unique with (r := 1); lia.
  - cbn. rewrite (Pos2Z.inj_xO p). apply Z.div_unique with (r := 0); lia.
Qed.

Lemma shr_div p r : 0 ≤ shr_m r → shr_m (SpecFloat.iter_pos shr_1 p r) = shr_m r / 2 ^ Z.pos p.
Proof.
  revert r. induction p as [p IH|p IH|]; intros r Hr; cbn [SpecFloat.iter_pos].
  - assert (0 ≤ shr_m (shr_1 r)) by (rewrite shr_1_div by done; apply Z.div_pos; lia).
    rewrite !IH, shr_1_div by (rewrite ?IH by done; try apply Z.div_pos; lia).
    rewrite !Z.div_div by lia. f_equal. rewrite (Pos2Z.inj_xI p), Z.pow_add_r, Z.pow_mul_r by lia.
    replace (2 ^ 2) with (2 * 2) by done. rewrite Z.pow_mul_l. lia.
  - rewrite !IH by (rewrite ?IH by done; try apply Z.div_pos; lia).
    rewrite !Z.div_div by lia. f_equal. rewrite (Pos2Z.inj_xO p), Z.pow_mul_r by lia.
    replace (2 ^ 2) with (2 * 2) by done. by rewrite Z.pow_mul_l.
  - by apply shr_1_div.
Qed.

Lemma shr_record_m m l : shr_m (shr_record_of_loc m l) = m.
Proof. by destruct l as [|[]]. Qed.

(** How far rounding shifts a significand to the right. *)
Definition shift (m e : Z) : Z := 0 `max` (fexp 24 128 (Zdigits2 m + e) - e).

Lemma shr_fexp_ok m e l :
  0 ≤ m → shr_m (shr_fexp 24 128 m e l).1 = m / 2 ^ shift m e ∧ (shr_fexp 24 128 m e l).2 = e + shift m e.
Proof.
  intros Hm. unfold shr_fexp, shr, shift. change (Z.sub ?a ?b) with (a - b).
  destruct (fexp _ _ _ - e) as [|p|p] eqn:E; cbn [fst snd].
  - rewrite shr_record_m, Z.div_1_r. lia.
  - rewrite shr_div; rewrite shr_record_m; [|done]. split; [do 2 f_equal|]; lia.
  - rewrite shr_record_m. replace (0 `max` Z.neg p) with 0 by lia. rewrite Z.div_1_r. lia.
Qed.

Lemma shifted_nonneg m e : 0 ≤ m → 0 ≤ m / 2 ^ shift m e.
Proof. intros Hm. apply Z.div_pos; [done|]. apply Z.pow_pos_nonneg; [done|unfold shift; lia]. Qed.

Lemma round_bounds m l : m ≤ round_nearest_even m l ≤ m + 1.
Proof. destruct l as [|[]]; cbn; try case_match; lia. Qed.

Lemma round_aux_nonneg m e l : 0 ≤ m → f32_nonneg (binary_round_aux 24 128 false m e l).
Proof.
  intros Hm. unfold binary_round_aux.
  destruct (shr_fexp_ok m e l Hm) as [H1 _]. destruct (shr_fexp _ _ m e l) as [r1 e1]. cbn [fst] in H1.
  pose proof (round_bounds (shr_m r1) (loc_of_shr_record r1)) as Hr.
  assert (Hm1 : 0 ≤ shr_m r1) by (rewrite H1; by apply shifted_nonneg).
  destruct (shr_fexp_ok (round_nearest_even (shr_m r1) (loc_of_shr_record r1)) e1 loc_Exact)
    as [H2 _]; [by etransitivity; [|apply Hr]|].
  destruct (shr_fexp _ _ _ e1 loc_Exact) as [r2 e2]. cbn [fst] in H2.
  assert (Hm2 : 0 ≤ shr_m r2) by (rewrite H2; apply shifted_nonneg; by etransitivity; [|apply Hr]).
  destruct (shr_m r2); [done| |done]. by case_match.
Qed.

Lemma f32_add_nonneg x y : f32_nonneg x → f32_nonneg y → f32_nonneg (f32_add x y).
Proof.
  destruct x as [[]|[]| |[] mx ex], y as [[]|[]| |[] my ey]; try done. intros _ _.
  unfold f32_add, SFadd. cbn [cond_Zopp]. unfold binary_normalize.
  change (Z.add ?a ?b) with (a + b). case_match; [done| |lia].
  unfold binary_round. case_match. by apply round_aux_nonneg.
Qed.

Lemma f32_mul_nonneg x y : f32_nonneg x → f32_positive y → f32_nonneg (f32_mul x y).
Proof. destruct x as [[]|[]| |[] mx ex], y as [| | |[] my ey]; try done. intros _ _. by apply round_aux_nonneg. Qed.

Lemma f32_div_nonneg x y : f32_nonneg x → f32_positive y → f32_nonneg (f32_div x y).
Proof.
  destruct x as [[]|[]| |[] mx ex], y as [| | |[] my ey]; try done. intros _ _.
  unfold f32_div, SFdiv. destruct (SFdiv_core_binary _ _ _ _ _ _) as [[q e] l] eqn:E.
  apply round_aux_nonneg. unfold SFdiv_core_binary in E.
  assert (Hq : ∀ m', 0 ≤ m' → 0 ≤ (Z.div_eucl m' (Z.pos my)).1).
  { intros m' Hm'. pose proof (Z.div_pos m' (Z.pos my) Hm' ltac:(lia)) as H. unfold Z.div in H.
    by destruct (Z.div_eucl m' (Z.pos my)). }
  revert E. match goal with |- context [Z.div_eucl ?m' _] => specialize (Hq m'); destruct (Z.div_eucl m' (Z.pos my)) end.
  cbn in Hq. intros [= <- _ _]. apply Hq. case_match; try lia. apply Z.shiftl_nonneg. lia.
Qed.

Lemma fold_add_nonneg l x : f32_nonneg x → Forall f32_nonneg l → f32_nonneg (fold_left f32_add l x).
Proof.
  intros Hx Hl. revert x Hx. induction Hl as [|y l Hy _ IH]; intros x Hx; [done|].
  apply IH. by apply f32_add_nonneg.
Qed.

(** A positive integer below [2 ^ 32] is a positive number. *)
Lemma digits_bounds m : 0 < m → 2 ^ (Zdigits2 m - 1) ≤ m < 2 ^ Zdigits2 m.
Proof.
  intros Hm. destruct m as [|p|p]; try lia. unfold Zdigits2.
  assert (E : ∀ q, digits2_pos q = Pos.size q) by (induction q; cbn; congruence).
  rewrite E. pose proof (Pos.size_gt p). pose proof (Pos.size_le p) as Hl.
  split; [|by rewrite <- Pos2Z.inj_pow].
  assert (2 ^ Z.pos (Pos.size p) ≤ 2 * Z.pos p) by (rewrite <- Pos2Z.inj_pow; lia).
  replace (2 ^ Z.pos (Pos.size p)) with (2 * 2 ^ (Z.pos (Pos.size p) - 1)) in * by (rewrite <- Z.pow_succ_r by lia; f_equal; lia).
  lia.
Qed.

Lemma digits_le m k : 0 < m → 0 ≤ k → m < 2 ^ k → Zdigits2 m ≤ k.
Proof.
  intros Hm Hk Hlt. destruct (digits_bounds m Hm) as [Hd _].
  assert (Zdigits2 m - 1 < k); [|lia]. apply (Z.pow_lt_mono_r_iff 2); lia.
Qed.

Lemma shift_bounds m e k :
  0 < m < 2 ^ k → 0 ≤ k → -149 ≤ e → 0 ≤ shift m e ≤ 0 `max` (k - 24) ∧ 0 < m / 2 ^ shift m e ≤ m.
Proof.
  intros Hm Hk He. pose proof (digits_le m k ltac:(lia) Hk ltac:(lia)) as Hd.
  destruct (digits_bounds m) as [Hlo _]; [lia|].
  assert (Hs : 0 ≤ shift m e ≤ 0 `max` (Zdigits2 m - 24)).
  { unfold shift, fexp, emin. change (Z.sub (Z.sub 3 128) 24) with (-149).
    change (Z.max (Z.sub (Zdigits2 m + e) 24) (-149)) with ((Zdigits2 m + e - 24) `max` (-149)). lia. }
  assert (H1 : 1 ≤ Zdigits2 m) by (destruct m; cbn; lia).
  split; [lia|]. split.
  - apply Z.div_str_pos. split; [lia|]. etransitivity; [|exact Hlo]. apply Z.pow_le_mono_r; lia.
  - apply Z.div_le_upper_bound; [lia|]. assert (1 ≤ 2 ^ shift m e) by (apply (Z.pow_le_mono_r 2 0); lia). nia.
Qed.

Lemma round_aux_positive m e :
  0 < m < 2 ^ 32 → -149 ≤ e ≤ 0 → f32_positive (binary_round_aux 24 128 false m e loc_Exact).
Proof.
  intros Hm He. unfold binary_round_aux.
  destruct (shift_bounds m e 32) as [Hs1 Hb1]; [lia..|].
  destruct (shr_fexp_ok m e loc_Exact ltac:(lia)) as [H1 E1]. destruct (shr_fexp _ _ m e _) as [r1 e1]. cbn [fst snd] in H1, E1.
  pose proof (round_bounds (shr_m r1) (loc_of_shr_record r1)) as Hr.
  set (m1 := round_nearest_even (shr_m r1) _) in *. clearbody m1. rewrite H1 in Hr.
  destruct (shift_bounds m1 e1 33) as [Hs2 Hb2]; [lia..|].
  destruct (shr_fexp_ok m1 e1 loc_Exact ltac:(lia)) as [H2 E2]. destruct (shr_fexp _ _ m1 e1 _) as [r2 e2]. cbn [fst snd] in H2, E2.
  rewrite H2. destruct (m1 / 2 ^ shift m1 e1); [lia| |lia].
  change (Z.leb e2 (Z.sub 128 24)) with (e2 <=? 104). by destruct (Z.leb_spec e2 104); [|lia].
Qed.

Lemma f32_of_u32_positive m : 0 < m < 2 ^ 32 → f32_positive (f32_of_u32 m).
Proof.
  intros Hm. destruct m as [|p|p]; try lia. unfold f32_of_u32, binary_normalize, binary_round, shl_align.
  pose proof (digits_le (Z.pos p) 32 ltac:(lia) ltac:(lia) ltac:(lia)) as Hd.
  destruct (digits_bounds (Z.pos p)) as [_ Hlt]; [lia|].
  assert (1 ≤ Zdigits2 (Z.pos p)) by (cbn; lia).
  change (Z.add (Z.pos (digits2_pos p)) 0) with (Zdigits2 (Z.pos p) + 0).
  assert (Ef : Z.sub (fexp 24 128 (Zdigits2 (Z.pos p) + 0)) 0 = Zdigits2 (Z.pos p) - 24).
  { unfold fexp, emin. change (Z.sub (Z.sub 3 128) 24) with (-149).
    change (Z.max (Z.sub ?a 24) (-149)) with ((a - 24) `max` (-149)). change (Z.sub ?a 0) with (a - 0). lia. }
  rewrite Ef. destruct (Zdigits2 (Z.pos p) - 24) as [|k|k] eqn:Ek; [apply round_aux_positive; lia..|].
  assert (Ei : Z.pos (Pos.iter xO p k) = Z.pos p * 2 ^ Z.pos k).
  { clear. induction k as [|k IH] using Pos.peano_ind; [cbn; lia|]. rewrite Pos.iter_succ, Pos2Z.inj_xO, IH.
    rewrite Pos2Z.inj_succ, Z.pow_succ_r by lia. lia. }
  apply round_aux_positive.
  - rewrite Ei. split; [lia|].
    assert (Z.pos p * 2 ^ Z.pos k < 2 ^ Zdigits2 (Z.pos p) * 2 ^ Z.pos k) by (apply Z.mul_lt_mono_pos_r; lia).
    rewrite <- Z.pow_add_r in * by lia. replace (Zdigits2 (Z.pos p) + Z.pos k) with 24 in * by lia. lia.
  - change (Z.sub ?a 0) with (a - 0) in Ef. lia.
Qed.
