(* ===== verification/MmapUtil.v ===== *)
(** * MmapUtil: memory allocation ([mmap_util.hpp]) and transparent huge page
    advice ([fam_common.hpp]) *)

From S2P Require Import Prelude Platform.

(** ** [fam_common.hpp]: which regions are advised to use huge pages *)
Definition THP_VERTEX_ARRAY : Z := Z.shiftl 1 1.
Definition THP_EDGE_ARRAY : Z := Z.shiftl 1 2.
Definition THP_PROPERTY_ARRAY : Z := Z.shiftl 1 3.
Definition THP_CACHE_REGION : Z := Z.shiftl 1 4.
Definition THP_ALL : Z :=
  Z.lor (Z.lor (Z.lor THP_VERTEX_ARRAY THP_EDGE_ARRAY) THP_PROPERTY_ARRAY) THP_CACHE_REGION.

Inductive madvice := MADV_HUGEPAGE | MADV_NOHUGEPAGE.
#[export] Instance madvice_eq_dec : EqDecision madvice.
Proof. solve_decision. Defined.

Definition huge_page_select (user_select current_select : Z) : madvice :=
  if bool_decide (Z.land user_select current_select ≠ 0)
  then MADV_HUGEPAGE else MADV_NOHUGEPAGE.

Definition ENABLE_MADVISE_THP : bool := true.

(** The advice functions return the advice given, [None] when they do nothing. *)
Definition advice_edge_thp (fam_thp_flag : Z) : option madvice :=
  if negb ENABLE_MADVISE_THP then None
  else if bool_decide (Z.land fam_thp_flag THP_EDGE_ARRAY ≠ 0)
  then Some MADV_HUGEPAGE else Some MADV_NOHUGEPAGE.
Definition advice_vertex_thp (fam_thp_flag : Z) : option madvice :=
  if negb ENABLE_MADVISE_THP then None
  else if bool_decide (Z.land fam_thp_flag THP_VERTEX_ARRAY ≠ 0)
  then Some MADV_HUGEPAGE else Some MADV_NOHUGEPAGE.
Definition advice_prop_thp (fam_thp_flag : Z) : option madvice :=
  if negb ENABLE_MADVISE_THP then None
  else if bool_decide (Z.land fam_thp_flag THP_PROPERTY_ARRAY ≠ 0)
  then Some MADV_HUGEPAGE else Some MADV_NOHUGEPAGE.

(** ** [mmap_util.hpp] *)
Section mmap.
  Context {BO : Boost} {OS : Os}.

Definition HP_align : Z := Z.shiftl 1 21.

Definition aligned_size (req_size : Z) (use_HP : bool) : Z :=
  if use_HP then align_up req_size HP_align else req_size.

Record RDMA_region := {
  region_words : list Z;
  region_m_size : Z;
  region_mr : ibv_mr;
  region_advice : option madvice;
}.

(** [mmap] reports failure with [MAP_FAILED], which is not null: the test
    [if (auto ptr = mmap(...))] passes, and the registration of the invalid
    address is what fails. *)
Definition RDMA_mmap_unique (array_size : Z) (use_HP : bool) (fam_thp_flag : Z)
    : result RDMA_region :=
  let req_size := u64 (4 * array_size) in
  let asize := aligned_size req_size use_HP in
  match mmap_anon asize use_HP with
  | None => Fault (Thrown "ibv_reg_mr failed")
  | Some bytes =>
      let advice := advice_edge_thp fam_thp_flag in
      match ibv_reg_mr map_base asize with
      | None => Fault (Thrown "ibv_reg_mr failed")
      | Some mr =>
          Ok {| region_words := replicate (Z.to_nat (bytes / 4)) 0;
                region_m_size := asize; region_mr := mr; region_advice := advice |}
      end
  end.

(** [mmap_unique<T>]: [sizeof_T] bytes per element, each constructed as [T{}].
    After [MAP_FAILED] the first construction writes outside any mapping. *)
Definition mmap_unique {T} (sizeof_T : Z) (T_init : T) (array_size : Z) (use_HP : bool)
    (fam_thp_flag : Z) : result (list T * Z * option madvice) :=
  let req_size := u64 (sizeof_T * array_size) in
  let asize := aligned_size req_size use_HP in
  let bytes := default 0 (mmap_anon asize use_HP) in
  let advice := advice_vertex_thp fam_thp_flag in
  arr ← for_u32 0 array_size (λ i arr,
    if decide ((i + 1) * sizeof_T ≤ bytes) then Ok (arr ++ [T_init]) else Fault OutOfBounds) [];
  Ok (arr, asize, advice).

Lemma aligned_size_spec req use_HP :
  0 ≤ req → req ≤ aligned_size req use_HP < req + HP_align.
Proof.
  intros Hr. unfold aligned_size. change HP_align with (2 ^ 21).
  destruct use_HP; [apply align_up_spec; lia|lia].
Qed.

Lemma mmap_unique_ok {T} sizeof_T (T_init : T) n use_HP flag bytes :
  0 ≤ n → 0 < sizeof_T → sizeof_T * n < 2 ^ 64 →
  mmap_anon (aligned_size (sizeof_T * n) use_HP) use_HP = Some bytes →
  mmap_unique sizeof_T T_init n use_HP flag
  = Ok (replicate (Z.to_nat n) T_init, aligned_size (sizeof_T * n) use_HP,
        advice_vertex_thp flag).
Proof.
  intros Hn Hs Hlt Hm. unfold mmap_unique. rewrite u64_id' by nia. rewrite Hm. simpl.
  pose proof (aligned_size_spec (sizeof_T * n) use_HP ltac:(nia)).
  apply mmap_anon_pages in Hm as [Hb _].
  destruct (for_u32_inv (λ i arr, arr = replicate (Z.to_nat i) T_init) 0 n
    (λ i arr, if decide ((i + 1) * sizeof_T ≤ bytes) then Ok (arr ++ [T_init])
              else Fault OutOfBounds) []) as (arr & E & ->); [done|done| |by rewrite E].
  intros i arr Hi ->. rewrite decide_True by nia. eexists; split; [done|].
  rewrite Z2Nat.inj_add, replicate_add by lia. done.
Qed.
End mmap.
