(* ===== verification/VertexTable.v ===== *)
(** * VertexTable: the CSR index ([vertex_table.hpp], [vertex_table.cpp],
    [graph_types.hpp])

    [vertex] and [application] are the structs of [graph_types.hpp]; the
    operations are those of [vertex_table.cpp] and [get_vertex_table] of
    [vertex_table.hpp].  [csr_ok] is the well-formedness of an index with
    respect to the number of edges, [off] and [deg] its offsets and degrees, and
    [adj_of] the adjacency list it gives a vertex in an edge array. *)

From S2P Require Import Prelude Platform MmapUtil.

Record vertex := Vertex { edge_offset : Z }.
#[export] Instance vertex_inhabited : Inhabited vertex := populate (Vertex 0).
#[export] Instance vertex_eq_dec : EqDecision vertex.
Proof. solve_decision. Defined.

Record application := Application {
  num_vertices : Z;
  num_edges : Z;
  should_stop : bool;
}.

Definition new_application (t_num_vertices t_num_edges : Z) : application :=
  Application t_num_vertices t_num_edges false.

Section vertex_table.
  Context {BU : BuildOptions} {BO : Boost} {OS : Os}.

Definition get_num_verts (file : fs_node) : result Z :=
  if fs_exists file && fs_is_regular_file file then
    let file_size := fs_file_size file in
    let num_vertices := file_size / 8 in
    numeric_cast_u32 num_vertices
  else Fault (Thrown "couldn't read num verts").

Definition get_num_edges (v : Z) (table : list vertex) (total_verts total_edges : Z)
    : result Z :=
  e ← aget table v;
  let start_range := edge_offset e in
  max_exclusive ← (if bool_decide (v = u32 (total_verts - 1)) then Ok total_edges
                   else edge_offset <$> aget table (u32 (v + 1)));
  _ ← cassert (bool_decide (start_range ≤ max_exclusive));
  Ok (u32 (u64 (max_exclusive - start_range))).

Definition get_max_out_degree (vtable : list vertex) (n_vert n_edges : Z) : result Z :=
  for_u32 0 n_vert (λ v my_max,
    d ← get_num_edges v vtable n_vert n_edges;
    Ok (my_max `max` d)) 0.

(** [input.read((char* )&a, 8)]: the bytes available, at most 8, overwrite the
    low-order bytes of [a]; [gcount()] is their number. *)
Definition read_u64 (a : Z) (stream : list Z) : Z * Z * list Z :=
  let got := take 8 stream in
  (le_decode (got ++ drop (length got) (le_encode 8 a)), zlen got, drop 8 stream).

(** The body of the reading loop of [get_vertex_table]. *)
Definition read_step (i : Z) (st : Z * list Z * list vertex)
    : result (Z * list Z * list vertex) :=
  let '(a, stream, vp) := st in
  let '(a, gcount, stream) := read_u64 a stream in
  vp ← aset vp i (Vertex a);
  if bool_decide (gcount ≠ 8) then Fault (Thrown "can't read index data")
  else Ok (a, stream, vp).

Definition get_vertex_table {V} (sizeof_V : Z) (V_init : V) (file : fs_node)
    (num_vertices : Z) (use_HP : bool) (fam_thp_flag : Z) : result (list vertex * list V) :=
  if fs_exists file && fs_is_regular_file file then
    pt ← mmap_unique 8 (Vertex 0) num_vertices use_HP fam_thp_flag;
    pt2 ← mmap_unique sizeof_V V_init num_vertices use_HP fam_thp_flag;
    '(_, _, vp) ← for_u32 0 num_vertices read_step (0, fs_content file, pt.1.1);
    Ok (vp, pt2.1.1)
  else Fault (Thrown "file not found").
End vertex_table.

(** ** Specification vocabulary *)
Definition off (table : list vertex) (m v : Z) : Z :=
  if decide (v < zlen table) then edge_offset (at_ table v) else m.
Definition deg (table : list vertex) (m v : Z) : Z := off table m (v + 1) - off table m v.

Definition adj_of (table : list vertex) (m : Z) (edges : list Z) (v : Z) : list Z :=
  slice (off table m v) (deg table m v) edges.

Record csr_ok (table : list vertex) (n m : Z) : Prop := {
  csr_len : zlen table = n;
  csr_n : n < 2 ^ 32;
  csr_m : m < 2 ^ 64;
  csr_first : 0 ≤ off table m 0;
  csr_deg v : 0 ≤ v < n → 0 ≤ deg table m v < 2 ^ 32;
}.

Section csr.
  Context (table : list vertex) (n m : Z) (Hok : csr_ok table n m).
  Abbreviation off := (off table m).
  Abbreviation deg := (deg table m).

Lemma off_end : off n = m.
Proof. unfold VertexTable.off. rewrite decide_False; [done|]. destruct Hok. lia. Qed.

Lemma off_succ v : off (v + 1) = off v + deg v.
Proof. unfold VertexTable.deg. lia. Qed.

Lemma off_mono u v : 0 ≤ u ≤ v → v ≤ n → off u ≤ off v.
Proof.
  intros Hu Hv. replace v with (u + Z.of_nat (Z.to_nat (v - u))) in * by lia.
  induction (Z.to_nat (v - u)) as [|k IH]; [rewrite Z.add_0_r; lia|].
  replace (u + Z.of_nat (S k)) with (u + Z.of_nat k + 1) in * by lia.
  rewrite off_succ. pose proof (csr_deg _ _ _ Hok (u + Z.of_nat k)). lia.
Qed.

Lemma off_bounds v : 0 ≤ v ≤ n → 0 ≤ off v ≤ m.
Proof.
  intros Hv. pose proof (csr_first _ _ _ Hok). pose proof off_end.
  pose proof (off_mono 0 v). pose proof (off_mono v n). lia.
Qed.

Lemma deg_sum u v : 0 ≤ u ≤ v → v ≤ n → zsum deg (rng u v) = off v - off u.
Proof.
  intros Hu Hv. replace v with (u + Z.of_nat (Z.to_nat (v - u))) in * by lia.
  induction (Z.to_nat (v - u)) as [|k IH].
  - rewrite Z.add_0_r, rng_nil by lia. unfold zsum. simpl. lia.
  - replace (u + Z.of_nat (S k)) with (u + Z.of_nat k + 1) in * by lia.
    rewrite rng_snoc, zsum_app, IH, off_succ by lia. unfold zsum. simpl. lia.
Qed.

Lemma off_at v : 0 ≤ v < n → off v = edge_offset (at_ table v).
Proof. intros. unfold VertexTable.off. rewrite decide_True; [done|]. destruct Hok. lia. Qed.
End csr.

Section operations.
  Context {BU : BuildOptions} {BO : Boost} {OS : Os}.

Lemma get_num_edges_deg table n m v :
  csr_ok table n m → 0 ≤ v < n → get_num_edges v table n m = Ok (deg table m v).
Proof.
  intros Hok Hv. pose proof (csr_len _ _ _ Hok). pose proof (csr_n _ _ _ Hok).
  pose proof (csr_deg _ _ _ Hok v Hv). pose proof (csr_m _ _ _ Hok).
  pose proof (off_bounds _ _ _ Hok v). pose proof (off_bounds _ _ _ Hok (v + 1)).
  unfold get_num_edges. rewrite (aget_at table v) by lia. simpl.
  rewrite (u32_id' (n - 1)), (u32_id' (v + 1)) by lia.
  assert ((if bool_decide (v = n - 1) then Ok m else edge_offset <$> aget table (v + 1))
          = Ok (off table m (v + 1))) as ->.
  { case_bool_decide as E.
    - subst v. by rewrite Z.sub_add, (off_end _ _ _ Hok).
    - rewrite aget_at by lia. simpl. by rewrite (off_at _ _ _ Hok) by lia. }
  simpl. rewrite <- (off_at _ _ _ Hok) by lia.
  rewrite cassert_true by (apply bool_decide_eq_true; unfold deg in *; lia). simpl.
  f_equal. fold (deg table m v). unfold deg in *. by rewrite u64_id', u32_id' by lia.
Qed.

Lemma get_max_out_degree_spec table n m :
  csr_ok table n m → 0 ≤ n →
  ∃ d, get_max_out_degree table n m = Ok d ∧ (∀ v, 0 ≤ v < n → deg table m v ≤ d)
    ∧ 0 ≤ d < 2 ^ 32 ∧ (n = 0 ∧ d = 0 ∨ ∃ v, 0 ≤ v < n ∧ deg table m v = d).
Proof.
  intros Hok Hn. unfold get_max_out_degree.
  destruct (for_u32_inv (λ i d, (∀ v, 0 ≤ v < i → deg table m v ≤ d) ∧ 0 ≤ d < 2 ^ 32
    ∧ (i = 0 ∧ d = 0 ∨ ∃ v, 0 ≤ v < i ∧ deg table m v = d)) 0 n (λ v my_max,
    d ← get_num_edges v table n m; Ok (my_max `max` d)) 0) as (d & E & Hd & Hr & Hex).
  - done.
  - split; [lia|]. split; [lia|]. by left.
  - intros i d Hi (Hd & Hr & Hex). rewrite (get_num_edges_deg _ n m) by done. simpl.
    pose proof (csr_deg _ _ _ Hok i Hi) as Hdi. eexists; split; [done|]. split; [|split].
    + intros v Hv. destruct (decide (v = i)) as [->|]; [lia|]. specialize (Hd v). lia.
    + lia.
    + right. destruct (decide (d < deg table m i)); [exists i; lia|].
      destruct Hex as [[-> ->]|(v & Hv & Ev)]; [exists 0; lia|exists v; lia].
  - by exists d.
Qed.
End operations.

(** The adjacency lists of consecutive vertices are consecutive in the edge array. *)
Lemma adj_concat table n m edges u v :
  csr_ok table n m → 0 ≤ u ≤ v → v ≤ n →
  (rng u v ≫= adj_of table m edges)
  = slice (off table m u) (off table m v - off table m u) edges.
Proof.
  intros Hok Hu Hv. replace v with (u + Z.of_nat (Z.to_nat (v - u))) in * by lia.
  induction (Z.to_nat (v - u)) as [|k IH].
  - rewrite Z.add_0_r, rng_nil, Z.sub_diag by lia. done.
  - replace (u + Z.of_nat (S k)) with (u + Z.of_nat k + 1) in * by lia.
    pose proof (csr_deg _ _ _ Hok (u + Z.of_nat k) ltac:(lia)).
    pose proof (off_mono _ _ _ Hok u (u + Z.of_nat k) ltac:(lia) ltac:(lia)).
    pose proof (off_bounds _ _ _ Hok u ltac:(lia)).
    rewrite rng_snoc, bind_app, IH, bind_singleton, off_succ by lia. unfold adj_of.
    replace (off table m (u + Z.of_nat k) + deg table m (u + Z.of_nat k) - off table m u)
      with ((off table m (u + Z.of_nat k) - off table m u) + deg table m (u + Z.of_nat k)) by lia.
    rewrite slice_app by lia. do 2 f_equal. lia.
Qed.

Lemma zlen_adj table n m edges v :
  csr_ok table n m → zlen edges = m → 0 ≤ v < n →
  zlen (adj_of table m edges v) = deg table m v.
Proof.
  intros Hok Hm Hv. pose proof (csr_deg _ _ _ Hok v Hv).
  pose proof (off_bounds _ _ _ Hok v). pose proof (off_bounds _ _ _ Hok (v + 1)).
  apply zlen_slice; unfold deg in *; lia.
Qed.

(** ** Reading the index file *)
Section reading.
  Context {BU : BuildOptions} {BO : Boost} {OS : Os}.

Lemma read_u64_full a b stream :
  in_u64 b → read_u64 a (le_encode 8 b ++ stream) = (b, 8, stream).
Proof.
  intros Hb. unfold read_u64.
  assert (length (le_encode 8 b) = 8%nat) as Hl by apply length_le_encode.
  rewrite take_app_length', drop_app_length' by done. rewrite Hl, drop_ge, app_nil_r
    by (by rewrite length_le_encode).
  rewrite le_decode_encode by exact Hb. unfold zlen. by rewrite Hl.
Qed.

Lemma read_loop_ok (offs : list Z) rest (vp : list vertex) :
  Forall in_u64 offs → zlen vp = zlen offs →
  ∃ a, for_u32 0 (zlen offs) read_step (0, le_words 8 offs ++ rest, vp)
       = Ok (a, rest, Vertex <$> offs).
Proof.
  intros Hoffs Hvp. unfold le_words.
  destruct (for_u32_inv (λ i st, st.1.2 = (drop (Z.to_nat i) offs ≫= le_encode 8) ++ rest
    ∧ zlen st.2 = zlen offs ∧ take (Z.to_nat i) st.2 = Vertex <$> take (Z.to_nat i) offs)
    0 (zlen offs) read_step (0, (offs ≫= le_encode 8) ++ rest, vp))
    as ([[a s] vp'] & E & Hs & Hl & Ht).
  - apply zlen_nonneg.
  - simpl. by rewrite drop_0.
  - intros i [[a s] v] Hi (Hs & Hl & Ht). simpl in Hs, Hl, Ht.
    destruct (lookup_lt_is_Some_2 offs (Z.to_nat i)) as [b Hb]; [unfold zlen in *; lia|].
    rewrite (drop_S _ _ _ Hb), bind_cons, <- app_assoc in Hs. subst s.
    unfold read_step. rewrite read_u64_full by (by eapply Forall_lookup_1). cbv beta iota zeta. rewrite aset_ok, bind_ok by lia. cbv beta.
    rewrite bool_decide_eq_false_2 by lia.
    eexists; split; [done|]. simpl. rewrite Z2Nat.inj_add by lia. simpl. rewrite Nat.add_1_r.
    split; [done|]. split; [by rewrite zlen_insert|].
    rewrite (take_S_r _ _ (Vertex b)), (take_S_r offs _ b), fmap_app
      by (done || apply list_lookup_insert_eq; unfold zlen in *; lia).
    by rewrite take_insert_ge, Ht by lia.
  - simpl in Hs, Hl, Ht. exists a. rewrite E. unfold zlen in *. rewrite Nat2Z.id in *.
    rewrite drop_ge in Hs by lia. rewrite !take_ge in Ht by lia. by subst.
Qed.

Context {V : Type} (sizeof_V : Z) (V_init : V) (use_HP : bool) (flag : Z).

(** Both tables could be mapped. *)
Definition tables_mapped (n : Z) : Prop :=
  0 < sizeof_V ∧ 8 * n < 2 ^ 64 ∧ sizeof_V * n < 2 ^ 64
  ∧ is_Some (mmap_anon (aligned_size (8 * n) use_HP) use_HP)
  ∧ is_Some (mmap_anon (aligned_size (sizeof_V * n) use_HP) use_HP).

Lemma get_vertex_table_content n content :
  0 ≤ n → tables_mapped n →
  get_vertex_table sizeof_V V_init (Regular content) n use_HP flag
  = '(_, _, vp) ← for_u32 0 n read_step
      (0, content, replicate (Z.to_nat n) (Vertex 0));
    Ok (vp, replicate (Z.to_nat n) V_init).
Proof.
  intros Hn (Hs & H8 & HV & [b1 E1] & [b2 E2]). unfold get_vertex_table. simpl.
  rewrite (mmap_unique_ok 8 _ _ _ _ b1), (mmap_unique_ok sizeof_V _ _ _ _ b2) by (done || lia).
  done.
Qed.

Lemma read_loop_short (content : list Z) n (vp : list vertex) :
  zlen content < 8 * n → zlen vp = n →
  for_u32 0 n read_step (0, content, vp) = Fault (Thrown "can't read index data").
Proof.
  intros Hshort Hvp. set (q := zlen content / 8).
  pose proof (zlen_nonneg content).
  pose proof (Z.div_mod (zlen content) 8 ltac:(lia)).
  pose proof (Z.mod_pos_bound (zlen content) 8 ltac:(lia)).
  assert (0 ≤ q < n) by (unfold q; lia).
  destruct (for_u32_inv (λ i st, st.1.2 = drop (8 * Z.to_nat i) content ∧ zlen st.2 = n)
    0 q read_step (0, content, vp)) as ([[a s] vp'] & E & Hs & Hl); [lia|done| |].
  - intros i [[a s] v] Hi [Hs Hl]. simpl in Hs, Hl. subst s.
    unfold read_step, read_u64. cbv beta iota zeta.
    rewrite aset_ok, bind_ok by lia. cbv beta. rewrite bool_decide_eq_false_2.
    + eexists; split; [done|]. simpl. rewrite drop_drop, zlen_insert. split; [f_equal; lia|done].
    + unfold zlen in *. rewrite length_take, length_drop. lia.
  - unfold for_u32 in *. rewrite (rng_app 0 q n), (rng_cons q n), forM_app, E by lia.
    simpl in Hs, Hl. subst s. rewrite bind_ok. simpl forM at 1.
    unfold read_step at 1, read_u64. cbv beta iota zeta.
    rewrite aset_ok, bind_ok by lia. cbv beta. rewrite bool_decide_eq_true_2; [done|].
    unfold zlen in *. rewrite length_take, length_drop. lia.
Qed.

(** C29: the client reads back the index that was written.  From a file of
    64-bit little-endian offsets it determines the number of vertices and loads
    exactly the offsets, together with a table of initial values; a file that is
    too short for the requested number of vertices, also by a fraction of an
    entry, and a file that does not exist, are refused with an exception. *)
Theorem index_file_roundtrip offs :
  Forall in_u64 offs → zlen offs < 2 ^ 32 → tables_mapped (zlen offs) →
  get_num_verts (Regular (le_words 8 offs)) = Ok (zlen offs)
  ∧ get_vertex_table sizeof_V V_init (Regular (le_words 8 offs)) (zlen offs) use_HP flag
    = Ok (Vertex <$> offs, replicate (length offs) V_init)
  ∧ (∀ n rest, zlen offs < n → zlen rest < 8 → tables_mapped n →
       get_vertex_table sizeof_V V_init (Regular (le_words 8 offs ++ rest)) n use_HP flag
       = Fault (Thrown "can't read index data"))
  ∧ ∀ n, get_vertex_table sizeof_V V_init Missing n use_HP flag = Fault (Thrown "file not found").
Proof.
  intros Hoffs H32 Hmap. pose proof (zlen_nonneg offs).
  assert (Hz : zlen (le_words 8 offs) = 8 * zlen offs) by (unfold zlen; rewrite length_le_words; lia).
  split; [|split; [|split; [|done]]].
  - unfold get_num_verts. cbn [fs_exists fs_is_regular_file andb fs_file_size fs_content].
    unfold fs_file_size. cbn [fs_content]. rewrite Hz, Z.mul_comm, Z.div_mul by lia.
    apply numeric_cast_u32_ok. unfold in_u32. lia.
  - rewrite get_vertex_table_content by done.
    destruct (read_loop_ok offs [] (replicate (Z.to_nat (zlen offs)) (Vertex 0))) as (a & E);
      [done|unfold zlen; rewrite length_replicate; lia|].
    rewrite app_nil_r in E. rewrite E. unfold zlen. by rewrite Nat2Z.id.
  - intros n rest Hn Hr Hmap'. rewrite get_vertex_table_content by (done || lia).
    rewrite read_loop_short; [done|rewrite zlen_app; lia|unfold zlen in *; rewrite length_replicate; lia].
Qed.
End reading.

(** out-degrees are those of the graph.  In a well-formed index with
    edges [edges], [get_num_edges] is the length of the adjacency list for every
    vertex, the last one included; the lists of all vertices, one after the
    other, are the edges from the first offset on; and [get_max_out_degree] is
    the largest of the lengths. *)
Theorem out_degrees_correct `{BuildOptions} table n m edges :
  csr_ok table n m → zlen edges = m → 0 < n →
  (∀ v, 0 ≤ v < n → get_num_edges v table n m = Ok (zlen (adj_of table m edges v)))
  ∧ (rng 0 n ≫= adj_of table m edges) = slice (off table m 0) (m - off table m 0) edges
  ∧ ∃ d, get_max_out_degree table n m = Ok d
      ∧ (∀ v, 0 ≤ v < n → zlen (adj_of table m edges v) ≤ d)
      ∧ ∃ v, 0 ≤ v < n ∧ zlen (adj_of table m edges v) = d.
Proof.
  intros Hok Hm Hn.
  assert (Hz : ∀ v, 0 ≤ v < n → zlen (adj_of table m edges v) = deg table m v)
    by (intros; by apply (zlen_adj _ n)).
  split; [intros v Hv; by rewrite Hz, get_num_edges_deg|]. split.
  - rewrite (adj_concat _ n) by (done || lia). by rewrite (off_end _ _ _ Hok).
  - destruct (get_max_out_degree_spec table n m Hok) as (d & E & Hle & _ & Hex); [lia|].
    exists d. split; [done|]. split; [intros v Hv; rewrite Hz by done; by apply Hle|].
    destruct Hex as [[? _]|(v & Hv & Hd)]; [lia|]. exists v. by rewrite Hz.
Qed.
