(* ===== verification/Bitmap.v ===== *)
(** * Bitmap: the vertex frontiers ([class Bitmap] of [bitmap.hpp])

    The bits live in an array of 64-bit words; the number of set bits is kept
    in per-thread counters that [set_bit] increments.  [bm_get] is the set of
    vertices a bitmap denotes, [bm_wf] says that the counters agree with it, and
    the lemmas show that every operation implements the set operation it is
    named after, on every thread and under every schedule. *)

From S2P Require Import Prelude Platform MmapUtil.

Section bitmap.
  Context {BU : BuildOptions} {BO : Boost} {OS : Os} {CB : Combinable} {SC : Scheduler}.

Definition WORD_OFFSET (i : Z) : Z := Z.shiftr i 6.
Definition BIT_OFFSET (i : Z) : Z := Z.land i 63.

Record Bitmap := {
  size : Z;
  data : list Z;
  frontier_size : combinable;
  collide_count : Z;
  no_collide_count : Z;
  mmap_length : Z;
  bm_advice : option madvice;
}.

(** [set_data] and the like are the assignments of the methods below. *)
Definition set_data (d : list Z) (b : Bitmap) : Bitmap :=
  {| size := size b; data := d; frontier_size := frontier_size b;
     collide_count := collide_count b; no_collide_count := no_collide_count b;
     mmap_length := mmap_length b; bm_advice := bm_advice b |}.
Definition set_counters (fs : combinable) (cc ncc : Z) (b : Bitmap) : Bitmap :=
  {| size := size b; data := data b; frontier_size := fs;
     collide_count := cc; no_collide_count := ncc;
     mmap_length := mmap_length b; bm_advice := bm_advice b |}.

(** The constructor maps [t_size] bytes; a failed [mmap] is not checked and
    leaves no accessible word. *)
Definition Bitmap_new (t_size : Z) (use_HP : bool) (fam_thp_flag : Z) : Bitmap :=
  let asize := aligned_size t_size use_HP in
  let bytes := default 0 (mmap_anon asize use_HP) in
  {| size := t_size; data := replicate (Z.to_nat (bytes / 8)) 0;
     frontier_size := comb_new; collide_count := 0; no_collide_count := 0;
     mmap_length := asize; bm_advice := advice_prop_thp fam_thp_flag |}.

Definition bm_range_end (b : Bitmap) : Z := u32 (WORD_OFFSET (size b) + 1).

Definition clear (k : nat) (b : Bitmap) : result Bitmap :=
  d ← parallel_for k 0 (bm_range_end b) (λ _ lo hi, for_u32 lo hi (λ i d, aset d i 0)) (data b);
  Ok (set_counters comb_new 0 0 (set_data d b)).

Definition set_all (k t : nat) (b : Bitmap) : result Bitmap :=
  d ← parallel_for k 0 (bm_range_end b)
        (λ _ lo hi, for_u32 lo hi (λ i d, aset d i 0xffffffffffffffff)) (data b);
  Ok (set_counters (comb_store t (size b) (frontier_size b)) (collide_count b)
        (no_collide_count b) (set_data d b)).

Definition get_bit (b : Bitmap) (i : Z) : result Z :=
  _ ← cassert (bool_decide (i < size b));
  w ← aget (data b) (WORD_OFFSET i);
  Ok (Z.land w (Z.shiftl 1 (BIT_OFFSET i))).

Definition set_bit (t : nat) (i : Z) (b : Bitmap) : result (bool * Bitmap) :=
  _ ← cassert (bool_decide (i < size b));
  prev ← aget (data b) (WORD_OFFSET i);
  d ← aset (data b) (WORD_OFFSET i) (Z.lor prev (Z.shiftl 1 (BIT_OFFSET i)));
  let b := set_data d b in
  let was_unset := bool_decide (Z.land prev (Z.shiftl 1 (BIT_OFFSET i)) = 0) in
  if was_unset
  then Ok (was_unset, set_counters (comb_incr t (frontier_size b)) (collide_count b)
                        (u32 (no_collide_count b + 1)) b)
  else Ok (was_unset, set_counters (frontier_size b) (u32 (collide_count b + 1))
                        (no_collide_count b) b).

Definition num_set (b : Bitmap) : Z := comb_sum (frontier_size b).
Definition is_empty (b : Bitmap) : bool := bool_decide (num_set b = 0).

(** ** The denoted set *)
Definition bm_get (b : Bitmap) (i : Z) : bool :=
  Z.testbit (at_ (data b) (i / 64)) (i mod 64).

Definition bm_count (b : Bitmap) : Z := zcount (bm_get b) (rng 0 (size b)).

Record bm_ok (b : Bitmap) : Prop := {
  bm_size : in_u32 (size b);
  bm_data : size b / 64 < zlen (data b);
}.

Definition bm_wf (b : Bitmap) : Prop := bm_ok b ∧ num_set b = bm_count b.

(** Same size and same bits: the bitmaps a program cannot tell apart by
    [get_bit]; the counters may be distributed differently over the threads. *)
#[export] Instance bitmap_equiv : Equiv Bitmap := λ b1 b2,
  size b1 = size b2 ∧ ∀ i, 0 ≤ i < size b1 → bm_get b1 i = bm_get b2 i.

#[export] Instance bitmap_equivalence : Equivalence (≡@{Bitmap}).
Proof.
  split.
  - intros b. by split.
  - intros b1 b2 [Hs Hb]. split; [done|]. intros i Hi. symmetry. apply Hb. by rewrite Hs.
  - intros b1 b2 b3 [Hs Hb] [Hs' Hb']. split; [congruence|].
    intros i Hi. rewrite Hb by done. apply Hb'. by rewrite <- Hs.
Qed.

#[export] Instance bm_count_proper : Proper ((≡) ==> (=)) bm_count.
Proof.
  intros b1 b2 [Hs Hb]. unfold bm_count. rewrite Hs. apply zsum_ext.
  intros i Hi%elem_of_rng. rewrite Hb by lia. done.
Qed.

Lemma num_set_proper b1 b2 : bm_wf b1 → bm_wf b2 → b1 ≡ b2 → num_set b1 = num_set b2.
Proof. intros [_ H1] [_ H2] E. by rewrite H1, H2, E. Qed.

Lemma WORD_OFFSET_div i : WORD_OFFSET i = i / 64.
Proof. unfold WORD_OFFSET. by rewrite Z.shiftr_div_pow2. Qed.
Lemma BIT_OFFSET_mod i : BIT_OFFSET i = i mod 64.
Proof. unfold BIT_OFFSET. change 63 with (Z.ones 6). by rewrite Z.land_ones. Qed.

Lemma land_bit w k :
  0 ≤ k → Z.land w (Z.shiftl 1 k) = if Z.testbit w k then 2 ^ k else 0.
Proof.
  intros Hk. rewrite Z.shiftl_1_l. apply Z.bits_inj'. intros n Hn.
  rewrite Z.land_spec, Z.pow2_bits_eqb by done.
  destruct (Z.eqb_spec k n) as [->|Hne].
  - rewrite andb_true_r. destruct (Z.testbit w n); [by rewrite Z.pow2_bits_true|by rewrite Z.bits_0].
  - rewrite andb_false_r. destruct (Z.testbit w k); [by rewrite Z.pow2_bits_false|by rewrite Z.bits_0].
Qed.

Lemma bm_word_range b i : bm_ok b → 0 ≤ i < size b → 0 ≤ i / 64 < zlen (data b).
Proof.
  intros [_ Hd] Hi. split; [apply Z.div_pos; lia|].
  pose proof (Z.div_le_mono i (size b) 64). lia.
Qed.

Lemma get_bit_spec b i :
  bm_ok b → 0 ≤ i < size b →
  get_bit b i = Ok (if bm_get b i then 2 ^ (i mod 64) else 0).
Proof.
  intros Hok Hi. pose proof (bm_word_range b i Hok Hi). unfold get_bit.
  rewrite cassert_true by (apply bool_decide_eq_true; lia). rewrite bind_ok.
  rewrite WORD_OFFSET_div, BIT_OFFSET_mod, aget_at by done. rewrite bind_ok.
  rewrite land_bit by (apply Z.mod_pos_bound; lia). done.
Qed.

Lemma get_bit_truth b i :
  bm_ok b → 0 ≤ i < size b →
  ∃ w, get_bit b i = Ok w ∧ bool_decide (w ≠ 0) = bm_get b i.
Proof.
  intros Hok Hi. eexists; split; [by apply get_bit_spec|].
  assert (0 < 2 ^ (i mod 64)) by (apply Z.pow_pos_nonneg; [|apply Z.mod_pos_bound]; lia).
  destruct (bm_get b i); [apply bool_decide_eq_true|apply bool_decide_eq_false]; lia.
Qed.

(** Bits after a store of one word. *)
Lemma bm_get_store b i w j :
  bm_ok b → 0 ≤ i < size b → 0 ≤ j →
  bm_get (set_data (<[Z.to_nat (i / 64) := w]> (data b)) b) j
  = if decide (i / 64 = j / 64) then Z.testbit w (j mod 64) else bm_get b j.
Proof.
  intros Hok Hi Hj. pose proof (bm_word_range b i Hok Hi). unfold bm_get. simpl.
  rewrite at_insert by (done || apply Z.div_pos; lia). by case_decide.
Qed.

Lemma bm_get_set b i j :
  bm_ok b → 0 ≤ i < size b → 0 ≤ j →
  bm_get (set_data (<[Z.to_nat (i / 64) := Z.lor (at_ (data b) (i / 64)) (Z.shiftl 1 (i mod 64))]>
                      (data b)) b) j
  = bool_decide (j = i) || bm_get b j.
Proof.
  intros Hok Hi Hj. rewrite bm_get_store by done. case_decide as E.
  - rewrite Z.lor_spec, Z.shiftl_1_l.
    pose proof (Z.mod_pos_bound j 64 ltac:(lia)). pose proof (Z.mod_pos_bound i 64 ltac:(lia)).
    pose proof (Z.div_mod i 64 ltac:(lia)). pose proof (Z.div_mod j 64 ltac:(lia)).
    rewrite Z.pow2_bits_eqb by lia. unfold bm_get. rewrite E, orb_comm. f_equal.
    case_bool_decide; [subst; apply Z.eqb_refl|apply Z.eqb_neq; lia].
  - rewrite bool_decide_eq_false_2; [done|]. by intros ->.
Qed.

Lemma bm_count_set b b' i :
  size b' = size b → 0 ≤ i < size b →
  (∀ j, 0 ≤ j < size b → bm_get b' j = bool_decide (j = i) || bm_get b j) →
  bm_count b' = bm_count b + (if bm_get b i then 0 else 1).
Proof.
  intros Hs Hi Hb. unfold bm_count, zcount. rewrite Hs.
  rewrite (zsum_update (λ j, Z.b2z (bm_get b j)) _ _ i).
  - rewrite Hb, bool_decide_eq_true_2 by done. simpl. destruct (bm_get b i); simpl; lia.
  - apply NoDup_rng.
  - by apply elem_of_rng.
  - intros j Hj%elem_of_rng Hne. rewrite Hb by done. by rewrite bool_decide_eq_false_2.
Qed.

Lemma bm_count_bounds b : bm_ok b → 0 ≤ bm_count b < 2 ^ 32.
Proof.
  intros [[? ?] _]. pose proof (zcount_bounds (bm_get b) (rng 0 (size b))).
  unfold bm_count, zlen in *. rewrite length_rng in *. lia.
Qed.

Lemma set_bit_spec t i b :
  bm_wf b → 0 ≤ i < size b →
  ∃ b', set_bit t i b = Ok (negb (bm_get b i), b') ∧ bm_wf b' ∧ size b' = size b
    ∧ ∀ j, 0 ≤ j → bm_get b' j = bool_decide (j = i) || bm_get b j.
Proof.
  intros [Hok Hn] Hi. pose proof (bm_word_range b i Hok Hi) as Hw. unfold set_bit.
  rewrite cassert_true by (apply bool_decide_eq_true; lia). rewrite bind_ok.
  rewrite WORD_OFFSET_div, BIT_OFFSET_mod, aget_at by done. rewrite bind_ok.
  rewrite aset_ok by done. rewrite bind_ok.
  pose proof (λ j, bm_get_set b i j Hok Hi) as Hget.
  set (d := <[Z.to_nat (i / 64):=_]> (data b)) in *. cbv zeta.
  assert (0 ≤ i mod 64) by (apply Z.mod_pos_bound; lia).
  rewrite land_bit by done. fold (bm_get b i).
  assert (bool_decide ((if bm_get b i then 2 ^ (i mod 64) else 0) = 0) = negb (bm_get b i)) as ->.
  { pose proof (Z.pow_pos_nonneg 2 (i mod 64)).
    destruct (bm_get b i); [apply bool_decide_eq_false|apply bool_decide_eq_true]; simpl; lia. }
  assert (Hok' : bm_ok (set_data d b)).
  { destruct Hok. split; simpl; [done|]. unfold d. by rewrite zlen_insert. }
  pose proof (bm_count_set b (set_data d b) i eq_refl Hi (λ j Hj, Hget j ltac:(lia))) as Hc.
  destruct (bm_get b i) eqn:E; simpl negb; cbv iota; (eexists; split; [done|]);
    (split; [split; [by destruct Hok'|]|by split]).
  - change (num_set b = bm_count (set_data d b)). rewrite Hc, Hn. lia.
  - unfold num_set. simpl. rewrite comb_sum_incr. fold (num_set b).
    change (bm_count _) with (bm_count (set_data d b)).
    rewrite Hc, Hn, u32_id'; [done|].
    pose proof (bm_count_bounds b Hok). pose proof (bm_count_bounds _ Hok'). lia.
Qed.

Lemma is_empty_spec b :
  bm_wf b → is_empty b = true ↔ ∀ i, 0 ≤ i < size b → bm_get b i = false.
Proof.
  intros [_ Hn]. unfold is_empty. rewrite bool_decide_eq_true, Hn. unfold bm_count.
  rewrite zcount_zero. by setoid_rewrite elem_of_rng.
Qed.

Lemma bm_range_end_spec b : bm_ok b → bm_range_end b = size b / 64 + 1.
Proof.
  intros [[??] _]. unfold bm_range_end. rewrite WORD_OFFSET_div.
  pose proof (Z.div_lt_upper_bound (size b) 64 (2 ^ 32 - 1)).
  pose proof (Z.div_pos (size b) 64). rewrite u32_id'; lia.
Qed.

(** Filling the words of the bitmap's range, whatever the schedule. *)
Lemma fill_spec k b w :
  bm_ok b →
  ∃ d, parallel_for k 0 (bm_range_end b) (λ _ lo hi, for_u32 lo hi (λ i d, aset d i w)) (data b)
         = Ok d
    ∧ zlen d = zlen (data b) ∧ ∀ i, 0 ≤ i ≤ size b / 64 → at_ d i = w.
Proof.
  intros Hok. rewrite (bm_range_end_spec b Hok). destruct Hok as [_ Hd].
  destruct (parallel_for_inv (λ done d, zlen d = zlen (data b) ∧ ∀ i, i ∈ done → at_ d i = w)
    k 0 (size b / 64 + 1) (λ _ i d, aset d i w) (data b)) as (d & done & E & Hp & Hl & Hw).
  - split; [done|set_solver].
  - intros _ done i d Hnd Hi Hdone [Hl Hw]. rewrite aset_ok by lia. eexists; split; [done|].
    rewrite zlen_insert. split; [done|]. intros j Hj.
    assert (0 ≤ j) by (apply elem_of_cons in Hj as [->|Hj]; [lia|apply Hdone in Hj; lia]).
    rewrite at_insert by lia. case_decide; [done|]. apply Hw. set_solver.
  - exists d. split; [done|]. split; [done|]. intros i Hi. apply Hw.
    rewrite Hp. apply elem_of_rng. lia.
Qed.

Lemma bm_get_fill b d w i :
  (∀ i, 0 ≤ i ≤ size b / 64 → at_ d i = w) → 0 ≤ i < size b →
  bm_get (set_data d b) i = Z.testbit w (i mod 64).
Proof.
  intros Hd Hi. unfold bm_get. simpl. rewrite Hd; [done|].
  split; [apply Z.div_pos; lia|apply Z.div_le_mono; lia].
Qed.

Lemma clear_spec k b :
  bm_ok b →
  ∃ b', clear k b = Ok b' ∧ bm_wf b' ∧ size b' = size b
    ∧ ∀ i, 0 ≤ i < size b → bm_get b' i = false.
Proof.
  intros Hok. destruct (fill_spec k b 0 Hok) as (d & E & Hl & Hd).
  unfold clear. rewrite E, bind_ok. eexists; split; [done|].
  assert (Hz : ∀ i, 0 ≤ i < size b → bm_get (set_data d b) i = false).
  { intros i Hi. rewrite (bm_get_fill b d 0) by done. apply Z.bits_0. }
  split; [|by split]. split; [destruct Hok; split; simpl; [done|lia]|].
  transitivity 0; [apply comb_sum_new|]. symmetry. apply zcount_zero.
  intros i Hi%elem_of_rng. by apply Hz.
Qed.

Lemma testbit_all_ones j : 0 ≤ j < 64 → Z.testbit 0xffffffffffffffff j = true.
Proof. intros. change 0xffffffffffffffff with (Z.ones 64). apply Z.ones_spec_low. lia. Qed.

(** [set_all] overwrites the counter of the calling thread only, so the count
    is right when no other thread has a pending count. *)
Lemma set_all_spec k t b :
  bm_ok b → comb_sum (frontier_size b) = comb_local t (frontier_size b) →
  ∃ b', set_all k t b = Ok b' ∧ bm_wf b' ∧ size b' = size b
    ∧ ∀ i, 0 ≤ i < size b → bm_get b' i = true.
Proof.
  intros Hok Hloc. destruct (fill_spec k b 0xffffffffffffffff Hok) as (d & E & Hl & Hd).
  unfold set_all. rewrite E, bind_ok. eexists; split; [done|].
  assert (Hz : ∀ i, 0 ≤ i < size b → bm_get (set_data d b) i = true).
  { intros i Hi. rewrite (bm_get_fill b d 0xffffffffffffffff) by done.
    apply testbit_all_ones, Z.mod_pos_bound. lia. }
  split; [|by split]. split; [destruct Hok; split; simpl; [done|lia]|].
  pose proof (bm_size b Hok) as [??].
  unfold num_set. simpl. rewrite comb_sum_store, Hloc, u32_id' by lia.
  transitivity (zlen (rng 0 (size b))); [unfold zlen; rewrite length_rng; lia|].
  unfold bm_count, zcount. simpl.
  rewrite (zsum_ext _ (λ _, 1)) by (intros i Hi%elem_of_rng; change (bm_get _ i) with (bm_get (set_data d b) i); by rewrite Hz).
  unfold zsum, zlen. induction (rng 0 (size b)); simpl; lia.
Qed.

(** The mapped bytes hold every word the methods access, although the
    constructor asks for one byte per vertex rather than one bit. *)
Lemma Bitmap_new_spec n use_HP flag :
  0 < n < 2 ^ 32 → is_Some (mmap_anon (aligned_size n use_HP) use_HP) →
  bm_wf (Bitmap_new n use_HP flag) ∧ size (Bitmap_new n use_HP flag) = n
  ∧ frontier_size (Bitmap_new n use_HP flag) = comb_new
  ∧ (∀ i, 0 ≤ i < n → bm_get (Bitmap_new n use_HP flag) i = false).
Proof.
  intros Hn [bytes Hm].
  assert (Hok : bm_ok (Bitmap_new n use_HP flag)).
  { split; [unfold in_u32; simpl; lia|]. simpl. rewrite Hm. simpl.
    pose proof (aligned_size_spec n use_HP ltac:(lia)) as Ha.
    destruct (mmap_anon_pages _ _ _ Hm) as [Hb [q ->]].
    unfold zlen. rewrite length_replicate.
    replace (q * 4096) with (q * 512 * 8) in * by lia. rewrite Z.div_mul by lia.
    pose proof (Z.div_mod n 64). pose proof (Z.mod_pos_bound n 64). lia. }
  assert (Hz : ∀ i, 0 ≤ i < n → bm_get (Bitmap_new n use_HP flag) i = false).
  { intros i Hi. pose proof (bm_word_range _ i Hok Hi) as Hw. unfold bm_get, zlen in *. simpl in *.
    unfold at_. rewrite lookup_total_replicate_2; [apply Z.bits_0|].
    rewrite length_replicate in Hw. lia. }
  split; [|by repeat split]. split; [done|]. unfold num_set. simpl. rewrite comb_sum_new.
  symmetry. apply zcount_zero. intros i Hi%elem_of_rng. by apply Hz.
Qed.

(** Any sequence of [set_bit] calls, by any threads, adds exactly the given
    vertices to the set and leaves the count right: the counters count every
    vertex once, however often and by whomever it is set. *)
Definition set_bits (l : list (nat * Z)) (b : Bitmap) : result Bitmap :=
  forM l (λ ti b, snd <$> set_bit ti.1 ti.2 b) b.

Lemma set_bits_spec l b :
  bm_wf b → (∀ ti, ti ∈ l → 0 ≤ ti.2 < size b) →
  ∃ b', set_bits l b = Ok b' ∧ bm_wf b' ∧ size b' = size b
    ∧ ∀ j, 0 ≤ j → bm_get b' j = bool_decide (j ∈ l.*2) || bm_get b j.
Proof.
  intros Hwf Hl. unfold set_bits.
  destruct (forM_prefix_inv (λ pre b', bm_wf b' ∧ size b' = size b
     ∧ ∀ j, 0 ≤ j → bm_get b' j = bool_decide (j ∈ pre.*2) || bm_get b j) l
     (λ ti b, snd <$> set_bit ti.1 ti.2 b) b) as (b' & E & H); [| |by exists b'].
  - done.
  - intros pre [t i] suf c -> (Hc & Hs & Hg).
    destruct (set_bit_spec t i c Hc) as (c' & E & Hc' & Hs' & Hg').
    { rewrite Hs. apply (Hl (t, i)). set_solver. }
    simpl. rewrite E. simpl. eexists; split; [done|]. split; [done|]. split; [congruence|].
    intros j Hj. rewrite Hg', Hg by done. rewrite fmap_app, orb_assoc. f_equal. simpl.
    repeat case_bool_decide; set_solver.
Qed.

(** a frontier is a set with a cardinality, whoever fills it.  Any
    sequence of [set_bit] calls by any threads succeeds and adds exactly the
    given vertices: [get_bit] then tells the members, [num_set] is their number
    and [is_empty] whether there is none.  Another interleaving of the calls, or
    another assignment to threads, gives an equivalent bitmap and the same count. *)
Theorem set_bits_any_order l b :
  bm_wf b → (∀ ti, ti ∈ l → 0 ≤ ti.2 < size b) →
  ∃ b', set_bits l b = Ok b' ∧ bm_wf b'
    ∧ let mem j := bool_decide (j ∈ l.*2) || bm_get b j in
      (∀ j, 0 ≤ j < size b → get_bit b' j = Ok (if mem j then 2 ^ (j mod 64) else 0))
    ∧ num_set b' = zcount mem (rng 0 (size b))
    ∧ (is_empty b' = true ↔ ∀ j, 0 ≤ j < size b → mem j = false)
    ∧ ∀ l', l'.*2 ≡ₚ l.*2 →
        ∃ b2, set_bits l' b = Ok b2 ∧ bm_wf b2 ∧ b2 ≡ b' ∧ num_set b2 = num_set b'.
Proof.
  intros Hwf Hl. destruct (set_bits_spec l b Hwf Hl) as (b' & E & Hwf' & Hs & Hg).
  exists b'. split; [done|]. split; [done|]. cbv zeta.
  split; [|split; [|split]].
  - intros j Hj. rewrite get_bit_spec by (apply Hwf' || lia). by rewrite Hg by lia.
  - destruct Hwf' as [_ ->]. unfold bm_count, zcount. rewrite Hs. apply zsum_ext.
    intros j Hj%elem_of_rng. by rewrite Hg by lia.
  - rewrite is_empty_spec, Hs by done. split; intros H j Hj; [rewrite <- Hg by lia|rewrite Hg by lia]; by apply H.
  - intros l' Hp. destruct (set_bits_spec l' b Hwf) as (b2 & E2 & Hwf2 & Hs2 & Hg2).
    { intros ti Hti. assert (ti.2 ∈ l.*2) as Hin by (rewrite <- Hp; by apply list_elem_of_fmap_2).
      apply list_elem_of_fmap in Hin as (ti' & -> & Hin). by apply Hl. }
    assert (b2 ≡ b') as Heq.
    { split; [congruence|]. intros j Hj. rewrite Hg2, Hg by lia. do 2 f_equal.
      apply bool_decide_ext. by rewrite Hp. }
    exists b2. split; [done|]. split; [done|]. split; [done|]. by apply num_set_proper.
Qed.

(** C27: a frontier is reset correctly, under every schedule.  A new bitmap
    is empty; [clear] empties a bitmap whatever its counters say; [set_all]
    fills it, with the right count if no thread but the calling one has pending
    counts.  The bytes mapped by the constructor contain every word the loops
    touch. *)
Theorem frontier_fill_correct n use_HP flag k t b :
  0 < n < 2 ^ 32 → is_Some (mmap_anon (aligned_size n use_HP) use_HP) →
  bm_ok b → comb_sum (frontier_size b) = comb_local t (frontier_size b) →
  (bm_wf (Bitmap_new n use_HP flag) ∧ is_empty (Bitmap_new n use_HP flag) = true
   ∧ ∀ i, 0 ≤ i < n → get_bit (Bitmap_new n use_HP flag) i = Ok 0)
  ∧ (∃ b', clear k b = Ok b' ∧ bm_wf b' ∧ is_empty b' = true
       ∧ ∀ i, 0 ≤ i < size b → get_bit b' i = Ok 0)
  ∧ ∃ b', set_all k t b = Ok b' ∧ bm_wf b' ∧ num_set b' = size b
       ∧ ∀ i, 0 ≤ i < size b → get_bit b' i = Ok (2 ^ (i mod 64)).
Proof.
  intros Hn Hm Hok Hloc. destruct (Bitmap_new_spec n use_HP flag Hn Hm) as (Hw0 & Hs0 & _ & Hz0).
  destruct (clear_spec k b Hok) as (b1 & E1 & Hw1 & Hs1 & Hz1).
  destruct (set_all_spec k t b Hok Hloc) as (b2 & E2 & Hw2 & Hs2 & Hz2).
  split; [|split].
  - split; [done|]. split; [apply is_empty_spec; [done|]; intros i; rewrite Hs0; apply Hz0|].
    intros i Hi. rewrite get_bit_spec by (apply Hw0 || lia). by rewrite Hz0.
  - exists b1. split; [done|]. split; [done|].
    split; [apply is_empty_spec; [done|]; intros i; rewrite Hs1; apply Hz1|].
    intros i Hi. rewrite get_bit_spec by (apply Hw1 || lia). by rewrite Hz1.
  - exists b2. split; [done|]. split; [done|]. split.
    + destruct Hw2 as [_ ->]. unfold bm_count, zcount. rewrite Hs2, (zsum_ext _ (λ _, 1)).
      * pose proof (bm_size b Hok) as [? _]. clear - H. replace (size b) with (Z.of_nat (Z.to_nat (size b))) at 2 by lia.
        rewrite <- (Z.sub_0_r (size b)) at 2. rewrite <- length_rng. unfold zsum.
        induction (rng 0 (size b)); simpl; lia.
      * intros i Hi%elem_of_rng. by rewrite Hz2.
    + intros i Hi. rewrite get_bit_spec by (apply Hw2 || lia). by rewrite Hz2.
Qed.
End bitmap.
#[global] Arguments Bitmap {CB}.
#[export] Hint Resolve bm_size : fam.
