(* ===== verification/Stats.v ===== *)
(** * Stats: run-time statistics ([FG_stats] of [stats.hpp])

    Per-thread accumulators, folded into totals at the end of every round.  The
    lemmas show that a round's folding neither loses nor double-counts a value
    and that [timespec_diff] is the difference of two instants, normalised. *)

From S2P Require Import Prelude Platform.

(** ** Time stamps *)
Record timespec := Timespec { tv_sec : Z; tv_nsec : Z }.

Definition timespec_diff (a b : timespec) : timespec :=
  let sec := tv_sec a - tv_sec b in
  let nsec := tv_nsec a - tv_nsec b in
  if decide (nsec < 0) then Timespec (sec - 1) (nsec + 1000000000) else Timespec sec nsec.

(** [res.tv_sec * 1000000000L + res.tv_nsec] *)
Definition nanoseconds (res : timespec) : Z := tv_sec res * 1000000000 + tv_nsec res.

Definition timespec_wf (a : timespec) : Prop := 0 ≤ tv_nsec a < 1000000000.

Lemma timespec_diff_wf a b :
  timespec_wf a → timespec_wf b → timespec_wf (timespec_diff a b).
Proof. unfold timespec_wf, timespec_diff. intros. case_decide; simpl; lia. Qed.

Lemma timespec_diff_nanoseconds a b :
  nanoseconds (timespec_diff a b) = nanoseconds a - nanoseconds b.
Proof. unfold nanoseconds, timespec_diff. case_decide; simpl; lia. Qed.

(** ** The statistics *)
Record sends3 := Sends3 { n_wrs : Z; n_verts : Z; n_sends : Z }.

#[export] Instance sends3_inhabited : Inhabited sends3 := populate (Sends3 0 0 0).
#[local] Instance Z_inhabited0 : Inhabited Z := populate 0.

Section stats.
  Context {ETS : EnumerableThreadSpecific}.

Record FG_stats := {
  cache_hit : ets Z;
  atomic_time : ets Z;
  spin_time : ets Z;
  function_time : ets Z;
  cache_function_time : ets Z;
  pack_window_time : ets Z;
  cache_building_time : ets Z;
  foreach_time : ets Z;
  while_time : ets Z;
  wrs_verts_sends : ets sends3;
  total_cache_hit : Z;
  total_atomic_time : Z;
  total_spin_time : Z;
  total_foreach_time : Z;
  total_function_time : Z;
  total_cache_function_time : Z;
  total_pack_window_time : Z;
  total_cache_building_time : Z;
  total_while_time : Z;
  wrs : Z;
  verts : Z;
  sends : Z;
}.

Definition new_stats : FG_stats := {|
  cache_hit := ets_new; atomic_time := ets_new; spin_time := ets_new;
  function_time := ets_new; cache_function_time := ets_new; pack_window_time := ets_new;
  cache_building_time := ets_new; foreach_time := ets_new; while_time := ets_new;
  wrs_verts_sends := ets_new;
  total_cache_hit := 0; total_atomic_time := 0; total_spin_time := 0;
  total_foreach_time := 0; total_function_time := 0; total_cache_function_time := 0;
  total_pack_window_time := 0; total_cache_building_time := 0; total_while_time := 0;
  wrs := 0; verts := 0; sends := 0;
|}.

(** [for (auto &t : e) { total += t; t = 0; }] *)
Definition add_up (total : Z) (e : ets Z) : Z := fold_left Z.add (ets_elems e) total.
Definition zero_out (e : ets Z) : ets Z := ets_fmap (λ _, 0) e.

Definition clear_stats_round (s : FG_stats) : FG_stats := {|
  spin_time := zero_out (spin_time s);
  total_spin_time := add_up (total_spin_time s) (spin_time s);
  function_time := zero_out (function_time s);
  total_function_time := add_up (total_function_time s) (function_time s);
  cache_function_time := zero_out (cache_function_time s);
  total_cache_function_time := add_up (total_cache_function_time s) (cache_function_time s);
  pack_window_time := zero_out (pack_window_time s);
  total_pack_window_time := add_up (total_pack_window_time s) (pack_window_time s);
  atomic_time := zero_out (atomic_time s);
  total_atomic_time := add_up (total_atomic_time s) (atomic_time s);
  cache_building_time := zero_out (cache_building_time s);
  total_cache_building_time := add_up (total_cache_building_time s) (cache_building_time s);
  cache_hit := zero_out (cache_hit s);
  total_cache_hit := add_up (total_cache_hit s) (cache_hit s);
  foreach_time := zero_out (foreach_time s);
  total_foreach_time := add_up (total_foreach_time s) (foreach_time s);
  while_time := zero_out (while_time s);
  total_while_time := add_up (total_while_time s) (while_time s);
  wrs_verts_sends := ets_fmap (λ _, Sends3 0 0 0) (wrs_verts_sends s);
  wrs := fold_left (λ a p, u32 (a + n_wrs p)) (ets_elems (wrs_verts_sends s)) (wrs s);
  verts := fold_left (λ a p, u32 (a + n_verts p)) (ets_elems (wrs_verts_sends s)) (verts s);
  sends := fold_left (λ a p, u32 (a + n_sends p)) (ets_elems (wrs_verts_sends s)) (sends s);
|}.

(** [clear_all] leaves the per-thread triples alone. *)
Definition clear_all (s : FG_stats) : FG_stats := {|
  spin_time := zero_out (spin_time s);
  function_time := zero_out (function_time s);
  cache_function_time := zero_out (cache_function_time s);
  pack_window_time := zero_out (pack_window_time s);
  cache_building_time := zero_out (cache_building_time s);
  atomic_time := zero_out (atomic_time s);
  cache_hit := zero_out (cache_hit s);
  foreach_time := zero_out (foreach_time s);
  while_time := zero_out (while_time s);
  wrs_verts_sends := wrs_verts_sends s;
  total_spin_time := 0; total_function_time := 0; total_cache_function_time := 0;
  total_pack_window_time := 0; total_cache_building_time := 0; total_atomic_time := 0;
  total_cache_hit := 0; total_foreach_time := 0; total_while_time := 0;
  wrs := 0; verts := 0; sends := 0;
|}.

(** [e.local() += x] on thread [t]. *)
Definition ets_add (t : nat) (x : Z) (e : ets Z) : ets Z := ets_store t (ets_local t e + x) e.

(** The three updates at the end of the packing routines. *)
Definition ets_add3 (t : nat) (w b : Z) (e : ets sends3) : ets sends3 :=
  let p := ets_local t e in
  ets_store t (Sends3 (u32 (n_wrs p + w)) (u32 (n_verts p + b)) (u32 (n_sends p + 1))) e.

(** What is recorded in an accumulator and its total together. *)
Definition recorded (total : Z) (e : ets Z) : Z := total + zsum (λ x, x) (ets_elems e).

Lemma fold_left_add l a : fold_left Z.add l a = a + zsum (λ x, x) l.
Proof. revert a. induction l as [|x l IH]; intros a; simpl; [unfold zsum; simpl; lia|].
  rewrite IH. lia.
Qed.

Lemma zsum_zero_out e : zsum (λ x, x) (ets_elems (zero_out e)) = 0.
Proof.
  unfold zero_out. rewrite ets_elems_fmap.
  induction (ets_elems e); [done|]. rewrite fmap_cons, zsum_cons. lia.
Qed.

Lemma add_up_recorded total e :
  recorded (add_up total e) (zero_out e) = recorded total e.
Proof. unfold recorded, add_up. rewrite zsum_zero_out, fold_left_add. lia. Qed.

Lemma zero_out_elems e : Forall (eq 0) (ets_elems (zero_out e)).
Proof. unfold zero_out. rewrite ets_elems_fmap. apply Forall_fmap, Forall_true. done. Qed.

Lemma ets_add_recorded total t x e :
  recorded total (ets_add t x e) = recorded total e + x.
Proof.
  unfold recorded, ets_add. destruct (ets_elems_store t (ets_local t e + x) e) as (rest & -> & H).
  rewrite zsum_cons. destruct H as [->|[-> E]]; [rewrite zsum_cons|rewrite E; change inhabitant with 0];
    lia.
Qed.

Lemma fold_left_u32 (f : sends3 → Z) l a :
  fold_left (λ a p, u32 (a + f p)) l (u32 a) = u32 (a + zsum f l).
Proof.
  revert a. induction l as [|p l IH]; intros a; simpl; [by rewrite Z.add_0_r|].
  rewrite u32_add_u32_l, IH. f_equal. lia.
Qed.

Lemma fold_left_u32' (f : sends3 → Z) l a :
  u32 (fold_left (λ a p, u32 (a + f p)) l a) = u32 (a + zsum f l).
Proof.
  destruct l as [|p l]; [unfold zsum; simpl; by rewrite Z.add_0_r|].
  cbn [fold_left]. rewrite fold_left_u32, u32_u32, zsum_cons. f_equal. lia.
Qed.

(** The nine accumulators of a statistics record with their totals. *)
Definition accounts (s : FG_stats) : list (Z * ets Z) :=
  [(total_cache_hit s, cache_hit s); (total_atomic_time s, atomic_time s);
   (total_spin_time s, spin_time s); (total_foreach_time s, foreach_time s);
   (total_function_time s, function_time s);
   (total_cache_function_time s, cache_function_time s);
   (total_pack_window_time s, pack_window_time s);
   (total_cache_building_time s, cache_building_time s); (total_while_time s, while_time s)].

(** the end of a round neither loses nor double-counts a measurement.
    [clear_stats_round] leaves total plus pending of each of the nine accounts
    unchanged and every thread's accumulator at zero; the three counters of
    requests, vertices and sends grow by the sum of the threads' counters, modulo
    2^32, and those are reset.  [clear_all] forgets the totals and the pending
    times, but keeps the threads' request counters. *)
Theorem clear_stats_round_conserves s :
  let s' := clear_stats_round s in
  (λ a, recorded a.1 a.2) <$> accounts s' = (λ a, recorded a.1 a.2) <$> accounts s
  ∧ Forall (λ a, Forall (eq 0) (ets_elems a.2)) (accounts s')
  ∧ (u32 (wrs s') = u32 (wrs s + zsum n_wrs (ets_elems (wrs_verts_sends s)))
     ∧ u32 (verts s') = u32 (verts s + zsum n_verts (ets_elems (wrs_verts_sends s)))
     ∧ u32 (sends s') = u32 (sends s + zsum n_sends (ets_elems (wrs_verts_sends s)))
     ∧ Forall (eq (Sends3 0 0 0)) (ets_elems (wrs_verts_sends s')))
  ∧ (λ a, recorded a.1 a.2) <$> accounts (clear_all s) = replicate 9 0
  ∧ wrs_verts_sends (clear_all s) = wrs_verts_sends s.
Proof.
  cbv zeta. split; [|split; [|split; [|split]]].
  - unfold accounts, clear_stats_round. cbn. by rewrite !add_up_recorded.
  - unfold accounts, clear_stats_round. cbn. repeat constructor; apply zero_out_elems.
  - cbn. repeat split; [apply fold_left_u32'..|].
    rewrite ets_elems_fmap. by apply Forall_fmap, Forall_true.
  - unfold accounts, clear_all, recorded. cbn. by rewrite !zsum_zero_out.
  - done.
Qed.

(** ** Accounting of the time spent in a stretch of code: the difference of two
    readings of the monotonic clock is added to one of the accumulators.  The
    clock is the operating system's; [now] counts its readings. *)
Class Clock := { clock_reading : nat → timespec }.
Context {CK : Clock}.

Record timing := Timing { stats : FG_stats; now : nat }.

Inductive account := SpinTime | FunctionTime | PackWindowTime | CacheBuildingTime.

Definition add_to (a : account) (t : nat) (x : Z) (s : FG_stats) : FG_stats := {|
  cache_hit := cache_hit s; atomic_time := atomic_time s;
  spin_time := (if a is SpinTime then ets_add t x else id) (spin_time s);
  function_time := (if a is FunctionTime then ets_add t x else id) (function_time s);
  cache_function_time := cache_function_time s;
  pack_window_time := (if a is PackWindowTime then ets_add t x else id) (pack_window_time s);
  cache_building_time :=
    (if a is CacheBuildingTime then ets_add t x else id) (cache_building_time s);
  foreach_time := foreach_time s; while_time := while_time s;
  wrs_verts_sends := wrs_verts_sends s;
  total_cache_hit := total_cache_hit s; total_atomic_time := total_atomic_time s;
  total_spin_time := total_spin_time s; total_foreach_time := total_foreach_time s;
  total_function_time := total_function_time s;
  total_cache_function_time := total_cache_function_time s;
  total_pack_window_time := total_pack_window_time s;
  total_cache_building_time := total_cache_building_time s;
  total_while_time := total_while_time s; wrs := wrs s; verts := verts s; sends := sends s;
|}.

(** [clock_gettime(&t1); ...; clock_gettime(&t2); timespec_diff(&t2, &t1, &res);
    stats.a.local() += res.tv_sec * 1000000000L + res.tv_nsec;] *)
Definition clocked (a : account) (t : nat) (tm : timing) : timing :=
  let t1 := clock_reading (now tm) in
  let t2 := clock_reading (S (now tm)) in
  Timing (add_to a t (nanoseconds (timespec_diff t2 t1)) (stats tm)) (S (S (now tm))).

Definition map_stats (f : FG_stats → FG_stats) (tm : timing) : timing :=
  Timing (f (stats tm)) (now tm).

Definition add_cache_hit (t : nat) (s : FG_stats) : FG_stats := {|
  cache_hit := ets_add t 1 (cache_hit s);
  atomic_time := atomic_time s; spin_time := spin_time s; function_time := function_time s;
  cache_function_time := cache_function_time s; pack_window_time := pack_window_time s;
  cache_building_time := cache_building_time s; foreach_time := foreach_time s;
  while_time := while_time s; wrs_verts_sends := wrs_verts_sends s;
  total_cache_hit := total_cache_hit s; total_atomic_time := total_atomic_time s;
  total_spin_time := total_spin_time s; total_foreach_time := total_foreach_time s;
  total_function_time := total_function_time s;
  total_cache_function_time := total_cache_function_time s;
  total_pack_window_time := total_pack_window_time s;
  total_cache_building_time := total_cache_building_time s;
  total_while_time := total_while_time s; wrs := wrs s; verts := verts s; sends := sends s;
|}.

Definition add_sends (t : nat) (w b : Z) (s : FG_stats) : FG_stats := {|
  wrs_verts_sends := ets_add3 t w b (wrs_verts_sends s);
  cache_hit := cache_hit s;
  atomic_time := atomic_time s; spin_time := spin_time s; function_time := function_time s;
  cache_function_time := cache_function_time s; pack_window_time := pack_window_time s;
  cache_building_time := cache_building_time s; foreach_time := foreach_time s;
  while_time := while_time s;
  total_cache_hit := total_cache_hit s; total_atomic_time := total_atomic_time s;
  total_spin_time := total_spin_time s; total_foreach_time := total_foreach_time s;
  total_function_time := total_function_time s;
  total_cache_function_time := total_cache_function_time s;
  total_pack_window_time := total_pack_window_time s;
  total_cache_building_time := total_cache_building_time s;
  total_while_time := total_while_time s; wrs := wrs s; verts := verts s; sends := sends s;
|}.
End stats.

(** A clock that advances by 1.5 s between readings. *)
Definition steady_clock : Clock :=
  {| clock_reading n := Timespec (Z.of_nat n * 3 / 2) ((Z.of_nat n * 3) mod 2 * 500000000) |}.
