(* ===== verification/PackWindow.v ===== *)
(** * PackWindow: batching of RDMA reads ([prep_wr], [pack_window],
    [cache_pack_window] and [pack_window2] of [bitmap.hpp])

    A worker collects the adjacency lists of the next active vertices into a
    window of work requests: every list gets a place in the worker's edge
    buffer, whose first and last word are signed with [NULL_VERT], and the lists
    of consecutive vertices are merged into one request.  The ghost value of the
    proofs is the list [gs] of the vertex intervals of the requests. *)

From S2P Require Import Prelude Platform VertexTable Bitmap Stats.

(** ** Data *)
Definition NULL_VERT : Z := 0xffffffff.

Definition IBV_WR_RDMA_READ : Z := 4.
Definition IBV_SEND_SIGNALED : Z := 2.

Record ibv_sge := Sge { sge_addr : Z; sge_length : Z; sge_lkey : Z }.

(** Pointers to work requests and to scatter/gather entries of a window are
    indices; [None] is the null pointer. *)
Record ibv_send_wr := Wr {
  wr_next : option Z;
  wr_sg_list : option Z;
  wr_num_sge : Z;
  wr_opcode : Z;
  wr_send_flags : Z;
  wr_remote_addr : Z;
  wr_rkey : Z;
}.

Record vertex_range := VRange { v_s : Z; v_e : Z }.

#[export] Instance ibv_sge_inhabited : Inhabited ibv_sge := populate (Sge 0 0 0).
#[export] Instance ibv_send_wr_inhabited : Inhabited ibv_send_wr :=
  populate (Wr None None 0 0 0 0 0).
#[export] Instance vertex_range_inhabited : Inhabited vertex_range := populate (VRange 0 0).

(** The three arrays a worker declares; their initial contents are indeterminate. *)
Record window := Window {
  wr_window : list ibv_send_wr;
  sge_window : list ibv_sge;
  vertex_batch : list vertex_range;
}.

(** The part of [struct client_context] the workers use. *)
Record client_context := ClientContext {
  app : application;
  peer_addr : Z;
  peer_rkey : Z;
  heap_mr : ibv_mr;
  cm_ids : list Z;
  cacheMap : option CacheMap;
  cacheManager : option CacheManager;
}.

(** The local variables of the packing routines and the memory they write. *)
Record packing := Packing {
  pk_win : window;
  pk_mem : list Z;
  total_edges : Z;
  batch_size : Z;
  pk_wrs : Z;
}.

Section pack.
  Context {BU : BuildOptions} {CB : Combinable} {ETS : EnumerableThreadSpecific} {CK : Clock}.

Definition WR_WINDOW_SIZE : Z := opt_wr_window.

Definition set_next (nx : option Z) (wr : ibv_send_wr) : ibv_send_wr :=
  Wr nx (wr_sg_list wr) (wr_num_sge wr) (wr_opcode wr) (wr_send_flags wr)
    (wr_remote_addr wr) (wr_rkey wr).
Definition set_send_flags (fl : Z) (wr : ibv_send_wr) : ibv_send_wr :=
  Wr (wr_next wr) (wr_sg_list wr) (wr_num_sge wr) (wr_opcode wr) fl
    (wr_remote_addr wr) (wr_rkey wr).

(** [buffer] is the address of a word of the RDMA window. *)
Definition prep_wr (w : window) (idx : Z) (ctx : client_context)
    (buffer length remote_offset : Z) : result window :=
  let wr := Wr None (Some idx) 1 IBV_WR_RDMA_READ IBV_SEND_SIGNALED
              (u64 (peer_addr ctx + remote_offset)) (peer_rkey ctx) in
  ws ← aset (wr_window w) idx wr;
  sges ← aset (sge_window w) idx (Sge buffer length (mr_lkey (heap_mr ctx)));
  ws ← (if bool_decide (0 < idx) then
          prev ← aget ws (idx - 1);
          ws ← aset ws (idx - 1) (set_next (Some idx) prev);
          aset ws idx (set_send_flags 0 wr)
        else Ok ws);
  Ok (Window ws sges (vertex_batch w)).

(** Extending the last request by the list of [v], or starting a new request
    whose list lies at word [b] of the RDMA window. *)
Definition pack_request (ctx : client_context) (b : Z) (vtable : list vertex)
    (v n : Z) (p : packing) : result (window * Z) :=
  let w := pk_win p in
  coalesce ← (if vertex_coalescing && bool_decide (0 < batch_size p) then
                r ← aget (vertex_batch w) (u32 (pk_wrs p - 1));
                Ok (bool_decide (v = u32 (v_e r + 1)))
              else Ok false);
  if coalesce : bool then
    r ← aget (vertex_batch w) (u32 (pk_wrs p - 1));
    vb ← aset (vertex_batch w) (u32 (pk_wrs p - 1)) (VRange (v_s r) v);
    sg ← aget (sge_window w) (u32 (pk_wrs p - 1));
    sges ← aset (sge_window w) (u32 (pk_wrs p - 1))
             (Sge (sge_addr sg) (u32 (sge_length sg + u32 (n * 4))) (sge_lkey sg));
    Ok (Window (wr_window w) sges vb, pk_wrs p)
  else
    vb ← aset (vertex_batch w) (pk_wrs p) (VRange v v);
    e ← aget vtable v;
    w ← prep_wr (Window (wr_window w) (sge_window w) vb) (pk_wrs p) ctx
          (mr_addr (heap_mr ctx) + 4 * b) (u32 (n * 4)) (u64 (edge_offset e * 4));
    Ok (w, u32 (pk_wrs p + 1)).

(** The block the three packing routines share: vertex [v] with [n] out-edges
    fits into the edge buffer, which starts at word [buf0] of the window. *)
Definition pack_vertex (ctx : client_context) (buf0 : Z) (vtable : list vertex)
    (v n : Z) (p : packing) : result packing :=
  if bool_decide (0 < n) then
    let b := buf0 + total_edges p in
    mem ← aset (pk_mem p) b NULL_VERT;
    mem ← aset mem (b + u32 (n - 1)) NULL_VERT;
    '(w, wrs) ← pack_request ctx b vtable v n p;
    Ok (Packing w mem (u32 (total_edges p + n)) (u32 (batch_size p + 1)) wrs)
  else Ok p.

(** [(total_edges < edge_buf_size) && (wrs < WR_WINDOW_SIZE) && (v < range_end)] *)
Definition window_open (edge_buf_size range_end v : Z) (p : packing) : bool :=
  bool_decide (total_edges p < edge_buf_size) && bool_decide (pk_wrs p < WR_WINDOW_SIZE)
  && bool_decide (v < range_end).

Definition pack_step (ctx : client_context) (buf0 edge_buf_size : Z) (vtable : list vertex)
    (range_end : Z) (frontier : Bitmap) (st : Z * packing)
    : result (Z * packing + Z * packing) :=
  let '(v, p) := st in
  if window_open edge_buf_size range_end v p then
    bit ← get_bit frontier v;
    if bool_decide (bit ≠ 0) then
      n ← get_num_edges v vtable (num_vertices (app ctx)) (num_edges (app ctx));
      if bool_decide (u32 (total_edges p + n) ≤ edge_buf_size) then
        p ← pack_vertex ctx buf0 vtable v n p;
        Ok (inl (u32 (v + 1), p))
      else Ok (inr (v, p))
    else Ok (inl (u32 (v + 1), p))
  else Ok (inr (v, p)).

(** The updates of [wrs_verts_sends] on every path out of the routines. *)
Definition count_sends (t : nat) (p : packing) : timing → timing :=
  map_stats (add_sends t (pk_wrs p) (batch_size p)).

(** [Ok (v, wrs, ...)] is [return std::make_pair(v, wrs)] with the final contents
    of the arguments passed by reference. *)
Definition pack_window (ctx : client_context) (t : nat) (buf0 edge_buf_size : Z)
    (vtable : list vertex) (range_start range_end : Z) (frontier : Bitmap)
    (w : window) (mem : list Z) (tm : timing) : result (Z * packing * timing) :=
  '(v, p) ← loopM (range_fuel range_start range_end)
              (pack_step ctx buf0 edge_buf_size vtable range_end frontier)
              (range_start, Packing w mem 0 0 0);
  Ok (v, p, count_sends t p tm).

(** [pack_window2] packs every vertex of the range; [n_wr] counts them. *)
Definition pack_step2 (ctx : client_context) (buf0 edge_buf_size : Z) (vtable : list vertex)
    (range_end : Z) (st : Z * packing * Z)
    : result (Z * packing * Z + Z * packing * Z) :=
  let '(v, p, n_wr) := st in
  if window_open edge_buf_size range_end v p then
    n ← get_num_edges v vtable (num_vertices (app ctx)) (num_edges (app ctx));
    if bool_decide (u32 (total_edges p + n) ≤ edge_buf_size) then
      p ← pack_vertex ctx buf0 vtable v n p;
      Ok (inl (u32 (v + 1), p, if bool_decide (0 < n) then u32 (n_wr + 1) else n_wr))
    else Ok (inr (v, p, n_wr))
  else Ok (inr (v, p, n_wr)).

Definition pack_window2 (ctx : client_context) (t : nat) (buf0 edge_buf_size : Z)
    (vtable : list vertex) (range_start range_end : Z)
    (w : window) (mem : list Z) (batch n_wr : Z) (tm : timing)
    : result (Z * packing * Z * timing) :=
  '(v, p, n_wr) ← loopM (range_fuel range_start range_end)
              (pack_step2 ctx buf0 edge_buf_size vtable range_end)
              (range_start, Packing w mem 0 batch 0, n_wr);
  Ok (v, p, n_wr, count_sends t p tm).

(** ** The variant with a vertex cache *)
Section cached.
  Context {U : Type} (function : nat → Z → list Z → Z → U → result U).

(** [cache_elem] and [in_cache] as the code computes them: the lookup in
    [cache_map] is overwritten by the one in [cacheManager]. *)
Definition cache_lookup (ctx : client_context) (v : Z) : option CacheElem * bool :=
  let '(cache_elem, in_cache) :=
    match cacheMap ctx with
    | None => (None, false)
    | Some cm => (cm_get cm v, bool_decide (is_Some (cm_get cm v)))
    end in
  let in_cache := match cacheManager ctx with
                  | None => false
                  | Some mgr => is_vertex_exist mgr v
                  end in
  (cache_elem, in_cache).

Definition cache_hit_call (ctx : client_context) (t : nat) (v : Z)
    (cache_elem : option CacheElem) (u : U) : result U :=
  match cacheManager ctx with
  | Some mgr => function t v (get_neighbors mgr v) (get_out_degree mgr v) u
  | None => match cache_elem with
            | Some e => function t (getId e) (elem_get_neighbors e) (elem_get_out_degree e) u
            | None => Fault OutOfBounds
            end
  end.

Definition cache_pack_step (ctx : client_context) (t : nat) (buf0 edge_buf_size : Z)
    (vtable : list vertex) (range_end : Z) (frontier : Bitmap)
    (st : Z * packing * timing * U)
    : result (Z * packing * timing * U + Z * packing * timing * U) :=
  let '(v, p, tm, u) := st in
  if window_open edge_buf_size range_end v p then
    bit ← get_bit frontier v;
    if bool_decide (bit ≠ 0) then
      let '(cache_elem, in_cache) := cache_lookup ctx v in
      if in_cache : bool then
        u ← cache_hit_call ctx t v cache_elem u;
        let tm := clocked CacheBuildingTime t (map_stats (add_cache_hit t) tm) in
        Ok (inl (u32 (v + 1), p, tm, u))
      else
        let tm := clocked CacheBuildingTime t tm in
        n ← get_num_edges v vtable (num_vertices (app ctx)) (num_edges (app ctx));
        if bool_decide (u32 (total_edges p + n) ≤ edge_buf_size) then
          p ← pack_vertex ctx buf0 vtable v n p;
          Ok (inl (u32 (v + 1), p, tm, u))
        else Ok (inr (v, p, tm, u))
    else Ok (inl (u32 (v + 1), p, tm, u))
  else Ok (inr (v, p, tm, u)).

Definition cache_pack_window (ctx : client_context) (t : nat) (buf0 edge_buf_size : Z)
    (vtable : list vertex) (range_start range_end : Z) (frontier : Bitmap)
    (w : window) (mem : list Z) (tm : timing) (u : U)
    : result (Z * packing * timing * U) :=
  '(v, p, tm, u) ← loopM (range_fuel range_start range_end)
              (cache_pack_step ctx t buf0 edge_buf_size vtable range_end frontier)
              (range_start, Packing w mem 0 0 0, tm, u);
  Ok (v, p, count_sends t p tm, u).
End cached.

(** ** What a window holds: expected contents for the intervals [gs] *)
Section contents.
  Context (ctx : client_context) (buf0 : Z) (vtable : list vertex).
  Abbreviation n := (num_vertices (app ctx)).
  Abbreviation m := (num_edges (app ctx)).
  Abbreviation off := (off vtable m).
  Abbreviation deg := (deg vtable m).
  Implicit Types (g : Z * Z) (gs : list (Z * Z)).

Definition members gs : list Z := gs ≫= λ g, rng g.1 (g.2 + 1).
Definition gdeg g : Z := off (g.2 + 1) - off g.1.

Fixpoint sge_list (pos : Z) gs : list ibv_sge :=
  match gs with
  | [] => []
  | g :: gs => Sge (mr_addr (heap_mr ctx) + 4 * pos) (4 * gdeg g) (mr_lkey (heap_mr ctx))
               :: sge_list (pos + gdeg g) gs
  end.

Definition wr_of (k : Z) (nx : option Z) g : ibv_send_wr :=
  Wr nx (Some k) 1 IBV_WR_RDMA_READ (if decide (k = 0) then IBV_SEND_SIGNALED else 0)
    (peer_addr ctx + 4 * off g.1) (peer_rkey ctx).

Fixpoint linked (k : Z) gs : list ibv_send_wr :=
  match gs with [] => [] | g :: gs => wr_of k (Some (k + 1)) g :: linked (k + 1) gs end.

Fixpoint wr_list (k : Z) gs : list ibv_send_wr :=
  match gs with
  | [] => []
  | g :: gs => wr_of k (if gs is [] then None else Some (k + 1)) g :: wr_list (k + 1) gs
  end.

Record window_for gs (w : window) : Prop := {
  wf_wr : ∃ r, wr_window w = wr_list 0 gs ++ r;
  wf_sge : ∃ r, sge_window w = sge_list buf0 gs ++ r;
  wf_vb : ∃ r, vertex_batch w = ((λ g, VRange g.1 g.2) <$> gs) ++ r;
  wf_wr_len : zlen (wr_window w) = WR_WINDOW_SIZE;
  wf_sge_len : zlen (sge_window w) = WR_WINDOW_SIZE;
  wf_vb_len : zlen (vertex_batch w) = WR_WINDOW_SIZE;
}.

(** The places of the vertices [vs] in the buffer from [pos] on are signed. *)
Fixpoint signed (mem : list Z) (pos : Z) (vs : list Z) : Prop :=
  match vs with
  | [] => True
  | v :: vs => at_ mem pos = NULL_VERT ∧ at_ mem (pos + deg v - 1) = NULL_VERT
               ∧ signed mem (pos + deg v) vs
  end.

Record packed (mem0 : list Z) gs (p : packing) : Prop := {
  pkd_groups : Forall (λ g, 0 ≤ g.1 ≤ g.2 ∧ g.2 < n) gs;
  pkd_pos : Forall (λ v, 0 < deg v) (members gs);
  pkd_wrs : pk_wrs p = zlen gs;
  pkd_total : total_edges p = zsum deg (members gs);
  pkd_batch : batch_size p = zlen (members gs);
  pkd_win : window_for gs (pk_win p);
  pkd_mem_len : zlen (pk_mem p) = zlen mem0;
  pkd_frame j : 0 ≤ j → ¬ (buf0 ≤ j < buf0 + total_edges p) → at_ (pk_mem p) j = at_ mem0 j;
  pkd_signed : signed (pk_mem p) buf0 (members gs);
}.

Record pack_ok (edge_buf_size : Z) (mem : list Z) : Prop := {
  po_csr : csr_ok vtable n m;
  po_window : 0 < WR_WINDOW_SIZE < 2 ^ 32;
  po_ebs : 0 < edge_buf_size < 2 ^ 30;
  po_deg v : 0 ≤ v < n → deg v ≤ edge_buf_size;
  po_m : m < 2 ^ 62;
  po_addr : 0 ≤ peer_addr ctx ∧ peer_addr ctx + 4 * m < 2 ^ 64;
  po_buf : 0 ≤ buf0 ∧ buf0 + edge_buf_size ≤ zlen mem;
}.

Lemma members_snoc gs g : members (gs ++ [g]) = members gs ++ rng g.1 (g.2 + 1).
Proof. unfold members. by rewrite bind_app, bind_singleton. Qed.

Lemma linked_snoc k gs g :
  linked k (gs ++ [g]) = linked k gs ++ [wr_of (k + zlen gs) (Some (k + zlen gs + 1)) g].
Proof.
  revert k. induction gs as [|g' gs IH]; intros k.
  - simpl. unfold zlen. simpl. by rewrite Z.add_0_r.
  - simpl. rewrite IH. unfold zlen. simpl.
    replace (k + 1 + Z.of_nat (length gs)) with (k + Z.of_nat (S (length gs))) by lia. done.
Qed.

Lemma wr_list_snoc k gs g :
  wr_list k (gs ++ [g]) = linked k gs ++ [wr_of (k + zlen gs) None g].
Proof.
  revert k. induction gs as [|g' gs IH]; intros k.
  - simpl. unfold zlen. simpl. by rewrite Z.add_0_r.
  - simpl. rewrite IH. unfold zlen. simpl.
    replace (k + 1 + Z.of_nat (length gs)) with (k + Z.of_nat (S (length gs))) by lia.
    by destruct gs.
Qed.

Lemma sge_list_snoc pos gs g :
  sge_list pos (gs ++ [g])
  = sge_list pos gs ++ [Sge (mr_addr (heap_mr ctx) + 4 * (pos + zsum gdeg gs)) (4 * gdeg g)
                          (mr_lkey (heap_mr ctx))].
Proof.
  revert pos. induction gs as [|g' gs IH]; intros pos.
  - simpl. by rewrite Z.add_0_r.
  - simpl. rewrite IH, Z.add_assoc. done.
Qed.

Lemma zlen_wr_list k gs : zlen (wr_list k gs) = zlen gs.
Proof. revert k. unfold zlen. induction gs; intros k; simpl; [done|]. specialize (IHgs (k + 1)). lia. Qed.
Lemma zlen_linked k gs : zlen (linked k gs) = zlen gs.
Proof. revert k. unfold zlen. induction gs; intros k; simpl; [done|]. specialize (IHgs (k + 1)). lia. Qed.
Lemma zlen_sge_list pos gs : zlen (sge_list pos gs) = zlen gs.
Proof. revert pos. unfold zlen. induction gs as [|g gs IH]; intros k; simpl; [done|]. specialize (IH (k + gdeg g)). lia. Qed.
Lemma zlen_fmap {A B} (f : A → B) l : zlen (f <$> l) = zlen l.
Proof. unfold zlen. by rewrite length_fmap. Qed.

Lemma members_deg gs :
  csr_ok vtable n m → Forall (λ g, 0 ≤ g.1 ≤ g.2 ∧ g.2 < n) gs →
  zsum deg (members gs) = zsum gdeg gs.
Proof.
  intros Hok. induction 1 as [|g gs Hg _ IH]; [done|].
  unfold members in *. rewrite bind_cons, zsum_app, IH, zsum_cons.
  rewrite (deg_sum _ n) by lia. done.
Qed.

Lemma members_range gs :
  Forall (λ g, 0 ≤ g.1 ≤ g.2 ∧ g.2 < n) gs → ∀ v, v ∈ members gs → 0 ≤ v < n.
Proof.
  intros Hg v. unfold members. rewrite list_elem_of_bind. intros (g & Hv & Hin).
  rewrite Forall_forall in Hg. specialize (Hg g Hin). apply elem_of_rng in Hv. lia.
Qed.

Lemma zlen_le_zsum {A} (f : A → Z) l : Forall (λ x, 0 < f x) l → zlen l ≤ zsum f l.
Proof. unfold zlen. induction 1; [done|]. rewrite zsum_cons. simpl length. lia. Qed.

Lemma groups_le_members gs :
  Forall (λ g, 0 ≤ g.1 ≤ g.2 ∧ g.2 < n) gs → zlen gs ≤ zlen (members gs).
Proof.
  unfold members. induction 1 as [|g gs Hg _ IH]; [done|].
  rewrite bind_cons, zlen_app. unfold zlen in *. rewrite length_rng. simpl length. lia.
Qed.

Lemma signed_app mem pos vs ws :
  signed mem pos (vs ++ ws) ↔ signed mem pos vs ∧ signed mem (pos + zsum deg vs) ws.
Proof.
  revert pos. induction vs as [|v vs IH]; intros pos; simpl.
  - rewrite Z.add_0_r. naive_solver.
  - rewrite IH, Z.add_assoc. naive_solver.
Qed.

Lemma signed_frame mem mem' pos vs :
  Forall (λ v, 0 < deg v) vs →
  (∀ j, pos ≤ j < pos + zsum deg vs → at_ mem' j = at_ mem j) →
  signed mem pos vs → signed mem' pos vs.
Proof.
  intros Hd. revert pos. induction Hd as [|v vs Hv Hvs IH]; intros pos Hj; simpl; [done|].
  simpl in Hj. assert (0 ≤ zsum deg vs) by (pose proof (zlen_le_zsum _ _ Hvs); pose proof (zlen_nonneg vs); lia).
  intros (H1 & H2 & H3). rewrite !Hj by lia. split; [done|]. split; [done|].
  apply IH; [|done]. intros j ?. apply Hj. lia.
Qed.

(** ** One more request, or a longer last request *)
Lemma link_push gs g r :
  let wr := Wr None (Some (zlen gs)) 1 IBV_WR_RDMA_READ IBV_SEND_SIGNALED
              (peer_addr ctx + 4 * off g.1) (peer_rkey ctx) in
  (if bool_decide (0 < zlen gs) then
     prev ← aget (wr_list 0 gs ++ wr :: r) (zlen gs - 1);
     ws ← aset (wr_list 0 gs ++ wr :: r) (zlen gs - 1) (set_next (Some (zlen gs)) prev);
     aset ws (zlen gs) (set_send_flags 0 wr)
   else Ok (wr_list 0 gs ++ wr :: r))
  = Ok (wr_list 0 (gs ++ [g]) ++ r).
Proof.
  cbv zeta. rewrite wr_list_snoc. destruct gs as [|g' gs _] using rev_ind; [done|].
  rewrite zlen_app. replace (zlen [g']) with 1 by done. pose proof (zlen_nonneg gs).
  rewrite bool_decide_eq_true_2 by lia. rewrite wr_list_snoc, <- !app_assoc. simpl.
  rewrite aget_middle by (rewrite zlen_linked; lia). rewrite bind_ok.
  rewrite aset_middle by (rewrite zlen_linked; lia). rewrite bind_ok.
  rewrite (cons_middle (set_next _ _)), (app_assoc (linked 0 gs)).
  rewrite aset_middle by (rewrite zlen_app, zlen_linked; done).
  rewrite linked_snoc, <- !app_assoc. unfold wr_of, set_next, set_send_flags. simpl.
  by rewrite (decide_False (P := zlen gs + 1 = 0)) by lia.
Qed.

Lemma push_window gs g w buffer :
  window_for gs w → zlen gs < WR_WINDOW_SIZE →
  0 ≤ peer_addr ctx + 4 * off g.1 < 2 ^ 64 →
  buffer = mr_addr (heap_mr ctx) + 4 * (buf0 + zsum gdeg gs) →
  ∃ vb w', aset (vertex_batch w) (zlen gs) (VRange g.1 g.2) = Ok vb
    ∧ prep_wr (Window (wr_window w) (sge_window w) vb) (zlen gs) ctx buffer (4 * gdeg g)
        (4 * off g.1) = Ok w'
    ∧ window_for (gs ++ [g]) w'.
Proof.
  intros [[r1 E1] [r2 E2] [r3 E3] L1 L2 L3] Hlen Haddr ->.
  destruct (zlen_split _ _ _ (eq_trans (eq_sym (f_equal zlen E1)) L1)) as (x1 & r1' & ->);
    [by rewrite zlen_wr_list|].
  destruct (zlen_split _ _ _ (eq_trans (eq_sym (f_equal zlen E2)) L2)) as (x2 & r2' & ->);
    [by rewrite zlen_sge_list|].
  destruct (zlen_split _ _ _ (eq_trans (eq_sym (f_equal zlen E3)) L3)) as (x3 & r3' & ->);
    [by rewrite zlen_fmap|].
  eexists _, _. split; [rewrite E3; apply aset_middle; by rewrite zlen_fmap|].
  unfold prep_wr. simpl. rewrite E1, E2.
  rewrite (aset_middle (wr_list 0 gs)) by (by rewrite zlen_wr_list). rewrite bind_ok.
  rewrite (aset_middle (sge_list buf0 gs)) by (by rewrite zlen_sge_list). rewrite bind_ok.
  rewrite u64_id' by lia. rewrite link_push, bind_ok. split; [done|].
  pose proof (zlen_wr_list 0 (gs ++ [g])) as Hz. pose proof (zlen_wr_list 0 gs) as Hz'.
  rewrite E1 in L1. rewrite E2 in L2. rewrite E3 in L3. revert L1 L2 L3 Hz Hz'.
  unfold zlen. rewrite !length_app. simpl length. intros L1 L2 L3 Hz Hz'.
  split; simpl; unfold zlen; rewrite ?length_app; simpl; try lia.
  - by exists r1'.
  - exists r2'. rewrite sge_list_snoc, <- app_assoc. done.
  - exists r3'. rewrite fmap_app, <- app_assoc. done.
Qed.

Lemma grow_window gs s e v d w :
  window_for (gs ++ [(s, e)]) w → gdeg (s, v) = gdeg (s, e) + d →
  0 ≤ gdeg (s, v) < 2 ^ 30 → 0 ≤ d < 2 ^ 30 →
  aget (vertex_batch w) (zlen gs) = Ok (VRange s e)
  ∧ ∃ vb sg sges, aset (vertex_batch w) (zlen gs) (VRange s v) = Ok vb
    ∧ aget (sge_window w) (zlen gs) = Ok sg
    ∧ aset (sge_window w) (zlen gs)
        (Sge (sge_addr sg) (u32 (sge_length sg + u32 (d * 4))) (sge_lkey sg)) = Ok sges
    ∧ window_for (gs ++ [(s, v)]) (Window (wr_window w) sges vb).
Proof.
  intros [[r1 E1] [r2 E2] [r3 E3] L1 L2 L3] Hg Hv Hd.
  rewrite wr_list_snoc in E1. rewrite sge_list_snoc in E2. rewrite fmap_app in E3.
  rewrite <- app_assoc in E2, E3. simpl in E2, E3.
  rewrite E3, E2. split; [apply aget_middle; by rewrite zlen_fmap|].
  eexists _, _, _. split; [apply aset_middle; by rewrite zlen_fmap|].
  split; [apply aget_middle; by rewrite zlen_sge_list|].
  split; [apply aset_middle; by rewrite zlen_sge_list|].
  rewrite E2 in L2. rewrite E3 in L3. revert L2 L3. unfold zlen. rewrite !length_app.
  simpl length. intros L2 L3. split; simpl; unfold zlen; rewrite ?length_app; simpl; try done.
  - exists r1. rewrite E1, wr_list_snoc. done.
  - exists r2. rewrite sge_list_snoc, <- app_assoc. simpl. do 3 f_equal.
    rewrite (u32_id' (d * 4)) by lia. rewrite u32_id'; lia.
  - exists r3. rewrite fmap_app, <- app_assoc. done.
Qed.

(** ** Packing one vertex *)
Context (edge_buf_size : Z) (mem0 : list Z) (Hok : pack_ok edge_buf_size mem0).

Lemma packed_bounds gs p :
  packed mem0 gs p → 0 ≤ pk_wrs p ≤ batch_size p ∧ batch_size p ≤ total_edges p.
Proof using Type.
  intros Hp. rewrite (pkd_wrs _ _ _ Hp), (pkd_batch _ _ _ Hp), (pkd_total _ _ _ Hp).
  pose proof (groups_le_members _ (pkd_groups _ _ _ Hp)).
  pose proof (zlen_le_zsum _ _ (pkd_pos _ _ _ Hp)). pose proof (zlen_nonneg gs). lia.
Qed.

Lemma gdeg_single v : gdeg (v, v) = deg v.
Proof using Type. done. Qed.

Lemma gdeg_grow s v : gdeg (s, v + 1) = gdeg (s, v) + deg (v + 1).
Proof using Type. unfold gdeg, VertexTable.deg. simpl. lia. Qed.

(** The test of the coalescing branch: it is taken only when the last request
    ends at the preceding vertex. *)
Lemma coalesce_test gs p v :
  packed mem0 gs p → pk_wrs p ≤ WR_WINDOW_SIZE →
  ∃ b : bool, (if vertex_coalescing && bool_decide (0 < batch_size p) then
      r ← aget (vertex_batch (pk_win p)) (u32 (pk_wrs p - 1));
      Ok (bool_decide (v = u32 (v_e r + 1)))
    else Ok false) = Ok b ∧ (b = true → ∃ gs1 s e, gs = gs1 ++ [(s, e)] ∧ v = e + 1).
Proof.
  intros Hp Hw. destruct Hok as [Hcsr HW _ _ _ _ _]. pose proof (csr_n _ _ _ Hcsr).
  destruct vertex_coalescing; [|by exists false]. simpl. case_bool_decide as Eb; [|by exists false].
  destruct gs as [|[s e] gs1 _] using rev_ind.
  { rewrite (pkd_batch _ _ _ Hp) in Eb. unfold zlen in Eb. simpl in Eb. lia. }
  destruct (pkd_win _ _ _ Hp) as [_ _ [r3 E3] _ _ _]. rewrite fmap_app, <- app_assoc in E3.
  pose proof (pkd_groups _ _ _ Hp) as Hg. rewrite Forall_app, Forall_singleton in Hg.
  simpl in Hg. pose proof (pkd_wrs _ _ _ Hp) as Hz. rewrite zlen_app in Hz.
  replace (zlen [(s, e)]) with 1 in Hz by done. pose proof (zlen_nonneg gs1).
  simpl in E3. rewrite E3, Hz.
  rewrite aget_middle by (rewrite zlen_fmap, u32_id'; lia). simpl. rewrite u32_id' by lia.
  eexists; split; [done|]. intros Ev%bool_decide_eq_true. eauto 6.
Qed.

Lemma window_step_grow gs1 s e p :
  packed mem0 (gs1 ++ [(s, e)]) p → 0 ≤ e + 1 < n → 0 < deg (e + 1) →
  total_edges p + deg (e + 1) ≤ edge_buf_size → pk_wrs p ≤ WR_WINDOW_SIZE →
  ∃ w', (r ← aget (vertex_batch (pk_win p)) (u32 (pk_wrs p - 1));
      vb ← aset (vertex_batch (pk_win p)) (u32 (pk_wrs p - 1)) (VRange (v_s r) (e + 1));
      sg ← aget (sge_window (pk_win p)) (u32 (pk_wrs p - 1));
      sges ← aset (sge_window (pk_win p)) (u32 (pk_wrs p - 1))
               (Sge (sge_addr sg) (u32 (sge_length sg + u32 (deg (e + 1) * 4))) (sge_lkey sg));
      Ok (Window (wr_window (pk_win p)) sges vb, pk_wrs p))
    = Ok (w', zlen (gs1 ++ [(s, e + 1)]))
    ∧ window_for (gs1 ++ [(s, e + 1)]) w'.
Proof.
  intros Hp Hv Hd Hfit Hw. destruct Hok as [Hcsr HW Hebs _ _ _ _].
  pose proof (packed_bounds _ _ Hp) as Hb. pose proof (pkd_groups _ _ _ Hp) as Hgs.
  pose proof (members_deg _ Hcsr Hgs) as Hmd. rewrite <- (pkd_total _ _ _ Hp) in Hmd.
  rewrite Forall_app, Forall_singleton in Hgs. destruct Hgs as [Hg1 Hg]. simpl in Hg.
  rewrite zsum_app, zsum_cons in Hmd. change (zsum gdeg []) with 0 in Hmd.
  assert (0 ≤ zsum gdeg gs1).
  { apply zsum_nonneg. intros g Hin. rewrite Forall_forall in Hg1. specialize (Hg1 g Hin).
    unfold gdeg. pose proof (off_mono _ _ _ Hcsr g.1 (g.2 + 1)). lia. }
  assert (0 ≤ gdeg (s, e)) by (unfold gdeg; simpl; pose proof (off_mono _ _ _ Hcsr s (e + 1)); lia).
  pose proof (pkd_wrs _ _ _ Hp) as Hz. rewrite zlen_app in Hz.
  replace (zlen [(s, e)]) with 1 in Hz by done. pose proof (zlen_nonneg gs1).
  rewrite (u32_id' (pk_wrs p - 1)) by lia. replace (pk_wrs p - 1) with (zlen gs1) by lia.
  destruct (grow_window gs1 s e (e + 1) (deg (e + 1)) (pk_win p) (pkd_win _ _ _ Hp)
              (gdeg_grow s e)) as (Ev & vb & sg & sges & E1 & E2 & E3 & Hwf);
    [rewrite gdeg_grow; lia|lia|].
  rewrite Ev, bind_ok. cbn [v_s]. rewrite E1, bind_ok, E2, bind_ok, E3, bind_ok.
  eexists. split; [|exact Hwf]. rewrite zlen_app.
  replace (zlen [(s, e + 1)]) with 1 by done. do 2 f_equal. lia.
Qed.

Lemma window_step_push gs p v :
  packed mem0 gs p → 0 ≤ v < n → 0 < deg v → total_edges p + deg v ≤ edge_buf_size →
  pk_wrs p < WR_WINDOW_SIZE →
  ∃ w', (vb ← aset (vertex_batch (pk_win p)) (pk_wrs p) (VRange v v);
      e ← aget vtable v;
      w ← prep_wr (Window (wr_window (pk_win p)) (sge_window (pk_win p)) vb) (pk_wrs p) ctx
            (mr_addr (heap_mr ctx) + 4 * (buf0 + total_edges p)) (u32 (deg v * 4))
            (u64 (edge_offset e * 4));
      Ok (w, u32 (pk_wrs p + 1)))
    = Ok (w', zlen (gs ++ [(v, v)]))
    ∧ window_for (gs ++ [(v, v)]) w'.
Proof.
  intros Hp Hv Hd Hfit Hw. destruct Hok as [Hcsr HW Hebs _ Hm Haddr _].
  pose proof (csr_n _ _ _ Hcsr). pose proof (csr_len _ _ _ Hcsr).
  pose proof (packed_bounds _ _ Hp) as Hb. pose proof (off_bounds _ _ _ Hcsr v ltac:(lia)).
  pose proof (members_deg _ Hcsr (pkd_groups _ _ _ Hp)) as Hmd.
  rewrite <- (pkd_total _ _ _ Hp) in Hmd. pose proof (pkd_wrs _ _ _ Hp) as Hz.
  destruct (push_window gs (v, v) (pk_win p)
              (mr_addr (heap_mr ctx) + 4 * (buf0 + total_edges p)) (pkd_win _ _ _ Hp))
    as (vb & w' & E1 & E2 & Hwf); [lia|simpl; lia|by rewrite Hmd|].
  rewrite Hz in *. cbn [fst snd] in E1, E2. rewrite E1, bind_ok.
  rewrite aget_at, bind_ok by lia. rewrite <- (off_at _ _ _ Hcsr) by lia.
  rewrite (u32_id' (deg v * 4)), (u64_id' (off v * 4)) by lia.
  rewrite (Z.mul_comm (deg v)), (Z.mul_comm (off v)). rewrite gdeg_single in E2.
  rewrite E2, bind_ok. exists w'. split; [|done].
  rewrite zlen_app. replace (zlen [(v, v)]) with 1 by done. by rewrite u32_id' by lia.
Qed.

(** The window after a request for the list placed behind the packed ones. *)
Lemma pack_request_spec gs p v :
  packed mem0 gs p → 0 ≤ v < n → 0 < deg v → total_edges p + deg v ≤ edge_buf_size →
  pk_wrs p < WR_WINDOW_SIZE →
  ∃ gs' w', pack_request ctx (buf0 + total_edges p) vtable v (deg v) p = Ok (w', zlen gs')
    ∧ window_for gs' w' ∧ members gs' = members gs ++ [v]
    ∧ Forall (λ g, 0 ≤ g.1 ≤ g.2 ∧ g.2 < n) gs'.
Proof.
  intros Hp Hv Hd Hfit Hw. unfold pack_request.
  destruct (coalesce_test gs p v Hp ltac:(lia)) as (b & -> & Hb).
  rewrite bind_ok. pose proof (pkd_groups _ _ _ Hp) as Hgs. destruct b.
  - destruct (Hb eq_refl) as (gs1 & s & e & -> & ->).
    destruct (window_step_grow gs1 s e p Hp Hv Hd Hfit ltac:(lia)) as (w' & E & Hwf).
    exists (gs1 ++ [(s, e + 1)]), w'. split; [exact E|]. split; [done|].
    rewrite Forall_app, Forall_singleton in *. simpl in *.
    rewrite !members_snoc. simpl. rewrite (rng_snoc s (e + 1)), app_assoc by lia.
    split; [done|]. split; [apply Hgs|lia].
  - destruct (window_step_push gs p v Hp Hv Hd Hfit Hw) as (w' & E & Hwf).
    exists (gs ++ [(v, v)]), w'. split; [exact E|]. split; [done|].
    rewrite Forall_app, Forall_singleton, members_snoc. simpl.
    rewrite rng_snoc, rng_nil by lia. split; [done|]. split; [done|lia].
Qed.

(** Packing one vertex that fits appends it to the packed ones. *)
Lemma pack_vertex_spec gs p v :
  packed mem0 gs p → 0 ≤ v < n → 0 < deg v → pk_wrs p < WR_WINDOW_SIZE →
  total_edges p + deg v ≤ edge_buf_size →
  ∃ gs' p', pack_vertex ctx buf0 vtable v (deg v) p = Ok p' ∧ packed mem0 gs' p'
    ∧ members gs' = members gs ++ [v].
Proof.
  intros Hp Hv Hd Hw Hfit.
  destruct (pack_request_spec gs p v Hp Hv Hd Hfit Hw) as (gs' & w' & E & Hwf & Hmem & Hg).
  pose proof (packed_bounds _ _ Hp) as Hb. pose proof (pkd_mem_len _ _ _ Hp) as Hml.
  destruct Hok as [Hcsr HW Hebs _ Hm Haddr Hbuf].
  unfold pack_vertex. rewrite bool_decide_eq_true_2 by done. cbv zeta.
  rewrite aset_ok by lia. rewrite bind_ok, (u32_id' (deg v - 1)) by lia.
  rewrite aset_ok by (rewrite zlen_insert; lia). rewrite bind_ok.
  rewrite E, bind_ok.
  exists gs'. eexists. split; [done|]. split; [|done].
  pose proof (pkd_pos _ _ _ Hp) as Hpos. pose proof (pkd_total _ _ _ Hp) as Ht.
  set (mem1 := <[_:=NULL_VERT]> (pk_mem p)). set (mem2 := <[_:=NULL_VERT]> mem1).
  assert (Hat : ∀ j, 0 ≤ j → at_ mem2 j =
    if decide (j = buf0 + total_edges p ∨ j = buf0 + total_edges p + (deg v - 1))
    then NULL_VERT else at_ (pk_mem p) j).
  { intros j Hj. unfold mem2, mem1. rewrite !at_insert by (rewrite ?zlen_insert; lia).
    repeat case_decide; try done; lia. }
  split; simpl; rewrite ?Hmem.
  - done.
  - apply Forall_app. split; [done|by apply Forall_singleton].
  - done.
  - rewrite zsum_app. unfold zsum at 2. simpl. rewrite u32_id'; lia.
  - rewrite zlen_app, <- (pkd_batch _ _ _ Hp). unfold zlen. simpl. rewrite u32_id'; lia.
  - done.
  - unfold mem2, mem1. by rewrite !zlen_insert.
  - intros j Hj. rewrite u32_id' by lia. intros Hout.
    rewrite Hat, decide_False by lia. apply (pkd_frame _ _ _ Hp); lia.
  - apply signed_app. rewrite <- Ht. split.
    + apply (signed_frame (pk_mem p)); [done| |apply (pkd_signed _ _ _ Hp)].
      rewrite <- Ht. intros j Hj. rewrite Hat, decide_False by lia. done.
    + simpl. rewrite !Hat by lia. rewrite !decide_True by lia. done.
Qed.

(** ** The packing loops *)

(** The vertices with out-edges that [sel] selects from [[lo, hi)]. *)
Definition wanted (sel : Z → bool) (lo hi : Z) : list Z :=
  filter (λ v, sel v = true ∧ 0 < deg v) (rng lo hi).

(** What a packing loop over [[lo, hi)] promises: the vertices before the
    returned [v] are packed, and it stopped only because the range is exhausted,
    the buffer or the window is full, or the next list does not fit. *)
Record pack_result (sel : Z → bool) (lo hi v : Z) gs (p : packing) : Prop := {
  pr_range : lo ≤ v ≤ hi;
  pr_packed : packed mem0 gs p;
  pr_members : members gs = wanted sel lo v;
  pr_total : total_edges p ≤ edge_buf_size;
  pr_wrs : pk_wrs p ≤ WR_WINDOW_SIZE;
  pr_full : v = hi ∨ total_edges p = edge_buf_size ∨ pk_wrs p = WR_WINDOW_SIZE
            ∨ edge_buf_size < total_edges p + deg v;
}.

Lemma wanted_snoc sel lo v :
  lo ≤ v → wanted sel lo (v + 1)
           = wanted sel lo v ++ (if sel v && bool_decide (0 < deg v) then [v] else []).
Proof using Type.
  intros. unfold wanted. rewrite rng_snoc, filter_app by done. f_equal.
  rewrite filter_cons. destruct (sel v); case_bool_decide; case_decide; naive_solver.
Qed.

(** A loop that has not advanced has not packed anything, and an empty window
    and buffer have room for every list. *)
Lemma pack_progress sel lo hi v gs p :
  pack_result sel lo hi v gs p → 0 ≤ lo < hi → hi ≤ n → lo < v.
Proof.
  intros [Hr Hp Hm Ht Hw Hf] Hlo Hhi. destruct (decide (v = lo)) as [->|]; [|lia].
  assert (members gs = []) as E by (rewrite Hm; unfold wanted; by rewrite rng_nil by lia).
  pose proof (packed_bounds _ _ Hp). pose proof (pkd_batch _ _ _ Hp) as Hb.
  pose proof (pkd_total _ _ _ Hp) as Ht'. rewrite E in Hb, Ht'. simpl in Ht'.
  unfold zlen in Hb. simpl in Hb. unfold zsum in Ht'. simpl in Ht'.
  pose proof (po_window _ _ Hok). pose proof (po_ebs _ _ Hok). pose proof (po_deg _ _ Hok lo). lia.
Qed.

Lemma packed_nil w b0 :
  zlen (wr_window w) = WR_WINDOW_SIZE → zlen (sge_window w) = WR_WINDOW_SIZE →
  zlen (vertex_batch w) = WR_WINDOW_SIZE → b0 = 0 → packed mem0 [] (Packing w mem0 0 b0 0).
Proof using Type. intros ??? ->. by repeat split; simpl; eauto. Qed.

Lemma packed_wrs gs p : packed mem0 gs p → pk_wrs p ≤ WR_WINDOW_SIZE.
Proof using Type.
  intros Hp. rewrite (pkd_wrs _ _ _ Hp). destruct (pkd_win _ _ _ Hp) as [[r E] _ _ L _ _].
  rewrite <- L, E, zlen_app, zlen_wr_list. pose proof (zlen_nonneg r). lia.
Qed.

(** A vertex that fits, whatever its degree. *)
Lemma pack_fit gs p v :
  packed mem0 gs p → 0 ≤ v < n → pk_wrs p < WR_WINDOW_SIZE →
  total_edges p + deg v ≤ edge_buf_size →
  ∃ gs' p', pack_vertex ctx buf0 vtable v (deg v) p = Ok p' ∧ packed mem0 gs' p'
    ∧ members gs' = members gs ++ (if bool_decide (0 < deg v) then [v] else [])
    ∧ total_edges p' = total_edges p + deg v.
Proof.
  intros Hp Hv Hw Hfit. case_bool_decide as Hd.
  - destruct (pack_vertex_spec gs p v) as (gs' & p' & E & Hp' & Hm); [done..|].
    exists gs', p'. split; [done|]. split; [done|]. split; [done|].
    rewrite (pkd_total _ _ _ Hp'), (pkd_total _ _ _ Hp), Hm, zsum_app, zsum_cons.
    unfold zsum at 2. simpl. lia.
  - exists gs, p. unfold pack_vertex. rewrite bool_decide_eq_false_2 by done.
    rewrite app_nil_r. pose proof (csr_deg _ _ _ (po_csr _ _ Hok) v Hv).
    split; [done|]. split; [done|]. split; [done|lia].
Qed.

Lemma get_num_edges_ok v : 0 ≤ v < n → get_num_edges v vtable n m = Ok (deg v).
Proof. apply get_num_edges_deg, (po_csr _ _ Hok). Qed.

(** The loop state before vertex [v] is examined. *)
Definition pack_inv (sel : Z → bool) (lo hi v : Z) (p : packing) : Prop :=
  lo ≤ v ≤ hi ∧ ∃ gs, packed mem0 gs p ∧ members gs = wanted sel lo v
                      ∧ total_edges p ≤ edge_buf_size.

Lemma pack_inv_closed sel lo hi v p :
  pack_inv sel lo hi v p → window_open edge_buf_size hi v p = false →
  ∃ gs, pack_result sel lo hi v gs p.
Proof.
  intros (Hr & gs & Hp & Hm & Ht) Hw. exists gs. pose proof (packed_wrs _ _ Hp).
  split; try done. unfold window_open in Hw. rewrite !andb_false_iff, !bool_decide_eq_false in Hw.
  lia.
Qed.

Lemma pack_inv_full sel lo hi v p :
  pack_inv sel lo hi v p → edge_buf_size < total_edges p + deg v →
  ∃ gs, pack_result sel lo hi v gs p.
Proof using Type.
  intros (Hr & gs & Hp & Hm & Ht) Hw. exists gs. pose proof (packed_wrs _ _ Hp).
  split; try done. lia.
Qed.

Lemma pack_inv_skip sel lo hi v p :
  pack_inv sel lo hi v p → v < hi → sel v = false → pack_inv sel lo hi (v + 1) p.
Proof using Type.
  intros (Hr & gs & Hp & Hm & Ht) Hv Hs. split; [lia|]. exists gs. split; [done|].
  split; [|done]. by rewrite Hm, wanted_snoc, Hs, app_nil_r by lia.
Qed.

Lemma window_open_lt hi v p :
  window_open edge_buf_size hi v p = true →
  total_edges p < edge_buf_size ∧ pk_wrs p < WR_WINDOW_SIZE ∧ v < hi.
Proof using Type.
  unfold window_open. rewrite !andb_true_iff, !bool_decide_eq_true. naive_solver.
Qed.

Lemma pack_inv_pack sel lo hi v p :
  pack_inv sel lo hi v p → 0 ≤ lo → hi ≤ n → window_open edge_buf_size hi v p = true →
  sel v = true → total_edges p + deg v ≤ edge_buf_size →
  ∃ p', pack_vertex ctx buf0 vtable v (deg v) p = Ok p' ∧ pack_inv sel lo hi (v + 1) p'.
Proof.
  intros (Hr & gs & Hp & Hm & Ht) Hlo Hhi Hw%window_open_lt Hs Hfit.
  destruct (pack_fit gs p v) as (gs' & p' & E & Hp' & Hm' & Ht'); [done|lia|lia|done|].
  exists p'. split; [done|]. split; [lia|]. exists gs'. split; [done|].
  split; [|lia]. by rewrite Hm', Hm, wanted_snoc, Hs by lia.
Qed.

(** The degree fits the type of the sum. *)
Lemma total_deg_u32 sel lo hi v p :
  pack_inv sel lo hi v p → 0 ≤ v < n → u32 (total_edges p + deg v) = total_edges p + deg v.
Proof.
  intros (Hr & gs & Hp & _ & Ht) Hv. pose proof (packed_bounds _ _ Hp).
  pose proof (po_deg _ _ Hok v Hv). pose proof (po_ebs _ _ Hok).
  pose proof (csr_deg _ _ _ (po_csr _ _ Hok) v Hv). by rewrite u32_id' by lia.
Qed.

Lemma pack_inv_start sel lo hi w :
  lo ≤ hi → zlen (wr_window w) = WR_WINDOW_SIZE → zlen (sge_window w) = WR_WINDOW_SIZE →
  zlen (vertex_batch w) = WR_WINDOW_SIZE →
  pack_inv sel lo hi lo (Packing w mem0 0 0 0).
Proof.
  intros. split; [lia|]. exists []. pose proof (po_ebs _ _ Hok).
  split; [by apply packed_nil|]. simpl. unfold wanted. rewrite rng_nil by lia. split; [done|lia].
Qed.

(** The three routines: each stops with a [pack_result]. *)
Section loops.
  Context (w : window) (lo hi : Z) (Hlo : 0 ≤ lo ≤ hi) (Hhi : hi ≤ n).
  Context (Hw1 : zlen (wr_window w) = WR_WINDOW_SIZE).
  Context (Hw2 : zlen (sge_window w) = WR_WINDOW_SIZE).
  Context (Hw3 : zlen (vertex_batch w) = WR_WINDOW_SIZE).

Lemma u32_next v : lo ≤ v ≤ hi → v < hi → u32 (v + 1) = v + 1.
Proof using Hhi Hlo Hok. intros. pose proof (csr_n _ _ _ (po_csr _ _ Hok)). by rewrite u32_id' by lia. Qed.

Lemma pack_window_spec frontier t tm :
  bm_ok frontier → size frontier = n →
  ∃ v p gs, pack_window ctx t buf0 edge_buf_size vtable lo hi frontier w mem0 tm
              = Ok (v, p, count_sends t p tm)
    ∧ pack_result (bm_get frontier) lo hi v gs p.
Proof.
  intros Hbm Hsz. unfold pack_window.
  destruct (loopM_total (λ st, pack_inv (bm_get frontier) lo hi st.1 st.2)
    (λ st, ∃ gs, pack_result (bm_get frontier) lo hi st.1 gs st.2) (λ st, Z.to_nat (hi - st.1))
    (pack_step ctx buf0 edge_buf_size vtable hi frontier) (range_fuel lo hi)
    (lo, Packing w mem0 0 0 0)) as ([v p] & E & gs & Hr).
  - simpl. by apply pack_inv_start; [lia|..].
  - unfold range_fuel. simpl. lia.
  - intros [v p] HI. simpl in HI. pose proof HI as [Hr _]. unfold pack_step.
    destruct (window_open _ _ _ _) eqn:Ew; [|eexists; split; [done|]; by apply pack_inv_closed].
    pose proof (window_open_lt _ _ _ Ew) as (_ & _ & Hv).
    destruct (get_bit_truth frontier v Hbm) as (b & -> & Hb); [lia|].
    rewrite bind_ok, Hb. clear Hb. destruct (bm_get frontier v) eqn:Es; simpl.
    + rewrite get_num_edges_ok, bind_ok, (total_deg_u32 _ _ _ _ _ HI) by lia.
      case_bool_decide as Hfit.
      * destruct (pack_inv_pack _ _ _ _ _ HI) as (p' & -> & HI'); [lia|done..|].
        rewrite bind_ok, u32_next by done. eexists; split; [done|]. split; [exact HI'|simpl; lia].
      * eexists; split; [done|]. apply pack_inv_full; [done|simpl; lia].
    + rewrite u32_next by done. eexists; split; [done|].
      split; [by apply pack_inv_skip|simpl; lia].
  - rewrite E. by exists v, p, gs.
Qed.

Lemma pack_window2_spec t tm :
  ∃ v p gs, pack_window2 ctx t buf0 edge_buf_size vtable lo hi w mem0 0 0 tm
              = Ok (v, p, batch_size p, count_sends t p tm)
    ∧ pack_result (λ _, true) lo hi v gs p.
Proof.
  unfold pack_window2.
  destruct (loopM_total (λ st, pack_inv (λ _, true) lo hi st.1.1 st.1.2 ∧ st.2 = batch_size st.1.2)
    (λ st, (∃ gs, pack_result (λ _, true) lo hi st.1.1 gs st.1.2) ∧ st.2 = batch_size st.1.2)
    (λ st, Z.to_nat (hi - st.1.1))
    (pack_step2 ctx buf0 edge_buf_size vtable hi) (range_fuel lo hi)
    (lo, Packing w mem0 0 0 0, 0)) as ([[v p] k] & E & [gs Hr] & Hk).
  - simpl. split; [by apply pack_inv_start; [lia|..]|done].
  - unfold range_fuel. simpl. lia.
  - intros [[v p] k] [HI Hk]. simpl in HI, Hk. pose proof HI as [Hr _]. unfold pack_step2.
    destruct (window_open _ _ _ _) eqn:Ew;
      [|eexists; split; [done|]; split; [by apply pack_inv_closed|done]].
    pose proof (window_open_lt _ _ _ Ew) as (_ & _ & Hv).
    rewrite get_num_edges_ok, bind_ok, (total_deg_u32 _ _ _ _ _ HI) by lia.
    case_bool_decide as Hfit.
    + destruct (pack_inv_pack _ _ _ _ _ HI) as (p' & Ep & HI'); [lia|done..|].
      rewrite Ep, bind_ok, u32_next by done. eexists; split; [done|].
      split; [|simpl; lia]. split; [exact HI'|]. simpl. subst k. revert Ep. unfold pack_vertex.
      case_bool_decide; [|by intros [= <-]].
      intros (m1 & _ & (m2 & _ & ([w' wrs'] & _ & [= <-])%bind_ok_inv)%bind_ok_inv)%bind_ok_inv.
      done.
    + eexists; split; [done|]. split; [apply pack_inv_full; [done|simpl; lia]|done].
  - rewrite E. simpl in Hk. subst k. by exists v, p, gs.
Qed.

(** The cached variant calls [function] on every active vertex the cache holds
    and packs the others. *)
Section cached_loop.
  Context {U : Type} (function : nat → Z → list Z → Z → U → result U).
  Context (I : list Z → U → Prop) (edges : list Z) (frontier : Bitmap) (act : Z → bool).

Definition in_cache (v : Z) : bool :=
  match cacheManager ctx with Some mgr => is_vertex_exist mgr v | None => false end.

(** What the client's function guarantees: called on an active vertex that was
    not processed before, with its adjacency list, it preserves [I]. *)
Definition function_ok : Prop :=
  ∀ t v dn u, 0 ≤ v < n → act v = true → v ∉ dn → I dn u →
    ∃ u', function t v (adj_of vtable m edges v) (deg v) u = Ok u' ∧ I (v :: dn) u'.

Definition caches_coherent : Prop :=
  ∀ mgr, cacheManager ctx = Some mgr → cache_coherent mgr (adj_of vtable m edges).

Definition sel_uncached (v : Z) : bool := bm_get frontier v && negb (in_cache v).

(** The active cached vertices of [[a, b)]. *)
Definition cached_list (a b : Z) : list Z :=
  filter (λ v, bm_get frontier v = true ∧ in_cache v = true) (rng a b).

Lemma cached_list_snoc a v :
  a ≤ v → cached_list a (v + 1)
          = cached_list a v ++ (if bm_get frontier v && in_cache v then [v] else []).
Proof.
  intros. unfold cached_list. rewrite rng_snoc, filter_app by done. f_equal.
  rewrite filter_cons. destruct (bm_get frontier v), (in_cache v); case_decide; naive_solver.
Qed.

Lemma cache_hit_spec t v dn u :
  function_ok → caches_coherent → zlen edges = m → 0 ≤ v < n → act v = true →
  in_cache v = true → v ∉ dn → I dn u →
  ∃ u', cache_hit_call function ctx t v (cache_lookup ctx v).1 u = Ok u' ∧ I (v :: dn) u'.
Proof.
  intros Hf Hc He Hv Hb Hin Hnin HI. unfold cache_hit_call, in_cache in *.
  destruct (cacheManager ctx) as [mgr|] eqn:E; [|done].
  destruct (Hc mgr E v Hin) as [-> ->].
  rewrite (zlen_adj _ n) by (done || apply (po_csr _ _ Hok)). by apply Hf.
Qed.

Lemma cache_pack_window_spec t tm u done :
  bm_ok frontier → size frontier = n → function_ok → caches_coherent → zlen edges = m →
  (∀ v, lo ≤ v < hi → bm_get frontier v = true → act v = true) →
  (∀ x, x ∈ done → ¬ (lo ≤ x < hi)) → I done u →
  ∃ v p tm' u' gs,
    cache_pack_window function ctx t buf0 edge_buf_size vtable lo hi frontier w mem0 tm u
      = Ok (v, p, tm', u')
    ∧ pack_result sel_uncached lo hi v gs p
    ∧ I (reverse (cached_list lo v) ++ done) u'.
Proof.
  intros Hbm Hsz Hf Hc He Hact Hdone HI. unfold cache_pack_window.
  destruct (loopM_total (λ st, pack_inv sel_uncached lo hi st.1.1.1 st.1.1.2
      ∧ I (reverse (cached_list lo st.1.1.1) ++ done) st.2)
    (λ st, (∃ gs, pack_result sel_uncached lo hi st.1.1.1 gs st.1.1.2)
      ∧ I (reverse (cached_list lo st.1.1.1) ++ done) st.2)
    (λ st, Z.to_nat (hi - st.1.1.1))
    (cache_pack_step function ctx t buf0 edge_buf_size vtable hi frontier) (range_fuel lo hi)
    (lo, Packing w mem0 0 0 0, tm, u)) as ([[[v p] tm'] u'] & E & [gs Hr] & HI').
  - simpl. split; [by apply pack_inv_start; [lia|..]|].
    unfold cached_list. by rewrite rng_nil by lia.
  - unfold range_fuel. simpl. lia.
  - clear HI. intros [[[v p] tm'] u'] [HP HI]. simpl in HP, HI. pose proof HP as [Hr _].
    unfold cache_pack_step.
    destruct (window_open _ _ _ _) eqn:Ew;
      [|eexists; split; [done|]; split; [by apply pack_inv_closed|done]].
    pose proof (window_open_lt _ _ _ Ew) as (_ & _ & Hv).
    destruct (get_bit_truth frontier v Hbm) as (b & -> & Hb); [lia|].
    rewrite bind_ok, Hb, u32_next by done. clear Hb. pose proof (cached_list_snoc lo v) as Hcl.
    destruct (bm_get frontier v) eqn:Es; simpl.
    2:{ simpl in Hcl. eexists; split; [done|]. simpl. rewrite Hcl, app_nil_r by lia.
        split; [split; [apply pack_inv_skip; [done..|]|done]|lia].
        unfold sel_uncached. by rewrite Es. }
    assert ((cache_lookup ctx v).2 = in_cache v) as Hic.
    { unfold cache_lookup, in_cache. by destruct (cacheMap ctx), (cacheManager ctx). }
    destruct (cache_lookup ctx v) as [elem ic] eqn:El. simpl in Hic. subst ic.
    destruct (in_cache v) eqn:Ei; try rewrite Ei in Hcl; simpl in Hcl.
    + assert (v ∉ reverse (cached_list lo v) ++ done).
      { rewrite not_elem_of_app, elem_of_reverse. unfold cached_list.
        rewrite list_elem_of_filter, elem_of_rng. split; [lia|]. intros Hin%Hdone. lia. }
      destruct (cache_hit_spec t v (reverse (cached_list lo v) ++ done) u') as (u2 & E2 & HI2);
        [done|done|done|lia|apply Hact; [lia|done]|done..|]. rewrite El in E2. cbn [fst] in E2. rewrite E2, bind_ok.
      eexists; split; [done|]. simpl. rewrite Hcl, reverse_snoc by lia.
      split; [split; [apply pack_inv_skip; [done..|]|done]|lia].
      unfold sel_uncached. by rewrite Es, Ei.
    + rewrite app_nil_r in Hcl.
      assert (sel_uncached v = true) by (unfold sel_uncached; by rewrite Es, Ei).
      rewrite get_num_edges_ok, bind_ok, (total_deg_u32 _ _ _ _ _ HP) by lia.
      case_bool_decide as Hfit.
      * destruct (pack_inv_pack _ _ _ _ _ HP) as (p' & -> & HP'); [lia|done..|].
        rewrite bind_ok. eexists; split; [done|]. simpl. rewrite Hcl by lia.
        split; [split; [exact HP'|done]|lia].
      * eexists; split; [done|]. split; [apply pack_inv_full; [done|simpl; lia]|done].
  - rewrite E. rewrite bind_ok. by exists v, p, (count_sends t p tm'), u', gs.
Qed.
End cached_loop.

(** C23: packing a window of active vertices.  [pack_window] returns a vertex
    [v] of the range such that the window holds, in order and in consecutive
    places of the edge buffer, the lists of exactly the active vertices before
    [v] that have out-edges, consecutive vertices sharing a request; the first
    and last word of every place are signed and no other memory is touched.  The
    loop stops only at the end of the range, when the buffer or the window is
    full, or when the next list does not fit, and on a non-empty range it always
    advances, so that the caller's loop ends. *)
Theorem pack_window_correct frontier t tm :
  bm_ok frontier → size frontier = n →
  ∃ v p gs, pack_window ctx t buf0 edge_buf_size vtable lo hi frontier w mem0 tm
              = Ok (v, p, count_sends t p tm)
    ∧ pack_result (bm_get frontier) lo hi v gs p ∧ (lo < hi → lo < v).
Proof.
  intros Hbm Hsz. destruct (pack_window_spec frontier t tm Hbm Hsz) as (v & p & gs & E & Hr).
  exists v, p, gs. split; [done|]. split; [done|]. intros. eapply pack_progress; [exact Hr|lia|done].
Qed.

(** [pack_window2] does the same for all vertices of the range, and
    the counter it returns is the number of vertices in the window. *)
Theorem pack_window2_correct t tm :
  ∃ v p gs, pack_window2 ctx t buf0 edge_buf_size vtable lo hi w mem0 0 0 tm
              = Ok (v, p, zlen (members gs), count_sends t p tm)
    ∧ pack_result (λ _, true) lo hi v gs p ∧ (lo < hi → lo < v).
Proof.
  destruct (pack_window2_spec t tm) as (v & p & gs & E & Hr). exists v, p, gs.
  rewrite E, (pkd_batch _ _ _ (pr_packed _ _ _ _ _ _ Hr)). split; [done|]. split; [done|].
  intros. eapply pack_progress; [exact Hr|lia|done].
Qed.

(** C22: packing with a vertex cache.  If the cache agrees with the
    graph, [cache_pack_window] calls the client's function at once on every
    active vertex before [v] that the cache holds, with its adjacency list, and
    packs the active ones it does not hold; [I] is any invariant of the client
    indexed by the vertices it has been called on. *)
Theorem cache_pack_window_correct {U} (function : nat → Z → list Z → Z → U → result U)
    (I : list Z → U → Prop) (edges : list Z) frontier t tm u done :
  bm_ok frontier → size frontier = n → zlen edges = m → caches_coherent edges →
  function_ok function I edges (λ v, bm_get frontier v) →
  (∀ x, x ∈ done → ¬ (lo ≤ x < hi)) → I done u →
  ∃ v p tm' u' gs,
    cache_pack_window function ctx t buf0 edge_buf_size vtable lo hi frontier w mem0 tm u
      = Ok (v, p, tm', u')
    ∧ pack_result (λ v, bm_get frontier v && negb (in_cache v)) lo hi v gs p ∧ (lo < hi → lo < v)
    ∧ I (reverse (filter (λ v, bm_get frontier v = true ∧ in_cache v = true) (rng lo v)) ++ done) u'.
Proof.
  intros Hbm Hsz He Hc Hf Hd HI.
  destruct (cache_pack_window_spec function I edges frontier (bm_get frontier) t tm u done)
    as (v & p & tm' & u' & gs & E & Hr & HI'); [done..|].
  exists v, p, tm', u', gs. split; [exact E|]. split; [exact Hr|]. split; [|exact HI'].
  intros. eapply pack_progress; [exact Hr|lia|done].
Qed.
End loops.
End contents.
End pack.
