(* ===== verification/Engine.v ===== *)
(** * Engine: running a function over the active vertices
    ([for_each_active_batch], [ccy_for_each_active_batch] and [for_each_range]
    of [bitmap.hpp])

    A worker repeatedly packs a window of read requests, posts it, and then
    walks over the vertices of the window in order: it spins until the signatures
    of the vertex's list are overwritten and calls the client's function on the
    list.  The words of the requests land while the worker spins. *)

From S2P Require Import Prelude Platform VertexTable Bitmap Stats PackWindow.

(** The memory region the server registered: its address, key and words. *)
Record remote_region := Remote { rr_addr : Z; rr_rkey : Z; rr_words : list Z }.

Section engine.
  Context {BU : BuildOptions} {CB : Combinable} {ETS : EnumerableThreadSpecific} {CK : Clock}.
  Context {SC : Scheduler} {NI : Nic}.
  Context (remote : remote_region).

(** ** [ibv_post_send]: the card follows the [next] pointers and serves every
    request whose keys are right; a failing request delivers nothing. *)
Fixpoint chain (fuel : nat) (w : window) (i : Z) : result (list ibv_send_wr) :=
  match fuel with
  | O => Fault OutOfFuel
  | S fuel =>
      wr ← aget (wr_window w) i;
      match wr_next wr with
      | None => Ok [wr]
      | Some j => rest ← chain fuel w j; Ok (wr :: rest)
      end
  end.

Definition transfer (ctx : client_context) (w : window) (wr : ibv_send_wr)
    : result (list (Z * Z)) :=
  match wr_sg_list wr with
  | None => Ok []
  | Some i =>
      sg ← aget (sge_window w) i;
      Ok (if decide (wr_opcode wr = IBV_WR_RDMA_READ ∧ wr_num_sge wr = 1
                     ∧ wr_rkey wr = rr_rkey remote ∧ sge_lkey sg = mr_lkey (heap_mr ctx))
          then rdma_read (rr_addr remote) (rr_words remote) (mr_addr (heap_mr ctx))
                 (wr_remote_addr wr) (sge_addr sg) (sge_length sg)
          else [])
  end.

Fixpoint transfers (ctx : client_context) (w : window) (wrs : list ibv_send_wr)
    : result (list (Z * Z)) :=
  match wrs with
  | [] => Ok []
  | wr :: wrs => ws ← transfer ctx w wr; rest ← transfers ctx w wrs; Ok (ws ++ rest)
  end.

Definition posted_words (ctx : client_context) (w : window) : result (list (Z * Z)) :=
  wrs ← chain (S (length (wr_window w))) w 0; transfers ctx w wrs.

(** ** Client memory while requests are in flight *)
Record flight := Flight {
  f_mem : list Z;
  f_pending : list (Z * Z);
  f_polls : nat;
}.

Definition land (k : nat) (f : flight) : result flight :=
  mem ← forM (take k (f_pending f)) (λ iw mem, aset mem iw.1 iw.2) (f_mem f);
  Ok (Flight mem (drop k (f_pending f)) (f_polls f)).

(** One evaluation of [while (e_buf[i] == NULL_VERT) {}]. *)
Definition spin_step (i : Z) (f : flight) : result (flight + flight) :=
  x ← aget (f_mem f) i;
  if bool_decide (x = NULL_VERT) then
    match f_pending f with
    | [] => Fault SpinsForever
    | _ => f' ← land (S (nic_burst (f_polls f))) f;
           Ok (inl (Flight (f_mem f') (f_pending f') (S (f_polls f'))))
    end
  else Ok (inr f).

Definition spin (i : Z) (f : flight) : result flight :=
  loopM (S (length (f_pending f))) (spin_step i) f.

(** The array [(e_buf, n)] handed to the client's function. *)
Definition read_edges (mem : list Z) (pos n : Z) : result (list Z) :=
  if decide (0 ≤ pos ∧ pos + n ≤ zlen mem) then Ok (slice pos n mem) else Fault OutOfBounds.

(** ** Workers *)
Section worker.
  Context {U : Type} (function : nat → Z → list Z → Z → U → result U).

(** The state shared by the workers: the RDMA window, the statistics, the
    number of looks at the memory and of posted chains so far, and the client's
    own state. *)
Record estate := EState {
  e_mem : list Z;
  e_tm : timing;
  e_polls : nat;
  e_posts : nat;
  e_user : U;
}.

Record drain_state := Drain {
  d_flight : flight;
  d_pos : Z;
  d_tm : timing;
  d_user : U;
}.

(** The body of the loops over a window's vertices. *)
Definition drain_vertex (ctx : client_context) (idx : list vertex) (t : nat) (v : Z)
    (d : drain_state) : result drain_state :=
  n_edges ← get_num_edges v idx (num_vertices (app ctx)) (num_edges (app ctx));
  f ← spin (d_pos d) (d_flight d);
  f ← spin (d_pos d + u32 (n_edges - 1)) f;
  let tm := clocked SpinTime t (d_tm d) in
  edges ← read_edges (f_mem f) (d_pos d) n_edges;
  u ← function t v edges n_edges (d_user d);
  Ok (Drain f (d_pos d + n_edges) (clocked FunctionTime t tm) u).

(** [for (i = 0; i < wrs; ++i) for (v = v_s; v <= v_e; v++)] *)
Definition drain (ctx : client_context) (idx : list vertex) (t : nat) (w : window)
    (wrs : Z) (d : drain_state) : result drain_state :=
  for_u32 0 wrs (λ i d,
    r ← aget (vertex_batch w) i;
    forM (rng (v_s r) (v_e r + 1)) (drain_vertex ctx idx t) d) d.

(** [TEST_NZ(ibv_post_send(...))] *)
Definition post_once (posts : nat) : result nat :=
  _ ← TEST_NZ "ret" (post_ret posts); Ok (S posts).

(** [while (ret == ENOMEM) ret = ibv_post_send(...)], then [TEST_NZ(ret)]. *)
Definition post_retry (fuel : nat) (posts : nat) : result nat :=
  loopM fuel (λ k, if bool_decide (post_ret k = ENOMEM) then Ok (inl (S k))
                   else _ ← TEST_NZ "ret" (post_ret k); Ok (inr (S k))) posts.

(** The [while (next_range_start < range_end)] loop the three engines share, for
    a packing routine, a test that something is to be posted, and a way to post. *)
Definition worker_step (pack : Z → window → list Z → timing → U → result (Z * packing * timing * U))
    (nonempty : packing → bool) (post : nat → result nat)
    (ctx : client_context) (idx : list vertex) (t : nat) (buf0 range_end : Z)
    (st : Z * window * estate) : result (Z * window * estate + estate) :=
  let '(next, w, e) := st in
  if bool_decide (next < range_end) then
    '(v, p, tm, u) ← pack next w (e_mem e) (e_tm e) (e_user e);
    if nonempty p then
      _ ← aget (cm_ids ctx) (Z.of_nat t);
      posts ← post (e_posts e);
      words ← posted_words ctx (pk_win p);
      d ← drain ctx idx t (pk_win p) (pk_wrs p)
            (Drain (Flight (pk_mem p) words (e_polls e)) buf0 tm u);
      Ok (inl (v, pk_win p, EState (f_mem (d_flight d)) (d_tm d) (f_polls (d_flight d)) posts
                              (d_user d)))
    else Ok (inl (v, pk_win p, EState (pk_mem p) tm (e_polls e) (e_posts e) u))
  else Ok (inr e).

Definition worker_loop pack nonempty post ctx idx (garbage : window) (ebs : Z) (t : nat)
    (range_begin range_end : Z) (e : estate) : result estate :=
  let buf0 := Z.of_nat t * ebs in
  loopM (range_fuel range_begin range_end)
    (worker_step (pack buf0) nonempty post ctx idx t buf0 range_end)
    (range_begin, garbage, e).

(** [print_stats_round] only writes to the log. *)
Definition end_round (e : estate) : estate :=
  EState (e_mem e) (map_stats clear_stats_round (e_tm e)) (e_polls e) (e_posts e) (e_user e).

(** [k] numbers the calls, for the scheduler; [garbage] is the indeterminate
    content of the workers' local arrays. *)
Definition for_each_active_batch (k : nat) (ctx : client_context) (idx : list vertex)
    (garbage : window) (edge_buf_size : Z) (frontier : Bitmap) (lo hi : Z) (e : estate)
    : result estate :=
  e ← parallel_for k lo hi (λ t a b,
        worker_loop (λ buf0 next w mem tm u,
            '(v, p, tm) ← pack_window ctx t buf0 edge_buf_size idx next b frontier w mem tm;
            Ok (v, p, tm, u))
          (λ p, bool_decide (0 < pk_wrs p)) post_once ctx idx garbage edge_buf_size t a b) e;
  Ok (end_round e).

Definition ccy_for_each_active_batch (post_fuel : nat) (k : nat) (ctx : client_context)
    (idx : list vertex) (garbage : window) (edge_buf_size : Z) (frontier : Bitmap) (lo hi : Z)
    (e : estate) : result estate :=
  e ← parallel_for k lo hi (λ t a b,
        worker_loop (λ buf0 next w mem tm u,
            '(v, p, tm, u) ←
              cache_pack_window function ctx t buf0 edge_buf_size idx next b frontier w mem tm u;
            Ok (v, p, clocked PackWindowTime t tm, u))
          (λ p, bool_decide (0 < pk_wrs p)) (post_retry post_fuel) ctx idx garbage edge_buf_size
          t a b) e;
  Ok (end_round e).

Definition for_each_range (k : nat) (ctx : client_context) (vtable : list vertex)
    (garbage : window) (edge_buf_size : Z) (lo hi : Z) (e : estate) : result estate :=
  e ← parallel_for k lo hi (λ t a b,
        worker_loop (λ buf0 next w mem tm u,
            '(v, p, n_wr, tm) ← pack_window2 ctx t buf0 edge_buf_size vtable next b w mem 0 0 tm;
            Ok (v, p, tm, u))
          (λ p, bool_decide (0 < batch_size p)) post_once ctx vtable garbage edge_buf_size t a b) e;
  Ok (end_round e).

(** [handle_cache] *)
Definition handle_cache (t : nat) (cache_hit_list : list CacheElem) (u : U) : result U :=
  forM cache_hit_list (λ elem u,
    function t (getId elem) (elem_get_neighbors elem) (u32 (elem_get_out_degree elem)) u) u.
End worker.

(** ** The words a posted window delivers *)
Section delivery.
  Context (ctx : client_context) (idx : list vertex).
  Abbreviation n := (num_vertices (app ctx)).
  Abbreviation m := (num_edges (app ctx)).
  Abbreviation off := (off idx m).
  Abbreviation deg := (deg idx m).
  Abbreviation adj := (adj_of idx m (rr_words remote)).

(** The client addresses the region the server registered, and no edge is the
    word used as signature. *)
Record served : Prop := {
  sv_addr : peer_addr ctx = rr_addr remote;
  sv_rkey : peer_rkey ctx = rr_rkey remote;
  sv_len : zlen (rr_words remote) = m;
  sv_words : Forall (λ x, x ≠ NULL_VERT) (rr_words remote);
}.

Context (Hsv : served) (Hcsr : csr_ok idx n m).

Lemma chain_wr_list w k pre gs r fuel :
  wr_window w = pre ++ wr_list ctx idx k gs ++ r → zlen pre = k → gs ≠ [] →
  (length gs ≤ fuel)%nat → chain fuel w k = Ok (wr_list ctx idx k gs).
Proof using Type.
  revert k pre fuel. induction gs as [|g gs IH]; intros k pre fuel Hw Hk Hne Hf; [done|].
  destruct fuel as [|fuel]; simpl in Hf; [lia|]. simpl in Hw |- *.
  rewrite Hw, aget_middle by done. rewrite bind_ok. simpl. destruct gs as [|g' gs]; [done|].
  rewrite (IH (k + 1) (pre ++ [wr_of ctx idx k (Some (k + 1)) g])); [done| |  |done|simpl in *; lia].
  - by rewrite Hw, <- app_assoc.
  - rewrite zlen_app. unfold zlen in *. simpl. lia.
Qed.

Lemma members_adj gs :
  Forall (λ g, 0 ≤ g.1 ≤ g.2 ∧ g.2 < n) gs →
  zlen (members gs ≫= adj) = zsum (gdeg ctx idx) gs.
Proof.
  induction 1 as [|g gs Hg _ IH]; [done|]. unfold members in *.
  rewrite bind_cons, bind_app, zlen_app, IH, zsum_cons.
  rewrite (adj_concat _ n) by (done || lia). unfold gdeg.
  pose proof (off_mono _ _ _ Hcsr g.1 (g.2 + 1)). pose proof (off_bounds _ _ _ Hcsr g.1).
  pose proof (off_bounds _ _ _ Hcsr (g.2 + 1)). pose proof (sv_len Hsv).
  rewrite zlen_slice; lia.
Qed.

Lemma transfers_ok w k pos pre gs r :
  sge_window w = pre ++ sge_list ctx idx pos gs ++ r → zlen pre = k → 0 ≤ pos →
  Forall (λ g, 0 ≤ g.1 ≤ g.2 ∧ g.2 < n) gs →
  transfers ctx w (wr_list ctx idx k gs)
  = Ok (zip (rng pos (pos + zsum (gdeg ctx idx) gs)) (members gs ≫= adj)).
Proof.
  intros Hw Hk Hpos Hgs. revert k pos pre Hw Hk Hpos.
  induction Hgs as [|g gs Hg Hgs IH]; intros k pos pre Hw Hk Hpos.
  { simpl. unfold zsum. simpl. by rewrite rng_nil by lia. }
  simpl in Hw |- *. unfold transfer. simpl. rewrite Hw, aget_middle by done. rewrite bind_ok.
  destruct Hsv as [Ha Hr Hl _]. rewrite decide_True by (rewrite Hr; done).
  cbn [wr_of wr_remote_addr sge_addr sge_length].
  pose proof (off_mono _ _ _ Hcsr g.1 (g.2 + 1)). pose proof (off_bounds _ _ _ Hcsr g.1).
  pose proof (off_bounds _ _ _ Hcsr (g.2 + 1)).
  assert (Hgd : 0 ≤ gdeg ctx idx g) by (unfold gdeg; lia).
  assert (Hs : 0 ≤ zsum (gdeg ctx idx) gs) by (rewrite <- (members_adj gs Hgs); apply zlen_nonneg).
  rewrite Ha, rdma_read_spec by (unfold gdeg in *; lia).
  rewrite (IH (k + 1) (pos + gdeg ctx idx g) (pre ++ [Sge (mr_addr (heap_mr ctx) + 4 * pos)
    (4 * gdeg ctx idx g) (mr_lkey (heap_mr ctx))])); [|by rewrite Hw, <- app_assoc| |lia].
  2:{ rewrite zlen_app. unfold zlen in *. simpl. lia. }
  rewrite !bind_ok. f_equal. rewrite bind_app.
  rewrite (adj_concat _ n) by (done || lia). change (off (g.2 + 1) - off g.1) with (gdeg ctx idx g).
  rewrite <- (zip_with_app pair).
  2:{ rewrite length_rng. unfold slice. rewrite length_take, length_drop.
      unfold gdeg, zlen in *. lia. }
  rewrite <- rng_app by lia. by rewrite Z.add_assoc.
Qed.

Lemma posted_words_ok buf0 gs w :
  window_for ctx buf0 idx gs w → gs ≠ [] → 0 ≤ buf0 →
  Forall (λ g, 0 ≤ g.1 ≤ g.2 ∧ g.2 < n) gs →
  posted_words ctx w
  = Ok (zip (rng buf0 (buf0 + zsum (gdeg ctx idx) gs)) (members gs ≫= adj)).
Proof.
  intros [[r1 E1] [r2 E2] _ _ _ _] Hne Hb Hgs. unfold posted_words.
  rewrite (chain_wr_list w 0 [] gs r1); [|done|done|done|].
  2:{ rewrite E1, length_app. pose proof (zlen_wr_list ctx idx 0 gs) as Hz. unfold zlen in Hz. lia. }
  rewrite bind_ok. apply (transfers_ok w 0 buf0 [] gs r2); done.
Qed.
End delivery.

(** ** Landing: after [j] words, the first [j] words of the buffer hold the
    delivered data and the others what was there when the window was posted. *)
Section landing.
  Context (buf0 : Z) (mem0 data : list Z).
  Context (Hbuf : 0 ≤ buf0) (Hfit : buf0 + zlen data ≤ zlen mem0).

Record landed (j : Z) (f : flight) : Prop := {
  ld_range : 0 ≤ j ≤ zlen data;
  ld_pending : f_pending f = drop (Z.to_nat j) (zip (rng buf0 (buf0 + zlen data)) data);
  ld_len : zlen (f_mem f) = zlen mem0;
  ld_mem i : 0 ≤ i → at_ (f_mem f) i
             = if decide (buf0 ≤ i < buf0 + j) then at_ data (i - buf0) else at_ mem0 i;
}.

Lemma landed_init polls :
  landed 0 (Flight mem0 (zip (rng buf0 (buf0 + zlen data)) data) polls).
Proof.
  pose proof (zlen_nonneg data). split; simpl; [lia|done|done|].
  intros i Hi. by rewrite decide_False by lia.
Qed.

Lemma words_length : length (zip (rng buf0 (buf0 + zlen data)) data) = length data.
Proof. rewrite length_zip_with, length_rng. unfold zlen. lia. Qed.

Lemma words_lookup j :
  0 ≤ j < zlen data →
  zip (rng buf0 (buf0 + zlen data)) data !! Z.to_nat j = Some (buf0 + j, at_ data j).
Proof.
  intros Hj. apply lookup_zip_with_Some. exists (buf0 + j), (at_ data j). split; [done|]. split.
  - unfold rng. apply lookup_seqZ. lia.
  - unfold at_. apply list_lookup_lookup_total_lt. unfold zlen in Hj. lia.
Qed.

Lemma landed_pending_length j f : landed j f → length (f_pending f) = Z.to_nat (zlen data - j).
Proof.
  intros [Hr -> _ _]. rewrite length_drop, words_length. unfold zlen in *. lia.
Qed.

Lemma land_ok k j f :
  landed j f → ∃ f', land k f = Ok f' ∧ f_polls f' = f_polls f
    ∧ landed (Z.min (j + Z.of_nat k) (zlen data)) f'.
Proof.
  revert j f. induction k as [|k IH]; intros j f Hl.
  - exists f. destruct f as [mem pend polls]. unfold land. simpl. rewrite drop_0.
    split; [done|]. split; [done|]. pose proof (ld_range _ _ Hl).
    by replace (Z.min _ _) with j by lia.
  - pose proof (ld_range _ _ Hl) as Hr. pose proof (ld_pending _ _ Hl) as Hp.
    destruct (decide (j = zlen data)) as [->|Hj].
    { rewrite drop_ge in Hp by (rewrite words_length; unfold zlen; lia).
      exists f. unfold land. rewrite Hp, take_nil, drop_nil. simpl. rewrite <- Hp.
      destruct f as [mem pend polls]. split; [done|]. split; [done|].
      by replace (Z.min _ _) with (zlen data) by lia. }
    rewrite (drop_S _ _ _ (words_lookup j ltac:(lia))) in Hp.
    pose proof (ld_len _ _ Hl) as Hlen.
    set (mem1 := <[Z.to_nat (buf0 + j):=at_ data j]> (f_mem f)).
    destruct (IH (j + 1) (Flight mem1 (drop (S (Z.to_nat j)) (zip (rng buf0 (buf0 + zlen data)) data))
                (f_polls f))) as (f' & E & Hpl & Hl').
    { split; simpl; [lia|f_equal; lia|unfold mem1; by rewrite zlen_insert|].
      intros i Hi. unfold mem1. rewrite at_insert by lia. rewrite (ld_mem _ _ Hl i Hi).
      repeat case_decide; try lia; try done. f_equal. lia. }
    exists f'. split; [|split; [done|]].
    + unfold land in E |- *. simpl in E. rewrite Hp. simpl. rewrite aset_ok by lia. exact E.
    + by replace (Z.min (j + Z.of_nat (S k)) (zlen data))
        with (Z.min (j + 1 + Z.of_nat k) (zlen data)) by lia.
Qed.

(** Spinning on a signed word ends, and only after the word has landed. *)
Lemma spin_ok i j f :
  0 ≤ i < zlen data → at_ mem0 (buf0 + i) = NULL_VERT → at_ data i ≠ NULL_VERT →
  landed j f → ∃ j' f', spin (buf0 + i) f = Ok f' ∧ landed j' f' ∧ j ≤ j' ∧ i < j'.
Proof.
  intros Hi Hnull Hdata Hl. unfold spin.
  destruct (loopM_total (λ f, ∃ j', landed j' f ∧ j ≤ j')
    (λ f, ∃ j', landed j' f ∧ j ≤ j' ∧ i < j') (λ f, length (f_pending f))
    (spin_step (buf0 + i)) (S (length (f_pending f))) f) as (f' & E & j' & Hl' & Hj & Hij).
  - by exists j.
  - lia.
  - clear f Hl. intros f (j' & Hl & Hj). unfold spin_step. pose proof (ld_range _ _ Hl).
    rewrite aget_at by (rewrite (ld_len _ _ Hl); lia). rewrite bind_ok, (ld_mem _ _ Hl) by lia.
    destruct (decide (i < j')) as [Hij|Hij].
    + rewrite decide_True by lia. replace (buf0 + i - buf0) with i by lia.
      rewrite bool_decide_eq_false_2 by done. eexists; split; [done|]. simpl. eauto.
    + rewrite decide_False, Hnull by lia. rewrite bool_decide_eq_true_2 by done.
      pose proof (landed_pending_length _ _ Hl) as Hpl.
      destruct (f_pending f) as [|q pend] eqn:Ep; [simpl in Hpl; lia|]. rewrite <- Ep in *.
      destruct (land_ok (S (nic_burst (f_polls f))) j' f Hl) as (f' & -> & _ & Hl').
      rewrite bind_ok. eexists; split; [done|]. simpl. split.
      * exists (Z.min (j' + Z.of_nat (S (nic_burst (f_polls f)))) (zlen data)).
        split; [|lia]. by destruct Hl'.
      * rewrite (landed_pending_length _ _ Hl'), Hpl. lia.
  - rewrite E. eauto 6.
Qed.

(** A list whose last word has landed has landed completely. *)
Lemma landed_slice j f o d :
  landed j f → 0 ≤ o → 0 ≤ d → o + d ≤ j → slice (buf0 + o) d (f_mem f) = slice o d data.
Proof.
  intros Hl Ho Hd Hj. pose proof (ld_range _ _ Hl). pose proof (ld_len _ _ Hl).
  apply list_eq_at.
  - rewrite !zlen_slice; lia.
  - intros i Hi. rewrite zlen_slice in Hi by lia. rewrite !at_slice by lia.
    rewrite (ld_mem _ _ Hl) by lia. rewrite decide_True by lia. f_equal. lia.
Qed.
End landing.

(** ** Which vertices a run has processed: each active vertex of the list [rs]
    at most once, and those with out-edges exactly once. *)
Definition covers (act : Z → bool) (deg : Z → Z) (rs l : list Z) : Prop :=
  NoDup l ∧ (∀ x, x ∈ l → x ∈ rs ∧ act x = true)
  ∧ ∀ x, x ∈ rs → act x = true → 0 < deg x → x ∈ l.

Lemma covers_nil act deg : covers act deg [] [].
Proof using Type. split; [constructor|]. set_solver. Qed.

Lemma covers_app act deg rs1 rs2 l1 l2 :
  NoDup (rs1 ++ rs2) → covers act deg rs1 l1 → covers act deg rs2 l2 →
  covers act deg (rs1 ++ rs2) (l2 ++ l1).
Proof using Type.
  intros (_ & Hdis & _)%NoDup_app (N1 & S1 & C1) (N2 & S2 & C2). split; [|split].
  - apply NoDup_app. split; [done|]. split; [|done].
    intros x Hx2%S2 Hx1%S1. by apply (Hdis x); naive_solver.
  - intros x. rewrite !elem_of_app. naive_solver.
  - intros x. rewrite !elem_of_app. naive_solver.
Qed.

Lemma covers_perm act deg rs rs' l : rs ≡ₚ rs' → covers act deg rs l → covers act deg rs' l.
Proof using Type.
  intros Hp (N & S & C). split; [done|]. setoid_rewrite <- Hp. done.
Qed.

(** ** Draining a window *)
Section run.
  Context {U : Type} (function : nat → Z → list Z → Z → U → result U).
  Context (ctx : client_context) (idx : list vertex) (edge_buf_size : Z).
  Context (act : Z → bool) (I : list Z → U → Prop).
  Abbreviation n := (num_vertices (app ctx)).
  Abbreviation m := (num_edges (app ctx)).
  Abbreviation deg := (deg idx m).
  Abbreviation adj := (adj_of idx m (rr_words remote)).

(** The client's function, called on a vertex that [act] selects and that was
    not processed before, preserves the client's invariant [I]. *)
Definition client_ok : Prop :=
  ∀ t v dn u, 0 ≤ v < n → act v = true → v ∉ dn → I dn u →
    ∃ u', function t v (adj v) (deg v) u = Ok u' ∧ I (v :: dn) u'.

Context (Hsv : served ctx) (Hcl : client_ok).

Section window.
  Context (buf0 : Z) (mem0 : list Z) (Hpk : pack_ok ctx buf0 idx edge_buf_size mem0).
  Context (gs : list (Z * Z)) (p : packing) (Hp : packed ctx buf0 idx mem0 gs p).
  Context (Htot : total_edges p ≤ edge_buf_size).
  Abbreviation data := (members gs ≫= adj).

Lemma data_length : zlen data = total_edges p.
Proof.
  rewrite (members_adj ctx idx Hsv (po_csr _ _ _ _ _ Hpk) gs (pkd_groups _ _ _ _ _ _ Hp)).
  rewrite (pkd_total _ _ _ _ _ _ Hp). symmetry.
  apply members_deg; [apply (po_csr _ _ _ _ _ Hpk)|apply (pkd_groups _ _ _ _ _ _ Hp)].
Qed.

Lemma bind_adj_length vs : (∀ v, v ∈ vs → 0 ≤ v < n) → zlen (vs ≫= adj) = zsum deg vs.
Proof using Hsv Hpk.
  clear Hcl Htot Hp I act function U.
  intros Hvs. induction vs as [|v vs IH]; [done|].
  rewrite bind_cons, zlen_app, zsum_cons, IH by set_solver. f_equal.
  apply (zlen_adj _ n); [apply (po_csr _ _ _ _ _ Hpk)|apply (sv_len _ Hsv)|set_solver].
Qed.

Lemma adj_words v : Forall (λ x, x ≠ NULL_VERT) (adj v).
Proof using Hsv Hpk.
  clear Hcl Htot Hp I act function U. apply Forall_slice, (sv_words _ Hsv). Qed.

(** The place of one vertex in the buffer: signatures and data. *)
Lemma vertex_place pre v suf :
  members gs = pre ++ v :: suf →
  0 ≤ v < n ∧ 0 < deg v ∧ 0 ≤ zsum deg pre ∧ zsum deg pre + deg v ≤ zlen data
  ∧ at_ (pk_mem p) (buf0 + zsum deg pre) = NULL_VERT
  ∧ at_ (pk_mem p) (buf0 + (zsum deg pre + (deg v - 1))) = NULL_VERT
  ∧ slice (zsum deg pre) (deg v) data = adj v
  ∧ ∀ i, zsum deg pre ≤ i < zsum deg pre + deg v → at_ data i ≠ NULL_VERT.
Proof using Hsv Hpk Hp.
  clear Hcl Htot I act function U.
  intros Hm. pose proof (members_range _ _ (pkd_groups _ _ _ _ _ _ Hp)) as Hr.
  rewrite Hm in Hr. pose proof (pkd_pos _ _ _ _ _ _ Hp) as Hpos. rewrite Hm in Hpos.
  apply Forall_app in Hpos as [Hpre Hpos]. apply Forall_cons in Hpos as [Hd Hsuf].
  pose proof (zlen_le_zsum _ _ Hpre). pose proof (zlen_nonneg pre).
  pose proof (zlen_le_zsum _ _ Hsuf). pose proof (zlen_nonneg suf).
  assert (Hdata : data = (pre ≫= adj) ++ adj v ++ (suf ≫= adj)).
  { by rewrite Hm, bind_app, bind_cons. }
  assert (Hlp : zlen (pre ≫= adj) = zsum deg pre) by (apply bind_adj_length; set_solver).
  assert (Hls : zlen (suf ≫= adj) = zsum deg suf) by (apply bind_adj_length; set_solver).
  assert (Hlv : zlen (adj v) = deg v).
  { apply (zlen_adj _ n); [apply (po_csr _ _ _ _ _ Hpk)|apply (sv_len _ Hsv)|set_solver]. }
  pose proof (pkd_signed _ _ _ _ _ _ Hp) as Hs. rewrite Hm in Hs.
  apply signed_app in Hs as [_ Hs]. simpl in Hs. destruct Hs as (Hs1 & Hs2 & _).
  assert (Hsl : slice (zsum deg pre) (deg v) data = adj v).
  { rewrite Hdata, <- Hlp, <- Hlv. apply slice_middle. }
  split; [set_solver|]. split; [done|]. split; [lia|].
  split; [rewrite Hdata, !zlen_app; lia|]. split; [done|].
  split; [rewrite <- Hs2; f_equal; lia|]. split; [done|].
  intros i Hi. pose proof (adj_words v) as Hw.
  rewrite Forall_forall in Hw. apply Hw. rewrite <- Hsl.
  replace i with (zsum deg pre + (i - zsum deg pre)) by lia.
  rewrite <- (at_slice _ (deg v)) by (rewrite ?Hdata, ?zlen_app; lia).
  rewrite Hsl. unfold at_. apply list_elem_of_lookup_total_2. unfold zlen in Hlv. lia.
Qed.

Lemma drain_vertex_ok t pre v suf j f tm u dn :
  members gs = pre ++ v :: suf → act v = true → v ∉ dn → I dn u →
  landed buf0 (pk_mem p) data j f →
  ∃ j' f' tm' u', drain_vertex function ctx idx t v (Drain f (buf0 + zsum deg pre) tm u)
      = Ok (Drain f' (buf0 + zsum deg pre + deg v) tm' u')
    ∧ landed buf0 (pk_mem p) data j' f' ∧ I (v :: dn) u'.
Proof.
  intros Hm Ha Hnin HI Hl.
  destruct (vertex_place pre v suf Hm) as (Hv & Hd & Ho & Hfit & Hn1 & Hn2 & Hsl & Hne).
  pose proof data_length as Hdl. pose proof (po_buf _ _ _ _ _ Hpk) as Hbuf.
  pose proof (po_ebs _ _ _ _ _ Hpk) as Hebs. pose proof (pkd_mem_len _ _ _ _ _ _ Hp) as Hml.
  unfold drain_vertex. rewrite (get_num_edges_deg _ n) by (done || apply (po_csr _ _ _ _ _ Hpk)).
  rewrite bind_ok. cbn [d_pos d_flight d_tm d_user].
  assert (Hb0 : 0 ≤ buf0) by lia. assert (Hb1 : buf0 + zlen data ≤ zlen (pk_mem p)) by lia.
  destruct (spin_ok buf0 (pk_mem p) data Hb0 Hb1 (zsum deg pre) j f)
    as (j1 & f1 & -> & Hl1 & _ & _); [lia|done|apply Hne; lia|done|].
  rewrite bind_ok, u32_id' by lia. rewrite <- (Z.add_assoc buf0 _ (deg v - 1)).
  destruct (spin_ok buf0 (pk_mem p) data Hb0 Hb1 (zsum deg pre + (deg v - 1)) j1 f1)
    as (j2 & f2 & -> & Hl2 & _ & Hj2); [lia|done|apply Hne; lia|done|].
  rewrite bind_ok. unfold read_edges. rewrite (ld_len _ _ _ _ _ Hl2), decide_True by lia.
  rewrite bind_ok, (landed_slice buf0 (pk_mem p) data Hb0 Hb1 j2) by (done || lia).
  rewrite Hsl. destruct (Hcl t v dn u Hv Ha Hnin HI) as (u' & -> & HI').
  rewrite bind_ok. by exists j2, f2, (clocked FunctionTime t (clocked SpinTime t tm)), u'.
Qed.

(** The two nested loops visit the members of the intervals in order. *)
Lemma drain_loops body k pre r (vb : list vertex_range) (d : @drain_state U) gs0 :
  vb = pre ++ ((λ g, VRange g.1 g.2) <$> gs0) ++ r → zlen pre = k →
  for_u32 k (k + zlen gs0) (λ i d,
    r ← aget vb i; forM (rng (v_s r) (v_e r + 1)) body d) d
  = forM (members gs0) body d.
Proof using Type.
  revert k pre d. induction gs0 as [|g gs0 IH]; intros k pre d Hvb Hk.
  { unfold for_u32. by rewrite rng_nil by (unfold zlen; simpl; lia). }
  unfold for_u32 in *. pose proof (zlen_nonneg gs0).
  replace (zlen (g :: gs0)) with (1 + zlen gs0) by (unfold zlen; simpl; lia).
  rewrite rng_cons by lia. cbn [forM]. simpl in Hvb. rewrite Hvb at 1.
  rewrite aget_middle by done. rewrite bind_ok. cbn [v_s v_e].
  unfold members. rewrite bind_cons, forM_app.
  destruct (forM (rng g.1 (g.2 + 1)) body d) as [d'|]; [|done]. rewrite !bind_ok.
  replace (k + (1 + zlen gs0)) with (k + 1 + zlen gs0) by lia.
  apply (IH (k + 1) (pre ++ [VRange g.1 g.2])); [by rewrite Hvb, <- app_assoc|].
  rewrite zlen_app. unfold zlen in *. simpl. lia.
Qed.

Lemma drain_ok t polls tm u dn :
  NoDup (members gs) → (∀ v, v ∈ members gs → act v = true) →
  (∀ v, v ∈ members gs → v ∉ dn) → I dn u →
  ∃ j f tm' pos u', drain function ctx idx t (pk_win p) (pk_wrs p)
      (Drain (Flight (pk_mem p) (zip (rng buf0 (buf0 + zlen data)) data) polls) buf0 tm u)
      = Ok (Drain f pos tm' u')
    ∧ landed buf0 (pk_mem p) data j f ∧ I (reverse (members gs) ++ dn) u'.
Proof.
  intros Hnd Hact Hdis HI. unfold drain. rewrite (pkd_wrs _ _ _ _ _ _ Hp).
  destruct (wf_vb _ _ _ _ _ (pkd_win _ _ _ _ _ _ Hp)) as [r Hvb].
  pose proof (drain_loops (drain_vertex function ctx idx t) 0 [] r _ (Drain (Flight (pk_mem p)
     (zip (rng buf0 (buf0 + zlen data)) data) polls) buf0 tm u) gs Hvb eq_refl) as Hdl.
  rewrite Z.add_0_l in Hdl. rewrite Hdl. clear Hdl.
  destruct (forM_prefix_inv (λ pre d, ∃ j, landed buf0 (pk_mem p) data j (d_flight d)
      ∧ d_pos d = buf0 + zsum deg pre ∧ I (reverse pre ++ dn) (d_user d))
    (members gs) (drain_vertex function ctx idx t) (Drain (Flight (pk_mem p)
     (zip (rng buf0 (buf0 + zlen data)) data) polls) buf0 tm u))
    as ([f pos tm' u'] & E & j & Hl & _ & HI').
  - exists 0. split; [by apply landed_init|]. split; [simpl; lia|done].
  - intros pre v suf [f pos tm1 u1] Hm (j & Hl & Hpos & HI1). simpl in Hl, Hpos, HI1.
    rewrite Hm in Hnd, Hact, Hdis.
    assert (v ∉ reverse pre ++ dn).
    { rewrite not_elem_of_app, elem_of_reverse. split; [|set_solver].
      apply NoDup_app in Hnd as (_ & Hd & _). intros Hin%Hd. set_solver. }
    destruct (drain_vertex_ok t pre v suf j f tm1 u1 (reverse pre ++ dn))
      as (j' & f' & tm2 & u2 & E & Hl' & HI2); [done|set_solver|done..|].
    subst pos. rewrite E. eexists; split; [done|]. exists j'. simpl.
    rewrite zsum_app, reverse_snoc. unfold zsum at 3. simpl.
    split; [done|]. split; [lia|done].
  - by exists j, f, tm', pos, u'.
Qed.

(** C20: the signatures of the edge buffer are sound and the busy-waits end.
    For a packed window the card's transfers are posted without a fault, and
    whatever the number of words that land between two looks at the memory, the
    loop over the window's vertices ends and calls the client's function on
    every vertex of the window, in order, with exactly its adjacency list: a list
    is never handed over while a part of it is still in flight.  Memory outside
    the window's places is left alone. *)
Theorem window_drained_correctly t polls tm u dn :
  gs ≠ [] → NoDup (members gs) → (∀ v, v ∈ members gs → act v = true) →
  (∀ v, v ∈ members gs → v ∉ dn) → I dn u →
  ∃ words d, posted_words ctx (pk_win p) = Ok words
    ∧ drain function ctx idx t (pk_win p) (pk_wrs p)
        (Drain (Flight (pk_mem p) words polls) buf0 tm u) = Ok d
    ∧ I (reverse (members gs) ++ dn) (d_user d)
    ∧ ∀ i, 0 ≤ i → ¬ (buf0 ≤ i < buf0 + total_edges p) → at_ (f_mem (d_flight d)) i = at_ mem0 i.
Proof.
  intros Hgs Hnd Hact Hdis HI. pose proof (po_csr _ _ _ _ _ Hpk) as Hcsr.
  pose proof (pkd_groups _ _ _ _ _ _ Hp) as Hgr. pose proof (po_buf _ _ _ _ _ Hpk) as [Hb _].
  destruct (drain_ok t polls tm u dn Hnd Hact Hdis HI) as (j & f & tm' & pos & u' & E & Hl & HI').
  exists (zip (rng buf0 (buf0 + zlen data)) data), (Drain f pos tm' u').
  split; [|split; [exact E|split; [exact HI'|]]].
  - rewrite (posted_words_ok ctx idx Hsv Hcsr _ _ _ (pkd_win _ _ _ _ _ _ Hp) Hgs) by done.
    by rewrite <- (members_adj ctx idx Hsv Hcsr gs Hgr).
  - intros i Hi Hout. pose proof (ld_range _ _ _ _ _ Hl). pose proof data_length.
    cbn [d_flight]. rewrite (ld_mem _ _ _ _ _ Hl), decide_False by lia.
    by apply (pkd_frame _ _ _ _ _ _ Hp).
Qed.
End window.

(** ** The assumptions of a run, checked once by the constructor of the context *)
Definition window_shaped (w : window) : Prop :=
  zlen (wr_window w) = WR_WINDOW_SIZE ∧ zlen (sge_window w) = WR_WINDOW_SIZE
  ∧ zlen (vertex_batch w) = WR_WINDOW_SIZE.

Record engine_ok (garbage : window) (mem_words : Z) : Prop := {
  eo_csr : csr_ok idx n m;
  eo_window : 0 < WR_WINDOW_SIZE < 2 ^ 32;
  eo_ebs : 0 < edge_buf_size < 2 ^ 30;
  eo_deg v : 0 ≤ v < n → deg v ≤ edge_buf_size;
  eo_m : m < 2 ^ 62;
  eo_addr : 0 ≤ peer_addr ctx ∧ peer_addr ctx + 4 * m < 2 ^ 64;
  eo_mem : Z.of_nat n_workers * edge_buf_size ≤ mem_words;
  eo_ids : Z.of_nat n_workers ≤ zlen (cm_ids ctx);
  eo_garbage : window_shaped garbage;
}.

Context (garbage : window) (mem_words : Z) (Heo : engine_ok garbage mem_words).

Lemma engine_pack_ok t mem :
  (t < n_workers)%nat → zlen mem = mem_words →
  pack_ok ctx (Z.of_nat t * edge_buf_size) idx edge_buf_size mem.
Proof.
  intros Ht Hm. destruct Heo. split; try done. rewrite Hm. nia.
Qed.

Lemma window_for_shaped buf0 gs w : window_for ctx buf0 idx gs w → window_shaped w.
Proof using Type. by intros [_ _ _ ? ? ?]. Qed.

Section worker_ok.
  Context (pack : Z → window → list Z → timing → U → result (Z * packing * timing * U)).
  Context (nonempty : packing → bool) (post : nat → result nat).
  Context (t : nat) (Ht : (t < n_workers)%nat).
  Context (sel : Z → bool) (ext : Z → Z → list Z) (hi : Z) (Hhi : hi ≤ n).
  Context (vlo vhi : Z) (Hvhi : hi ≤ vhi).
  Abbreviation buf0 := (Z.of_nat t * edge_buf_size).

(** What the worker needs of a packing routine, a test and a way to post. *)
Definition pack_works : Prop :=
  ∀ next w mem tm u dn, 0 ≤ next < hi → vlo ≤ next → window_shaped w → zlen mem = mem_words →
    (∀ x, x ∈ dn → ¬ (next ≤ x < hi)) → I dn u →
    ∃ v p tm' u' gs, pack next w mem tm u = Ok (v, p, tm', u')
      ∧ pack_result ctx buf0 idx edge_buf_size mem sel next hi v gs p
      ∧ I (ext next v ++ dn) u'.

Definition test_works : Prop :=
  ∀ mem gs p, packed ctx buf0 idx mem gs p → nonempty p = true ↔ gs ≠ [].

Definition post_works : Prop := ∀ k, ∃ k', post k = Ok k'.

Definition selection_covers : Prop :=
  ∀ a b, vlo ≤ a → b ≤ vhi → covers act deg (rng a b) (reverse (wanted ctx idx sel a b) ++ ext a b).

Context (Hpack : pack_works) (Htest : test_works) (Hpost : post_works) (Hsel : selection_covers).

(** The words outside the worker's slice of the RDMA window are left alone. *)
Definition outside_same (mem mem' : list Z) : Prop :=
  ∀ j, 0 ≤ j → ¬ (buf0 ≤ j < buf0 + edge_buf_size) → at_ mem' j = at_ mem j.

Lemma worker_step_ok next w e dn :
  0 ≤ next < hi → vlo ≤ next → window_shaped w → zlen (e_mem e) = mem_words →
  (∀ x, x ∈ dn → ¬ (next ≤ x < hi)) → I dn (e_user e) →
  ∃ v w' e' l,
    worker_step function pack nonempty post ctx idx t buf0 hi (next, w, e) = Ok (inl (v, w', e'))
    ∧ next < v ≤ hi ∧ window_shaped w' ∧ zlen (e_mem e') = mem_words
    ∧ outside_same (e_mem e) (e_mem e') ∧ covers act deg (rng next v) l
    ∧ I (l ++ dn) (e_user e').
Proof.
  intros Hn Hvlo Hw Hm Hdn HI. unfold worker_step. rewrite bool_decide_eq_true_2 by lia.
  pose proof (engine_pack_ok t (e_mem e) Ht Hm) as Hpk.
  destruct (Hpack next w (e_mem e) (e_tm e) (e_user e) dn Hn Hvlo Hw Hm Hdn HI)
    as (v & p & tm' & u' & gs & -> & Hr & HI1).
  rewrite bind_ok. pose proof Hr as [Hv Hp Hmem Htot _ _].
  pose proof (po_buf _ _ _ _ _ Hpk) as [Hbuf _].
  assert (Hprog : next < v) by (eapply pack_progress; [exact Hpk|exact Hr|lia|lia]).
  destruct (Hsel next v) as (Hnd & Hin & Hall); [lia|lia|].
  rewrite <- Hmem in Hnd, Hin, Hall.
  pose proof (window_for_shaped _ _ _ (pkd_win _ _ _ _ _ _ Hp)) as Hw'.
  exists v, (pk_win p).
  destruct (nonempty p) eqn:Ene.
  - assert (Hgs : gs ≠ []) by (by apply (Htest (e_mem e) gs p Hp)).
    rewrite aget_at, bind_ok by (destruct Heo; lia).
    destruct (Hpost (e_posts e)) as [k' ->]. rewrite bind_ok.
    rewrite (posted_words_ok ctx idx Hsv (po_csr _ _ _ _ _ Hpk) _ _ _ (pkd_win _ _ _ _ _ _ Hp) Hgs)
      by (lia || apply (pkd_groups _ _ _ _ _ _ Hp)). rewrite bind_ok.
    rewrite <- (members_adj ctx idx Hsv (po_csr _ _ _ _ _ Hpk) gs (pkd_groups _ _ _ _ _ _ Hp)).
    destruct (drain_ok buf0 (e_mem e) Hpk gs p Hp Htot t (e_polls e) tm' u' (ext next v ++ dn))
      as (j & f & tm2 & pos & u2 & -> & Hl & HI2).
    + by apply NoDup_app in Hnd as (Hnd & _); rewrite reverse_Permutation in Hnd.
    + intros x Hx. apply Hin. rewrite elem_of_app, elem_of_reverse. by left.
    + intros x Hx. rewrite not_elem_of_app. apply NoDup_app in Hnd as (_ & Hd & _).
      split; [apply Hd; by rewrite elem_of_reverse|]. intros Hx'%Hdn.
      destruct (Hin x) as [Hxr _]; [rewrite elem_of_app, elem_of_reverse; by left|].
      apply elem_of_rng in Hxr. lia.
    + done.
    + rewrite bind_ok. eexists _, (reverse (members gs) ++ ext next v). split; [done|].
      split; [lia|]. split; [done|]. simpl. split; [by rewrite (ld_len _ _ _ _ _ Hl), (pkd_mem_len _ _ _ _ _ _ Hp)|].
      split; [|split; [done|by rewrite <- app_assoc]].
      intros i Hi Hout. pose proof (data_length buf0 (e_mem e) Hpk gs p Hp) as Hdl.
      pose proof (ld_range _ _ _ _ _ Hl). rewrite (ld_mem _ _ _ _ _ Hl) by done.
      rewrite decide_False by lia. apply (pkd_frame _ _ _ _ _ _ Hp); [done|lia].
  - assert (gs = []) as ->.
    { destruct gs as [|g gs]; [done|]. enough (nonempty p = true) by congruence.
      by apply (Htest (e_mem e) (g :: gs) p Hp). }
    eexists _, (ext next v). split; [done|]. split; [lia|]. split; [done|]. simpl.
    split; [by rewrite (pkd_mem_len _ _ _ _ _ _ Hp)|]. split; [|split; [done|done]].
    intros i Hi Hout. apply (pkd_frame _ _ _ _ _ _ Hp); [done|lia].
Qed.

Lemma worker_loop_ok lo e dn :
  0 ≤ lo ≤ hi → vlo ≤ lo → zlen (e_mem e) = mem_words → (∀ x, x ∈ dn → ¬ (lo ≤ x < hi)) →
  I dn (e_user e) →
  ∃ e' l,
    worker_loop function (λ _, pack) nonempty post ctx idx garbage edge_buf_size t lo hi e = Ok e'
    ∧ zlen (e_mem e') = mem_words ∧ outside_same (e_mem e) (e_mem e')
    ∧ covers act deg (rng lo hi) l ∧ I (l ++ dn) (e_user e').
Proof.
  intros Hlo Hvlo Hm Hdn HI. unfold worker_loop.
  destruct (loopM_total (λ st, lo ≤ st.1.1 ≤ hi ∧ window_shaped st.1.2
      ∧ zlen (e_mem st.2) = mem_words ∧ outside_same (e_mem e) (e_mem st.2)
      ∧ ∃ l, covers act deg (rng lo st.1.1) l ∧ I (l ++ dn) (e_user st.2))
    (λ e', zlen (e_mem e') = mem_words ∧ outside_same (e_mem e) (e_mem e')
      ∧ ∃ l, covers act deg (rng lo hi) l ∧ I (l ++ dn) (e_user e'))
    (λ st, Z.to_nat (hi - st.1.1))
    (worker_step function pack nonempty post ctx idx t buf0 hi) (range_fuel lo hi) (lo, garbage, e))
    as (e' & E & Hm' & Ho' & l & Hc & HI').
  - simpl. split; [lia|]. split; [apply (eo_garbage _ _ Heo)|]. split; [done|]. split; [by intros j|].
    exists []. rewrite rng_nil by lia. split; [apply covers_nil|done].
  - unfold range_fuel. simpl. lia.
  - intros [[next w] e1] (Hn & Hw & Hm1 & Ho & l & Hc & HI1). cbn [fst snd] in *.
    destruct (decide (next < hi)) as [Hlt|Hge].
    + destruct (worker_step_ok next w e1 (l ++ dn))
        as (v & w' & e2 & l' & -> & Hv & Hw' & Hm2 & Ho2 & Hc2 & HI2); [lia|lia|done|done| |done|].
      { intros x. rewrite elem_of_app. intros [Hx|Hx]; [|intros ?; apply (Hdn x Hx); lia].
        apply Hc in Hx as [Hx%elem_of_rng _]. lia. }
      eexists; split; [done|]. simpl. split; [|lia]. split; [lia|]. split; [done|]. split; [done|].
      split; [intros j Hj Hout; rewrite Ho2 by done; by apply Ho|].
      exists (l' ++ l). rewrite <- app_assoc. split; [|done].
      rewrite (rng_app lo next v) by lia. apply covers_app; [|done..].
      rewrite <- rng_app by lia. apply NoDup_rng.
    + unfold worker_step. rewrite bool_decide_eq_false_2 by lia. eexists; split; [done|].
      simpl. replace next with hi in Hc by lia. eauto.
  - rewrite E. eauto 7.
Qed.
End worker_ok.

(** Chunks of a schedule, one after the other. *)
Lemma parallel_covers k lo hi (body : nat → Z → Z → @estate U → result (@estate U)) e :
  0 ≤ lo → hi ≤ n →
  (∀ t a b e dn, (t < n_workers)%nat → lo ≤ a ≤ b → b ≤ hi → zlen (e_mem e) = mem_words →
     (∀ x, x ∈ dn → ¬ (a ≤ x < b)) → I dn (e_user e) →
     ∃ e' l, body t a b e = Ok e' ∧ zlen (e_mem e') = mem_words
       ∧ covers act deg (rng a b) l ∧ I (l ++ dn) (e_user e')) →
  zlen (e_mem e) = mem_words → I [] (e_user e) →
  ∃ e' l, parallel_for k lo hi body e = Ok e' ∧ zlen (e_mem e') = mem_words
    ∧ covers act deg (rng lo hi) l ∧ I l (e_user e').
Proof.
  intros Hlo Hhi Hbody Hm HI. unfold parallel_for.
  destruct (schedule_tiles k lo hi) as [Hne Hperm]. pose proof (schedule_workers k lo hi) as Hwk.
  destruct (forM_prefix_inv (λ pre e, zlen (e_mem e) = mem_words
      ∧ ∃ l, covers act deg (pre ≫= chunk_rng) l ∧ I l (e_user e))
    (schedule k lo hi) (λ c, body (worker c) (c_begin c) (c_end c)) e)
    as (e' & E & Hm' & l & Hc & HI').
  - split; [done|]. exists []. split; [apply covers_nil|done].
  - intros pre c suf e1 Hs (Hm1 & l & Hc & HI1).
    rewrite Hs in Hne, Hwk. apply Forall_app in Hne as [_ [Hlt _]%Forall_cons].
    apply Forall_app in Hwk as [_ [Ht _]%Forall_cons].
    rewrite Hs, bind_app, bind_cons in Hperm.
    assert (Hnd : NoDup ((pre ≫= chunk_rng) ++ chunk_rng c)).
    { pose proof (NoDup_rng lo hi) as Hr. rewrite <- Hperm, app_assoc in Hr.
      by apply NoDup_app in Hr as [? _]. }
    assert (Hin : ∀ x, x ∈ chunk_rng c → lo ≤ x < hi).
    { intros x Hx. apply elem_of_rng. rewrite <- Hperm. set_solver. }
    unfold chunk_rng in Hin. setoid_rewrite elem_of_rng in Hin.
    pose proof (Hin (c_begin c) ltac:(lia)). pose proof (Hin (c_end c - 1) ltac:(lia)).
    destruct (Hbody (worker c) (c_begin c) (c_end c) e1 l) as (e2 & l2 & E & Hm2 & Hc2 & HI2);
      [done|lia|lia|done| |done|].
    { intros x [Hx _]%Hc Hr. apply NoDup_app in Hnd as (_ & Hd & _). apply (Hd x Hx).
      by apply elem_of_rng. }
    exists e2. split; [done|]. split; [done|]. exists (l2 ++ l). split; [|done].
    rewrite bind_app, bind_singleton. by apply covers_app.
  - exists e', l. split; [done|]. split; [done|]. split; [|done].
    by eapply covers_perm; [exact Hperm|].
Qed.

Lemma nonempty_wrs t :
  test_works (λ p, bool_decide (0 < pk_wrs p)) t.
Proof using Type.
  intros mem gs p Hp. rewrite bool_decide_eq_true, (pkd_wrs _ _ _ _ _ _ Hp).
  unfold zlen. destruct gs; simpl; split; [lia|done|done|lia].
Qed.

Lemma nonempty_batch t :
  test_works (λ p, bool_decide (0 < batch_size p)) t.
Proof using Type.
  intros mem gs p Hp. rewrite bool_decide_eq_true, (pkd_batch _ _ _ _ _ _ Hp).
  pose proof (groups_le_members _ _ (pkd_groups _ _ _ _ _ _ Hp)) as Hle.
  destruct gs as [|g gs]; [split; [unfold zlen; simpl; lia|done]|].
  split; [done|]. intros _. unfold zlen in *. simpl in *. lia.
Qed.

Lemma post_once_works : (∀ k, post_ret k = 0) → post_works post_once.
Proof using Type. intros H k. unfold post_once, TEST_NZ. rewrite H. eexists. done. Qed.

(** The send queue always has room again within [fuel] attempts. *)
Definition queue_drains (fuel : nat) : Prop :=
  ∀ k, ∃ d, (d < fuel)%nat ∧ post_ret (k + d) = 0
    ∧ ∀ i, (i < d)%nat → post_ret (k + i) = ENOMEM.

Lemma post_retry_works fuel : queue_drains fuel → post_works (post_retry fuel).
Proof using Type.
  intros Hq k. destruct (Hq k) as (d & Hd & Hz & Hb). clear Hq. unfold post_retry.
  revert k fuel Hd Hz Hb. induction d as [|d IH]; intros k [|fuel] Hd Hz Hb; try lia; simpl.
  - rewrite Nat.add_0_r in Hz. rewrite Hz. simpl. by eexists.
  - pose proof (Hb 0%nat ltac:(lia)) as H0. rewrite Nat.add_0_r in H0. rewrite H0. simpl.
    apply IH; [lia|by rewrite <- Nat.add_succ_comm in Hz|].
    intros i Hi. specialize (Hb (S i) ltac:(lia)). by rewrite <- Nat.add_succ_comm in Hb.
Qed.

Lemma wanted_covers sel vlo vhi :
  (∀ v, vlo ≤ v < vhi → 0 < deg v → sel v = act v) → selection_covers sel (λ _ _, []) vlo vhi.
Proof using Type.
  intros Hsel a b Ha Hb. rewrite app_nil_r. unfold wanted. split; [|split].
  - rewrite reverse_Permutation. apply NoDup_filter, NoDup_rng.
  - intros x. rewrite elem_of_reverse, list_elem_of_filter. intros [[Hs Hd] Hx]. split; [done|].
    apply elem_of_rng in Hx. rewrite <- Hsel; [done|lia|done].
  - intros x Hx Hact Hd. rewrite elem_of_reverse, list_elem_of_filter. split; [|done].
    apply elem_of_rng in Hx. rewrite Hsel; [done|lia|done].
Qed.

(** A [parallel_for] of worker loops processes every active vertex of the range. *)
Lemma engine_run (pack : nat → Z → Z → Z → window → list Z → timing → U →
                         result (Z * packing * timing * U))
    nonempty post sel ext k lo hi e :
  (∀ t b, (t < n_workers)%nat → lo ≤ b ≤ hi →
     pack_works (pack t b (Z.of_nat t * edge_buf_size)) t sel ext b lo) →
  (∀ t, test_works nonempty t) → post_works post → selection_covers sel ext lo hi →
  0 ≤ lo → hi ≤ n → zlen (e_mem e) = mem_words → I [] (e_user e) →
  ∃ e' l, parallel_for k lo hi (λ t a b,
      worker_loop function (pack t b) nonempty post ctx idx garbage edge_buf_size t a b) e = Ok e'
    ∧ zlen (e_mem e') = mem_words ∧ covers act deg (rng lo hi) l ∧ I l (e_user e').
Proof.
  intros Hpack Htest Hpost Hsel Hlo Hhi. apply parallel_covers; [done|done|].
  intros t a b e1 dn Ht Hab Hb Hm Hdn HI.
  destruct (worker_loop_ok (pack t b (Z.of_nat t * edge_buf_size)) nonempty post t Ht sel ext b
    ltac:(lia) lo hi ltac:(lia) (Hpack t b Ht ltac:(lia)) (Htest t) Hpost Hsel a e1 dn)
    as (e2 & l & E & Hm2 & _ & Hc & HI2); [lia|lia|done..|]. by exists e2, l.
Qed.

Lemma cached_covers frontier vlo vhi :
  (∀ v, vlo ≤ v < vhi → act v = bm_get frontier v) →
  selection_covers (sel_uncached ctx frontier) (λ a b, reverse (cached_list ctx frontier a b)) vlo vhi.
Proof using Type.
  intros Hact a b Ha Hb. unfold wanted, cached_list, sel_uncached. split; [|split].
  - rewrite !reverse_Permutation. apply NoDup_app. split; [apply NoDup_filter, NoDup_rng|].
    split; [|apply NoDup_filter, NoDup_rng].
    intros x. rewrite !list_elem_of_filter, andb_true_iff, negb_true_iff. naive_solver congruence.
  - intros x. rewrite elem_of_app, !elem_of_reverse, !list_elem_of_filter, andb_true_iff.
    intros Hx. assert (Hr : x ∈ rng a b) by naive_solver. split; [done|].
    apply elem_of_rng in Hr. rewrite Hact by lia. naive_solver.
  - intros x Hx Hax Hd. pose proof Hx as Hr. apply elem_of_rng in Hr. rewrite Hact in Hax by lia.
    rewrite elem_of_app, !elem_of_reverse, !list_elem_of_filter, andb_true_iff, negb_true_iff.
    destruct (in_cache ctx x); naive_solver.
Qed.
End run.

(** ** The three engines *)
Section engines.
  Context {U : Type} (function : nat → Z → list Z → Z → U → result U).
  Context (ctx : client_context) (idx : list vertex) (edge_buf_size : Z).
  Context (garbage : window) (mem_words : Z) (I : list Z → U → Prop).
  Abbreviation n := (num_vertices (app ctx)).
  Abbreviation deg := (deg idx (num_edges (app ctx))).
  Context (Hsv : served ctx).
  Context (Heo : engine_ok ctx idx edge_buf_size garbage mem_words).

(** Active vertices of the range of a call. *)
Definition active_in (frontier : Bitmap) (lo hi v : Z) : bool :=
  bm_get frontier v && bool_decide (lo ≤ v < hi).

Lemma active_in_range frontier lo hi v :
  lo ≤ v < hi → active_in frontier lo hi v = bm_get frontier v.
Proof using Type. intros. unfold active_in. by rewrite bool_decide_eq_true_2, andb_true_r. Qed.

Lemma for_each_active_batch_ok frontier k lo hi e :
  (∀ k, post_ret k = 0) → bm_ok frontier → size frontier = n →
  client_ok function ctx idx (active_in frontier lo hi) I →
  0 ≤ lo → hi ≤ n → zlen (e_mem e) = mem_words → I [] (e_user e) →
  ∃ e' l, for_each_active_batch function k ctx idx garbage edge_buf_size frontier lo hi e = Ok e'
    ∧ zlen (e_mem e') = mem_words ∧ covers (active_in frontier lo hi) deg (rng lo hi) l
    ∧ I l (e_user e').
Proof.
  intros Hpost Hbm Hsz Hcl Hlo Hhi Hm HI. unfold for_each_active_batch.
  edestruct (engine_run function ctx idx edge_buf_size (active_in frontier lo hi) I Hsv Hcl garbage
    mem_words Heo) as (e' & l & E & Hm' & Hc & HI');
    [|apply nonempty_wrs|by apply post_once_works
     |apply (wanted_covers _ _ _ (bm_get frontier)); intros; by rewrite active_in_range
     |exact Hlo|exact Hhi|exact Hm|exact HI|rewrite E, bind_ok; by exists (end_round e'), l].
  intros t b Ht Hb next w mem tm u dn Hn _ (Hw1 & Hw2 & Hw3) Hmem _ HIu.
  destruct (pack_window_spec ctx (Z.of_nat t * edge_buf_size) idx edge_buf_size mem
    (engine_pack_ok _ _ _ _ _ Heo t mem Ht Hmem) w next b ltac:(lia) ltac:(lia) Hw1 Hw2 Hw3
    frontier t tm Hbm Hsz) as (v & p & gs & E & Hr).
  cbv beta. rewrite E, bind_ok. by exists v, p, (count_sends t p tm), u, gs.
Qed.

(** [for_each_range] visits every vertex of the range that has out-edges. *)
Definition linked_in (lo hi v : Z) : bool :=
  bool_decide (0 < deg v) && bool_decide (lo ≤ v < hi).

Lemma for_each_range_ok k lo hi e :
  (∀ k, post_ret k = 0) → client_ok function ctx idx (linked_in lo hi) I →
  0 ≤ lo → hi ≤ n → zlen (e_mem e) = mem_words → I [] (e_user e) →
  ∃ e' l, for_each_range function k ctx idx garbage edge_buf_size lo hi e = Ok e'
    ∧ zlen (e_mem e') = mem_words ∧ covers (linked_in lo hi) deg (rng lo hi) l ∧ I l (e_user e').
Proof.
  intros Hpost Hcl Hlo Hhi Hm HI. unfold for_each_range.
  edestruct (engine_run function ctx idx edge_buf_size (linked_in lo hi) I Hsv Hcl garbage
    mem_words Heo) as (e' & l & E & Hm' & Hc & HI');
    [|apply nonempty_batch|by apply post_once_works
     |apply (wanted_covers _ _ _ (λ _, true)); intros; unfold linked_in;
      by rewrite !bool_decide_eq_true_2
     |exact Hlo|exact Hhi|exact Hm|exact HI|rewrite E, bind_ok; by exists (end_round e'), l].
  intros t b Ht Hb next w mem tm u dn Hn _ (Hw1 & Hw2 & Hw3) Hmem _ HIu.
  destruct (pack_window2_spec ctx (Z.of_nat t * edge_buf_size) idx edge_buf_size mem
    (engine_pack_ok _ _ _ _ _ Heo t mem Ht Hmem) w next b ltac:(lia) ltac:(lia) Hw1 Hw2 Hw3
    t tm) as (v & p & gs & E & Hr).
  cbv beta. rewrite E, bind_ok. by exists v, p, (count_sends t p tm), u, gs.
Qed.

(** The cached packing routine does what a worker needs. *)
Lemma ccy_pack_works frontier lo hi t b :
  bm_ok frontier → size frontier = n → caches_coherent ctx idx (rr_words remote) →
  client_ok function ctx idx (active_in frontier lo hi) I → (t < n_workers)%nat → lo ≤ b ≤ hi →
  hi ≤ n →
  pack_works ctx idx edge_buf_size I mem_words (λ next w mem tm u, '(v, p, tm, u) ←
      cache_pack_window function ctx t (Z.of_nat t * edge_buf_size) edge_buf_size idx next b frontier
        w mem tm u; Ok (v, p, clocked PackWindowTime t tm, u))
    t (sel_uncached ctx frontier) (λ a b, reverse (cached_list ctx frontier a b)) b lo.
Proof.
  intros Hbm Hsz Hcc Hcl Ht Hb Hhi next w mem tm u dn Hn Hvlo (Hw1 & Hw2 & Hw3) Hmem Hdn HIu.
  destruct (cache_pack_window_spec ctx (Z.of_nat t * edge_buf_size) idx edge_buf_size mem
    (engine_pack_ok _ _ _ _ _ Heo t mem Ht Hmem) w next b ltac:(lia) ltac:(lia) Hw1 Hw2 Hw3
    function I (rr_words remote) frontier (active_in frontier lo hi) t tm u dn Hbm Hsz Hcl Hcc
    (sv_len _ Hsv))
    as (v & p & tm' & u' & gs & E & Hr & HI'); [|done|done|].
  - intros x Hx Hb'. rewrite active_in_range by lia. done.
  - cbv beta. rewrite E, bind_ok. by exists v, p, (clocked PackWindowTime t tm'), u', gs.
Qed.

Lemma ccy_for_each_active_batch_ok fuel frontier k lo hi e :
  queue_drains fuel → bm_ok frontier → size frontier = n →
  caches_coherent ctx idx (rr_words remote) →
  client_ok function ctx idx (active_in frontier lo hi) I →
  0 ≤ lo → hi ≤ n → zlen (e_mem e) = mem_words → I [] (e_user e) →
  ∃ e' l, ccy_for_each_active_batch function fuel k ctx idx garbage edge_buf_size frontier lo hi e
      = Ok e'
    ∧ zlen (e_mem e') = mem_words ∧ covers (active_in frontier lo hi) deg (rng lo hi) l
    ∧ I l (e_user e').
Proof.
  intros Hpost Hbm Hsz Hcc Hcl Hlo Hhi Hm HI. unfold ccy_for_each_active_batch.
  edestruct (engine_run function ctx idx edge_buf_size (active_in frontier lo hi) I Hsv Hcl garbage
    mem_words Heo) as (e' & l & E & Hm' & Hc & HI');
    [|apply nonempty_wrs|by apply post_retry_works
     |apply (cached_covers _ _ _ frontier); intros; by apply active_in_range
     |exact Hlo|exact Hhi|exact Hm|exact HI|rewrite E, bind_ok; by exists (end_round e'), l].
  intros t b Ht Hb. apply (ccy_pack_works frontier lo hi); done || lia.
Qed.

(** C18: the engine of the kernels processes every active vertex.  With a
    valid context, a cache that agrees with the graph, and a send queue that
    always has room again, [ccy_for_each_active_batch] ends without a fault under
    every schedule and every timing of the card, and has called the client's
    function exactly once on every active vertex of the range that has out-edges,
    and on no other vertex with out-edges, each time with its adjacency list. *)
Theorem ccy_engine_correct fuel frontier k lo hi e :
  queue_drains fuel → bm_ok frontier → size frontier = n →
  caches_coherent ctx idx (rr_words remote) →
  client_ok function ctx idx (active_in frontier lo hi) I →
  0 ≤ lo → hi ≤ n → zlen (e_mem e) = mem_words → I [] (e_user e) →
  ∃ e' l, ccy_for_each_active_batch function fuel k ctx idx garbage edge_buf_size frontier lo hi e
      = Ok e'
    ∧ zlen (e_mem e') = mem_words ∧ covers (active_in frontier lo hi) deg (rng lo hi) l
    ∧ I l (e_user e').
Proof. apply ccy_for_each_active_batch_ok. Qed.

(** C19: [for_each_range] calls the client's function exactly once on every
    vertex of the range that has out-edges, with its adjacency list, when the
    card accepts every request at once. *)
Theorem range_engine_correct k lo hi e :
  (∀ k, post_ret k = 0) → client_ok function ctx idx (linked_in lo hi) I →
  0 ≤ lo → hi ≤ n → zlen (e_mem e) = mem_words → I [] (e_user e) →
  ∃ e' l, for_each_range function k ctx idx garbage edge_buf_size lo hi e = Ok e'
    ∧ zlen (e_mem e') = mem_words ∧ covers (linked_in lo hi) deg (rng lo hi) l ∧ I l (e_user e').
Proof. apply for_each_range_ok. Qed.

(** workers do not disturb each other.  A worker's loop over a
    subrange reads and writes only its own slice of the RDMA window: the slices
    of all other workers are the same before and after. *)
Theorem workers_isolated fuel frontier t lo hi e :
  queue_drains fuel → bm_ok frontier → size frontier = n →
  caches_coherent ctx idx (rr_words remote) →
  client_ok function ctx idx (active_in frontier lo hi) I →
  (t < n_workers)%nat → 0 ≤ lo ≤ hi → hi ≤ n → zlen (e_mem e) = mem_words → I [] (e_user e) →
  ∃ e', worker_loop function (λ buf0 next w mem tm u,
          '(v, p, tm, u) ←
            cache_pack_window function ctx t buf0 edge_buf_size idx next hi frontier w mem tm u;
          Ok (v, p, clocked PackWindowTime t tm, u))
        (λ p, bool_decide (0 < pk_wrs p)) (post_retry fuel) ctx idx garbage edge_buf_size t lo hi e
      = Ok e'
    ∧ ∀ t', (t' < n_workers)%nat → t' ≠ t →
        slice (Z.of_nat t' * edge_buf_size) edge_buf_size (e_mem e')
        = slice (Z.of_nat t' * edge_buf_size) edge_buf_size (e_mem e).
Proof.
  intros Hpost Hbm Hsz Hcc Hcl Ht Hlo Hhi Hm HI.
  destruct (worker_loop_ok function ctx idx edge_buf_size (active_in frontier lo hi) I Hsv Hcl garbage
    mem_words Heo (λ next w mem tm u, '(v, p, tm, u) ←
      cache_pack_window function ctx t (Z.of_nat t * edge_buf_size) edge_buf_size idx next hi frontier
        w mem tm u; Ok (v, p, clocked PackWindowTime t tm, u))
    (λ p, bool_decide (0 < pk_wrs p)) (post_retry fuel) t Ht
    (sel_uncached ctx frontier) (λ a b, reverse (cached_list ctx frontier a b)) hi Hhi lo hi ltac:(lia))
    with (lo := lo) (e := e) (dn := @nil Z) as (e' & l & E & Hm' & Ho & _ & _); try done; try lia.
  - apply (ccy_pack_works frontier lo hi); done || lia.
  - apply nonempty_wrs.
  - by apply post_retry_works.
  - apply cached_covers. intros; by apply active_in_range.
  - intros x Hx. by apply elem_of_nil in Hx.
  - exists e'. split; [exact E|]. intros t' Ht' Hne.
    pose proof (eo_mem _ _ _ _ _ Heo). pose proof (eo_ebs _ _ _ _ _ Heo).
    assert (Hin : 0 ≤ Z.of_nat t' * edge_buf_size
                  ∧ Z.of_nat t' * edge_buf_size + edge_buf_size ≤ mem_words) by nia.
    assert (Hdis : Z.of_nat t' * edge_buf_size + edge_buf_size ≤ Z.of_nat t * edge_buf_size
                   ∨ Z.of_nat t * edge_buf_size + edge_buf_size ≤ Z.of_nat t' * edge_buf_size).
    { destruct (decide (t' < t)%nat); [left|right]; nia. }
    apply list_eq_at; [rewrite !zlen_slice by lia; done|]. rewrite zlen_slice by lia.
    intros i Hi. rewrite !at_slice by lia. apply Ho; lia.
Qed.
End engines.
End engine.
