(* ===== verification/IntervalBatch.v ===== *)
(** * IntervalBatch: cutting a frontier into batches of edges ([next_set],
    [v_interval], [next_batch] and [coalesce_intervals] of [edgemap.hpp])

    A batch is a list of intervals of adjacency lists with at most [capacity]
    edges; a list that does not fit is continued in the next batch.  The ghost
    value of the proofs is [edges_left], the edges that are still to be handed
    out, as pairs of a vertex and a position in its list. *)

From S2P Require Import Prelude Platform VertexTable Bitmap.

(** ** Data *)
Record v_interval := VInterval { iv_v : Z; iv_d : Z; iv_start : Z; iv_end : Z }.

#[export] Instance v_interval_inhabited : Inhabited v_interval := populate (VInterval 0 0 0 0).
#[export] Instance v_interval_eq_dec : EqDecision v_interval.
Proof. solve_decision. Defined.

(** The members of [next_batch] that change; [b], [end] and [capacity] are
    arguments of its operations. *)
Record next_batch := NextBatch { cur_v : Z; cur_e : Z }.

Section batch.
  Context {BU : BuildOptions} {CB : Combinable}.

(** ** Operations *)

(** [next_set::operator()]: the next member and the new [from_inclusive]. *)
Definition next_set_step (b : Bitmap) (end_exclusive from_inclusive : Z) : result (Z + Z * Z) :=
  if bool_decide (from_inclusive < end_exclusive) then
    let prev := from_inclusive in
    let from_inclusive := u32 (from_inclusive + 1) in
    bit ← get_bit b prev;
    if bool_decide (bit ≠ 0) then Ok (inr (prev, from_inclusive)) else Ok (inl from_inclusive)
  else Ok (inr (end_exclusive, from_inclusive)).

Definition next_set (b : Bitmap) (end_exclusive from_inclusive : Z) : result (Z * Z) :=
  loopM (range_fuel from_inclusive end_exclusive) (next_set_step b end_exclusive) from_inclusive.

Definition new_next_batch (t_start : Z) : next_batch := NextBatch t_start 0.

Definition is_done (end_ : Z) (s : next_batch) : bool := bool_decide (end_ ≤ cur_v s).

Section call.
  Context (b : Bitmap) (end_ capacity : Z) (get_degree : Z → result Z).

(** The state of the loop: [vec], the position of [get_next_v], [edges] and the
    two members. *)
Definition batch_step (st : list v_interval * Z * Z * next_batch)
    : result (list v_interval * Z * Z * next_batch + list v_interval * next_batch) :=
  let '(vec, from, edges, s) := st in
  let v := cur_v s in
  if bool_decide (v < end_) && bool_decide (edges < capacity) then
    d ← get_degree v;
    if bool_decide (d = 0) then
      '(v, from) ← next_set b end_ from;
      Ok (inl (vec, from, edges, NextBatch v 0))
    else
      let n_left := u32 (d - cur_e s) in
      let space_left := u32 (capacity - edges) in
      let take := n_left `min` space_left in
      let vec := vec ++ [VInterval v d (cur_e s) (u32 (cur_e s + take))] in
      let edges := u32 (edges + take) in
      if bool_decide (take = n_left) then
        '(v, from) ← next_set b end_ from;
        Ok (inl (vec, from, edges, NextBatch v 0))
      else Ok (inl (vec, from, edges, NextBatch v (u32 (cur_e s + take))))
  else Ok (inr (vec, s)).

(** [next_batch::operator()].  Every iteration but the last goes on to another
    vertex. *)
Definition get_next_batch (s : next_batch) : result (list v_interval * next_batch) :=
  loopM (S (range_fuel (cur_v s) end_)) batch_step ([], u32 (cur_v s + 1), 0, s).
End call.

(** [interval.end - interval.start] *)
Definition iv_edges (i : v_interval) : Z := u32 (iv_end i - iv_start i).

(** One iteration of the loop of [coalesce_intervals]. *)
Definition coalesce_step (vec : list v_interval) (i : Z) (combined : list v_interval)
    : result (list v_interval) :=
  interval ← aget vec i;
  prev ← aget vec (i - 1);
  if bool_decide (u32 (iv_v prev + 1) = iv_v interval) then
    last ← aget combined (zlen combined - 1);
    aset combined (zlen combined - 1)
      (VInterval (iv_v last) (iv_d last) (iv_start last) (u32 (iv_end last + iv_edges interval)))
  else Ok (combined ++ [interval]).

Definition coalesce_intervals (vec : list v_interval) : result (list v_interval) :=
  first ← aget vec 0;
  forM (rng 1 (zlen vec)) (coalesce_step vec) [first].
End batch.

(** ** The edges a range stands for *)
Definition iv_expand (i : v_interval) : list (Z * Z) := pair (iv_v i) <$> rng (iv_start i) (iv_end i).

Section specification.
  Context {CB : Combinable} (b : Bitmap) (end_ : Z) (degree : Z → Z).

Definition actives (from : Z) : list Z := filter (λ v, bm_get b v = true) (rng from end_).

(** The vertices from [v] on: [v] itself, whether or not it is a member, and the
    members behind it. *)
Definition vertices_left (v : Z) : list Z := if decide (v < end_) then v :: actives (v + 1) else [].

Definition edges_of (e v : Z) : list (Z * Z) := pair v <$> rng e (degree v).

Definition edges_left (s : next_batch) : list (Z * Z) :=
  match vertices_left (cur_v s) with
  | [] => []
  | v :: vs => edges_of (cur_e s) v ++ (vs ≫= edges_of 0)
  end.

Definition batch_valid (s : next_batch) : Prop :=
  0 ≤ cur_v s ≤ end_ ∧ (cur_v s < end_ → cur_e s = 0 ∨ 0 < cur_e s < degree (cur_v s)).

Definition iv_ok (i : v_interval) : Prop :=
  0 ≤ iv_v i < end_ ∧ iv_d i = degree (iv_v i) ∧ 0 ≤ iv_start i < iv_end i ∧ iv_end i ≤ iv_d i.

(** A list is finished before the next one is begun. *)
Definition follows (i j : v_interval) : Prop :=
  iv_end i = iv_d i ∧ iv_start j = 0 ∧ iv_v i < iv_v j.
Definition chained (vec : list v_interval) : Prop :=
  ∀ pre i j suf, vec = pre ++ i :: j :: suf → follows i j.
End specification.

Lemma chained_snoc vec j :
  chained vec → (∀ pre i, vec = pre ++ [i] → follows i j) → chained (vec ++ [j]).
Proof.
  intros Hc Hj pre i k suf E. destruct suf as [|z suf _] using rev_ind.
  - assert (vec ++ [j] = (pre ++ [i]) ++ [k]) as [-> ->]%app_inj_tail by (by rewrite <- app_assoc).
    by eapply Hj.
  - assert (vec ++ [j] = (pre ++ i :: k :: suf) ++ [z]) as [-> _]%app_inj_tail
      by (by rewrite <- app_assoc).
    by eapply Hc.
Qed.

Lemma zlen_edges_of degree e v : e ≤ degree v → zlen (edges_of degree e v) = degree v - e.
Proof. intros He. unfold edges_of, zlen. rewrite length_fmap, length_rng. lia. Qed.

Lemma zlen_iv_expand i : iv_start i ≤ iv_end i → zlen (iv_expand i) = iv_end i - iv_start i.
Proof. intros He. unfold iv_expand, zlen. rewrite length_fmap, length_rng. lia. Qed.

Section batch_correct.
  Context {BU : BuildOptions} {CB : Combinable} (b : Bitmap) (end_ capacity : Z) (degree : Z → Z).
  Context (get_degree : Z → result Z).
  Context (Hbm : bm_ok b) (Hend : end_ ≤ size b).
  Context (Hdeg : ∀ v, 0 ≤ v < end_ → get_degree v = Ok (degree v) ∧ 0 ≤ degree v < 2 ^ 32).
  Context (Hcap : 0 < capacity < 2 ^ 32).
  Abbreviation actives := (actives b end_).
  Abbreviation vertices_left := (vertices_left b end_).
  Abbreviation edges_left := (edges_left b end_ degree).
  Abbreviation batch_valid := (batch_valid end_ degree).
  Abbreviation iv_ok := (iv_ok end_ degree).

Lemma end_u32 : end_ < 2 ^ 32.
Proof using Hbm Hend. destruct Hbm as [[_ Hs] _]. lia. Qed.

Lemma next_set_ok from : 0 ≤ from ≤ end_ →
  ∃ v, next_set b end_ from = Ok (v, (v + 1) `min` end_) ∧ from ≤ v ≤ end_
    ∧ actives from = vertices_left v.
Proof using Hbm Hend.
  intros Hf. pose proof end_u32. unfold next_set.
  destruct (loopM_total (λ x, from ≤ x ≤ end_ ∧ actives from = actives x)
    (λ r, from ≤ r.1 ≤ end_ ∧ r.2 = (r.1 + 1) `min` end_ ∧ actives from = vertices_left r.1)
    (λ x, Z.to_nat (end_ - x)) (next_set_step b end_) (range_fuel from end_) from)
    as ([v f] & -> & Hv & Hf' & E);
    [split; [lia|done]|unfold range_fuel; lia| |by cbn in *; subst f; exists v].
  intros x (Hx & E). unfold next_set_step. case_bool_decide as Hlt.
  - rewrite u32_id' by lia. destruct (get_bit_truth b x) as (w & -> & Hw); [done|lia|].
    rewrite bind_ok, Hw. unfold IntervalBatch.actives at 2 in E. rewrite rng_cons in E by done.
    unfold IntervalBatch.vertices_left.
    destruct (bm_get b x) eqn:Hb; eexists; (split; [done|]); cbn [fst snd].
    + rewrite decide_True by lia. rewrite filter_cons_True in E by done.
      split_and!; [lia..|done].
    + rewrite filter_cons_False in E by (by rewrite Hb). split; [split; [lia|done]|lia].
  - eexists; split; [done|]. cbn [fst snd]. split_and!; [lia..|].
    rewrite E. unfold IntervalBatch.actives, IntervalBatch.vertices_left.
    by rewrite rng_nil, decide_False by lia.
Qed.

(** Going on to the next member. *)
Lemma next_vertex v : 0 ≤ v < end_ →
  ∃ v', next_set b end_ ((v + 1) `min` end_) = Ok (v', (v' + 1) `min` end_) ∧ v < v' ≤ end_
    ∧ batch_valid (NextBatch v' 0)
    ∧ ∀ e, edges_left (NextBatch v e) = edges_of degree e v ++ edges_left (NextBatch v' 0).
Proof using Hbm Hend.
  intros Hv. rewrite Z.min_l by lia. destruct (next_set_ok (v + 1)) as (v' & -> & Hv' & E); [lia|].
  exists v'. split_and!; [done|lia|lia|split; [simpl; lia|by left]|].
  intros e. unfold IntervalBatch.edges_left. cbn [cur_v cur_e].
  unfold IntervalBatch.vertices_left at 1. rewrite decide_True, E by lia. f_equal.
  by destruct (vertices_left v').
Qed.

(** The invariant of the loop, for a call that starts in [s0]. *)
Record batching (s0 : next_batch) (vec : list v_interval) (from edges : Z) (s : next_batch) : Prop := {
  bg_valid : batch_valid s;
  bg_from : cur_v s < end_ → from = (cur_v s + 1) `min` end_;
  bg_edges : edges = zlen (vec ≫= iv_expand) ∧ edges ≤ capacity;
  bg_left : (vec ≫= iv_expand) ++ edges_left s = edges_left s0;
  bg_ok : Forall iv_ok vec;
  bg_chain : chained vec;
  bg_last pre i : vec = pre ++ [i] → edges < capacity →
    iv_end i = iv_d i ∧ cur_e s = 0 ∧ iv_v i < cur_v s;
}.

Lemma batching_take s0 vec from edges v e (take := (degree v - e) `min` (capacity - edges))
    (i := VInterval v (degree v) e (e + take)) :
  batching s0 vec from edges (NextBatch v e) → 0 ≤ v < end_ → degree v ≠ 0 → edges < capacity →
  0 < take ∧ 0 ≤ e < degree v ∧ iv_ok i ∧ chained (vec ++ [i])
  ∧ zlen ((vec ++ [i]) ≫= iv_expand) = edges + take.
Proof using Hbm Hend Hdeg.
  intros [[_ Hval] _ [He Hle] _ Hok Hch Hlast] Hv Hd Hlt. destruct (Hdeg v Hv) as [_ Hdr].
  cbn [cur_v cur_e] in *. assert (He' : 0 ≤ e < degree v) by (destruct Hval; lia).
  assert (Ht : 0 < take) by (unfold take; lia).
  split; [done|]. split; [done|]. split; [|split].
  - unfold i, IntervalBatch.iv_ok. cbn. unfold take in *. split_and!; lia || done.
  - apply chained_snoc; [done|]. intros pre j ->. destruct (Hlast pre j eq_refl Hlt) as (? & ? & ?).
    done.
  - rewrite bind_app, zlen_app, <- He, bind_singleton. f_equal.
    rewrite zlen_iv_expand; unfold i; cbn; lia.
Qed.

Lemma batch_step_ok s0 vec from edges s :
  batching s0 vec from edges s →
  ∃ r, batch_step b end_ capacity get_degree (vec, from, edges, s) = Ok r ∧
    match r with
    | inl (vec', from', edges', s') => batching s0 vec' from' edges' s' ∧ cur_v s < end_
        ∧ edges < capacity ∧ (cur_v s < cur_v s' ∨ cur_v s' = cur_v s ∧ edges' = capacity)
    | inr (vec', s') => vec' = vec ∧ s' = s ∧ (end_ ≤ cur_v s ∨ edges = capacity)
    end.
Proof using Hbm Hend Hdeg Hcap.
  intros Hbg. destruct s as [v e]. pose proof end_u32. unfold batch_step. cbn [cur_v cur_e].
  case_bool_decide as Hv; [|eexists; split; [done|]; cbn; split_and!; [done..|left; lia]].
  case_bool_decide as He; cbn [andb].
  2:{ eexists; split; [done|]. cbn. split_and!; [done..|]. pose proof (bg_edges _ _ _ _ _ Hbg). lia. }
  pose proof (bg_valid _ _ _ _ _ Hbg) as [Hvr Hval]. cbn [cur_v cur_e] in Hvr, Hval.
  destruct (Hdeg v) as [-> Hdr]; [lia|]. rewrite bind_ok.
  pose proof (bg_from _ _ _ _ _ Hbg Hv) as ->. cbn [cur_v].
  destruct (next_vertex v) as (v' & -> & Hv' & Hvalid' & Hleft); [lia|].
  pose proof (bg_left _ _ _ _ _ Hbg) as HL. pose proof (bg_edges _ _ _ _ _ Hbg) as [Hed Hle].
  assert (He0 : 0 ≤ edges) by (rewrite Hed; apply zlen_nonneg).
  case_bool_decide as Hd.
  - eexists; split; [done|]. cbn [cur_v]. split_and!; [|done|done|left; lia].
    split; try done; try apply Hbg.
    + rewrite <- HL. f_equal. rewrite (Hleft e). unfold edges_of. by rewrite Hd, rng_nil by (destruct Hval; lia).
    + cbn. intros pre i Hpi Hlt. destruct (bg_last _ _ _ _ _ Hbg pre i Hpi Hlt) as (? & ? & ?).
      cbn in *. split_and!; [done|done|lia].
  - destruct (batching_take _ _ _ _ _ _ Hbg) as (Ht & Her & Hiv & Hch & Hz); [lia|done|done|].
    set (take := (degree v - e) `min` (capacity - edges)) in *.
    rewrite (u32_id' (degree v - e)), (u32_id' (capacity - edges)) by lia. fold take.
    rewrite (u32_id' (e + take)), (u32_id' (edges + take)) by lia.
    case_bool_decide as Hall.
    + eexists; split; [done|]. cbn [cur_v]. split_and!; [|done|done|left; lia]. split; try done.
      * split; [done|lia].
      * rewrite bind_app, <- app_assoc, <- HL, (Hleft e), bind_singleton. do 2 f_equal.
        unfold iv_expand, edges_of. cbn. by rewrite Hall, Z.add_comm, Z.sub_add.
      * apply Forall_app. split; [apply Hbg|by constructor].
      * intros pre i [-> <-]%app_inj_tail _. cbn. split_and!; [lia|done|lia].
    + eexists; split; [done|]. cbn [cur_v]. split_and!; [|done|done|right; split; [done|lia]]. split; try done.
      * split; [done|]. cbn. intros _. right. lia.
      * split; [done|lia].
      * rewrite bind_app, <- app_assoc, <- HL, bind_singleton. f_equal. rewrite !Hleft, app_assoc. f_equal.
        unfold iv_expand, edges_of. cbn. rewrite <- fmap_app, <- rng_app by lia. done.
      * apply Forall_app. split; [apply Hbg|by constructor].
      * intros pre i _ ?. lia.
Qed.

Lemma get_next_batch_ok s : batch_valid s → cur_v s < end_ →
  ∃ vec s', get_next_batch b end_ capacity get_degree s = Ok (vec, s')
    ∧ vec ≫= iv_expand = take (Z.to_nat capacity) (edges_left s)
    ∧ edges_left s' = drop (Z.to_nat capacity) (edges_left s)
    ∧ (is_done end_ s' = true ∨ zlen (vec ≫= iv_expand) = capacity)
    ∧ batch_valid s' ∧ Forall iv_ok vec ∧ chained vec.
Proof using Hbm Hend Hdeg Hcap.
  intros Hs Hlt. pose proof end_u32. unfold get_next_batch.
  destruct (loopM_total (λ '(vec, from, edges, s1), batching s vec from edges s1)
    (λ '(vec, s'), ∃ from edges, batching s vec from edges s' ∧ (end_ ≤ cur_v s' ∨ edges = capacity))
    (λ '(_, _, edges, s1), Z.to_nat (end_ - cur_v s1 + Z.b2z (bool_decide (edges < capacity))))
    (batch_step b end_ capacity get_degree) (S (range_fuel (cur_v s) end_))
    ([], u32 (cur_v s + 1), 0, s)) as ([vec s'] & -> & from & edges & Hbg & Hstop).
  - destruct Hs as [Hr Hv]. split; try done.
    + intros _. rewrite u32_id' by lia. lia.
    + split; [done|lia].
    + by intros [|? [|??]] ????.
    + by intros [|??] ??.
  - rewrite bool_decide_true by lia. destruct Hs. unfold range_fuel. cbn. lia.
  - intros [[[vec from] edges] s1] Hbg.
    destruct (batch_step_ok _ _ _ _ _ Hbg) as ([[[[vec' from'] edges'] s']|[vec' s']] & -> & Hr);
      (eexists; split; [done|]); cbn beta iota in Hr |- *.
    + destruct Hr as (Hbg' & Hv & He & Hm). split; [done|]. rewrite (bool_decide_true (edges < _)) by done.
      destruct (bg_valid _ _ _ _ _ Hbg') as [? _].
      destruct Hm as [?|[-> ->]]; [case_bool_decide|rewrite bool_decide_false by lia]; cbn; lia.
    + destruct Hr as (-> & -> & Hm). eauto.
  - destruct (bg_edges _ _ _ _ _ Hbg) as [He Hle]. pose proof (bg_left _ _ _ _ _ Hbg) as HL.
    exists vec, s'. split; [done|].
    assert (Hcut : (length (vec ≫= iv_expand) = Z.to_nat capacity)
                   ∨ (edges_left s' = [] ∧ (length (vec ≫= iv_expand) ≤ Z.to_nat capacity)%nat)).
    { unfold zlen in He. destruct Hstop as [Hge| ->]; [right|left; lia]. split; [|lia].
      unfold IntervalBatch.edges_left, IntervalBatch.vertices_left. by rewrite decide_False by lia. }
    rewrite <- HL. split_and!; try apply Hbg.
    + destruct Hcut as [<-|[-> Hc]]; [by rewrite take_app_length|]. by rewrite app_nil_r, take_ge.
    + destruct Hcut as [<-|[-> Hc]]; [by rewrite drop_app_length|]. by rewrite app_nil_r, drop_ge.
    + destruct Hstop as [?| ->]; [left; by apply bool_decide_true|by right].
Qed.
(** a batch is exactly the next edges that fit.  [next_batch] yields the first
    [capacity] of the edges that are left, in order and cut into intervals, or all
    of them when there are fewer, and leaves the others to the next call; only the
    last list of a batch may be cut.  It ends, and unless it has reached the end
    of the range the batch is full.  The first vertex of the range is taken
    whether or not it is in the frontier. *)
Theorem next_batch_correct s : batch_valid s → cur_v s < end_ →
  ∃ vec s', get_next_batch b end_ capacity get_degree s = Ok (vec, s')
    ∧ vec ≫= iv_expand = take (Z.to_nat capacity) (edges_left s)
    ∧ edges_left s' = drop (Z.to_nat capacity) (edges_left s)
    ∧ (is_done end_ s' = true ∨ zlen (vec ≫= iv_expand) = capacity)
    ∧ batch_valid s' ∧ Forall iv_ok vec ∧ chained vec.
Proof using Hbm Hend Hdeg Hcap. apply get_next_batch_ok. Qed.
End batch_correct.

(** ** Coalescing *)
Section coalesce.
  Context (end_ : Z) (degree off : Z → Z) (Hend : end_ < 2 ^ 32).
  Context (Hoff : ∀ v, 0 ≤ v < end_ → off (v + 1) = off v + degree v).
  Abbreviation iv_ok := (iv_ok end_ degree).

(** The indices of the words of an interval in the array of all edges. *)
Definition iv_addrs (i : v_interval) : list Z :=
  rng (off (iv_v i) + iv_start i) (off (iv_v i) + iv_start i + iv_edges i).

(** An interval, or a run of intervals merged into one. *)
Definition run_ok (i : v_interval) : Prop := 0 ≤ iv_v i < end_ ∧ 0 ≤ iv_start i ∧ 0 < iv_edges i.

Lemma iv_edges_ok i : iv_ok i → (0 ≤ degree (iv_v i) < 2 ^ 32) → iv_edges i = iv_end i - iv_start i.
Proof. intros (_ & Hd & ? & ?) Hr. unfold iv_edges. apply u32_id'. lia. Qed.

Lemma zlen_iv_addrs i : zlen (iv_addrs i) = iv_edges i.
Proof.
  unfold iv_addrs, zlen. rewrite length_rng. pose proof (u32_range (iv_end i - iv_start i)) as [? _].
  unfold iv_edges. lia.
Qed.

Context (Hdeg : ∀ v, 0 ≤ v < end_ → 0 ≤ degree v < 2 ^ 32).

(** The requests for the first [k] intervals. *)
Record coalesced (vec : list v_interval) (k : Z) (combined : list v_interval) : Prop := {
  co_addrs : combined ≫= iv_addrs = take (Z.to_nat k) vec ≫= iv_addrs;
  co_runs : Forall run_ok combined;
  co_last : ∃ pre l, combined = pre ++ [l]
    ∧ off (iv_v l) + iv_start l + iv_edges l
      = off (iv_v (at_ vec (k - 1))) + iv_end (at_ vec (k - 1));
}.

Lemma coalesce_step_ok vec k combined :
  Forall iv_ok vec → chained vec → zlen (vec ≫= iv_addrs) < 2 ^ 32 → 1 ≤ k < zlen vec →
  coalesced vec k combined →
  ∃ combined', coalesce_step vec k combined = Ok combined' ∧ coalesced vec (k + 1) combined'.
Proof using Hend Hoff Hdeg.
  intros Hok Hch Hlen Hk [Ha Hr (pre & l & -> & Hl)]. unfold coalesce_step.
  rewrite (aget_at vec k), (aget_at vec (k - 1)), !bind_ok by lia. set (x := at_ vec (k - 1)) in *. set (y := at_ vec k).
  assert (Hx : take (Z.to_nat k) vec = take (Z.to_nat (k - 1)) vec ++ [x]).
  { replace (Z.to_nat k) with (S (Z.to_nat (k - 1))) by lia. apply take_S_r.
    apply list_lookup_lookup_total_lt. unfold zlen in Hk. lia. }
  assert (Hy : take (Z.to_nat (k + 1)) vec = take (Z.to_nat k) vec ++ [y]).
  { replace (Z.to_nat (k + 1)) with (S (Z.to_nat k)) by lia. apply take_S_r.
    apply list_lookup_lookup_total_lt. unfold zlen in Hk. lia. }
  pose proof (take_drop (Z.to_nat (k + 1)) vec) as Hvec.
  rewrite Hy, Hx in Hvec. rewrite <- Hvec in Hok. rewrite <- !app_assoc in Hvec.
  apply Forall_app in Hok as [[[_ [Hox _]%Forall_cons]%Forall_app [Hoy _]%Forall_cons]%Forall_app _].
  destruct (Hch _ x y _ (eq_sym Hvec)) as (Hxe & Hys & Hxy).
  pose proof (iv_edges_ok y Hoy (Hdeg _ (proj1 Hoy))) as Hey.
  assert (Hly : at_ vec (k + 1 - 1) = y) by (unfold y; f_equal; lia).
  pose proof Hox as (Hxv & Hxd & Hxs & _). pose proof Hoy as (Hyv & Hyd & Hyse & Hyl).
  rewrite (u32_id' (iv_v x + 1)) by lia. case_bool_decide as Hadj.
  - rewrite zlen_app. change (zlen [l]) with 1. rewrite Z.add_simpl_r, aget_middle, bind_ok by done.
    rewrite aset_middle by done. eexists; split; [done|].
    apply Forall_app in Hr as [Hrp [(Hlv & Hls & Hle) _]%Forall_cons].
    assert (Hsum : iv_edges l + iv_edges y < 2 ^ 32).
    { rewrite <- !zlen_iv_addrs. pose proof (zlen_nonneg (pre ≫= iv_addrs)).
      apply (f_equal zlen) in Ha. rewrite bind_app, bind_singleton, zlen_app in Ha.
      rewrite <- (take_drop (Z.to_nat (k + 1)) vec), bind_app, zlen_app, Hy, bind_app, bind_singleton,
        zlen_app in Hlen.
      pose proof (zlen_nonneg (drop (Z.to_nat (k + 1)) vec ≫= iv_addrs)). lia. }
    set (l' := VInterval _ _ _ _).
    assert (Hel : iv_edges l' = iv_edges l + iv_edges y).
    { unfold l', iv_edges at 1. cbn. rewrite <- (u32_id' (iv_edges l + iv_edges y)) by lia.
      rewrite u32_sub_u32_l. unfold iv_edges at 2. rewrite u32_add_u32_l. f_equal. lia. }
    assert (Hstep : off (iv_v y) + iv_start y = off (iv_v l) + iv_start l + iv_edges l).
    { rewrite Hl, <- Hadj, Hoff by lia. lia. }
    split.
    + rewrite Hy, !bind_app, <- Ha, bind_app, !bind_singleton, <- app_assoc. f_equal.
      unfold iv_addrs at 1 2 3. rewrite Hel, Hstep. cbn [l' iv_v iv_start].
      rewrite <- rng_app by lia. f_equal. lia.
    + apply Forall_app. split; [done|]. constructor; [|done]. unfold run_ok. rewrite Hel. cbn. lia.
    + exists pre, l'. split; [done|]. rewrite Hly, Hel. cbn [l' iv_v iv_start]. lia.
  - eexists; split; [done|]. split.
    + by rewrite Hy, !bind_app, <- Ha, bind_app.
    + apply Forall_app. split; [done|]. constructor; [|done]. unfold run_ok. lia.
    + exists (pre ++ [l]), y. split; [done|]. rewrite Hly. lia.
Qed.

(** Coalescing changes no word that is read: the merged intervals stand for the
    same words of the array of edges, in the same order, as the intervals of the
    batch. *)
Lemma coalesce_intervals_correct vec :
  vec ≠ [] → Forall iv_ok vec → chained vec → zlen (vec ≫= iv_addrs) < 2 ^ 32 →
  ∃ combined, coalesce_intervals vec = Ok combined
    ∧ combined ≫= iv_addrs = vec ≫= iv_addrs ∧ Forall run_ok combined ∧ combined ≠ [].
Proof using Hend Hoff Hdeg.
  intros Hne Hok Hch Hlen. destruct vec as [|x vec]; [done|]. set (all := x :: vec) in *.
  assert (Hz : 1 ≤ zlen all) by (unfold zlen, all; simpl; lia).
  unfold coalesce_intervals. change (aget all 0) with (Ok x). rewrite bind_ok.
  destruct (for_u32_inv (coalesced all) 1 (zlen all) (coalesce_step all) [x])
    as (combined & E & [Ha Hr (pre & l & Hc & _)]); [done| | |].
  - pose proof Hok as [Hx _]%Forall_cons. pose proof (iv_edges_ok x Hx (Hdeg _ (proj1 Hx))) as He.
    destruct Hx as (Hv & Hd & Hs & Hl). split.
    + done.
    + constructor; [|done]. unfold run_ok. lia.
    + exists [], x. split; [done|]. change (at_ all (1 - 1)) with x. lia.
  - intros k combined Hk Hco. by apply coalesce_step_ok.
  - exists combined. split; [exact E|]. split; [|split; [done|by rewrite Hc; destruct pre]].
    rewrite Ha. unfold zlen. by rewrite Nat2Z.id, firstn_all.
Qed.
End coalesce.
