(* ===== verification/EdgeMap.v ===== *)
(** * EdgeMap: running a function over batches of edges ([sign_buffer],
    [make_WRs], [post_all] and [edgemap] of [edgemap.hpp])

    A worker signs the places of a batch's intervals in its edge buffer, builds
    one work request for every coalesced interval, posts them in chains, and
    calls the client's function on every interval when its words have landed.
    The work requests are the elements of a [std::vector] and point to their own
    scatter/gather entries: an element that was made before the vector moved to a
    larger array points into the old array ([home] against [wv_alloc]). *)

From S2P Require Import Prelude Platform VertexTable Bitmap Stats PackWindow Engine IntervalBatch.

(** ** [std::vector]: [grow c] is the capacity of the array that replaces a full
    array of capacity [c]. *)
Class VectorGrowth := {
  grow : nat → nat;
  grow_gt n : (n < grow n)%nat;
}.

(** A pointer to the entry of an element is its index and the number of the
    array, counted from the first allocation. *)
Record WR := MkWR { wr : ibv_send_wr; sge : ibv_sge; home : nat }.
#[export] Instance WR_inhabited : Inhabited WR := populate (MkWR inhabitant inhabitant 0).

Record WR_vector := WRVector { wv_alloc : nat; wv_cap : nat; wv_items : list WR }.

Definition empty_vector : WR_vector := WRVector 0 0 [].

Section edgemap.
  Context {BU : BuildOptions} {CB : Combinable} {ETS : EnumerableThreadSpecific} {CK : Clock}.
  Context {SC : Scheduler} {NI : Nic} {VG : VectorGrowth}.
  Context (remote : remote_region).

(** [emplace_back] moves a full vector first. *)
Definition make_room (v : WR_vector) : WR_vector :=
  if decide (length (wv_items v) < wv_cap v)%nat then v
  else WRVector (S (wv_alloc v)) (grow (wv_cap v)) (wv_items v).

Definition sign_interval (i : v_interval) (st : list Z * Z) : result (list Z * Z) :=
  let '(mem, b) := st in
  let edges := iv_edges i in
  mem ← aset mem b NULL_VERT;
  mem ← aset mem (b + u32 (edges - 1)) NULL_VERT;
  Ok (mem, b + edges).

Definition sign_buffer (vec : list v_interval) (buffer : Z) (mem : list Z) : result (list Z) :=
  '(mem, _) ← forM vec sign_interval (mem, buffer); Ok mem.

(** [area] is the address of word 0 of the RDMA window. *)
Definition make_WR (rkey lkey peer_addr area : Z) (vtable : list vertex) (i : v_interval)
    (st : WR_vector * Z) : result (WR_vector * Z) :=
  let '(WRs, buffer) := st in
  e ← aget vtable (iv_v i);
  let remote_offset := u64 (u64 (edge_offset e + iv_start i) * 4) in
  let edges := iv_edges i in
  let WRs := make_room WRs in
  let x := MkWR (Wr None (Some (zlen (wv_items WRs))) 1 IBV_WR_RDMA_READ 0
                   (u64 (peer_addr + remote_offset)) rkey)
             (Sge (area + 4 * buffer) (u32 (edges * 4)) lkey) (wv_alloc WRs) in
  Ok (WRVector (wv_alloc WRs) (wv_cap WRs) (wv_items WRs ++ [x]), buffer + edges).

Definition make_WRs (vec : list v_interval) (rkey lkey peer_addr area : Z) (vtable : list vertex)
    (RDMA_area : Z) : result WR_vector :=
  '(WRs, _) ← forM vec (make_WR rkey lkey peer_addr area vtable) (empty_vector, RDMA_area);
  Ok WRs.

(** ** [ibv_post_send]: the requests from [i] on, and the words they transfer *)
Fixpoint wr_chain (fuel : nat) (items : list WR) (i : Z) : result (list WR) :=
  match fuel with
  | O => Fault OutOfFuel
  | S fuel =>
      x ← aget items i;
      match wr_next (wr x) with
      | None => Ok [x]
      | Some j => rest ← wr_chain fuel items j; Ok (x :: rest)
      end
  end.

Definition wr_transfer (ctx : client_context) (alloc : nat) (items : list WR) (x : WR)
    : result (list (Z * Z)) :=
  match wr_sg_list (wr x) with
  | None => Ok []
  | Some j =>
      if decide (home x = alloc) then
        y ← aget items j;
        Ok (if decide (wr_opcode (wr x) = IBV_WR_RDMA_READ ∧ wr_num_sge (wr x) = 1
                       ∧ wr_rkey (wr x) = rr_rkey remote ∧ sge_lkey (sge y) = mr_lkey (heap_mr ctx))
            then rdma_read (rr_addr remote) (rr_words remote) (mr_addr (heap_mr ctx))
                   (wr_remote_addr (wr x)) (sge_addr (sge y)) (sge_length (sge y))
            else [])
      else Fault OutOfBounds
  end.

Fixpoint wr_transfers (ctx : client_context) (alloc : nat) (items xs : list WR)
    : result (list (Z * Z)) :=
  match xs with
  | [] => Ok []
  | x :: xs => ws ← wr_transfer ctx alloc items x; rest ← wr_transfers ctx alloc items xs; Ok (ws ++ rest)
  end.

(** The elements, the local variable [wr], the number of calls made so far and
    the words they transfer. *)
Record posting := Posting {
  ps_items : list WR;
  ps_wr : option Z;
  ps_posts : nat;
  ps_words : list (Z * Z);
}.

Definition link (nx : option Z) (x : WR) : WR := MkWR (set_next nx (wr x)) (sge x) (home x).
Definition signal (x : WR) : WR := MkWR (set_send_flags IBV_SEND_SIGNALED (wr x)) (sge x) (home x).

(** [(i % WR_WINDOW_SIZE == WR_WINDOW_SIZE - 1) || (i == WRs.size() - 1)] *)
Definition chain_ends (size i : Z) : bool :=
  bool_decide (i mod WR_WINDOW_SIZE = u32 (WR_WINDOW_SIZE - 1)) || bool_decide (i = size - 1).

Definition post_step (ctx : client_context) (alloc : nat) (i : Z) (p : posting) : result posting :=
  let size := zlen (ps_items p) in
  x ← aget (ps_items p) i;
  if bool_decide (WR_WINDOW_SIZE = 0) then Fault DivByZero
  else if chain_ends size i then
    items ← aset (ps_items p) i (link None (signal x));
    match ps_wr p with
    | None => Fault OutOfBounds
    | Some first =>
        xs ← wr_chain (length items) items first;
        words ← wr_transfers ctx alloc items xs;
        _ ← TEST_NZ "ibv_post_send" (post_ret (ps_posts p));
        Ok (Posting items (if bool_decide (i = size - 1) then None else Some (i + 1))
              (S (ps_posts p)) (ps_words p ++ words))
    end
  else
    items ← aset (ps_items p) i (link (Some (i + 1)) x);
    Ok (Posting items (ps_wr p) (ps_posts p) (ps_words p)).

(** The number of calls of [ibv_post_send] so far and the words in flight. *)
Definition post_all (ctx : client_context) (WRs : WR_vector) (posts : nat)
    : result (nat * list (Z * Z)) :=
  p ← for_u32 0 (zlen (wv_items WRs)) (post_step ctx (wv_alloc WRs))
        (Posting (wv_items WRs) (Some 0) posts []);
  Ok (ps_posts p, ps_words p).

(** ** [edgemap] *)
Section worker.
  Context {U : Type} (function : nat → Z → list Z → Z → Z → U → result U).

Record em_state := EmState { em_mem : list Z; em_polls : nat; em_posts : nat; em_user : U }.

Definition drain_interval (t : nat) (i : v_interval) (st : flight * Z * U) : result (flight * Z * U) :=
  let '(f, e_buf, u) := st in
  let edges := iv_edges i in
  f ← spin e_buf f;
  f ← spin (e_buf + u32 (edges - 1)) f;
  fragment ← read_edges (f_mem f) e_buf edges;
  u ← function t (iv_v i) fragment edges (iv_d i) u;
  Ok (f, e_buf + edges, u).

(** One iteration of [while (!get_next_batch.is_done())]. *)
Definition em_step (ctx : client_context) (vtable : list vertex) (frontier : Bitmap)
    (t : nat) (edge_buf edge_buf_size end_ : Z) (st : next_batch * em_state)
    : result (next_batch * em_state + em_state) :=
  let '(s, e) := st in
  if is_done end_ s then Ok (inr e)
  else
    '(intervals, s) ← get_next_batch frontier end_ edge_buf_size
        (λ v, get_num_edges v vtable (num_vertices (app ctx)) (num_edges (app ctx))) s;
    match intervals with
    | [] => Ok (inl (s, e))
    | _ =>
        mem ← sign_buffer intervals edge_buf (em_mem e);
        combined ← coalesce_intervals intervals;
        WRs ← make_WRs combined (peer_rkey ctx) (mr_lkey (heap_mr ctx)) (peer_addr ctx)
                (mr_addr (heap_mr ctx)) vtable edge_buf;
        '(posts, words) ← post_all ctx WRs (em_posts e);
        '(f, _, u) ← forM intervals (drain_interval t) (Flight mem words (em_polls e), edge_buf, em_user e);
        Ok (inl (s, EmState (f_mem f) (f_polls f) posts u))
    end.

(** A batch that is not the last takes at least one edge. *)
Definition edgemap (k : nat) (ctx : client_context) (vtable : list vertex) (frontier : Bitmap)
    (RDMA_area edge_buf_size lo hi : Z) (e : em_state) : result em_state :=
  parallel_for k lo hi (λ t start end_ e,
    _ ← aget (cm_ids ctx) (Z.of_nat t);
    loopM (S (S (Z.to_nat (num_edges (app ctx)))))
      (em_step ctx vtable frontier t (RDMA_area + Z.of_nat t * edge_buf_size) edge_buf_size end_)
      (new_next_batch start, e)) e.
End worker.

(** ** Signing *)
Definition iv_total (vec : list v_interval) : Z := zsum iv_edges vec.

Lemma iv_edges_nonneg i : 0 ≤ iv_edges i < 2 ^ 32.
Proof. apply u32_range. Qed.

Lemma iv_total_nonneg vec : 0 ≤ iv_total vec.
Proof. apply zsum_nonneg. intros i _. apply iv_edges_nonneg. Qed.

Lemma iv_total_snoc vec i : iv_total (vec ++ [i]) = iv_total vec + iv_edges i.
Proof. unfold iv_total. rewrite zsum_app, zsum_cons. cbn. lia. Qed.

Lemma iv_total_split vec pre i suf :
  vec = pre ++ i :: suf → iv_total vec = iv_total pre + iv_edges i + iv_total suf.
Proof. intros ->. unfold iv_total. rewrite zsum_app, zsum_cons. lia. Qed.

(** The first and the last word of every interval's place hold the signature. *)
Definition iv_signed (mem : list Z) (b : Z) (vec : list v_interval) : Prop :=
  ∀ pre i suf, vec = pre ++ i :: suf →
    at_ mem (b + iv_total pre) = NULL_VERT ∧ at_ mem (b + iv_total pre + (iv_edges i - 1)) = NULL_VERT.

Lemma sign_buffer_ok vec b mem :
  Forall (λ i, 0 < iv_edges i) vec → 0 ≤ b → b + iv_total vec ≤ zlen mem →
  ∃ mem', sign_buffer vec b mem = Ok mem' ∧ zlen mem' = zlen mem ∧ iv_signed mem' b vec
    ∧ ∀ j, 0 ≤ j → ¬ (b ≤ j < b + iv_total vec) → at_ mem' j = at_ mem j.
Proof.
  intros Hpos Hb Hfit. unfold sign_buffer.
  destruct (forM_prefix_inv (λ pre '(m, pos), pos = b + iv_total pre ∧ zlen m = zlen mem
      ∧ iv_signed m b pre ∧ ∀ j, 0 ≤ j → ¬ (b ≤ j < b + iv_total pre) → at_ m j = at_ mem j)
    vec sign_interval (mem, b)) as ([mem' pos] & -> & _ & Hz & Hs & Hout).
  - split; [cbn; lia|]. split; [done|]. split; [by intros [|??] ???|done].
  - intros pre i suf [m pos] E (-> & Hz & Hs & Hout).
    pose proof (iv_total_split _ _ _ _ E). pose proof (iv_total_nonneg pre).
    pose proof (iv_total_nonneg suf). pose proof (iv_edges_nonneg i).
    assert (0 < iv_edges i) by (rewrite E in Hpos; by apply Forall_app in Hpos as [_ [? _]%Forall_cons]).
    unfold sign_interval. rewrite aset_ok, bind_ok, (u32_id' (iv_edges i - 1)) by lia.
    rewrite aset_ok, bind_ok by (rewrite zlen_insert; lia). eexists; split; [done|].
    rewrite iv_total_snoc. split; [lia|]. split; [by rewrite !zlen_insert|].
    assert (Hat : ∀ j, 0 ≤ j → at_ (<[Z.to_nat (b + iv_total pre + (iv_edges i - 1)):=NULL_VERT]>
        (<[Z.to_nat (b + iv_total pre):=NULL_VERT]> m)) j
      = if decide (j = b + iv_total pre ∨ j = b + iv_total pre + (iv_edges i - 1)) then NULL_VERT
        else at_ m j).
    { intros j Hj. rewrite !at_insert by (rewrite ?zlen_insert; lia).
      repeat case_decide; try lia; done. }
    split.
    + intros pre' i' suf' E'. assert (Hdis : (∃ suf1, pre = pre' ++ i' :: suf1) ∨ pre' = pre ∧ i' = i).
      { destruct suf' as [|z s' _] using rev_ind; [right; by apply app_inj_tail in E' as [-> ->]|left].
        assert (pre ++ [i] = (pre' ++ i' :: s') ++ [z]) as [-> _]%app_inj_tail
          by (by rewrite <- app_assoc). by eexists. }
      destruct Hdis as [[suf1 E1]|[-> ->]].
      * pose proof (Hs pre' i' suf1 E1). pose proof (iv_total_split _ _ _ _ E1).
        pose proof (iv_total_nonneg pre'). pose proof (iv_total_nonneg suf1).
        pose proof (iv_edges_nonneg i').
        assert (0 < iv_edges i') by (rewrite E, E1 in Hpos;
          by apply Forall_app in Hpos as [[_ [? _]%Forall_cons]%Forall_app _]).
        rewrite !Hat by lia. rewrite !decide_False by lia. done.
      * rewrite !Hat by lia. rewrite !decide_True by lia. done.
    + intros j Hj Hnot. rewrite Hat, decide_False by lia. apply Hout; lia.
  - by exists mem'.
Qed.

(** ** Posting in chains *)
Section chains.
  Context (ctx : client_context).

(** A request without its link and its flags, which do not matter to a transfer. *)
Definition strip (x : WR) : WR := MkWR (set_next None (set_send_flags 0 (wr x))) (sge x) (home x).

Lemma strip_link nx x : strip (link nx x) = strip x.
Proof. done. Qed.
Lemma strip_signal x : strip (signal x) = strip x.
Proof. done. Qed.

Lemma wr_transfer_strip alloc items x :
  wr_transfer ctx alloc items x = wr_transfer ctx alloc (strip <$> items) (strip x).
Proof.
  unfold wr_transfer. cbn. destruct (wr_sg_list (wr x)) as [j|]; [|done]. case_decide; [|done].
  unfold aget. case_decide; [|done]. rewrite list_lookup_fmap.
  by destruct (items !! Z.to_nat j) as [[]|].
Qed.

Lemma wr_transfers_strip alloc items xs :
  wr_transfers ctx alloc items xs = wr_transfers ctx alloc (strip <$> items) (strip <$> xs).
Proof.
  induction xs as [|x xs IH]; [done|]. cbn. by rewrite wr_transfer_strip, IH.
Qed.

Lemma wr_chain_ok items f len fuel :
  (0 < len ≤ fuel)%nat → (f + len ≤ length items)%nat →
  (∀ j x, (f ≤ j < f + len)%nat → items !! j = Some x →
     wr_next (wr x) = if decide (S j = f + len)%nat then None else Some (Z.of_nat (S j))) →
  wr_chain fuel items (Z.of_nat f) = Ok (take len (drop f items)).
Proof.
  revert f fuel. induction len as [|len IH]; intros f [|fuel] Hl Hf Hn; try lia.
  destruct (lookup_lt_is_Some_2 items f) as [x Hx]; [lia|]. cbn [wr_chain].
  unfold aget at 1. rewrite decide_True, Nat2Z.id, Hx, bind_ok by lia.
  rewrite (Hn f x) by (done || lia). rewrite (drop_S items x f Hx). cbn [take].
  case_decide as Hlast.
  - by replace len with 0%nat by lia.
  - rewrite (IH (S f)); [done|lia|lia|]. intros j y Hj Hy. rewrite (Hn j y) by (done || lia).
    by replace (f + S len)%nat with (S f + len)%nat by lia.
Qed.

  Context (orig : list WR) (alloc posts0 : nat).
  Context (HW : 0 < WR_WINDOW_SIZE < 2 ^ 32).

(** Before element [i] is linked: the chain that is being built starts at [f],
    and [q] chains have been posted. *)
Record going (i f q : Z) (p : posting) : Prop := {
  go_range : 0 ≤ q ∧ f = WR_WINDOW_SIZE * q ∧ f ≤ i < f + WR_WINDOW_SIZE ∧ i < zlen orig;
  go_items : strip <$> ps_items p = orig;
  go_links j x : f ≤ j < i → ps_items p !! Z.to_nat j = Some x → wr_next (wr x) = Some (j + 1);
  go_wr : ps_wr p = Some f;
  go_posts : ps_posts p = (posts0 + Z.to_nat q)%nat;
}.

Lemma zlen_items p : strip <$> ps_items p = orig → zlen (ps_items p) = zlen orig.
Proof. intros <-. unfold zlen. by rewrite length_fmap. Qed.

Lemma chain_ends_spec i f q p : going i f q p →
  chain_ends (zlen orig) i = true ↔ i = f + WR_WINDOW_SIZE - 1 ∨ i = zlen orig - 1.
Proof.
  intros [(Hq & Hf & Hi & Hz) _ _ _ _]. unfold chain_ends. rewrite orb_true_iff, !bool_decide_eq_true.
  rewrite u32_id' by lia.
  assert (i mod WR_WINDOW_SIZE = i - f) as -> by (symmetry; apply Z.mod_unique_pos with q; lia). lia.
Qed.

(** Linking an element changes nothing else. *)
Lemma linked_item i f q p nx (g : WR → WR) : going i f q p → (∀ x, strip (g x) = strip x) →
  ∃ x, aget (ps_items p) i = Ok x ∧ aset (ps_items p) i (link nx (g x))
      = Ok (<[Z.to_nat i:=link nx (g x)]> (ps_items p))
    ∧ strip <$> <[Z.to_nat i:=link nx (g x)]> (ps_items p) = orig
    ∧ ∀ j y, f ≤ j ≤ i → <[Z.to_nat i:=link nx (g x)]> (ps_items p) !! Z.to_nat j = Some y →
        wr_next (wr y) = if decide (j = i) then nx else Some (j + 1).
Proof.
  intros Hgo Hg. pose proof (go_range _ _ _ _ Hgo) as (Hq & Hf & Hi & Hz).
  pose proof (go_items _ _ _ _ Hgo) as Hit. pose proof (zlen_items p Hit).
  exists (at_ (ps_items p) i). rewrite aget_at, aset_ok by lia. split; [done|]. split; [done|]. split.
  - rewrite list_fmap_insert, strip_link, Hg, <- list_fmap_insert, list_insert_id; [done|].
    apply list_lookup_lookup_total_lt. unfold zlen in *. lia.
  - intros j y Hj. rewrite list_lookup_insert_Some. intros [(Hij & <- & _)|(Hij & Hy)].
    + rewrite decide_True by lia. done.
    + rewrite decide_False by lia. apply (go_links _ _ _ _ Hgo j y); [lia|done].
Qed.

Lemma post_step_inner i f q p : going i f q p → chain_ends (zlen orig) i = false →
  ∃ p', post_step ctx alloc i p = Ok p' ∧ going (i + 1) f q p' ∧ ps_words p' = ps_words p.
Proof.
  intros Hgo He. pose proof (go_range _ _ _ _ Hgo) as (Hq & Hf & Hi & Hz).
  destruct (linked_item i f q p (Some (i + 1)) id Hgo) as (x & Hx & Hs & Hit & Hl); [done|].
  unfold post_step. rewrite Hx, bind_ok, bool_decide_false by lia.
  rewrite (zlen_items p (go_items _ _ _ _ Hgo)), He. cbn [id] in Hs. rewrite Hs, bind_ok.
  eexists; split; [done|]. split; [|done]. pose proof (chain_ends_spec i f q p Hgo) as Hce.
  rewrite He in Hce. assert (i ≠ f + WR_WINDOW_SIZE - 1 ∧ i ≠ zlen orig - 1) by (split; naive_solver).
  split; cbn; try apply Hgo; [lia|done|].
  intros j y Hj Hy. rewrite (Hl j y) by (done || lia). by case_decide; subst.
Qed.

Lemma post_step_end i f q p : going i f q p → chain_ends (zlen orig) i = true →
  ∃ items, strip <$> items = orig ∧
  post_step ctx alloc i p
  = (words ← wr_transfers ctx alloc orig (take (Z.to_nat (i + 1 - f)) (drop (Z.to_nat f) orig));
     _ ← TEST_NZ "ibv_post_send" (post_ret (ps_posts p));
     Ok (Posting items (if bool_decide (i = zlen orig - 1) then None else Some (i + 1))
           (S (ps_posts p)) (ps_words p ++ words))).
Proof.
  intros Hgo He. pose proof (go_range _ _ _ _ Hgo) as (Hq & Hf & Hi & Hz).
  destruct (linked_item i f q p None signal Hgo) as (x & Hx & Hs & Hit & Hl); [done|].
  eexists; split; [exact Hit|]. unfold post_step.
  rewrite Hx, bind_ok, bool_decide_false by lia.
  rewrite (zlen_items p (go_items _ _ _ _ Hgo)), He, Hs, bind_ok, (go_wr _ _ _ _ Hgo).
  set (items := <[_:=_]> _) in *.
  assert (Hlen : length items = length orig) by (rewrite <- Hit; by rewrite length_fmap).
  unfold zlen in *. rewrite <- (Z2Nat.id f) at 1 by lia.
  rewrite (wr_chain_ok items (Z.to_nat f) (Z.to_nat (i + 1 - f))); [|lia|lia|].
  - rewrite bind_ok, wr_transfers_strip, Hit, fmap_take, fmap_drop, Hit. done.
  - intros j y Hj Hy. rewrite (Hl (Z.of_nat j) y); [|lia|by rewrite Nat2Z.id].
    repeat case_decide; try lia; [done|]. f_equal. lia.
Qed.
End chains.

(** ** The requests *)
Section requests.
  Context (ctx : client_context) (idx : list vertex).
  Abbreviation n := (num_vertices (app ctx)).
  Abbreviation m := (num_edges (app ctx)).
  Abbreviation off := (off idx m).
  Abbreviation deg := (deg idx m).
  Abbreviation words := (rr_words remote).
  Abbreviation base := (mr_addr (heap_mr ctx)).

(** The words of an interval, or of a run of intervals. *)
Definition fragment (i : v_interval) : list Z := slice (off (iv_v i) + iv_start i) (iv_edges i) words.

Definition in_graph (i : v_interval) : Prop :=
  run_ok n i ∧ off (iv_v i) + iv_start i + iv_edges i ≤ m.

Definition wr_item (k pos : Z) (i : v_interval) (h : nat) : WR :=
  MkWR (Wr None (Some k) 1 IBV_WR_RDMA_READ 0
          (peer_addr ctx + 4 * (off (iv_v i) + iv_start i)) (peer_rkey ctx))
    (Sge (base + 4 * pos) (4 * iv_edges i) (mr_lkey (heap_mr ctx))) h.

Definition wr_items (pos : Z) (runs : list v_interval) (homes : list nat) : list WR :=
  imap (λ k ih, wr_item (Z.of_nat k) (pos + iv_total (take k runs)) ih.1 ih.2) (zip runs homes).

Lemma wr_items_snoc pos runs homes i h : length homes = length runs →
  wr_items pos (runs ++ [i]) (homes ++ [h])
  = wr_items pos runs homes ++ [wr_item (zlen runs) (pos + iv_total runs) i h].
Proof.
  intros Hl. unfold wr_items. rewrite zip_with_app by done. rewrite imap_app. f_equal.
  - apply imap_ext. intros k ih Hk%lookup_lt_Some. rewrite length_zip_with in Hk.
    rewrite take_app_le by lia. done.
  - cbn. rewrite length_zip_with, Hl, Nat.min_id, Nat.add_0_r, take_app_length. done.
Qed.

Lemma length_wr_items pos runs homes : length homes = length runs →
  length (wr_items pos runs homes) = length runs.
Proof. intros Hl. unfold wr_items. rewrite length_imap, length_zip_with. lia. Qed.

Context (Hcsr : csr_ok idx n m) (Hm : m < 2 ^ 62).
Context (Haddr : 0 ≤ peer_addr ctx ∧ peer_addr ctx + 4 * m < 2 ^ 64).

(** What is known of the vector after [l] calls of [emplace_back]: until the
    first array is full nothing has moved, after that the first request points
    into the wrong array. *)
Record filled (l : nat) (v : WR_vector) (homes : list nat) : Prop := {
  fl_len : length homes = l;
  fl_items : length (wv_items v) = l;
  fl_cap : (l ≤ wv_cap v)%nat;
  fl_head : (0 < l)%nat → homes !! 0%nat = Some 1%nat ∧ (1 ≤ wv_alloc v)%nat;
  fl_first : (0 < l)%nat → (l ≤ grow 0)%nat →
    wv_alloc v = 1%nat ∧ wv_cap v = grow 0 ∧ Forall (λ h, h = 1%nat) homes;
  fl_moved : (grow 0 < l)%nat → (2 ≤ wv_alloc v)%nat;
  fl_zero : l = 0%nat → wv_alloc v = 0%nat ∧ wv_cap v = 0%nat;
}.

Lemma filled_push l v homes x (v' := make_room v) : filled l v homes →
  filled (S l) (WRVector (wv_alloc v') (wv_cap v') (wv_items v' ++ [x])) (homes ++ [wv_alloc v'])
  ∧ wv_items v' = wv_items v.
Proof.
  intros [Hl Hi Hc Hh Hf Hmv Hz]. pose proof (grow_gt 0) as Hg.
  unfold v', make_room. case_decide as Hd; cbn [wv_alloc wv_cap wv_items]; (split; [|done]).
  - assert (Hl0 : (0 < l)%nat) by (destruct (decide (l = 0%nat)) as [E|]; [destruct (Hz E)|]; lia).
    destruct (Hh Hl0) as [Hh0 Hal]. split; cbn [wv_alloc wv_cap wv_items]; try lia.
    + rewrite length_app. cbn. lia.
    + rewrite length_app. cbn. lia.
    + intros _. split; [by rewrite lookup_app_l by lia|done].
    + intros _ Hle. destruct (Hf Hl0 ltac:(lia)) as (-> & -> & Hall). split_and!; [done..|].
      apply Forall_app. by repeat constructor.
  - pose proof (grow_gt (wv_cap v)). split; cbn [wv_alloc wv_cap wv_items]; try lia.
    + rewrite length_app. cbn. lia.
    + rewrite length_app. cbn. lia.
    + intros _. split; [|lia]. destruct (decide (l = 0%nat)) as [E|E].
      * destruct (Hz E) as [-> _]. destruct homes; [done|]. cbn in Hl. lia.
      * rewrite lookup_app_l by lia. apply Hh. lia.
    + intros _ Hle. destruct (decide (l = 0%nat)) as [E|E].
      * destruct (Hz E) as [-> ->]. destruct homes; [|cbn in Hl; lia]. by repeat constructor.
      * destruct (Hf ltac:(lia) ltac:(lia)) as (_ & Hcap & _). lia.
Qed.

Lemma make_WRs_ok runs pos :
  Forall in_graph runs → iv_total runs < 2 ^ 30 →
  ∃ v homes, make_WRs runs (peer_rkey ctx) (mr_lkey (heap_mr ctx)) (peer_addr ctx) base idx pos = Ok v
    ∧ filled (length runs) v homes ∧ wv_items v = wr_items pos runs homes.
Proof using Hcsr Hm Haddr.
  intros Hruns Htot. unfold make_WRs.
  destruct (forM_prefix_inv (λ pre '(v, b), b = pos + iv_total pre ∧ ∃ homes, filled (length pre) v homes
      ∧ wv_items v = wr_items pos pre homes)
    runs (make_WR (peer_rkey ctx) (mr_lkey (heap_mr ctx)) (peer_addr ctx) base idx)
    (empty_vector, pos)) as ([v b] & -> & _ & homes & Hf & Hi); [| |by exists v, homes].
  - split; [cbn; lia|]. exists []. split; [split; cbn; try lia; done|done].
  - intros pre i suf [v b] E (-> & homes & Hf & Hi).
    assert (Hig : in_graph i) by (rewrite E in Hruns; by apply Forall_app in Hruns as [_ [? _]%Forall_cons]).
    destruct Hig as ((Hv & Hs & He) & Hend). pose proof (iv_total_split _ _ _ _ E).
    pose proof (iv_total_nonneg pre). pose proof (iv_total_nonneg suf).
    pose proof (csr_len _ _ _ Hcsr). pose proof (off_bounds _ _ _ Hcsr (iv_v i)).
    unfold make_WR. rewrite aget_at, bind_ok, <- (off_at _ _ _ Hcsr) by lia.
    destruct (filled_push (length pre) v homes
      (wr_item (zlen pre) (pos + iv_total pre) i (wv_alloc (make_room v))) Hf) as [Hf' Hsame].
    eexists; split; [done|]. split; [rewrite iv_total_snoc; lia|].
    exists (homes ++ [wv_alloc (make_room v)]).
    rewrite (u64_id' (off (iv_v i) + iv_start i)), (u64_id' (_ * 4)), (u64_id' (peer_addr ctx + _)),
      (u32_id' (iv_edges i * 4)) by lia.
    assert (Hz : zlen (wv_items (make_room v)) = zlen pre)
      by (rewrite Hsame; unfold zlen; by rewrite (fl_items _ _ _ Hf)).
    rewrite Hz. rewrite length_app, Nat.add_comm. cbn [length Nat.add].
    replace (MkWR _ _ _) with (wr_item (zlen pre) (pos + iv_total pre) i (wv_alloc (make_room v)))
      by (unfold wr_item; do 2 f_equal; lia).
    split; [done|]. cbn [wv_items]. rewrite Hsame, Hi, wr_items_snoc by apply Hf. done.
Qed.

(** ** What is posted *)
Lemma wr_items_lookup pos runs homes k : length homes = length runs →
  wr_items pos runs homes !! k
  = i ← runs !! k; h ← homes !! k; Some (wr_item (Z.of_nat k) (pos + iv_total (take k runs)) i h).
Proof.
  intros Hl. unfold wr_items. rewrite list_lookup_imap, lookup_zip_with.
  by destruct (runs !! k), (homes !! k).
Qed.

Lemma strip_wr_items pos runs homes : strip <$> wr_items pos runs homes = wr_items pos runs homes.
Proof. unfold wr_items. rewrite fmap_imap. by apply imap_ext. Qed.

Context (Hsv : served remote ctx) (HW : 0 < WR_WINDOW_SIZE < 2 ^ 32) (Hpost : ∀ k, post_ret k = 0).

Lemma zlen_fragment i : in_graph i → zlen (fragment i) = iv_edges i.
Proof.
  intros ((Hv & Hs & He) & Hend). pose proof (sv_len _ _ Hsv). pose proof (off_bounds _ _ _ Hcsr (iv_v i)).
  unfold fragment. rewrite zlen_slice; lia.
Qed.

Lemma zlen_fragments runs : Forall in_graph runs → zlen (runs ≫= fragment) = iv_total runs.
Proof.
  induction 1 as [|i runs Hi _ IH]; [done|]. unfold iv_total in *.
  rewrite bind_cons, zlen_app, zlen_fragment, IH, zsum_cons by done. done.
Qed.

Definition placed (pos : Z) (runs : list v_interval) : list (Z * Z) :=
  zip (rng pos (pos + iv_total runs)) (runs ≫= fragment).

Lemma placed_app pos xs ys : Forall in_graph xs →
  placed pos (xs ++ ys) = placed pos xs ++ placed (pos + iv_total xs) ys.
Proof.
  intros Hx. pose proof (iv_total_nonneg xs). pose proof (iv_total_nonneg ys).
  pose proof (zlen_fragments xs Hx) as Hz. unfold placed. rewrite <- (zip_with_app pair).
  2:{ rewrite length_rng. unfold zlen in Hz. lia. }
  unfold iv_total in *. rewrite bind_app, zsum_app, <- rng_app by lia.
  f_equal. f_equal. lia.
Qed.

Lemma transfers_segment pos runs pre xs suf (orig := wr_items pos runs (replicate (length runs) 1%nat)) :
  Forall in_graph runs → 0 ≤ pos → runs = pre ++ xs ++ suf →
  wr_transfers ctx 1 orig (take (length xs) (drop (length pre) orig))
  = Ok (placed (pos + iv_total pre) xs).
Proof.
  intros Hruns Hpos. revert pre. induction xs as [|i xs IH]; intros pre E.
  { unfold placed, iv_total, zsum. cbn. by rewrite rng_nil by lia. }
  assert (Hat : orig !! length pre = Some (wr_item (zlen pre) (pos + iv_total pre) i 1)).
  { unfold orig. rewrite wr_items_lookup by by rewrite length_replicate.
    rewrite (lookup_replicate_2 _ 1%nat) by (rewrite E, length_app; cbn; lia).
    assert (Hi : runs !! length pre = Some i) by (rewrite E; by apply list_lookup_middle).
    rewrite Hi. cbn. by rewrite E, take_app_length. }
  rewrite (drop_S _ _ _ Hat). cbn [length take wr_transfers]. unfold wr_transfer.
  cbn [wr_item wr wr_sg_list home]. rewrite decide_True by done.
  unfold aget. rewrite decide_True by apply zlen_nonneg.
  assert (Z.to_nat (zlen pre) = length pre) as -> by (unfold zlen; lia). rewrite Hat, !bind_ok.
  cbn [wr_item wr sge wr_opcode wr_num_sge wr_rkey sge_lkey wr_remote_addr sge_addr sge_length].
  rewrite decide_True by (by rewrite (sv_rkey _ _ Hsv)). rewrite (sv_addr _ _ Hsv).
  assert (Hig : in_graph i) by (rewrite E in Hruns; by apply Forall_app in Hruns as [_ [? _]%Forall_cons]).
  pose proof Hig as ((Hv & Hs & He) & Hend). pose proof (off_bounds _ _ _ Hcsr (iv_v i)).
  pose proof (iv_total_nonneg pre). pose proof (sv_len _ _ Hsv).
  rewrite rdma_read_spec by lia.
  specialize (IH (pre ++ [i])). rewrite length_app, Nat.add_comm in IH.
  rewrite iv_total_snoc in IH. cbn [length Nat.add] in IH.
  rewrite IH by (by rewrite E, <- app_assoc). rewrite bind_ok, (placed_app _ [i] xs) by by constructor.
  unfold placed, iv_total. cbn. rewrite app_nil_r, !Z.add_0_r, Z.add_assoc. done.
Qed.

(** The requests that are in flight before element [i], and after the last. *)
Definition posted (pos : Z) (runs : list v_interval) (posts0 : nat) (i : Z) (p : posting) : Prop :=
  if decide (i < zlen runs) then
    ∃ f q, going (wr_items pos runs (replicate (length runs) 1%nat)) posts0 i f q p
      ∧ ps_words p = placed pos (take (Z.to_nat f) runs)
  else ps_posts p = (posts0 + Z.to_nat ((zlen runs + WR_WINDOW_SIZE - 1) / WR_WINDOW_SIZE))%nat
    ∧ ps_words p = placed pos runs.

Lemma zlen_wr_items pos runs homes : length homes = length runs →
  zlen (wr_items pos runs homes) = zlen runs.
Proof. intros Hl. unfold zlen. by rewrite length_wr_items. Qed.

Lemma post_step_posted pos runs posts0 i p :
  Forall in_graph runs → 0 ≤ pos → 0 ≤ i < zlen runs → posted pos runs posts0 i p →
  ∃ p', post_step ctx 1 i p = Ok p' ∧ posted pos runs posts0 (i + 1) p'.
Proof.
  intros Hruns Hpos Hi. unfold posted at 1. rewrite decide_True by lia. intros (f & q & Hgo & Hwords).
  pose proof (go_range _ _ _ _ _ _ Hgo) as (Hq & Hf & Hfi & Hz).
  pose proof (zlen_wr_items pos runs (replicate (length runs) 1%nat) (length_replicate _ _)) as Hlen.
  pose proof (chain_ends_spec _ _ HW _ _ _ _ Hgo) as Hce. rewrite Hlen in Hce.
  destruct (chain_ends (zlen runs) i) eqn:He.
  - destruct (post_step_end ctx _ 1 _ HW _ _ _ _ Hgo) as (items & Hit & E); [by rewrite Hlen|].
    rewrite E, Hlen. set (xs := take (Z.to_nat (i + 1 - f)) (drop (Z.to_nat f) runs)).
    assert (Hpl : length (take (Z.to_nat f) runs) = Z.to_nat f)
      by (unfold zlen in *; rewrite length_take; lia).
    assert (Hxl : length xs = Z.to_nat (i + 1 - f))
      by (unfold zlen, xs in *; rewrite length_take, length_drop; lia).
    assert (Hcut : runs = take (Z.to_nat f) runs ++ xs ++ drop (Z.to_nat (i + 1)) runs).
    { rewrite app_assoc. unfold xs. rewrite take_take_drop.
      replace (Z.to_nat f + Z.to_nat (i + 1 - f))%nat with (Z.to_nat (i + 1)) by lia.
      by rewrite take_drop. }
    pose proof (transfers_segment pos runs _ _ _ Hruns Hpos Hcut) as Ht. rewrite Hpl, Hxl in Ht.
    rewrite Ht, bind_ok, Hpost. change (TEST_NZ "ibv_post_send" 0) with (Ok ()). rewrite bind_ok. eexists; split; [done|].
    assert (Hw : ps_words p ++ placed (pos + iv_total (take (Z.to_nat f) runs)) xs
                 = placed pos (take (Z.to_nat (i + 1)) runs)).
    { rewrite Hwords, <- placed_app by by apply Forall_take. unfold xs. rewrite take_take_drop.
      do 2 f_equal. lia. }
    unfold posted. cbn [ps_posts ps_words]. rewrite Hw.
    destruct (decide (i + 1 < zlen runs)) as [Hnext|Hnext].
    + rewrite bool_decide_false by lia. exists (i + 1), (q + 1). split; [|done].
      assert (i = f + WR_WINDOW_SIZE - 1) by (destruct (proj1 Hce eq_refl); lia).
      split; cbn; [rewrite Hlen; lia|done|intros; lia|done|]. rewrite (go_posts _ _ _ _ _ _ Hgo). lia.
    + assert (i + 1 = zlen runs) as -> by lia.
      assert (take (Z.to_nat (zlen runs)) runs = runs) as -> by (apply take_ge; unfold zlen; lia).
      split; [|done].
      rewrite (go_posts _ _ _ _ _ _ Hgo).
      assert ((zlen runs + WR_WINDOW_SIZE - 1) / WR_WINDOW_SIZE = q + 1) as ->; [|lia].
      symmetry. apply Z.div_unique_pos with (zlen runs - 1 - f); lia.
  - destruct (post_step_inner ctx _ 1 _ HW _ _ _ _ Hgo) as (p' & -> & Hgo' & Hw); [by rewrite Hlen|].
    exists p'. split; [done|]. unfold posted. rewrite decide_True by (destruct (go_range _ _ _ _ _ _ Hgo'); lia).
    exists f, q. by rewrite Hw.
Qed.

Lemma post_all_ok pos runs v posts :
  Forall in_graph runs → runs ≠ [] → 0 ≤ pos → wv_alloc v = 1%nat →
  wv_items v = wr_items pos runs (replicate (length runs) 1%nat) →
  post_all ctx v posts
  = Ok ((posts + Z.to_nat ((zlen runs + WR_WINDOW_SIZE - 1) / WR_WINDOW_SIZE))%nat, placed pos runs).
Proof.
  intros Hruns Hne Hpos Hal Hit. unfold post_all. rewrite Hal, Hit.
  rewrite zlen_wr_items by apply length_replicate.
  assert (Hz : 0 < zlen runs) by (unfold zlen; destruct runs; [done|cbn; lia]).
  destruct (for_u32_inv (posted pos runs posts) 0 (zlen runs) (post_step ctx 1)
    (Posting (wr_items pos runs (replicate (length runs) 1%nat)) (Some 0) posts []))
    as (p & -> & Hp); [lia| | |].
  - unfold posted. rewrite decide_True by done. exists 0, 0. split.
    + split; cbn; [|apply strip_wr_items|intros; lia|done|lia].
      rewrite zlen_wr_items by apply length_replicate. lia.
    + change (Z.to_nat 0) with 0%nat. rewrite take_0. unfold placed, iv_total, zsum. cbn.
      by rewrite rng_nil by lia.
  - intros i p Hi Hp. by apply post_step_posted.
  - unfold posted in Hp. rewrite decide_False in Hp by lia. destruct Hp as [Hp Hw]. by rewrite bind_ok, Hp, Hw.
Qed.

(** When the vector has moved, the first request points into the old array. *)
Lemma post_all_dangles items v posts h x :
  strip <$> items = items → items !! 0%nat = Some x → home x = h →
  wv_items v = items → wv_alloc v ≠ h → is_Some (wr_sg_list (wr x)) →
  post_all ctx v posts = Fault OutOfBounds.
Proof.
  intros Hst Hx Hh Hit Hal [j Hj]. unfold post_all. rewrite Hit.
  assert (Hz : 0 < zlen items) by (unfold zlen; apply lookup_lt_Some in Hx; lia).
  set (i0 := (WR_WINDOW_SIZE - 1) `min` (zlen items - 1)).
  unfold for_u32. rewrite (rng_app 0 i0), forM_app by lia.
  destruct (for_u32_inv (λ i p, going items posts i 0 0 p) 0 i0 (post_step ctx (wv_alloc v))
    (Posting items (Some 0) posts [])) as (p & E & Hp); [lia| | |].
  - split; cbn; [lia|done|intros; lia|done|lia].
  - intros i p Hi Hp. destruct (post_step_inner ctx items (wv_alloc v) posts HW i 0 0 p Hp) as (p' & -> & Hp' & _).
    + apply not_true_iff_false. rewrite (chain_ends_spec _ _ HW _ _ _ _ Hp). lia.
    + by exists p'.
  - unfold for_u32 in E. rewrite E, bind_ok, rng_cons by lia. cbn [forM].
    destruct (post_step_end ctx items (wv_alloc v) posts HW i0 0 0 p Hp) as (items' & _ & ->).
    { rewrite (chain_ends_spec _ _ HW _ _ _ _ Hp). lia. }
    rewrite drop_0. destruct items as [|y items]; [done|]. injection Hx as ->.
    destruct (Z.to_nat (i0 + 1 - 0)) as [|k] eqn:Ek; [lia|]. cbn [take wr_transfers].
    unfold wr_transfer. by rewrite Hj, decide_False by congruence.
Qed.

Lemma requests_fit runs pos posts :
  Forall in_graph runs → runs ≠ [] → iv_total runs < 2 ^ 30 → 0 ≤ pos → (length runs ≤ grow 0)%nat →
  ∃ WRs, make_WRs runs (peer_rkey ctx) (mr_lkey (heap_mr ctx)) (peer_addr ctx) base idx pos = Ok WRs
    ∧ post_all ctx WRs posts
      = Ok ((posts + Z.to_nat ((zlen runs + WR_WINDOW_SIZE - 1) / WR_WINDOW_SIZE))%nat, placed pos runs).
Proof.
  intros Hruns Hne Htot Hpos Hfit.
  destruct (make_WRs_ok runs pos Hruns Htot) as (v & homes & -> & Hf & Hit). exists v. split; [done|].
  assert (Hl : (0 < length runs)%nat) by (destruct runs; [done|cbn; lia]).
  destruct (fl_first _ _ _ Hf Hl Hfit) as (Hal & _ & Hall). apply post_all_ok; try done.
  rewrite Hit. f_equal. symmetry. apply replicate_as_elem_of. split; [apply Hf|].
  intros h Hh. by eapply Forall_forall in Hall.
Qed.

(** C26: the requests of a batch are posted in full, or the first chain is read
    through dangling pointers.  While the first array of the vector [WRs] has room
    for all of them, every request is posted once, in order, in chains of at most
    WR_WINDOW_SIZE, and they transfer exactly the words of the intervals to
    consecutive places of the buffer.  As soon as the vector has moved to a larger
    array, [ibv_post_send] follows pointers into the array that was given back. *)
Theorem requests_posted runs pos posts :
  Forall in_graph runs → runs ≠ [] → iv_total runs < 2 ^ 30 → 0 ≤ pos →
  (WRs ← make_WRs runs (peer_rkey ctx) (mr_lkey (heap_mr ctx)) (peer_addr ctx) base idx pos;
   post_all ctx WRs posts)
  = if decide (length runs ≤ grow 0)%nat
    then Ok ((posts + Z.to_nat ((zlen runs + WR_WINDOW_SIZE - 1) / WR_WINDOW_SIZE))%nat,
             zip (rng pos (pos + iv_total runs)) (runs ≫= fragment))
    else Fault OutOfBounds.
Proof.
  intros Hruns Hne Htot Hpos. case_decide as Hfit.
  { destruct (requests_fit runs pos posts) as (v & -> & E); done. }
  destruct (make_WRs_ok runs pos Hruns Htot) as (v & homes & -> & Hf & Hit). rewrite bind_ok.
  assert (Hl : (0 < length runs)%nat) by (destruct runs; [done|cbn; lia]).
  destruct (fl_head _ _ _ Hf Hl) as [Hh _]. pose proof (fl_moved _ _ _ Hf ltac:(lia)).
  destruct (lookup_lt_is_Some_2 runs 0%nat Hl) as [i Hi].
  apply (post_all_dangles (wr_items pos runs homes) v posts 1
    (wr_item 0 (pos + iv_total (take 0 runs)) i 1));
    [apply strip_wr_items| |done|done|lia|by eexists].
  rewrite wr_items_lookup, Hi, Hh by apply Hf. done.
Qed.
End requests.

(** ** Runs *)
Section run.
  Context {U : Type} (function : nat → Z → list Z → Z → Z → U → result U).
  Context (ctx : client_context) (idx : list vertex) (I : list (Z * Z) → U → Prop).
  Abbreviation n := (num_vertices (app ctx)).
  Abbreviation m := (num_edges (app ctx)).
  Abbreviation off := (off idx m).
  Abbreviation deg := (deg idx m).
  Abbreviation words := (rr_words remote).
  Abbreviation frag := (fragment ctx idx).
  Abbreviation run_in_graph := (in_graph ctx idx).

(** The client's function, called on a part of an adjacency list, preserves the
    client's invariant on the edges it has been given. *)
Definition fragments_ok : Prop :=
  ∀ t i dn u, iv_ok n deg i → I dn u →
    ∃ u', function t (iv_v i) (frag i) (iv_edges i) (iv_d i) u = Ok u' ∧ I (dn ++ iv_expand i) u'.

(** What a run needs: a region that is served, a window with a buffer for every
    worker, a connection for every worker, a card that accepts every request, and
    a vector whose first array holds the requests of a batch. *)
Record edgemap_ok (mem_words area edge_buf_size : Z) : Prop := {
  em_served : served remote ctx;
  em_csr : csr_ok idx n m;
  em_window : 0 < WR_WINDOW_SIZE < 2 ^ 32;
  em_ebs : 0 < edge_buf_size < 2 ^ 30;
  em_m : m < 2 ^ 62;
  em_addr : 0 ≤ peer_addr ctx ∧ peer_addr ctx + 4 * m < 2 ^ 64;
  em_area : 0 ≤ area ∧ area + Z.of_nat n_workers * edge_buf_size ≤ mem_words;
  em_ids : Z.of_nat n_workers ≤ zlen (cm_ids ctx);
  em_post k : post_ret k = 0;
  em_room : edge_buf_size ≤ Z.of_nat (grow 0);
}.

Context (Hfun : fragments_ok) (mem_words area ebs : Z) (Hok : edgemap_ok mem_words area ebs).

Lemma deg_u32 v : 0 ≤ v < n → 0 ≤ deg v < 2 ^ 32.
Proof. apply (csr_deg _ _ _ (em_csr _ _ _ Hok)). Qed.

Lemma off_next v : 0 ≤ v < n → off (v + 1) = off v + deg v.
Proof. intros _. apply off_succ. Qed.

Lemma iv_in_graph i : iv_ok n deg i → run_in_graph i.
Proof.
  intros Hi. pose proof (iv_edges_ok n deg i Hi (deg_u32 _ (proj1 Hi))) as He.
  destruct Hi as (Hv & Hd & Hs & Hl). pose proof (off_next _ Hv).
  pose proof (off_bounds _ _ _ (em_csr _ _ _ Hok) (iv_v i + 1)). split; [split_and!|]; lia.
Qed.

Lemma fragment_addrs i : run_in_graph i → frag i = at_ words <$> iv_addrs off i.
Proof.
  intros Hi. pose proof Hi as ((Hv & Hs & He) & Hend). destruct Hok.
  pose proof (sv_len _ _ em_served0). pose proof (off_bounds _ _ _ em_csr0 (iv_v i)).
  apply list_eq_at.
  - rewrite zlen_fragment by done. unfold zlen. rewrite length_fmap.
    pose proof (zlen_iv_addrs off i) as Hz. unfold zlen in Hz. by rewrite Hz.
  - rewrite zlen_fragment by done. intros k Hk. unfold fragment. rewrite at_slice by lia.
    unfold at_ at 2. rewrite list_lookup_total_alt, list_lookup_fmap. unfold iv_addrs, rng.
    rewrite lookup_seqZ_lt by lia. cbn. f_equal. lia.
Qed.

Lemma fragments_addrs runs : Forall run_in_graph runs →
  runs ≫= frag = at_ words <$> (runs ≫= iv_addrs off).
Proof.
  induction 1 as [|i runs Hi _ IH]; [done|]. by rewrite !bind_cons, fmap_app, IH, <- fragment_addrs.
Qed.

Lemma iv_total_addrs runs : iv_total runs = zlen (runs ≫= iv_addrs off).
Proof.
  unfold iv_total. induction runs as [|i runs IH]; [done|].
  by rewrite bind_cons, zlen_app, zlen_iv_addrs, zsum_cons, IH.
Qed.

(** The coalesced requests stand for the words of the batch. *)
Lemma coalesced_words vec : vec ≠ [] → Forall (iv_ok n deg) vec → chained vec → iv_total vec ≤ ebs →
  ∃ combined, coalesce_intervals vec = Ok combined ∧ combined ≠ [] ∧ Forall run_in_graph combined
    ∧ iv_total combined = iv_total vec ∧ combined ≫= frag = vec ≫= frag
    ∧ (length combined ≤ grow 0)%nat.
Proof.
  intros Hne Hivs Hch Htot. destruct Hok. pose proof (csr_n _ _ _ em_csr0).
  destruct (coalesce_intervals_correct n deg off) with (vec := vec)
    as (combined & E & Ha & Hr & Hne'); try done; [by apply off_next|by apply deg_u32| |].
  { rewrite <- iv_total_addrs. lia. }
  assert (Hvec : Forall run_in_graph vec) by (by eapply Forall_impl; [exact Hivs|apply iv_in_graph]).
  assert (Hcg : Forall run_in_graph combined).
  { apply Forall_forall. intros i Hi. pose proof (proj1 (Forall_forall _ _) Hr i Hi) as Hrun.
    split; [done|]. destruct Hrun as (Hv & Hs & He).
    assert (Hin : off (iv_v i) + iv_start i + iv_edges i - 1 ∈ vec ≫= iv_addrs off).
    { rewrite <- Ha. apply list_elem_of_bind. exists i. split; [|done]. apply elem_of_rng. lia. }
    apply list_elem_of_bind in Hin as (k & Hk%elem_of_rng & Hkv).
    destruct (proj1 (Forall_forall _ _) Hvec k Hkv) as [_ Hend]. lia. }
  exists combined. split_and!; try done.
  - by rewrite !iv_total_addrs, Ha.
  - by rewrite !fragments_addrs, Ha.
  - assert (zlen combined ≤ iv_total combined).
    { clear -Hr. unfold iv_total. induction Hr as [|i l (_ & _ & Hi) _ IH]; [done|].
      rewrite zsum_cons. unfold zlen in *. cbn [length]. lia. }
    rewrite iv_total_addrs, Ha, <- iv_total_addrs in H0. unfold zlen in H0. lia.
Qed.

(** Draining a batch whose words are in flight. *)
Section batch.
  Context (vec : list v_interval) (buf : Z) (mem0 : list Z).
  Context (Hivs : Forall (iv_ok n deg) vec) (Hbuf : 0 ≤ buf) (Hfit : buf + iv_total vec ≤ zlen mem0).
  Context (Htot : iv_total vec < 2 ^ 30) (Hsigned : iv_signed mem0 buf vec).
  Abbreviation data := (vec ≫= frag).

Lemma vec_in_graph : Forall run_in_graph vec.
Proof. by eapply Forall_impl; [exact Hivs|apply iv_in_graph]. Qed.

Lemma zlen_data : zlen data = iv_total vec.
Proof. destruct Hok. apply zlen_fragments; try done. apply vec_in_graph. Qed.

Lemma data_not_null k : 0 ≤ k < zlen data → at_ data k ≠ NULL_VERT.
Proof.
  intros Hk. assert (Hall : Forall (λ x, x ≠ NULL_VERT) data).
  { apply Forall_bind, Forall_forall. intros i _. apply Forall_slice, (sv_words _ _ (em_served _ _ _ Hok)). }
  rewrite Forall_forall in Hall. apply Hall. unfold at_. apply list_elem_of_lookup_total_2.
  unfold zlen in Hk. lia.
Qed.

Lemma drain_interval_ok t pre i suf j f u dn :
  vec = pre ++ i :: suf → landed buf mem0 data j f → I dn u →
  ∃ j' f' u', drain_interval function t i (f, buf + iv_total pre, u)
      = Ok (f', buf + iv_total (pre ++ [i]), u')
    ∧ landed buf mem0 data j' f' ∧ I (dn ++ iv_expand i) u'.
Proof.
  intros E Hl HI. pose proof (iv_total_split _ _ _ _ E). pose proof (iv_total_nonneg pre).
  pose proof (iv_total_nonneg suf). pose proof zlen_data as Hzd. pose proof (iv_edges_nonneg i).
  assert (Hi : iv_ok n deg i) by (rewrite E in Hivs; by apply Forall_app in Hivs as [_ [? _]%Forall_cons]).
  pose proof (iv_in_graph i Hi) as Hig. pose proof Hig as ((_ & _ & Hpos) & _).
  destruct (Hsigned _ _ _ E) as [Hn1 Hn2]. rewrite <- Z.add_assoc in Hn2.
  assert (Hfd : buf + zlen data ≤ zlen mem0) by lia.
  unfold drain_interval.
  destruct (spin_ok buf mem0 data Hbuf Hfd (iv_total pre) j f) as (j1 & f1 & -> & Hl1 & _ & _);
    [lia|done|apply data_not_null; lia|done|].
  rewrite bind_ok, u32_id', <- (Z.add_assoc buf _ (iv_edges i - 1)) by lia.
  destruct (spin_ok buf mem0 data Hbuf Hfd (iv_total pre + (iv_edges i - 1)) j1 f1)
    as (j2 & f2 & -> & Hl2 & _ & Hj2); [lia|done|apply data_not_null; lia|done|].
  rewrite bind_ok. unfold read_edges. rewrite (ld_len _ _ _ _ _ Hl2), decide_True by lia.
  rewrite bind_ok, (landed_slice buf mem0 data Hbuf Hfd j2) by (done || lia).
  assert (slice (iv_total pre) (iv_edges i) data = frag i) as ->.
  { pose proof vec_in_graph as Hvg. rewrite E in Hvg. apply Forall_app in Hvg as [Hpre _]. destruct Hok.
    rewrite E, bind_app, bind_cons. rewrite <- (zlen_fragment ctx idx em_csr0 em_served0) by done.
    rewrite <- (zlen_fragments ctx idx em_csr0 em_served0) by done. apply slice_middle. }
  destruct (Hfun t i dn u Hi HI) as (u' & -> & HI'). rewrite bind_ok.
  exists j2, f2, u'. split; [|done]. rewrite iv_total_snoc. do 3 f_equal. lia.
Qed.

Lemma drain_intervals_ok t polls u dn : I dn u →
  ∃ f pos u', forM vec (drain_interval function t) (Flight mem0 (zip (rng buf (buf + zlen data)) data) polls, buf, u)
      = Ok (f, pos, u')
    ∧ zlen (f_mem f) = zlen mem0 ∧ I (dn ++ (vec ≫= iv_expand)) u'.
Proof.
  intros HI. assert (Hfd : buf + zlen data ≤ zlen mem0) by (rewrite zlen_data; lia).
  destruct (forM_prefix_inv (λ pre '(f, pos, u), pos = buf + iv_total pre
      ∧ (∃ j, landed buf mem0 data j f) ∧ I (dn ++ (pre ≫= iv_expand)) u)
    vec (drain_interval function t) (Flight mem0 (zip (rng buf (buf + zlen data)) data) polls, buf, u))
    as ([[f pos] u'] & -> & _ & (j & Hl) & HI').
  - split; [cbn; lia|]. split; [exists 0; by apply landed_init|]. cbn. by rewrite app_nil_r.
  - intros pre i suf [[f pos] u1] E (-> & (j & Hl) & HI1).
    destruct (drain_interval_ok t pre i suf j f u1 _ E Hl HI1) as (j' & f' & u' & -> & Hl' & HI').
    eexists; split; [done|]. split; [done|]. split; [by exists j'|].
    by rewrite bind_app, bind_singleton, app_assoc.
  - exists f, pos, u'. split; [done|]. split; [by apply (ld_len _ _ _ _ _ Hl)|done].
Qed.
End batch.

(** One batch, packed, posted and drained. *)
Section worker_ok.
  Context (frontier : Bitmap) (t : nat) (end_ : Z).
  Context (Hbm : bm_ok frontier) (Hsize : end_ ≤ size frontier) (Hn : end_ ≤ n).
  Context (Ht : (t < n_workers)%nat).
  Abbreviation buf := (area + Z.of_nat t * ebs).
  Abbreviation left := (edges_left frontier end_ deg).

Lemma buf_fits : 0 ≤ buf ∧ buf + ebs ≤ mem_words.
Proof. destruct Hok. nia. Qed.

Lemma interval_edges vec : Forall (iv_ok end_ deg) vec →
  Forall (iv_ok n deg) vec ∧ Forall (λ i, 0 < iv_edges i) vec
  ∧ iv_total vec = zlen (vec ≫= iv_expand).
Proof.
  intros Hivs. assert (Hw : Forall (iv_ok n deg) vec).
  { eapply Forall_impl; [exact Hivs|]. intros i (? & ? & ? & ?). split_and!; lia || done. }
  split; [done|]. clear Hivs. unfold iv_total. induction Hw as [|i vec Hi _ [IH1 IH2]]; [done|].
  pose proof (iv_edges_ok n deg i Hi (deg_u32 _ (proj1 Hi))) as He. pose proof Hi as (_ & _ & ? & _).
  split; [constructor; [lia|done]|].
  rewrite zsum_cons, bind_cons, zlen_app, IH2, zlen_iv_expand; lia.
Qed.

Lemma em_step_ok s e dn :
  batch_valid end_ deg s → cur_v s < end_ → zlen (em_mem e) = mem_words → I dn (em_user e) →
  ∃ s' e' got, em_step function ctx idx frontier t buf ebs end_ (s, e) = Ok (inl (s', e'))
    ∧ batch_valid end_ deg s' ∧ zlen (em_mem e') = mem_words ∧ left s = got ++ left s'
    ∧ I (dn ++ got) (em_user e') ∧ (is_done end_ s' = true ∨ 0 < zlen got).
Proof.
  intros Hs Hlt Hmem HI. pose proof (em_ebs _ _ _ Hok) as Hebs. pose proof buf_fits as [Hb0 Hb1].
  unfold em_step. unfold is_done at 1. rewrite bool_decide_false by lia.
  destruct (get_next_batch_ok frontier end_ ebs deg
    (λ v, get_num_edges v idx n m)) with (s := s)
    as (vec & s' & -> & Hgot & Hleft & Hprog & Hs' & Hivs & Hch); try done; [|lia|].
  { intros v Hv. split; [|apply deg_u32; lia].
    apply (get_num_edges_deg _ n); [apply (em_csr _ _ _ Hok)|lia]. }
  rewrite bind_ok. assert (Hcut : left s = (vec ≫= iv_expand) ++ left s')
    by (by rewrite Hgot, Hleft, take_drop).
  destruct (interval_edges vec Hivs) as (Hw & Hpos & Htot).
  assert (Hle : iv_total vec ≤ ebs).
  { rewrite Htot, Hgot. unfold zlen. rewrite length_take. lia. }
  destruct vec as [|i0 vec0] eqn:Evec; rewrite <- Evec in *.
  { rewrite Evec in *. exists s', e, []. rewrite app_nil_r. split_and!; try done.
    destruct Hprog as [?|Hz]; [by left|]. cbn in Hz. unfold zlen in Hz. cbn in Hz. lia. }
  destruct (sign_buffer_ok vec buf (em_mem e)) as (mem1 & -> & Hz1 & Hsg & _); [done|lia|lia|].
  rewrite bind_ok.
  destruct (coalesced_words vec) as (combined & -> & Hne & Hcg & Hct & Hcw & Hroom);
    [by rewrite Evec|done..|].
  rewrite bind_ok. pose proof (iv_total_nonneg vec).
  assert (Hfly : zip (rng buf (buf + iv_total combined)) (combined ≫= frag)
    = zip (rng buf (buf + zlen (vec ≫= frag))) (vec ≫= frag)) by by rewrite Hct, Hcw, zlen_data.
  pose proof Hok as [].
  destruct (requests_fit ctx idx em_csr0 em_m0 em_addr0 em_served0 em_window0 em_post0
    combined buf (em_posts e)) as (v & -> & E); [done|done|lia|done|done|].
  rewrite bind_ok, E, bind_ok. unfold placed. rewrite Hfly.
  assert (Hf1 : buf + iv_total vec ≤ zlen mem1) by lia.
  destruct (drain_intervals_ok vec buf mem1 Hw Hb0 Hf1 Hsg t (em_polls e) (em_user e) dn HI) as (f & pos & u' & -> & Hzf & HI').
  rewrite bind_ok. eexists s', _, (vec ≫= iv_expand). split; [done|]. cbn.
  split_and!; try done; [by rewrite Hzf, Hz1|].
  destruct Hprog as [?| ->]; [by left|right; lia].
Qed.

(** The edges of a range are at most those of the graph. *)
Lemma edges_bound a : 0 ≤ a → a < end_ → zlen (left (new_next_batch a)) ≤ m.
Proof.
  intros Ha Hlt. pose proof (em_csr _ _ _ Hok) as Hcsr.
  assert (Hsum : ∀ vs, (∀ v, v ∈ vs → 0 ≤ v < n) →
    zlen (vs ≫= edges_of deg 0) = zsum deg vs ∧ ∀ (P : Z → Prop) `{!∀ v, Decision (P v)}, zsum deg (filter P vs) ≤ zsum deg vs).
  { induction vs as [|v vs IH]; intros Hvs; [done|].
    destruct IH as [IH1 IH2]; [set_solver|]. pose proof (deg_u32 v ltac:(set_solver)). split.
    - rewrite bind_cons, zlen_app, zsum_cons, IH1, zlen_edges_of; lia.
    - intros P HP. rewrite filter_cons, zsum_cons. specialize (IH2 P HP).
      case_decide; rewrite ?zsum_cons; lia. }
  unfold edges_left, vertices_left. cbn [new_next_batch cur_v cur_e]. rewrite decide_True by lia.
  destruct (Hsum (rng (a + 1) end_)) as [_ Hfil]; [intros v Hv%elem_of_rng; lia|].
  destruct (Hsum (actives frontier end_ (a + 1))) as [Hlen _].
  { intros v [_ Hv%elem_of_rng]%list_elem_of_filter. lia. }
  pose proof (deg_u32 a ltac:(lia)).
  rewrite zlen_app, Hlen, zlen_edges_of by lia. specialize (Hfil (λ v, bm_get frontier v = true) _).
  fold (actives frontier end_ (a + 1)) in Hfil.
  rewrite (deg_sum idx n m) in Hfil by lia. pose proof (off_next a ltac:(lia)).
  pose proof (off_bounds _ _ _ Hcsr a). pose proof (off_bounds _ _ _ Hcsr end_). lia.
Qed.

Lemma em_worker_ok a e dn :
  0 ≤ a → a < end_ → zlen (em_mem e) = mem_words → I dn (em_user e) →
  ∃ e', loopM (S (S (Z.to_nat m))) (em_step function ctx idx frontier t buf ebs end_) (new_next_batch a, e)
      = Ok e'
    ∧ zlen (em_mem e') = mem_words ∧ I (dn ++ left (new_next_batch a)) (em_user e').
Proof.
  intros Ha Hlt Hmem HI. pose proof (edges_bound a Ha Hlt) as Hbound.
  destruct (loopM_total (λ '(s, e1), batch_valid end_ deg s ∧ zlen (em_mem e1) = mem_words
      ∧ ∃ got, left (new_next_batch a) = got ++ left s ∧ I (dn ++ got) (em_user e1))
    (λ e', zlen (em_mem e') = mem_words ∧ I (dn ++ left (new_next_batch a)) (em_user e'))
    (λ '(s, _), Z.to_nat (zlen (left s) + Z.b2z (negb (is_done end_ s))))
    (em_step function ctx idx frontier t buf ebs end_) (S (S (Z.to_nat m))) (new_next_batch a, e))
    as (e' & -> & H); [| | |by exists e'].
  - split; [split; cbn; [lia|by left]|]. split; [done|]. exists []. by rewrite app_nil_r.
  - pose proof (zlen_nonneg (left (new_next_batch a))). destruct (is_done _ _); cbn; lia.
  - intros [s e1] (Hs & Hm1 & got & Hcut & HI1). destruct (is_done end_ s) eqn:Hd.
    + unfold em_step. rewrite Hd. eexists; split; [done|]. split; [done|].
      apply bool_decide_eq_true in Hd. rewrite Hcut. unfold edges_left, vertices_left at 1.
      by rewrite decide_False, app_nil_r by lia.
    + pose proof Hd as Hd'%bool_decide_eq_false.
      destruct (em_step_ok s e1 (dn ++ got) Hs ltac:(lia) Hm1 HI1)
        as (s' & e' & more & -> & Hs' & Hm' & Hl & HI' & Hprog).
      eexists; split; [done|]. cbn beta iota. split.
      * split; [done|]. split; [done|]. exists (got ++ more). by rewrite Hcut, Hl, <- !app_assoc in *.
      * rewrite Hl, zlen_app. pose proof (zlen_nonneg more). pose proof (zlen_nonneg (left s')).
        destruct Hprog as [->|?]; cbn; [lia|]. destruct (is_done end_ s'); cbn; lia.
Qed.
End worker_ok.

(** C24: the older engine hands every edge of the frontier to the client's function
    once.  With a valid context, a card that accepts every request and a vector
    that does not move, [edgemap] ends without a fault under every schedule and
    every timing of the card; the worker of a subrange has then called the
    function on consecutive parts of adjacency lists, each time with the words of
    that part, which together are all edges of the members of its subrange in
    order - and all edges of the subrange's first vertex, member or not. *)
Theorem edgemap_correct k frontier lo hi e :
  bm_ok frontier → hi ≤ size frontier → 0 ≤ lo → hi ≤ n →
  zlen (em_mem e) = mem_words → I [] (em_user e) →
  ∃ e', edgemap function k ctx idx frontier area ebs lo hi e = Ok e'
    ∧ zlen (em_mem e') = mem_words
    ∧ I (schedule k lo hi ≫= λ c, edges_left frontier (c_end c) deg (new_next_batch (c_begin c)))
        (em_user e').
Proof.
  intros Hbm Hsize Hlo Hhi Hmem HI. unfold edgemap, parallel_for.
  destruct (schedule_tiles k lo hi) as [Hne Hperm]. pose proof (schedule_workers k lo hi) as Hwk.
  destruct (forM_prefix_inv (λ pre e1, zlen (em_mem e1) = mem_words
      ∧ I (pre ≫= λ c, edges_left frontier (c_end c) deg (new_next_batch (c_begin c))) (em_user e1))
    (schedule k lo hi) (λ c e, _ ← aget (cm_ids ctx) (Z.of_nat (worker c));
      loopM (S (S (Z.to_nat m))) (em_step function ctx idx frontier (worker c)
        (area + Z.of_nat (worker c) * ebs) ebs (c_end c)) (new_next_batch (c_begin c), e)) e)
    as (e' & E & H); [done| |by exists e'].
  intros pre c suf e1 Hs (Hm1 & HI1). rewrite Hs in Hne, Hwk.
  apply Forall_app in Hne as [_ [Hlt _]%Forall_cons]. apply Forall_app in Hwk as [_ [Ht _]%Forall_cons].
  assert (Hin : ∀ x, x ∈ chunk_rng c → lo ≤ x < hi).
  { intros x Hx. apply elem_of_rng. rewrite <- Hperm, Hs, bind_app, bind_cons. set_solver. }
  unfold chunk_rng in Hin. setoid_rewrite elem_of_rng in Hin.
  pose proof (Hin (c_begin c) ltac:(lia)). pose proof (Hin (c_end c - 1) ltac:(lia)).
  pose proof (em_ids _ _ _ Hok). rewrite aget_at, bind_ok by lia.
  destruct (em_worker_ok frontier (worker c) (c_end c) Hbm ltac:(lia) ltac:(lia) Ht (c_begin c) e1 _
    ltac:(lia) Hlt Hm1 HI1) as (e2 & -> & Hm2 & HI2).
  exists e2. split; [done|]. split; [done|]. by rewrite bind_app, bind_singleton.
Qed.
End run.
End edgemap.
