(* ===== verification/EngineConcurrent.v ===== *)
(** * EngineConcurrent: the engine's workers and the card at the same time

    The workers of [ccy_for_each_active_batch] and [for_each_range] as programs:
    writes of signatures, posts, looks at the edge buffer, reads of edges and the
    operations of the client's function are atomic steps, and between any two of
    them the other workers run and the card delivers words, of the requests of
    every worker in the order posted and of different workers in any order.
    [ccy_refines] and [range_refines] say that a round of such workers does the work
    of a round of kernel workers on the adjacency lists of the graph. *)

From S2P Require Import Prelude Platform VertexTable Bitmap Stats PackWindow Engine.
From S2P Require Import Interleaving Hiding.

Section engine.
  Context {BU : BuildOptions} {CB : Combinable} {ETS : EnumerableThreadSpecific} {CK : Clock}.
  Context {SC : Scheduler} {NI : Nic}.

(** The engine's part of the shared state: the RDMA window, per worker the words of
    its requests that have not landed, the statistics, the number of looks at the
    buffers, and per worker the number of posts. *)
Record nic_state := NicState {
  window_mem : list Z;
  queues : list (list (Z * Z));
  timings : timing;
  looks : nat;
  posted : list nat;
}.

Definition set_window_mem (mem : list Z) (e : nic_state) : nic_state :=
  NicState mem (queues e) (timings e) (looks e) (posted e).
Definition set_timings (tm : timing) (e : nic_state) : nic_state :=
  NicState (window_mem e) (queues e) tm (looks e) (posted e).

(** The client's function, given a vertex, its degree and a way to read its edges. *)
Definition edge_function (U : Type) : Type :=
  nat → Z → Z → (Z → prog (nic_state * U) Z) → prog (nic_state * U) unit.

  Context (remote : remote_region) (ctx : client_context) (idx : list vertex).
  Context (edge_buf_size : Z) (garbage : window).

(** What [ibv_post_send] returns the [k]-th time on the queue pair of a worker. *)
Context (qp_ret : nat → nat → Z).

(** ** Atomic operations *)
Definition store (i x : Z) (e : nic_state) : result (nic_state * unit) :=
  mem ← aset (window_mem e) i x; Ok (set_window_mem mem e, ()).
Definition load (i : Z) (e : nic_state) : result (nic_state * Z) :=
  x ← aget (window_mem e) i; Ok (e, x).
Definition tick (f : timing → timing) (e : nic_state) : result (nic_state * unit) :=
  Ok (set_timings (f (timings e)) e, ()).

(** The card delivers the next [k] words of worker [t]. *)
Definition deliver (t k : nat) (e : nic_state) : result (nic_state * unit) :=
  match queues e !! t with
  | None => Ok (e, ())
  | Some q =>
      f ← land k (Flight (window_mem e) q (looks e));
      Ok (NicState (f_mem f) (<[t:=f_pending f]> (queues e)) (timings e) (looks e) (posted e), ())
  end.

(** One evaluation of [e_buf[i] == NULL_VERT]; the card is alive: a worker that waits
    for a word in flight sees some of its words land before it looks again. *)
Definition look (t : nat) (i : Z) (e : nic_state) : result (nic_state * bool) :=
  x ← aget (window_mem e) i;
  if bool_decide (x = NULL_VERT) then
    match queues e !!! t with
    | [] => Fault SpinsForever
    | _ => '(e, _) ← deliver t (S (nic_burst (looks e))) e;
           Ok (NicState (window_mem e) (queues e) (timings e) (S (looks e)) (posted e), false)
    end
  else Ok (e, true).

Definition ibv_post_send (t : nat) (w : window) (e : nic_state) : result (nic_state * Z) :=
  let k := posted e !!! t in
  let ret := qp_ret t k in
  qs ← (if bool_decide (ret = 0) then
          words ← posted_words remote ctx w;
          Ok (<[t:=queues e !!! t ++ words]> (queues e))
        else Ok (queues e));
  Ok (NicState (window_mem e) qs (timings e) (looks e) (<[t:=S k]> (posted e)), ret).

(** ** Programs *)
Section programs.
  Context {U : Type} (function : edge_function U).
  Abbreviation program A := (prog (nic_state * U) A).

(** [while (e_buf[i] == NULL_VERT) {}]; between two looks at least one of at most
    [edge_buf_size] words in flight lands. *)
Fixpoint spin_loop (fuel : nat) (t : nat) (i : Z) : program unit :=
  match fuel with
  | O => of_result (Fault OutOfFuel)
  | S fuel => ok ← on_engine (look t i); if ok : bool then mret () else spin_loop fuel t i
  end.
Definition spin_c : nat → Z → program unit := spin_loop (S (Z.to_nat edge_buf_size)).

(** The packing routines; a worker's [packing] leaves the memory field empty. *)
Definition pack_vertex_c (buf0 v n : Z) (p : packing) : program packing :=
  if bool_decide (0 < n) then
    let b := buf0 + total_edges p in
    _ ← on_engine (store b NULL_VERT);
    _ ← on_engine (store (b + u32 (n - 1)) NULL_VERT);
    '(w, wrs) ← of_result (pack_request ctx b idx v n p);
    mret (Packing w [] (u32 (total_edges p + n)) (u32 (batch_size p + 1)) wrs)
  else mret p.

Definition cache_hit_call_c (t : nat) (v : Z) (cache_elem : option CacheElem) : program unit :=
  match cacheManager ctx with
  | Some mgr =>
      function t v (get_out_degree mgr v) (λ k, of_result (aget (get_neighbors mgr v) k))
  | None => match cache_elem with
            | Some e => function t (getId e) (elem_get_out_degree e)
                          (λ k, of_result (aget (elem_get_neighbors e) k))
            | None => of_result (Fault OutOfBounds)
            end
  end.

Definition cache_pack_step_c (t : nat) (buf0 range_end : Z) (frontier : Bitmap)
    (st : Z * packing) : program (Z * packing + Z * packing) :=
  let '(v, p) := st in
  if window_open edge_buf_size range_end v p then
    bit ← of_result (get_bit frontier v);
    if bool_decide (bit ≠ 0) then
      let '(cache_elem, in_cache) := cache_lookup ctx v in
      if in_cache : bool then
        _ ← cache_hit_call_c t v cache_elem;
        _ ← on_engine (tick (λ tm, clocked CacheBuildingTime t (map_stats (add_cache_hit t) tm)));
        mret (inl (u32 (v + 1), p))
      else
        _ ← on_engine (tick (clocked CacheBuildingTime t));
        n ← of_result (get_num_edges v idx (num_vertices (app ctx)) (num_edges (app ctx)));
        if bool_decide (u32 (total_edges p + n) ≤ edge_buf_size) then
          p ← pack_vertex_c buf0 v n p;
          mret (inl (u32 (v + 1), p))
        else mret (inr (v, p))
    else mret (inl (u32 (v + 1), p))
  else mret (inr (v, p)).

Definition cache_pack_window_c (t : nat) (buf0 range_end : Z) (frontier : Bitmap)
    (range_start : Z) (w : window) : program (Z * packing) :=
  '(v, p) ← loop_c (range_fuel range_start range_end) (cache_pack_step_c t buf0 range_end frontier)
              (range_start, Packing w [] 0 0 0);
  _ ← on_engine (tick (count_sends t p));
  mret (v, p).

Definition pack_step2_c (buf0 range_end : Z) (st : Z * packing * Z)
    : program (Z * packing * Z + Z * packing * Z) :=
  let '(v, p, n_wr) := st in
  if window_open edge_buf_size range_end v p then
    n ← of_result (get_num_edges v idx (num_vertices (app ctx)) (num_edges (app ctx)));
    if bool_decide (u32 (total_edges p + n) ≤ edge_buf_size) then
      p ← pack_vertex_c buf0 v n p;
      mret (inl (u32 (v + 1), p, if bool_decide (0 < n) then u32 (n_wr + 1) else n_wr))
    else mret (inr (v, p, n_wr))
  else mret (inr (v, p, n_wr)).

Definition pack_window2_c (t : nat) (buf0 range_end range_start : Z) (w : window)
    : program (Z * packing) :=
  '(v, p, n_wr) ← loop_c (range_fuel range_start range_end) (pack_step2_c buf0 range_end)
              (range_start, Packing w [] 0 0 0, 0);
  _ ← on_engine (tick (count_sends t p));
  mret (v, p).

(** [ret = ibv_post_send(...)] with and without [while (ret == ENOMEM)], then
    [TEST_NZ(ret)]. *)
Definition post_once_c (t : nat) (w : window) : program unit :=
  ret ← on_engine (ibv_post_send t w); of_result (TEST_NZ "ret" ret).
Definition post_retry_c (fuel : nat) (t : nat) (w : window) : program unit :=
  loop_c fuel (λ _, ret ← on_engine (ibv_post_send t w);
    if bool_decide (ret = ENOMEM) then mret (inl ())
    else _ ← of_result (TEST_NZ "ret" ret); mret (inr ())) ().

Definition drain_vertex_c (t : nat) (v pos : Z) : program Z :=
  n_edges ← of_result (get_num_edges v idx (num_vertices (app ctx)) (num_edges (app ctx)));
  _ ← spin_c t pos;
  _ ← spin_c t (pos + u32 (n_edges - 1));
  _ ← on_engine (tick (clocked SpinTime t));
  _ ← function t v n_edges (λ k, on_engine (load (pos + k)));
  _ ← on_engine (tick (clocked FunctionTime t));
  mret (pos + n_edges).

Definition drain_c (t : nat) (w : window) (wrs pos : Z) : program Z :=
  fold_c (rng 0 wrs) (λ i pos,
    r ← of_result (aget (vertex_batch w) i);
    fold_c (rng (v_s r) (v_e r + 1)) (drain_vertex_c t) pos) pos.

(** [while (next_range_start < range_end)] *)
Definition worker_step_c (pack : Z → window → program (Z * packing)) (nonempty : packing → bool)
    (post : window → program unit) (t : nat) (buf0 range_end : Z) (st : Z * window)
    : program (Z * window + unit) :=
  let '(next, w) := st in
  if bool_decide (next < range_end) then
    '(v, p) ← pack next w;
    if nonempty p then
      _ ← of_result (aget (cm_ids ctx) (Z.of_nat t));
      _ ← post (pk_win p);
      _ ← drain_c t (pk_win p) (pk_wrs p) buf0;
      mret (inl (v, pk_win p))
    else mret (inl (v, pk_win p))
  else mret (inr ()).

Definition worker_c (pack : Z → window → program (Z * packing)) (nonempty : packing → bool)
    (post : window → program unit) (t : nat) (range_begin range_end : Z) : program unit :=
  loop_c (range_fuel range_begin range_end)
    (worker_step_c pack nonempty post t (Z.of_nat t * edge_buf_size) range_end)
    (range_begin, garbage).

Definition ccy_worker_c (fuel : nat) (frontier : Bitmap) (t : nat) (a b : Z) : program unit :=
  worker_c (λ next w,
      '(v, p) ← cache_pack_window_c t (Z.of_nat t * edge_buf_size) b frontier next w;
      _ ← on_engine (tick (clocked PackWindowTime t));
      mret (v, p))
    (λ p, bool_decide (0 < pk_wrs p)) (post_retry_c fuel t) t a b.

Definition range_worker_c (t : nat) (a b : Z) : program unit :=
  worker_c (pack_window2_c t (Z.of_nat t * edge_buf_size) b)
    (λ p, bool_decide (0 < batch_size p)) (post_once_c t) t a b.

(** The card delivers words whenever it likes. *)
Definition card_c (deliveries : list (nat * nat)) : program unit :=
  each deliveries (λ d, on_engine (deliver d.1 d.2)).

(** [parallel_for]: every worker is given subranges in some order; next to the workers
    runs the card. *)
Definition engine_round (worker : nat → Z → Z → program unit) (lo hi : Z)
    (ps : list (program unit)) : Prop :=
  ∃ (chunks : list (list (Z * Z))) (deliveries : list (nat * nat)),
    length chunks = n_workers
    ∧ Forall (λ c, lo ≤ c.1 < c.2 ∧ c.2 ≤ hi) (concat chunks)
    ∧ (concat chunks ≫= λ c, rng c.1 c.2) ≡ₚ rng lo hi
    ∧ ps = imap (λ t cs, each cs (λ c, worker t c.1 c.2)) chunks ++ [card_c deliveries].
End programs.

(** ** What a worker knows

    The contents [g_base] of its buffer when its last requests were posted, the words
    [g_data] the card delivers, at least [g_from] of which have landed, and how often
    it has posted. *)
Record ghost := Ghost { g_base : list Z; g_data : list Z; g_from : Z; g_posts : nat }.

Section proofs.
  Context (Hsv : served remote ctx) (mem_words : Z).
  Context (Heo : engine_ok ctx idx edge_buf_size garbage mem_words).
  Abbreviation n := (num_vertices (app ctx)).
  Abbreviation m := (num_edges (app ctx)).
  Abbreviation deg := (deg idx m).
  Abbreviation adj := (adj_of idx m (rr_words remote)).
  Abbreviation buf t := (Z.of_nat t * edge_buf_size).

(** Exactly [j] words have landed. *)
Record own_at (t : nat) (e : nic_state) (base data : list Z) (j : Z) (k : nat) : Prop := {
  oa_range : 0 ≤ j ≤ zlen data;
  oa_fits : zlen data ≤ edge_buf_size;
  oa_queue : queues e !! t
             = Some (drop (Z.to_nat j) (zip (rng (buf t) (buf t + zlen data)) data));
  oa_posts : posted e !! t = Some k;
  oa_mem i : 0 ≤ i < edge_buf_size →
    at_ (window_mem e) (buf t + i) = if decide (i < j) then at_ data i else at_ base (buf t + i);
}.

Definition own (t : nat) (e : nic_state) (g : ghost) : Prop :=
  ∃ j, g_from g ≤ j ∧ own_at t e (g_base g) (g_data g) j (g_posts g).

(** The card has no ghost value. *)
Record nic_inv (e : nic_state) (ls : list (option ghost)) : Prop := {
  ni_mem : zlen (window_mem e) = mem_words;
  ni_queues : length (queues e) = n_workers;
  ni_posts : length (posted e) = n_workers;
  ni_workers : (n_workers < length ls)%nat;
  ni_own t : (t < n_workers)%nat → ∃ g, ls !! t = Some (Some g) ∧ own t e g;
}.

(** Nothing is in flight, and the worker's slice of the RDMA window is that of [view]. *)
Definition resting (t : nat) (g : ghost) (view : list Z) : Prop :=
  zlen view = mem_words ∧ g_from g = zlen (g_data g)
  ∧ ∀ i, 0 ≤ i < edge_buf_size →
      at_ view (buf t + i) = if decide (i < zlen (g_data g)) then at_ (g_data g) i
                             else at_ (g_base g) (buf t + i).

Definition quiet (view : list Z) (k : nat) : ghost := Ghost view [] 0 k.

Lemma quiet_resting t view k : zlen view = mem_words → resting t (quiet view k) view.
Proof using Type.
  intros Hv. split; [done|]. split; [done|]. intros i Hi. cbn. by rewrite decide_False by (unfold zlen; simpl; lia).
Qed.

Lemma resting_own t g view e :
  resting t g view → own t e g →
  queues e !! t = Some [] ∧ posted e !! t = Some (g_posts g)
  ∧ ∀ i, 0 ≤ i < edge_buf_size → at_ (window_mem e) (buf t + i) = at_ view (buf t + i).
Proof using Type.
  intros (_ & Hf & Hview) (j & Hj & [Hr _ Hq Hp Hm]). replace j with (zlen (g_data g)) in * by lia.
  split; [|split; [done|]].
  - rewrite Hq. f_equal. apply drop_ge. rewrite words_length. unfold zlen. lia.
  - intros i Hi. by rewrite Hm, Hview.
Qed.

Lemma quiet_own t e view k :
  queues e !! t = Some [] → posted e !! t = Some k → 0 ≤ edge_buf_size →
  (∀ i, 0 ≤ i < edge_buf_size → at_ (window_mem e) (buf t + i) = at_ view (buf t + i)) →
  own t e (quiet view k).
Proof using Type.
  intros Hq Hp He Hm. exists 0. split; [done|]. cbn.
  split; [unfold zlen; simpl; lia|unfold zlen; simpl; lia| |done|].
  - rewrite Hq. f_equal. rewrite drop_0, Z.add_0_r. unfold zlen. cbn. by rewrite zip_with_nil_r.
  - intros i Hi. rewrite decide_False by lia. by apply Hm.
Qed.

(** The slices of different workers are disjoint. *)
Lemma slice_bounds t i : (t < n_workers)%nat → 0 ≤ i < edge_buf_size → 0 ≤ buf t + i < mem_words.
Proof using Heo. intros Ht Hi. pose proof (eo_mem _ _ _ _ _ Heo). pose proof (eo_ebs _ _ _ _ _ Heo). nia. Qed.

Lemma slices_apart t t' i i' :
  t ≠ t' → 0 ≤ i < edge_buf_size → 0 ≤ i' < edge_buf_size → buf t + i ≠ buf t' + i'.
Proof using Type. intros Hne Hi Hi'. destruct (decide (t < t')%nat); nia. Qed.

(** A step of worker [t] that stays in its slice and its queue. *)
Lemma nic_inv_step e e' ls t g' :
  nic_inv e ls → (t < n_workers)%nat →
  zlen (window_mem e') = mem_words → length (queues e') = n_workers → length (posted e') = n_workers →
  (∀ t', t' ≠ t → queues e' !! t' = queues e !! t' ∧ posted e' !! t' = posted e !! t') →
  (∀ t' i, t' ≠ t → (t' < n_workers)%nat → 0 ≤ i < edge_buf_size →
     at_ (window_mem e') (buf t' + i) = at_ (window_mem e) (buf t' + i)) →
  own t e' g' → nic_inv e' (<[t:=Some g']> ls).
Proof using Type.
  intros [Hm Hq Hp Hw Ho] Ht Hm' Hq' Hp' Hoq Hom Hg'. split; [done..|by rewrite length_insert|].
  intros t' Ht'. destruct (decide (t' = t)) as [->|Hne].
  - exists g'. split; [|done]. apply list_lookup_insert_eq. lia.
  - destruct (Ho t' Ht') as (g & Hg & j & Hj & [Hr Hf Hqt Hpt Hmt]).
    exists g. rewrite list_lookup_insert_ne by done. split; [done|]. exists j. split; [done|].
    destruct (Hoq t' Hne) as [E1 E2]. split; [done|done|by rewrite E1|by rewrite E2|].
    intros i Hi. rewrite Hom by done. by apply Hmt.
Qed.

(** A step that leaves memory, queues and posts alone. *)
Lemma nic_inv_same e e' ls t g :
  nic_inv e ls → ls !! t = Some g →
  window_mem e' = window_mem e → queues e' = queues e → posted e' = posted e →
  nic_inv e' (<[t:=g]> ls).
Proof using Type.
  intros [Hm Hq Hp Hw Ho] Hg E1 E2 E3. rewrite list_insert_id by done. split; [congruence..|].
  intros t' Ht'. destruct (Ho t' Ht') as (g' & Hg' & j & Hj & [Hr Hf Hqt Hpt Hmt]).
  exists g'. split; [done|]. exists j. split; [done|]. split; [done|done|congruence|congruence|].
  intros i Hi. rewrite E1. by apply Hmt.
Qed.

(** ** The card *)
Lemma own_at_landed t e base data j k :
  (t < n_workers)%nat → zlen (window_mem e) = mem_words → own_at t e base data j k →
  ∃ q, queues e !! t = Some q ∧ landed (buf t) (window_mem e) data j (Flight (window_mem e) q (looks e)).
Proof using Heo.
  intros Ht Hm [Hr Hf Hq Hp Hmem]. eexists; split; [exact Hq|]. split; [done|done|done|].
  intros i Hi. cbn. case_decide as E; [|done]. replace i with (buf t + (i - buf t)) at 1 by lia.
  rewrite Hmem by lia. by rewrite decide_True by lia.
Qed.

Lemma deliver_ok t k e base data j kp :
  (t < n_workers)%nat → zlen (window_mem e) = mem_words → own_at t e base data j kp →
  ∃ e', deliver t k e = Ok (e', ()) ∧ own_at t e' base data (Z.min (j + Z.of_nat k) (zlen data)) kp
    ∧ zlen (window_mem e') = mem_words ∧ length (queues e') = length (queues e)
    ∧ posted e' = posted e ∧ (∀ t', t' ≠ t → queues e' !! t' = queues e !! t')
    ∧ ∀ t' i, t' ≠ t → (t' < n_workers)%nat → 0 ≤ i < edge_buf_size →
        at_ (window_mem e') (buf t' + i) = at_ (window_mem e) (buf t' + i).
Proof using Heo.
  intros Ht Hm Ho. pose proof Ho as [Hr Hf Hq Hp Hmem].
  destruct (own_at_landed _ _ _ _ _ _ Ht Hm Ho) as (q & Hq' & Hl).
  pose proof (eo_ebs _ _ _ _ _ Heo) as Hebs. pose proof (slice_bounds t 0 Ht ltac:(lia)).
  pose proof (slice_bounds t (edge_buf_size - 1) Ht ltac:(lia)).
  destruct (land_ok (buf t) (window_mem e) data ltac:(lia) ltac:(lia) k j _ Hl) as (f & Ef & _ & Hl').
  unfold deliver. rewrite Hq', Ef, bind_ok. eexists; split; [done|]. cbn.
  pose proof (ld_mem _ _ _ _ _ Hl') as Hm'. pose proof (ld_len _ _ _ _ _ Hl').
  split; [|split; [lia|split; [by rewrite length_insert|split; [done|split]]]].
  - split; cbn; [lia|done| |done|].
    + rewrite list_lookup_insert_eq by (by eapply lookup_lt_Some). f_equal. apply (ld_pending _ _ _ _ _ Hl').
    + intros i Hi. rewrite Hm' by lia. rewrite Hmem by done. repeat case_decide; try lia; try done. f_equal; lia.
  - intros t' Hne. by apply list_lookup_insert_ne.
  - intros t' i Hne Ht' Hi. pose proof (slice_bounds t' i Ht' Hi). rewrite Hm' by lia.
    rewrite decide_False; [done|]. intros Hin.
    apply (slices_apart t t' (buf t' + i - buf t) i); [done|lia|done|lia].
Qed.

Lemma deliver_inv t k e ls :
  nic_inv e ls → ∃ e', deliver t k e = Ok (e', ()) ∧ nic_inv e' ls.
Proof using Heo.
  intros HI. pose proof HI as [Hm Hq Hp Hw Ho]. destruct (decide (t < n_workers)%nat) as [Ht|Ht].
  - destruct (Ho t Ht) as (g & Hg & j & Hj & Hat).
    destruct (deliver_ok t k e _ _ _ _ Ht Hm Hat) as (e' & E & Hat' & Hm' & Hq' & Hp' & Hoq & Hom).
    exists e'. split; [done|]. rewrite <- (list_insert_id ls t (Some g)) by done.
    eapply nic_inv_step; [done|done|done|lia|by rewrite Hp'|by rewrite Hp'; auto|done|].
    exists (Z.min (j + Z.of_nat k) (zlen (g_data g))). pose proof (oa_range _ _ _ _ _ _ Hat). split; [lia|done].
  - exists e. split; [|done]. unfold deliver. by rewrite lookup_ge_None_2 by lia.
Qed.

(** ** The steps of a worker *)
Section worker_steps.
Context {U : Type} (t : nat) (Ht : (t < n_workers)%nat).
Abbreviation steps := (performs (U := U) nic_inv t).

Lemma performs_tick g f : steps g (on_engine (tick f)) (Ret ()) g.
Proof using Type.
  apply performs_own. intros e ls HI Hg. eexists; split; [done|]. by eapply nic_inv_same.
Qed.

Lemma performs_store g view i x :
  resting t g view → 0 ≤ i < edge_buf_size →
  steps (Some g) (on_engine (store (buf t + i) x)) (Ret ())
    (Some (quiet (<[Z.to_nat (buf t + i):=x]> view) (g_posts g))).
Proof using Heo Ht.
  intros Hrest Hi. apply performs_own. intros e ls HI Hg. pose proof HI as [Hm Hq Hp Hw Ho].
  pose proof (slice_bounds t i Ht Hi) as Hb. unfold store. rewrite aset_ok, bind_ok by lia.
  eexists; split; [done|]. destruct (Ho t Ht) as (g' & Hg' & Hown). simplify_eq.
  destruct (resting_own _ _ _ _ Hrest Hown) as (Hqt & Hpt & Hmt). destruct Hrest as (Hv & _).
  eapply nic_inv_step; [exact HI|done|cbn; by rewrite zlen_insert|done|done|done| |].
  - intros t' i' Hne Ht' Hi'. pose proof (slice_bounds t' i' Ht' Hi'). cbn. apply at_insert_ne; [lia|lia|].
    by apply slices_apart.
  - apply quiet_own; [done|done|lia|]. intros i' Hi'. pose proof (slice_bounds t i' Ht Hi'). cbn.
    rewrite !at_insert by lia. case_decide; [done|]. by apply Hmt.
Qed.

Lemma performs_load g i :
  0 ≤ i < g_from g → steps (Some g) (on_engine (load (buf t + i))) (Ret (at_ (g_data g) i)) (Some g).
Proof using Heo Ht.
  intros Hi. apply performs_own. intros e ls HI Hg. pose proof HI as [Hm Hq Hp Hw Ho].
  destruct (Ho t Ht) as (g' & Hg' & j & Hj & [Hr Hf _ _ Hmem]). simplify_eq.
  pose proof (slice_bounds t i Ht ltac:(lia)). unfold load. rewrite aget_at, bind_ok by lia.
  rewrite Hmem, decide_True by lia. exists e. split; [done|]. by eapply nic_inv_same.
Qed.
(** Waiting for a word ends; then the word and all before it have landed. *)
Lemma performs_spin_from base data from from' k i fuel :
  0 ≤ i < zlen data → at_ base (buf t + i) = NULL_VERT → at_ data i ≠ NULL_VERT →
  from ≤ from' ≤ zlen data → zlen data - from' < Z.of_nat fuel →
  steps (Some (Ghost base data from' k)) (spin_loop fuel t (buf t + i)) (Ret ())
    (Some (Ghost base data (Z.max from (i + 1)) k)).
Proof using Heo Ht.
  intros Hi Hnull Hdata. revert from'. induction fuel as [|fuel IH]; intros from' Hfrom Hfuel; [lia|].
  left. intros e ls HI Hg. pose proof HI as [Hm Hq Hp Hw Ho].
  destruct (Ho t Ht) as (g & Hg' & j & Hj & Hat). simplify_eq. cbn [g_base g_data g_from g_posts] in *.
  pose proof Hat as [Hr Hf Hqt Hpt Hmem]. pose proof (slice_bounds t i Ht ltac:(lia)) as Hb.
  cbn [fst snd]. unfold look. rewrite aget_at, bind_ok, Hmem by lia. case_decide as Hij.
  - rewrite bool_decide_eq_false_2 by done. eexists e, true, _. split; [done|].
    split; [|done]. rewrite <- (list_insert_id ls t (Some (Ghost base data from' k))) in HI by done.
    destruct HI as [_ _ _ Hwl Hol]. rewrite length_insert in Hwl. split; [done..|by rewrite length_insert|].
    intros t' Ht'. destruct (decide (t' = t)) as [->|Hne].
    + eexists. rewrite list_lookup_insert_eq by lia. split; [done|]. exists j. split; [cbn; lia|done].
    + rewrite list_lookup_insert_ne by done. by apply Ho.
  - rewrite Hnull, bool_decide_eq_true_2 by done.
    destruct (deliver_ok t (S (nic_burst (looks e))) e base data j k Ht Hm Hat)
      as (e' & E & Hat' & Hm' & Hq' & Hp' & Hoq & Hom).
    assert (Hnil : queues e !!! t ≠ []).
    { rewrite (list_lookup_total_correct _ _ _ Hqt). intros E0%(f_equal length).
      rewrite length_drop, words_length in E0. unfold zlen in *. cbn in E0. lia. }
    destruct (queues e !!! t) as [|q qs]; [done|]. rewrite E.
    eexists (NicState (window_mem e') (queues e') (timings e') (S (looks e')) (posted e')), false,
      (Some (Ghost base data (from' + 1) k)).
    split; [done|]. split; [|apply IH; lia].
    eapply nic_inv_step; [exact HI|done|done|cbn; lia|cbn; by rewrite Hp'|cbn; rewrite Hp'; auto|done|].
    exists (Z.min (j + Z.of_nat (S (nic_burst (looks e)))) (zlen data)). cbn. split; [lia|].
    destruct Hat'. by split.
Qed.

Lemma performs_spin base data from k i :
  0 ≤ i < zlen data → at_ base (buf t + i) = NULL_VERT → at_ data i ≠ NULL_VERT →
  0 ≤ from ≤ zlen data → zlen data ≤ edge_buf_size →
  steps (Some (Ghost base data from k)) (spin_c t (buf t + i)) (Ret ())
    (Some (Ghost base data (Z.max from (i + 1)) k)).
Proof using Heo Ht. intros. apply performs_spin_from; try done; lia. Qed.

(** Posting a window: its words are on their way when the post succeeds. *)
Lemma performs_post g view data w :
  resting t g view → zlen data ≤ edge_buf_size →
  posted_words remote ctx w = Ok (zip (rng (buf t) (buf t + zlen data)) data) →
  steps (Some g) (on_engine (ibv_post_send t w)) (Ret (qp_ret t (g_posts g)))
    (Some (if bool_decide (qp_ret t (g_posts g) = 0) then Ghost view data 0 (S (g_posts g))
           else quiet view (S (g_posts g)))).
Proof using Heo Ht.
  intros Hrest Hd Hw. apply performs_own. intros e ls HI Hg. pose proof HI as [Hm Hq Hp Hwk Ho].
  destruct (Ho t Ht) as (g' & Hg' & Hown). simplify_eq.
  destruct (resting_own _ _ _ _ Hrest Hown) as (Hqt & Hpt & Hmt). destruct Hrest as (Hv & _).
  pose proof (eo_ebs _ _ _ _ _ Heo). pose proof (zlen_nonneg data).
  unfold ibv_post_send. rewrite (list_lookup_total_correct _ _ _ Hpt).
  assert (Hpost : <[t:=S (g_posts g)]> (posted e) !! t = Some (S (g_posts g)))
    by (apply list_lookup_insert_eq; lia).
  assert (Hne : ∀ t', t' ≠ t → <[t:=S (g_posts g)]> (posted e) !! t' = posted e !! t')
    by (intros; by apply list_lookup_insert_ne).
  case_bool_decide as Hret.
  - rewrite Hw, (list_lookup_total_correct _ _ _ Hqt), !bind_ok. eexists; split; [done|].
    eapply nic_inv_step; [exact HI|done|done|cbn; by rewrite length_insert|cbn; by rewrite length_insert
      |intros t' Ht'; cbn; split; [by apply list_lookup_insert_ne|auto]|done|].
    exists 0. split; [done|]. split; cbn; [lia|done| |done|].
    + rewrite list_lookup_insert_eq by lia. by rewrite drop_0.
    + intros i Hi. rewrite decide_False by lia. by apply Hmt.
  - rewrite bind_ok. eexists; split; [done|].
    eapply nic_inv_step; [exact HI|done|done|done|cbn; by rewrite length_insert|auto|done|].
    apply quiet_own; [done|done|lia|done].
Qed.

(** A queue pair accepts a request within [fuel] attempts. *)
Definition qp_drains (fuel : nat) : Prop :=
  ∀ k, ∃ d, (d < fuel)%nat ∧ qp_ret t (k + d) = 0 ∧ ∀ i, (i < d)%nat → qp_ret t (k + i) = ENOMEM.

Definition posts (post : window → prog (nic_state * U) unit) : Prop :=
  ∀ g view data w, resting t g view → zlen data ≤ edge_buf_size →
    posted_words remote ctx w = Ok (zip (rng (buf t) (buf t + zlen data)) data) →
    ∃ k, steps (Some g) (post w) (Ret ()) (Some (Ghost view data 0 k)).

(** A step of the worker's own, then what follows. *)
Lemma steps_then {A B} g1 g2 g3 (p : prog (nic_state * U) A) (f : A → prog (nic_state * U) B) a b :
  steps g1 p (Ret a) g2 → steps g2 (f a) (Ret b) g3 → steps g1 (p ≫= f) (Ret b) g3.
Proof using Type.
  intros Hp Hf. change (Ret b : prog U B) with ((Ret a : prog U A) ≫= λ _, Ret b).
  eapply performs_bind; [exact Hp|]. by intros a' [= <-].
Qed.

Lemma post_once_posts : (∀ k, qp_ret t k = 0) → posts (post_once_c t).
Proof using Heo Ht.
  intros Hz g view data w Hrest Hd Hw. exists (S (g_posts g)).
  pose proof (performs_post g view data w Hrest Hd Hw) as Hp. rewrite Hz, bool_decide_eq_true_2 in Hp by done.
  eapply steps_then; [exact Hp|]. by apply performs_result.
Qed.

Lemma post_retry_posts fuel : qp_drains fuel → posts (post_retry_c fuel t).
Proof using Heo Ht.
  intros Hdr g view data w Hrest Hd Hw. destruct (Hdr (g_posts g)) as (d & Hlt & Hz & Hb). clear Hdr.
  unfold post_retry_c. revert g fuel Hrest Hlt Hz Hb.
  induction d as [|d IH]; intros g [|fuel] Hrest Hlt Hz Hb; try lia; cbn [loop_c];
    pose proof (performs_post g view data w Hrest Hd Hw) as Hp.
  - rewrite Nat.add_0_r in Hz. rewrite Hz, bool_decide_eq_true_2 in Hp by done.
    exists (S (g_posts g)). eapply steps_then; [eapply steps_then; [exact Hp|]|].
    + rewrite bool_decide_eq_false_2 by done. eapply steps_then; [by apply performs_result|done].
    + done.
  - pose proof (Hb 0%nat ltac:(lia)) as H0. rewrite Nat.add_0_r in H0. rewrite H0 in Hp.
    rewrite bool_decide_eq_false_2 in Hp by done.
    destruct (IH (quiet view (S (g_posts g))) fuel) as (k & Hk); [|lia| | |].
    + apply quiet_resting, Hrest.
    + cbn. by rewrite <- Nat.add_succ_comm in Hz.
    + intros i Hi. cbn. specialize (Hb (S i) ltac:(lia)). by rewrite <- Nat.add_succ_comm in Hb.
    + exists k. eapply (steps_then _ _ _ _ _ (inl ())); [eapply steps_then; [exact Hp|]|exact Hk].
      by rewrite bool_decide_eq_true_2.
Qed.
End worker_steps.
(** ** Packing *)

(** The local variables without the memory. *)
Definition strip (p : packing) : packing :=
  Packing (pk_win p) [] (total_edges p) (batch_size p) (pk_wrs p).

(** The sequential routines run with a function that records its calls. *)
Definition record (t : nat) (v : Z) (edges : list Z) (n_edges : Z) (u : list Z) : result (list Z) :=
  Ok (u ++ [v]).

Lemma record_ok act : client_ok remote record ctx idx act (λ dn u, u = reverse dn).
Proof using Type.
  intros t v dn u _ _ _ ->. eexists; split; [done|]. by rewrite reverse_cons.
Qed.

Definition counted (p : packing) : Prop := 0 ≤ total_edges p ≤ edge_buf_size.

Section packing.
Context {U : Type} (t : nat) (Ht : (t < n_workers)%nat).
Abbreviation steps := (performs (U := U) nic_inv t).

Lemma pack_vertex_steps g v n p p' :
  pack_vertex ctx (buf t) idx v n p = Ok p' → resting t g (pk_mem p) → counted p →
  (0 < n → total_edges p + n ≤ edge_buf_size) →
  ∃ g', resting t g' (pk_mem p') ∧ counted p'
    ∧ steps (Some g) (pack_vertex_c (buf t) v n (strip p)) (Ret (strip p')) (Some g').
Proof using Heo Ht.
  unfold pack_vertex, pack_vertex_c, counted. intros E Hrest Hc Hn. case_bool_decide as Hpos.
  2:{ injection E as <-. by exists g. }
  specialize (Hn Hpos). pose proof (eo_ebs _ _ _ _ _ Heo). cbv zeta in *. cbn [strip total_edges pk_win] in *.
  set (a := buf t + total_edges p) in *.
  apply bind_ok_inv in E as (mem1 & E1 & E). apply bind_ok_inv in E as (mem2 & E2 & E).
  apply bind_ok_inv in E as ([w wrs] & E3 & [= <-]). pose proof Hrest as (Hv & _).
  pose proof (slice_bounds t (total_edges p) Ht ltac:(lia)) as Hb1.
  pose proof (slice_bounds t (total_edges p + (n - 1)) Ht ltac:(lia)) as Hb2.
  unfold a in E1, E2. rewrite u32_id' in E2 by lia. rewrite aset_ok in E1 by lia. injection E1 as <-.
  rewrite aset_ok in E2 by (rewrite zlen_insert; lia). injection E2 as <-.
  exists (quiet (<[Z.to_nat (buf t + (total_edges p + (n - 1))):=NULL_VERT]>
    (<[Z.to_nat (buf t + total_edges p):=NULL_VERT]> (pk_mem p))) (g_posts g)).
  cbn [pk_mem total_edges]. rewrite (u32_id' (total_edges p + n)) by lia. split; [|split; [lia|]].
  - rewrite Z.add_assoc. apply quiet_resting. by rewrite !zlen_insert.
  - unfold a. eapply steps_then; [apply (performs_store t Ht g (pk_mem p)); [exact Hrest|lia]|].
    rewrite (u32_id' (n - 1)), <- Z.add_assoc by lia.
    eapply steps_then; [eapply (performs_store t Ht); [apply quiet_resting; by rewrite zlen_insert|lia]|].
    eapply steps_then; [by apply performs_result|]. done.
Qed.
Context (push : nat → Z → prog U unit) (function : edge_function U).
Abbreviation called := (calls (U := U) nic_inv push t).

(** The client's function reads its edges and does what [push] does. *)
Definition follows : Prop :=
  ∀ (L : Type) (Inv : nic_state → list L → Prop) i g v edge, 0 ≤ v < n →
    (∀ k, 0 ≤ k < zlen (adj v) → performs (U := U) Inv i g (edge k) (Ret (at_ (adj v) k)) g) →
    performs Inv i g (function i v (zlen (adj v)) edge) (push i v) g.

Context (Hfol : follows) (hi : Z) (Hhi : hi ≤ n).

(** Where a packing loop is, and its counterpart. *)
Definition at_pack (v : Z) (p : packing) (st : Z * packing) (g : option ghost) : Prop :=
  st = (v, strip p) ∧ counted p ∧ 0 ≤ v < 2 ^ 32 ∧ ∃ g', g = Some g' ∧ resting t g' (pk_mem p).

Lemma at_pack_degree v p st g :
  at_pack v p st g → v < hi →
  get_num_edges v idx n m = Ok (deg v) ∧ (0 < deg v → u32 (total_edges p + deg v) = total_edges p + deg v).
Proof using Heo Hhi Ht.
  intros (_ & Hc & Hv & _) Hlt. pose proof (eo_ebs _ _ _ _ _ Heo). unfold counted in Hc.
  pose proof (eo_deg _ _ _ _ _ Heo v ltac:(lia)). split.
  - apply get_num_edges_deg; [apply (eo_csr _ _ _ _ _ Heo)|lia].
  - intros. by rewrite u32_id' by lia.
Qed.

(** One more vertex is packed. *)
Lemma at_pack_next v p p' st g :
  at_pack v p st g → v < hi → u32 (total_edges p + deg v) ≤ edge_buf_size →
  pack_vertex ctx (buf t) idx v (deg v) p = Ok p' →
  ∃ g', at_pack (u32 (v + 1)) p' (u32 (v + 1), strip p') g'
    ∧ steps g (pack_vertex_c (buf t) v (deg v) (strip p)) (Ret (strip p')) g'.
Proof using Heo Ht Hhi.
  intros Hat Hlt Hfit E. pose proof (at_pack_degree v p st g Hat Hlt) as [_ Hu].
  destruct Hat as (_ & Hc & Hv & g0 & -> & Hrest).
  destruct (pack_vertex_steps g0 v (deg v) p p' E Hrest Hc) as (g' & Hrest' & Hc' & Hs).
  - intros Hd. by rewrite <- Hu.
  - exists (Some g'). split; [|done]. split; [done|]. split; [done|]. split; [apply (u32_range (v + 1))|eauto].
Qed.

Lemma at_pack_skip v p st g : at_pack v p st g → at_pack (u32 (v + 1)) p (u32 (v + 1), strip p) g.
Proof using Type. intros (_ & Hc & _ & Hg). split; [done|]. split; [done|]. split; [apply (u32_range (v + 1))|done]. Qed.

Lemma cached_step frontier (Hcc : caches_coherent ctx idx (rr_words remote)) (s : Z * packing * timing * list Z) st g r :
  at_pack s.1.1.1 s.1.1.2 st g →
  cache_pack_step record ctx t (buf t) edge_buf_size idx hi frontier s = Ok r →
  match r with
  | inl s1 => ∃ vs g1 st1, s1.2 = s.2 ++ vs ∧ at_pack s1.1.1.1 s1.1.1.2 st1 g1
      ∧ called g (cache_pack_step_c function t (buf t) hi frontier st) vs g1 (inl st1)
  | inr s1 => ∃ vs g1 st1, s1.2 = s.2 ++ vs ∧ at_pack s1.1.1.1 s1.1.1.2 st1 g1
      ∧ called g (cache_pack_step_c function t (buf t) hi frontier st) vs g1 (inr st1)
  end.
Proof using Heo Ht Hhi Hfol qp_ret.
  destruct s as [[[v p] tm] u]. cbn [fst snd]. intros Hat E. pose proof Hat as (-> & _ & Hv & _).
  unfold cache_pack_step, cache_pack_step_c in *. change (window_open edge_buf_size hi v (strip p))
    with (window_open edge_buf_size hi v p).
  destruct (window_open _ _ _ _) eqn:Ew.
  2:{ injection E as <-. exists [], g, (v, strip p). rewrite app_nil_r. split; [done|]. split; [done|apply calls_ret]. }
  pose proof (window_open_lt _ _ _ _ Ew) as (_ & _ & Hlt).
  apply bind_ok_inv in E as (bit & Eb & E). case_bool_decide as Hbit.
  2:{ injection E as <-. exists [], g, (u32 (v + 1), strip p). rewrite app_nil_r. split; [done|].
      split; [by eapply at_pack_skip|]. eapply calls_result; [exact Eb|].
      rewrite bool_decide_eq_false_2 by tauto. apply calls_ret. }
  destruct (cache_lookup ctx v) as [ce hit] eqn:El. destruct hit.
  - apply bind_ok_inv in E as (u1 & Ec & [= <-]). cbn [fst snd].
    assert (Hmgr : ∃ mgr, cacheManager ctx = Some mgr ∧ is_vertex_exist mgr v = true).
    { unfold cache_lookup in El. destruct (cacheMap ctx); destruct (cacheManager ctx); simplify_eq; eauto. }
    destruct Hmgr as (mgr & Em & Hex). destruct (Hcc mgr Em v Hex) as [Hnb Hod].
    unfold cache_hit_call, cache_hit_call_c in *. rewrite Em, Hnb, Hod in *. injection Ec as <-.
    exists [v], g, (u32 (v + 1), strip p). split; [done|]. split; [by eapply at_pack_skip|].
    eapply calls_result; [exact Eb|]. rewrite bool_decide_eq_true_2 by done. eapply calls_before; [apply calls_push, Hfol; [lia|]|].
    + intros k Hk. apply performs_result. by apply aget_at.
    + eapply calls_after; [apply performs_tick|]. apply calls_ret.
  - pose proof (at_pack_degree _ _ _ _ Hat Hlt) as [Hge Hu]. rewrite Hge, bind_ok in E.
    change (total_edges (strip p)) with (total_edges p). case_bool_decide as Hfit.
    + apply bind_ok_inv in E as (p' & Ep & [= <-]). cbn [fst snd].
      destruct (at_pack_next v p p' _ g Hat Hlt Hfit Ep) as (g' & Hat' & Hs).
      exists [], g', (u32 (v + 1), strip p'). rewrite app_nil_r. split; [done|]. split; [done|].
      eapply calls_result; [exact Eb|]. rewrite (bool_decide_eq_true_2 (bit ≠ 0)) by done.
      eapply calls_after; [apply performs_tick|]. eapply calls_result; [exact Hge|].
      rewrite bool_decide_eq_true_2 by done. eapply calls_after; [exact Hs|]. apply calls_ret.
    + injection E as <-. exists [], g, (v, strip p). rewrite app_nil_r. split; [done|]. split; [done|].
      eapply calls_result; [exact Eb|]. rewrite (bool_decide_eq_true_2 (bit ≠ 0)) by done.
      eapply calls_after; [apply performs_tick|]. eapply calls_result; [exact Hge|].
      rewrite bool_decide_eq_false_2 by done. apply calls_ret.
Qed.
(** The routine with a vertex cache, from a buffer at rest: it does what the sequential
    one does with the function [record]. *)
Lemma cached_packs frontier next w g view tm v p tm' vs :
  caches_coherent ctx idx (rr_words remote) → 0 ≤ next < 2 ^ 32 → resting t g view →
  cache_pack_window record ctx t (buf t) edge_buf_size idx next hi frontier w view tm []
    = Ok (v, p, tm', vs) →
  ∃ g', resting t g' (pk_mem p)
    ∧ called (Some g) (cache_pack_window_c function t (buf t) hi frontier next w) vs (Some g') (v, strip p).
Proof using Heo Ht Hhi Hfol qp_ret.
  intros Hcc Hnext Hrest E. unfold cache_pack_window in E.
  apply bind_ok_inv in E as ([[[v1 p1] tm1] u1] & E & [= -> -> <- ->]).
  destruct (calls_loop nic_inv push t (cache_pack_step record ctx t (buf t) edge_buf_size idx hi frontier)
    (cache_pack_step_c function t (buf t) hi frontier) (λ s st g, at_pack s.1.1.1 s.1.1.2 st g) (λ s st g, at_pack s.1.1.1 s.1.1.2 st g)
    snd snd (cached_step frontier Hcc) (range_fuel next hi)
    (next, Packing w view 0 0 0, tm, []) (next, Packing w [] 0 0 0) (Some g) (v, p, tm1, vs))
    as (vs1 & g1 & st1 & Evs & (-> & _ & _ & g' & -> & Hrest') & Hc).
  - split; [done|]. pose proof (eo_ebs _ _ _ _ _ Heo). split; [unfold counted; cbn; lia|]. cbn. eauto.
  - exact E.
  - cbn in Evs. subst vs. exists g'. split; [done|]. eapply calls_before; [exact Hc|]. eapply calls_after; [apply performs_tick|]. apply calls_ret.
Qed.

Lemma range_step (s : Z * packing * Z) (st : Z * packing * Z) g r :
  st.2 = s.2 → at_pack s.1.1 s.1.2 st.1 g →
  pack_step2 ctx (buf t) edge_buf_size idx hi s = Ok r →
  match r with
  | inl s1 => ∃ g1 st1, st1.2 = s1.2 ∧ at_pack s1.1.1 s1.1.2 st1.1 g1
      ∧ called g (pack_step2_c (buf t) hi st) [] g1 (inl st1)
  | inr s1 => ∃ g1 st1, st1.2 = s1.2 ∧ at_pack s1.1.1 s1.1.2 st1.1 g1
      ∧ called g (pack_step2_c (buf t) hi st) [] g1 (inr st1)
  end.
Proof using Heo Ht Hhi qp_ret.
  destruct s as [[v p] nw], st as [st nw']. cbn [fst snd]. intros -> Hat E. pose proof Hat as (-> & _ & Hv & _).
  unfold pack_step2, pack_step2_c in *. change (window_open edge_buf_size hi v (strip p))
    with (window_open edge_buf_size hi v p). destruct (window_open _ _ _ _) eqn:Ew.
  2:{ injection E as <-. exists g, (v, strip p, nw). split; [done|]. split; [done|apply calls_ret]. }
  pose proof (window_open_lt _ _ _ _ Ew) as (_ & _ & Hlt).
  pose proof (at_pack_degree _ _ _ _ Hat Hlt) as [Hge Hu]. rewrite Hge, bind_ok in E.
  change (total_edges (strip p)) with (total_edges p). case_bool_decide as Hfit.
  - apply bind_ok_inv in E as (p' & Ep & [= <-]). cbn [fst snd].
    destruct (at_pack_next v p p' _ g Hat Hlt Hfit Ep) as (g' & Hat' & Hs).
    eexists g', (u32 (v + 1), strip p', _). split; [done|]. split; [done|].
    eapply calls_result; [exact Hge|]. rewrite bool_decide_eq_true_2 by done.
    eapply calls_after; [exact Hs|]. apply calls_ret.
  - injection E as <-. exists g, (v, strip p, nw). split; [done|]. split; [done|].
    eapply calls_result; [exact Hge|]. rewrite bool_decide_eq_false_2 by done. apply calls_ret.
Qed.

Lemma range_packs next w g view tm v p n_wr tm' :
  0 ≤ next < 2 ^ 32 → resting t g view →
  pack_window2 ctx t (buf t) edge_buf_size idx next hi w view 0 0 tm = Ok (v, p, n_wr, tm') →
  ∃ g', resting t g' (pk_mem p)
    ∧ called (Some g) (pack_window2_c t (buf t) hi next w) [] (Some g') (v, strip p).
Proof using Heo Ht Hhi qp_ret.
  intros Hnext Hrest E. unfold pack_window2 in E.
  apply bind_ok_inv in E as ([[v1 p1] nw] & E & [= -> -> -> <-]).
  destruct (calls_loop nic_inv push t (pack_step2 ctx (buf t) edge_buf_size idx hi) (pack_step2_c (buf t) hi)
    (λ s st g, st.2 = s.2 ∧ at_pack s.1.1 s.1.2 st.1 g) (λ s st g, st.2 = s.2 ∧ at_pack s.1.1 s.1.2 st.1 g)
    (λ s, []) (λ s, [])) with (3 := E) (s' := (next, Packing w [] 0 0 0, 0)) (g := Some g)
    as (vs1 & g1 & [st1 nw1] & Evs & (Enw & Est & _ & _ & g' & -> & Hrest') & Hc).
  - intros s st g0 r (E1 & E2) Es. pose proof (range_step s st g0 r E1 E2 Es) as Hr.
    destruct r as [s1|s1]; destruct Hr as (g2 & st2 & ? & ? & ?); exists [], g2, st2; done.
  - split; [done|]. split; [done|]. pose proof (eo_ebs _ _ _ _ _ Heo). split; [unfold counted; cbn; lia|]. cbn. eauto.
  - cbn in Evs, Enw, Est. subst vs1 st1. exists g'. split; [done|]. eapply calls_before; [exact Hc|]. eapply calls_after; [apply performs_tick|]. apply calls_ret.
Qed.
End packing.
(** ** Draining a window *)
Lemma bind_each {A} (l : list A) : (l ≫= λ x, [x]) = l.
Proof using Type. induction l as [|x l IH]; [done|]. by rewrite bind_cons, IH. Qed.

Lemma covers_reorder act d rs l l' : l ≡ₚ l' → covers act d rs l → covers act d rs l'.
Proof using Type.
  intros Hp (Hn & Hs & Hc). split; [by rewrite <- Hp|]. by setoid_rewrite <- Hp.
Qed.

Section draining.
Context {U : Type} (push : nat → Z → prog U unit) (function : edge_function U).
Context (Hfol : follows push function) (t : nat) (Ht : (t < n_workers)%nat).
Abbreviation called := (calls nic_inv push t).

Section window.
Context (mem0 : list Z) (Hmem0 : zlen mem0 = mem_words).
Context (gs : list (Z * Z)) (p : packing) (Hp : packed ctx (buf t) idx mem0 gs p).
Context (Htot : total_edges p ≤ edge_buf_size) (k : nat).
Abbreviation data := (members gs ≫= adj).
Abbreviation landed_upto j := (Some (Ghost (pk_mem p) data j k)).

Lemma Hpk : pack_ok ctx (buf t) idx edge_buf_size mem0.
Proof using Heo Ht Hmem0. by apply (engine_pack_ok _ _ _ _ _ Heo). Qed.

Lemma drain_vertex_steps pre v suf :
  members gs = pre ++ v :: suf →
  called (landed_upto (zsum deg pre)) (drain_vertex_c function t v (buf t + zsum deg pre)) [v]
    (landed_upto (zsum deg (pre ++ [v]))) (buf t + zsum deg (pre ++ [v])).
Proof using Hsv Heo Hfol Ht Hp Htot Hmem0 qp_ret.
  intros Hm. pose proof (eo_csr _ _ _ _ _ Heo) as Hcsr. pose proof (eo_ebs _ _ _ _ _ Heo).
  destruct (vertex_place remote ctx idx edge_buf_size Hsv (buf t) mem0 Hpk gs p Hp pre v suf Hm)
    as (Hv & Hd & Ho & Hfit & Hn1 & Hn2 & Hsl & Hne).
  pose proof (data_length remote ctx idx edge_buf_size Hsv (buf t) mem0 Hpk gs p Hp) as Hdl.
  assert (Hz : zlen (adj v) = deg v) by (apply (zlen_adj _ n); [done|apply (sv_len _ _ Hsv)|done]).
  rewrite zsum_app. replace (zsum deg [v]) with (deg v) by (unfold zsum; simpl; lia).
  unfold drain_vertex_c. eapply calls_result; [by apply get_num_edges_deg|].
  eapply calls_after; [apply (performs_spin t Ht); [lia|done|apply Hne; lia|lia|lia]|].
  rewrite u32_id', <- (Z.add_assoc _ _ (deg v - 1)) by lia.
  eapply calls_after; [apply (performs_spin t Ht); [lia|done|apply Hne; lia|lia|lia]|].
  replace (Z.max _ _) with (zsum deg pre + deg v) by lia.
  eapply calls_after; [apply performs_tick|]. eapply calls_before.
  { apply calls_push. pose proof (Hfol _ nic_inv t (landed_upto (zsum deg pre + deg v)) v) as Hf.
    rewrite Hz in Hf. apply Hf; [done|]. intros i Hi.
    assert (at_ (adj v) i = at_ data (zsum deg pre + i)) as ->.
    { rewrite <- Hsl. apply at_slice; lia. }
    rewrite <- (Z.add_assoc _ _ i). apply (performs_load t Ht (Ghost _ _ _ _)). cbn. lia. }
  eapply calls_after; [apply performs_tick|]. rewrite Z.add_assoc. apply calls_ret.
Qed.

Lemma drain_groups gs1 gs0 vb0 r :
  gs = gs1 ++ gs0 → vertex_batch (pk_win p) = vb0 ++ ((λ g, VRange g.1 g.2) <$> gs0) ++ r →
  called (landed_upto (zsum deg (members gs1)))
    (fold_c (rng (zlen vb0) (zlen vb0 + zlen gs0)) (λ i pos,
       r ← of_result (aget (vertex_batch (pk_win p)) i);
       fold_c (rng (v_s r) (v_e r + 1)) (drain_vertex_c function t) pos)
       (buf t + zsum deg (members gs1)))
    (members gs0) (landed_upto (zsum deg (members gs))) (buf t + zsum deg (members gs)).
Proof using Hsv Heo Hfol Ht Hp Htot Hmem0 qp_ret.
  revert gs1 vb0. induction gs0 as [|g gs0 IH]; intros gs1 vb0 Hgs Hvb.
  { rewrite app_nil_r in Hgs. subst gs1. rewrite rng_nil by (unfold zlen; simpl; lia). apply calls_ret. }
  replace (zlen (g :: gs0)) with (1 + zlen gs0) by (unfold zlen; simpl; lia).
  pose proof (zlen_nonneg gs0). rewrite rng_cons by lia. cbn [fold_c].
  change (members (g :: gs0)) with (rng g.1 (g.2 + 1) ++ members gs0). eapply calls_bind.
  - eapply calls_result; [rewrite Hvb; cbn; by apply aget_middle|]. cbn [v_s v_e].
    pose proof (calls_fold nic_inv push t (rng g.1 (g.2 + 1)) (drain_vertex_c function t)
      (λ pre, landed_upto (zsum deg (members gs1 ++ pre))) (λ pre, buf t + zsum deg (members gs1 ++ pre))
      (λ v, [v])) as Hf. cbv beta in Hf. rewrite bind_each, app_nil_r in Hf. apply Hf.
    intros pre v suf Hr. rewrite app_assoc. apply (drain_vertex_steps _ v (suf ++ members gs0)).
    rewrite Hgs. unfold members. rewrite bind_app, bind_cons, Hr. by rewrite <- !app_assoc.
  - rewrite <- members_snoc. specialize (IH (gs1 ++ [g]) (vb0 ++ [VRange g.1 g.2])).
    rewrite zlen_app in IH. unfold zlen at 2 4 in IH. cbn [length Z.of_nat Z.of_nat] in IH.
    replace (zlen vb0 + (1 + zlen gs0)) with (zlen vb0 + 1 + zlen gs0) by lia. apply IH.
    + by rewrite Hgs, <- app_assoc.
    + rewrite Hvb. cbn. by rewrite <- app_assoc.
Qed.

(** When all words have landed, the buffer is at rest. *)
Lemma landed_resting : ∃ view, resting t (Ghost (pk_mem p) data (zlen data) k) view.
Proof using Hsv Heo Ht Hp Htot Hmem0.
  pose proof (data_length remote ctx idx edge_buf_size Hsv (buf t) mem0 Hpk gs p Hp) as Hdl.
  pose proof (eo_ebs _ _ _ _ _ Heo). pose proof (pkd_mem_len _ _ _ _ _ _ Hp) as Hml.
  pose proof (slice_bounds t 0 Ht ltac:(lia)). pose proof (slice_bounds t (edge_buf_size - 1) Ht ltac:(lia)).
  assert (Hfit : buf t + zlen data ≤ zlen (pk_mem p)) by lia. assert (Hb : 0 ≤ buf t) by lia.
  destruct (land_ok (buf t) (pk_mem p) data Hb Hfit (length data) 0 _
    (landed_init (buf t) (pk_mem p) data 0)) as (f & _ & _ & Hl).
  replace (Z.min _ _) with (zlen data) in Hl by (unfold zlen; lia).
  exists (f_mem f). split; [by rewrite (ld_len _ _ _ _ _ Hl), Hml|]. split; [done|].
  intros i Hi. rewrite (ld_mem _ _ _ _ _ Hl) by lia. cbn. repeat case_decide; try lia; try done. f_equal; lia.
Qed.
End window.

(** A window is posted and drained. *)
Lemma window_steps view gs p g post {B} (b : B) :
  packed ctx (buf t) idx view gs p → total_edges p ≤ edge_buf_size → zlen view = mem_words →
  resting t g (pk_mem p) → gs ≠ [] → posts t (U := U) post →
  ∃ g' view', resting t g' view'
    ∧ called (Some g) (_ ← of_result (aget (cm_ids ctx) (Z.of_nat t));
        _ ← post (pk_win p);
        _ ← drain_c function t (pk_win p) (pk_wrs p) (buf t);
        mret b) (members gs) (Some g') b.
Proof using Hsv Heo Hfol Ht qp_ret.
  intros Hp Htot Hview Hrest Hgs Hpost. pose proof (eo_ebs _ _ _ _ _ Heo) as Hebs.
  pose proof (Hpk view Hview) as Hok. pose proof (po_csr _ _ _ _ _ Hok) as Hcsr.
  pose proof (pkd_groups _ _ _ _ _ _ Hp) as Hgr.
  pose proof (data_length remote ctx idx edge_buf_size Hsv (buf t) view Hok gs p Hp) as Hdl.
  pose proof (slice_bounds t 0 Ht ltac:(lia)) as Hb.
  pose proof (posted_words_ok remote ctx idx Hsv Hcsr (buf t) gs (pk_win p) (pkd_win _ _ _ _ _ _ Hp)
    Hgs ltac:(lia) Hgr) as Hw. rewrite <- (members_adj remote ctx idx Hsv Hcsr gs Hgr) in Hw.
  assert (Hfit : zlen (members gs ≫= adj) ≤ edge_buf_size) by lia.
  destruct (Hpost g (pk_mem p) _ (pk_win p) Hrest Hfit Hw) as [k Hk].
  destruct (landed_resting view Hview gs p Hp Htot k) as [view' Hrest'].
  eexists _, view'. split; [exact Hrest'|].
  eapply calls_result; [apply aget_at; pose proof (eo_ids _ _ _ _ _ Heo); lia|].
  eapply calls_after; [exact Hk|]. eapply calls_before; [|apply calls_ret].
  unfold drain_c. rewrite (pkd_wrs _ _ _ _ _ _ Hp).
  destruct (wf_vb _ _ _ _ _ (pkd_win _ _ _ _ _ _ Hp)) as [r Hvb].
  pose proof (drain_groups view Hview gs p Hp Htot k [] gs [] r eq_refl Hvb) as Hd.
  change (zlen []) with 0 in Hd. change (zsum deg (members [])) with 0 in Hd.
  rewrite Z.add_0_l, Z.add_0_r in Hd. rewrite <- (pkd_total _ _ _ _ _ _ Hp), <- Hdl in Hd. exact Hd.
Qed.

(** ** The loop of a worker *)
Section worker.
Context (act : Z → bool) (pack : Z → window → prog (nic_state * U) (Z * packing)).
Context (nonempty : packing → bool) (post : window → prog (nic_state * U) unit).
Context (sel : Z → bool) (ext : Z → Z → list Z) (hi : Z) (Hhi : hi ≤ n) (vlo vhi : Z) (Hvhi : hi ≤ vhi).

(** What the loop needs of its packing routine. *)
Definition packs_c : Prop :=
  ∀ next w g view, 0 ≤ next < hi → vlo ≤ next → window_shaped w → resting t g view →
    ∃ v p gs g', pack_result ctx (buf t) idx edge_buf_size view sel next hi v gs p
      ∧ resting t g' (pk_mem p)
      ∧ called (Some g) (pack next w) (reverse (ext next v)) (Some g') (v, strip p).

Context (Hpack : packs_c) (Htest : test_works ctx idx edge_buf_size nonempty t).
Context (Hstrip : ∀ p, nonempty (strip p) = nonempty p) (Hpost : posts t (U := U) post).
Context (Hsel : selection_covers ctx idx act sel ext vlo vhi).

Lemma worker_step_steps next w g view :
  0 ≤ next < hi → vlo ≤ next → window_shaped w → resting t g view →
  ∃ v w' g' view' l, next < v ≤ hi ∧ window_shaped w' ∧ resting t g' view'
    ∧ covers act deg (rng next v) l
    ∧ called (Some g) (worker_step_c function pack nonempty post t (buf t) hi (next, w)) l
        (Some g') (inl (v, w')).
Proof using Hsv Heo Hfol Ht qp_ret Hhi Hvhi Hpack Htest Hstrip Hpost Hsel.
  intros Hn Hvlo Hw Hrest.
  destruct (Hpack next w g view Hn Hvlo Hw Hrest) as (v & p & gs & g1 & Hr & Hrest1 & Hc).
  pose proof Hr as [Hv Hp Hmem Htot _ _]. destruct Hrest as (Hview & _).
  assert (Hprog : next < v) by (eapply pack_progress; [exact (Hpk view Hview)|exact Hr|lia|lia]).
  assert (Hcov : covers act deg (rng next v) (reverse (ext next v) ++ members gs)).
  { eapply covers_reorder; [|apply Hsel; lia]. rewrite <- Hmem, !reverse_Permutation. apply Permutation_app_comm. }
  pose proof (window_for_shaped _ _ _ _ _ (pkd_win _ _ _ _ _ _ Hp)) as Hw'.
  unfold worker_step_c. rewrite bool_decide_eq_true_2 by lia. destruct (nonempty p) eqn:Ene.
  - assert (Hgs : gs ≠ []) by (by apply (Htest view gs p Hp)).
    destruct (window_steps view gs p g1 post (inl (v, pk_win p) : Z * window + unit) Hp Htot Hview Hrest1
      Hgs Hpost) as (g2 & view2 & Hrest2 & Hc2).
    exists v, (pk_win p), g2, view2, (reverse (ext next v) ++ members gs).
    do 4 (split; [done || lia|]). eapply calls_bind; [exact Hc|]. cbv beta iota. by rewrite Hstrip, Ene.
  - assert (gs = []) as ->.
    { destruct gs as [|g0 gs]; [done|]. enough (nonempty p = true) by congruence.
      by apply (Htest view (g0 :: gs) p Hp). }
    exists v, (pk_win p), g1, (pk_mem p), (reverse (ext next v) ++ []).
    do 4 (split; [done || lia|]). eapply calls_bind; [exact Hc|]. cbv beta iota. rewrite Hstrip, Ene. apply calls_ret.
Qed.

Lemma worker_loop_steps fuel next w g view :
  0 ≤ next ≤ hi → vlo ≤ next → (Z.to_nat (hi - next) < fuel)%nat → window_shaped w → resting t g view →
  ∃ l g' view', resting t g' view' ∧ covers act deg (rng next hi) l
    ∧ called (Some g) (loop_c fuel (worker_step_c function pack nonempty post t (buf t) hi) (next, w))
        l (Some g') ().
Proof using Hsv Heo Hfol Ht qp_ret Hhi Hvhi Hpack Htest Hstrip Hpost Hsel.
  revert next w g view. induction fuel as [|fuel IH]; intros next w g view Hn Hvlo Hf Hw Hrest; [lia|].
  cbn [loop_c]. destruct (decide (next < hi)) as [Hlt|Hge].
  - destruct (worker_step_steps next w g view ltac:(lia) Hvlo Hw Hrest)
      as (v & w' & g1 & view1 & l & Hv & Hw' & Hrest1 & Hcov & Hc).
    destruct (IH v w' g1 view1) as (l2 & g2 & view2 & Hrest2 & Hcov2 & Hc2); [lia|lia|lia|done|done|].
    exists (l ++ l2), g2, view2. split; [done|]. split.
    + rewrite (rng_app next v) by lia. eapply covers_reorder; [apply Permutation_app_comm|].
      apply covers_app; [|done..]. rewrite <- rng_app by lia. apply NoDup_rng.
    + by eapply calls_bind.
  - exists [], g, view. split; [done|]. rewrite rng_nil by lia. split; [apply covers_nil|].
    unfold worker_step_c. rewrite bool_decide_eq_false_2 by lia.
    by eapply calls_before; apply calls_ret.
Qed.
End worker.

(** ** The two engines *)
Abbreviation some_timing := (Timing new_stats 0).

Lemma ccy_packs frontier lo hi b :
  bm_ok frontier → size frontier = n → caches_coherent ctx idx (rr_words remote) → lo ≤ b ≤ hi → hi ≤ n →
  packs_c (λ next w, '(v, p) ← cache_pack_window_c function t (buf t) b frontier next w;
      _ ← on_engine (tick (clocked PackWindowTime t)); mret (v, p))
    (sel_uncached ctx frontier) (λ a b, reverse (cached_list ctx frontier a b)) b lo.
Proof using Hsv Heo Hfol Ht qp_ret.
  intros Hbm Hsz Hcc Hb Hhi next w g view Hn Hvlo Hw Hrest.
  destruct (ccy_pack_works remote record ctx idx edge_buf_size garbage mem_words _ Hsv Heo frontier lo hi t b
    Hbm Hsz Hcc (record_ok _) Ht Hb Hhi next w view some_timing [] [] Hn Hvlo Hw (proj1 Hrest))
    as (v & p & tm' & u' & gs & E & Hr & Hu); [by intros x ?%elem_of_nil|done|].
  apply bind_ok_inv in E as ([[[v1 p1] tm1] u1] & E & [= -> -> _ ->]).
  pose proof (csr_n _ _ _ (eo_csr _ _ _ _ _ Heo)).
  destruct (cached_packs t Ht push function Hfol b ltac:(lia) frontier next w g view some_timing v p tm1 u'
    Hcc ltac:(lia) Hrest E) as (g' & Hrest' & Hc).
  exists v, p, gs, g'. split; [done|]. split; [done|]. rewrite app_nil_r in Hu. subst u'.
  eapply calls_before; [exact Hc|]. cbv beta iota. eapply calls_after; [apply performs_tick|]. apply calls_ret.
Qed.

Lemma range_packs_c b :
  0 ≤ b ≤ n → packs_c (pack_window2_c t (buf t) b) (λ _, true) (λ _ _, []) b 0.
Proof using Hsv Heo Hfol Ht qp_ret.
  intros Hb next w g view Hn _ (Hw1 & Hw2 & Hw3) Hrest. pose proof (csr_n _ _ _ (eo_csr _ _ _ _ _ Heo)).
  destruct (pack_window2_spec ctx (buf t) idx edge_buf_size view (Hpk view (proj1 Hrest)) w next b
    ltac:(lia) ltac:(lia) Hw1 Hw2 Hw3 t some_timing) as (v & p & gs & E & Hr).
  destruct (range_packs t Ht push b ltac:(lia) next w g view some_timing v p _ _ ltac:(lia) Hrest E)
    as (g' & Hrest' & Hc).
  by exists v, p, gs, g'.
Qed.

(** A worker on a subrange: it calls the function once on every active vertex with
    out-edges and leaves its buffer at rest. *)
Definition worker_visits (act : Z → bool) (worker : Z → Z → prog (nic_state * U) unit) (lo hi : Z) : Prop :=
  ∀ a b g view, lo ≤ a < b → b ≤ hi → resting t g view →
    ∃ l g' view', resting t g' view' ∧ covers act deg (rng a b) l
      ∧ called (Some g) (worker a b) l (Some g') ().

Lemma ccy_worker_visits fuel frontier lo hi :
  qp_drains t fuel → bm_ok frontier → size frontier = n → caches_coherent ctx idx (rr_words remote) →
  0 ≤ lo → hi ≤ n → worker_visits (bm_get frontier) (ccy_worker_c function fuel frontier t) lo hi.
Proof using Hsv Heo Hfol Ht qp_ret.
  intros Hq Hbm Hsz Hcc Hlo Hhi a b g view Ha Hb Hrest. unfold ccy_worker_c, worker_c.
  apply (worker_loop_steps (bm_get frontier) _ _ _ (sel_uncached ctx frontier)
    (λ a b, reverse (cached_list ctx frontier a b)) b ltac:(lia) lo hi ltac:(lia)) with (view := view);
    [| | |by apply post_retry_posts| | | | | |done].
  - by apply (ccy_packs _ _ hi); [..|lia|].
  - apply nonempty_wrs.
  - done.
  - by apply cached_covers.
  - lia.
  - lia.
  - unfold range_fuel. lia.
  - apply (eo_garbage _ _ _ _ _ Heo).
Qed.

Lemma range_worker_visits lo hi :
  (∀ k, qp_ret t k = 0) → 0 ≤ lo → hi ≤ n →
  worker_visits (λ v, bool_decide (0 < deg v)) (range_worker_c function t) lo hi.
Proof using Hsv Heo Hfol Ht qp_ret.
  intros Hq Hlo Hhi a b g view Ha Hb Hrest. unfold range_worker_c, worker_c.
  apply (worker_loop_steps (λ v, bool_decide (0 < deg v)) _ _ _ (λ _, true) (λ _ _, []) b ltac:(lia) 0 hi ltac:(lia))
    with (view := view); [| | |by apply post_once_posts| | | | | |done].
  - apply range_packs_c. lia.
  - apply nonempty_batch.
  - done.
  - apply wanted_covers. intros v _ Hd. by rewrite bool_decide_eq_true_2.
  - lia.
  - lia.
  - unfold range_fuel. lia.
  - apply (eo_garbage _ _ _ _ _ Heo).
Qed.

(** A worker's subranges one after the other. *)
Lemma chunks_visited act worker lo hi cs g view :
  worker_visits act worker lo hi → Forall (λ c, lo ≤ c.1 < c.2 ∧ c.2 ≤ hi) cs →
  NoDup (cs ≫= λ c, rng c.1 c.2) → resting t g view →
  ∃ l g' view', resting t g' view' ∧ covers act deg (cs ≫= λ c, rng c.1 c.2) l
    ∧ called (Some g) (each cs (λ c, worker c.1 c.2)) l (Some g') ().
Proof using Type.
  intros Hw Hcs. revert g view. induction Hcs as [|c cs [Hc1 Hc2] _ IH]; intros g view Hnd Hrest.
  { exists [], g, view. split; [done|]. split; [apply covers_nil|apply calls_ret]. }
  destruct (Hw c.1 c.2 g view Hc1 Hc2 Hrest) as (l1 & g1 & view1 & Hrest1 & Hcov1 & Hcall1).
  rewrite bind_cons in Hnd |- *. pose proof Hnd as (_ & _ & Hnd2)%NoDup_app.
  destruct (IH g1 view1 Hnd2 Hrest1) as (l2 & g2 & view2 & Hrest2 & Hcov2 & Hcall2).
  exists (l1 ++ l2), g2, view2. split; [done|]. split; [|by eapply calls_bind].
  eapply covers_reorder; [apply Permutation_app_comm|]. by apply covers_app.
Qed.
End draining.

(** ** A round *)

(** Between rounds nothing is in flight. *)
Record nic_ready (e : nic_state) : Prop := {
  nr_mem : zlen (window_mem e) = mem_words;
  nr_queues : queues e = replicate n_workers [];
  nr_posts : length (posted e) = n_workers;
}.

Definition worker_rests (t : nat) (g : option ghost) : Prop :=
  (t < n_workers)%nat → ∃ g' view, g = Some g' ∧ resting t g' view.

Lemma rests_ready e :
  settled nic_inv worker_rests e → nic_ready e.
Proof using Type.
  intros (ls & [Hm Hq Hp Hw Ho] & Hrest). split; [done| |done].
  apply list_eq_same_length with n_workers; [by rewrite length_replicate|done|].
  intros t q r Ht Hqt [-> _]%lookup_replicate. destruct (Ho t Ht) as (g & Hg & Hown).
  destruct (Hrest t _ Hg Ht) as (g' & view & [= <-] & Hr).
  destruct (resting_own _ _ _ _ Hr Hown) as (Hqt' & _). by simplify_eq.
Qed.

Definition rest_ghosts (e : nic_state) : list (option ghost) :=
  (Some ∘ quiet (window_mem e) <$> posted e) ++ [None].

Lemma rest_ghosts_lookup e t :
  nic_ready e → (t < n_workers)%nat →
  ∃ k, posted e !! t = Some k ∧ rest_ghosts e !! t = Some (Some (quiet (window_mem e) k)).
Proof using Type.
  intros Hr Ht. destruct (lookup_lt_is_Some_2 (posted e) t) as [k Hk]; [by rewrite (nr_posts _ Hr)|].
  exists k. split; [done|]. unfold rest_ghosts. rewrite lookup_app_l, list_lookup_fmap, Hk; [done|].
  by rewrite length_fmap, (nr_posts _ Hr).
Qed.

Lemma ready_inv e : nic_ready e → nic_inv e (rest_ghosts e).
Proof using Heo.
  intros Hr. pose proof Hr as [Hm Hq Hp]. pose proof (eo_ebs _ _ _ _ _ Heo).
  split; [done|by rewrite Hq, length_replicate|done| |].
  - unfold rest_ghosts. rewrite length_app, length_fmap, Hp. cbn. lia.
  - intros t Ht. destruct (rest_ghosts_lookup e t Hr Ht) as (k & Hk & Hg). eexists; split; [exact Hg|].
    apply quiet_own; [by rewrite Hq, lookup_replicate_2|done|lia|done].
Qed.

(** Delivering words is nobody's call. *)
Lemma card_calls {U} (push : nat → Z → prog U unit) i deliveries :
  calls (U := U) nic_inv push i None (card_c deliveries) [] None ().
Proof using Heo.
  unfold card_c. induction deliveries as [|d ds IH]; [apply calls_ret|]. cbn [each].
  eapply calls_after; [|exact IH]. apply performs_own. intros e ls HI Hi.
  destruct (deliver_inv d.1 d.2 e ls HI) as (e' & -> & HI'). exists e'. by rewrite list_insert_id.
Qed.

Lemma covers_concat act (chunks : list (list (Z * Z))) parts :
  Forall2 (λ cs l, covers act deg (cs ≫= λ c, rng c.1 c.2) l) chunks parts →
  NoDup (concat chunks ≫= λ c, rng c.1 c.2) →
  covers act deg (concat chunks ≫= λ c, rng c.1 c.2) (concat parts).
Proof using Type.
  induction 1 as [|cs l chunks parts Hc _ IH]; [intros; apply covers_nil|]. cbn [concat].
  rewrite bind_app. intros Hnd. pose proof Hnd as (_ & _ & Hnd2)%NoDup_app.
  eapply covers_reorder; [apply Permutation_app_comm|]. apply covers_app; [done|done|by apply IH].
Qed.

(** Whatever way the range is divided and the card behaves, the programs of a round
    hide a round of kernel workers that share the active vertices. *)
Lemma round_hidden {U} (push : nat → Z → prog U unit) act worker lo hi e ps :
  (∀ t, (t < n_workers)%nat → worker_visits push t act (worker t) lo hi) →
  engine_round worker lo hi ps → nic_ready e →
  ∃ parts, covers act deg (rng lo hi) (concat parts)
    ∧ hidden nic_inv worker_rests e ps (imap (λ t vs, each vs (push t)) parts).
Proof using Heo.
  intros Hw (chunks & ds & Hlen & Hcs & Hperm & ->) Hr.
  assert (Hnd : NoDup (concat chunks ≫= λ c, rng c.1 c.2)) by (rewrite Hperm; apply NoDup_rng).
  destruct (list_choice (λ t cs l, covers act deg (cs ≫= λ c, rng c.1 c.2) l
      ∧ ∃ g g' view, rest_ghosts e !! t = Some (Some g) ∧ resting t g' view
          ∧ calls nic_inv push t (Some g) (each cs (λ c, worker t c.1 c.2)) l (Some g') ()) chunks)
    as (parts & Hpl & Hparts).
  { intros t cs Ht. assert (Htn : (t < n_workers)%nat) by (rewrite <- Hlen; by eapply lookup_lt_Some).
    destruct (rest_ghosts_lookup e t Hr Htn) as (k & _ & Hg).
    rewrite <- (take_drop_middle chunks t cs Ht), concat_app, bind_app in Hnd.
    apply NoDup_app in Hnd as (_ & _ & Hnd). cbn [concat] in Hnd. rewrite bind_app in Hnd.
    apply NoDup_app in Hnd as (Hnd & _).
    rewrite <- (take_drop_middle chunks t cs Ht), concat_app in Hcs.
    apply Forall_app in Hcs as [_ Hcs]. apply Forall_app in Hcs as [Hcs _].
    destruct (chunks_visited push t act (worker t) lo hi cs (quiet (window_mem e) k) (window_mem e)
      (Hw t Htn) Hcs Hnd (quiet_resting t _ k (nr_mem _ Hr))) as (l & g' & view & Hrest & Hcov & Hc).
    exists l. split; [done|]. by eexists _, g', view. }
  exists (parts ++ [[]]). rewrite concat_app, app_nil_r. split.
  { eapply covers_perm; [exact Hperm|]. apply covers_concat; [|done].
    apply Forall2_same_length_lookup_2; [done|]. intros t cs l Ht Hl. by apply (Hparts t). }
  exists (rest_ghosts e). pose proof (nr_posts _ Hr) as Hposts.
  assert (Hgl : length (rest_ghosts e) = S n_workers).
  { unfold rest_ghosts. rewrite length_app, length_fmap, Hposts. cbn. lia. }
  split; [by apply ready_inv|]. rewrite !length_app, !length_imap, length_app, Hpl, Hlen.
  split; [cbn; lia|]. split; [done|]. intros t p Hp.
  apply lookup_app_Some in Hp as [Hp|[Hge Hp]].
  - rewrite list_lookup_imap in Hp. apply fmap_Some in Hp as (cs & Ht & ->).
    assert (Htn : (t < n_workers)%nat) by (rewrite <- Hlen; by eapply lookup_lt_Some).
    destruct (lookup_lt_is_Some_2 parts t) as [l Hl]; [by rewrite Hpl, Hlen|].
    destruct (Hparts t cs l Ht Hl) as (_ & g & g' & view & Hg & Hrest & Hc).
    exists (Some g), (each l (push t)). split; [done|].
    rewrite list_lookup_imap, lookup_app_l, Hl by (by eapply lookup_lt_Some). split; [done|].
    rewrite <- (each_then_ret l). apply Hc. split; [done|]. intros _. eauto.
  - rewrite length_imap in Hge, Hp. apply list_lookup_singleton_Some in Hp as [Hi <-].
    assert (t = n_workers) as -> by lia. exists None, (Ret ()). split; [|split].
    + unfold rest_ghosts. apply lookup_app_Some. right. by rewrite length_fmap, Hposts, Nat.sub_diag.
    + by rewrite list_lookup_imap, lookup_app_r, Hpl, Hlen, Nat.sub_diag by lia.
    + apply (card_calls push n_workers ds (Ret ())). split; [done|]. intros ?. lia.
Qed.

(** There is always a way to run a round. *)
Lemma engine_round_exists {U} (worker : nat → Z → Z → prog (nic_state * U) unit) lo hi :
  ∃ ps, engine_round worker lo hi ps.
Proof using Type.
  pose proof some_worker as Hn. destruct (decide (lo < hi)) as [Hlt|Hge].
  - eexists. exists ([(lo, hi)] :: replicate (n_workers - 1) []), [].
    assert (Hc : concat ([(lo, hi)] :: replicate (n_workers - 1) []) = [(lo, hi)]).
    { cbn. clear. by induction (n_workers - 1)%nat. }
    rewrite Hc. split; [cbn; rewrite length_replicate; lia|]. split; [repeat constructor; cbn; lia|].
    split; [cbn; by rewrite app_nil_r|done].
  - eexists. exists (replicate n_workers []), [].
    assert (Hc : concat (replicate n_workers []) = ([] : list (Z * Z))) by (clear; by induction n_workers).
    rewrite Hc. split; [by rewrite length_replicate|]. split; [done|]. split; [by rewrite rng_nil by lia|done].
Qed.

(** C21: [ccy_for_each_active_batch] is the loop over the active vertices, for racing
    workers too.  Let all rounds end in [P] in which workers apply the kernel's function
    to the active vertices with out-edges, divided among them in any way, each given its
    adjacency list as a constant.  Then all rounds of the engine end in [P], whatever
    subranges the workers are given, however their posts, looks at the edge buffers, reads
    of edges and the operations of the function are interleaved, whatever else the card
    delivers between any two of them and however often its queues are full: no worker
    waits for ever, reads a word that is still in flight or one of another worker, and at
    the end nothing is in flight. *)
Theorem ccy_refines {U} (push : nat → Z → prog U unit) function fuel frontier lo hi P e u ps :
  follows push function → (∀ t, (t < n_workers)%nat → qp_drains t fuel) →
  bm_ok frontier → size frontier = n → caches_coherent ctx idx (rr_words remote) →
  0 ≤ lo → hi ≤ n → nic_ready e → engine_round (ccy_worker_c function fuel frontier) lo hi ps →
  (∀ parts, covers (bm_get frontier) deg (rng lo hi) (concat parts) →
     round_ends P (Cfg u (imap (λ t vs, each vs (push t)) parts))) →
  round_ends (λ s, nic_ready s.1 ∧ P s.2) (Cfg (e, u) ps).
Proof using Hsv Heo.
  intros Hfol Hq Hbm Hsz Hcc Hlo Hhi He Hps HP.
  destruct (round_hidden push (bm_get frontier) _ lo hi e ps (λ t Ht, ccy_worker_visits push function Hfol
    t Ht fuel frontier lo hi (Hq t Ht) Hbm Hsz Hcc Hlo Hhi) Hps He) as (parts & Hcov & Hh).
  eapply round_ends_mono; [|exact (hidden_round _ _ P _ (HP parts Hcov) e ps Hh)].
  intros s [Hs HPs]. split; [by apply rests_ready|done].
Qed.

(** The same of [for_each_range], when the card accepts every request at once. *)
Theorem range_refines {U} (push : nat → Z → prog U unit) function lo hi P e u ps :
  follows push function → (∀ t k, (t < n_workers)%nat → qp_ret t k = 0) →
  0 ≤ lo → hi ≤ n → nic_ready e → engine_round (range_worker_c function) lo hi ps →
  (∀ parts, covers (λ v, bool_decide (0 < deg v)) deg (rng lo hi) (concat parts) →
     round_ends P (Cfg u (imap (λ t vs, each vs (push t)) parts))) →
  round_ends (λ s, nic_ready s.1 ∧ P s.2) (Cfg (e, u) ps).
Proof using Hsv Heo.
  intros Hfol Hq Hlo Hhi He Hps HP.
  destruct (round_hidden push _ _ lo hi e ps (λ t Ht, range_worker_visits push function Hfol
    t Ht lo hi (λ k, Hq t k Ht) Hlo Hhi) Hps He) as (parts & Hcov & Hh).
  eapply round_ends_mono; [|exact (hidden_round _ _ P _ (HP parts Hcov) e ps Hh)].
  intros s [Hs HPs]. split; [by apply rests_ready|done].
Qed.
End proofs.
End engine.
