(* ===== verification/EdgeEngine.v ===== *)
(** * EdgeEngine: what the kernels rely on

    The kernels (BFS, k-core, connected components, MIS, PageRank) use the
    engine of [bitmap.hpp] only through [ccy_for_each_active_batch] and
    [for_each_range], and reset the statistics through [clear_all].  This file states their contract as a class: the function
    is applied to every active vertex of the range that has out-edges, once,
    with its adjacency list, in some order and on some worker.  The instance at
    the end discharges the contract with the theorems of Engine. *)

From S2P Require Import Prelude Platform VertexTable Bitmap Stats PackWindow Engine.

(** A graph on the vertices [0 .. n-1], given by adjacency lists. *)
Record graph := Graph { g_n : Z; g_adj : Z → list Z }.

Definition g_deg (g : graph) (v : Z) : Z := zlen (g_adj g v).

Definition graph_wf (g : graph) : Prop :=
  0 ≤ g_n g < 2 ^ 32
  ∧ ∀ v w, 0 ≤ v < g_n g → w ∈ g_adj g v → 0 ≤ w < g_n g.

(** The vertices with out-edges. *)
Definition has_edges (g : graph) (v : Z) : bool := bool_decide (0 < g_deg g v).

(** The client's function, called on an active vertex of the range that was not
    processed before, preserves the invariant [I]. *)
Definition visits_ok {U} (g : graph) (act : Z → bool) (lo hi : Z)
    (function : nat → Z → list Z → Z → U → result U) (I : list Z → U → Prop) : Prop :=
  ∀ t v dn u, 0 ≤ v < g_n g → lo ≤ v < hi → act v = true → v ∉ dn → I dn u →
    ∃ u', function t v (g_adj g v) (g_deg g v) u = Ok u' ∧ I (v :: dn) u'.

(** The operations, and their laws. *)
Class EngineOps `{BuildOptions, Combinable} := {
  eng_graph : graph;
  eng_state : Type;
  ccy_for_each_active {U : Type} :
    (nat → Z → list Z → Z → U → result U) →
    nat → Bitmap → Z → Z → eng_state * U → result (eng_state * U);
  for_each_in_range {U : Type} :
    (nat → Z → list Z → Z → U → result U) →
    nat → Z → Z → eng_state * U → result (eng_state * U);
  clear_all_stats : eng_state → eng_state;
}.

Class EdgeEngine `{EO : EngineOps} := {
  eng_ok : eng_state → Prop;
  eng_graph_wf : graph_wf eng_graph;
  clear_all_stats_ok s : eng_ok s → eng_ok (clear_all_stats s);
  ccy_for_each_active_spec {U} function (I : list Z → U → Prop) k frontier lo hi s u :
    bm_ok frontier → size frontier = g_n eng_graph →
    visits_ok eng_graph (bm_get frontier) lo hi function I →
    0 ≤ lo → hi ≤ g_n eng_graph → eng_ok s → I [] u →
    ∃ s' u' l, ccy_for_each_active function k frontier lo hi (s, u) = Ok (s', u')
      ∧ eng_ok s' ∧ covers (bm_get frontier) (g_deg eng_graph) (rng lo hi) l ∧ I l u';
  for_each_in_range_spec {U} function (I : list Z → U → Prop) k lo hi s u :
    visits_ok eng_graph (has_edges eng_graph) lo hi function I →
    0 ≤ lo → hi ≤ g_n eng_graph → eng_ok s → I [] u →
    ∃ s' u' l, for_each_in_range function k lo hi (s, u) = Ok (s', u')
      ∧ eng_ok s' ∧ covers (has_edges eng_graph) (g_deg eng_graph) (rng lo hi) l ∧ I l u';
}.

(** The loop [for (i = 0; i < n; ++i) { w = edges[i]; ... }] of the push
    functions, with an invariant over the edges already followed. *)
Lemma edge_loop {St} (g : graph) (P : list Z → St → Prop) body v st :
  graph_wf g → 0 ≤ v < g_n g → P [] st →
  (∀ pre w suf st, g_adj g v = pre ++ w :: suf → 0 ≤ w < g_n g → P pre st →
     ∃ st', body w st = Ok st' ∧ P (pre ++ [w]) st') →
  ∃ st', for_u32 0 (g_deg g v) (λ i st, w ← aget (g_adj g v) i; body w st) st = Ok st'
    ∧ P (g_adj g v) st'.
Proof.
  intros [_ Hwf] Hv H0 Hstep.
  destruct (for_u32_inv (λ i st, P (take (Z.to_nat i) (g_adj g v)) st)
    0 (g_deg g v) (λ i st, w ← aget (g_adj g v) i; body w st) st) as (st' & E & HP).
  - apply zlen_nonneg.
  - done.
  - intros i st1 Hi HP. unfold g_deg in Hi. rewrite aget_at, bind_ok by done.
    assert (Hlk : g_adj g v !! Z.to_nat i = Some (at_ (g_adj g v) i)).
    { unfold at_. apply list_lookup_lookup_total_lt. unfold zlen in Hi. lia. }
    pose proof (list_elem_of_lookup_2 _ _ _ Hlk) as Hin.
    destruct (Hstep (take (Z.to_nat i) (g_adj g v)) (at_ (g_adj g v) i) (drop (S (Z.to_nat i)) (g_adj g v)) st1)
      as (st2 & E & HP2); [by rewrite take_drop_middle|by eapply Hwf|done|].
    exists st2. split; [done|]. rewrite Z2Nat.inj_add, Nat.add_1_r by lia.
    by rewrite (take_S_r _ _ _ Hlk).
  - exists st'. split; [done|]. rewrite take_ge in HP by (unfold g_deg, zlen; lia). done.
Qed.

(** Sums over the processed vertices are sums over the active ones, when a
    vertex without edges contributes nothing. *)
Lemma covers_zsum act deg rs l (f : Z → Z) :
  covers act deg rs l → NoDup rs → (∀ x, x ∈ rs → deg x ≤ 0 → f x = 0) →
  zsum f l = zsum f (filter (λ x, act x = true) rs).
Proof.
  intros (Hnd & Hin & Hall) Hrs Hf.
  set (rest := filter (λ x, act x = true ∧ x ∉ l) rs).
  assert (Hp : filter (λ x, act x = true) rs ≡ₚ l ++ rest).
  { apply NoDup_Permutation; [by apply NoDup_filter| |].
    - apply NoDup_app. split; [done|]. split; [|by apply NoDup_filter].
      intros x Hx. unfold rest. rewrite list_elem_of_filter. naive_solver.
    - intros x. unfold rest. rewrite elem_of_app, !list_elem_of_filter.
      destruct (decide (x ∈ l)) as [Hl|Hl]; [|naive_solver]. destruct (Hin x Hl). naive_solver. }
  rewrite Hp, zsum_app. enough (zsum f rest = 0) by lia.
  rewrite (zsum_ext f (λ _, 0)).
  - clear. unfold zsum. induction rest; simpl; lia.
  - intros x. unfold rest. rewrite list_elem_of_filter. intros ((Ha & Hl) & Hx).
    apply Hf; [done|]. destruct (decide (deg x ≤ 0)); [done|]. destruct Hl. apply Hall; [done..|lia].
Qed.

(** ** The implementation *)
Section rdma.
  Context {BU : BuildOptions} {CB : Combinable} {ETS : EnumerableThreadSpecific} {CK : Clock}.
  Context {SC : Scheduler} {NI : Nic}.
  Context (remote : remote_region) (ctx : client_context) (idx : list vertex).
  Context (edge_buf_size : Z) (garbage : window) (mem_words : Z) (post_fuel : nat).

(** The environment of a run: the graph is served, the context is as its
    constructor leaves it, the card accepts requests, the cache holds the graph. *)
Record run_ok : Prop := {
  ro_served : served remote ctx;
  ro_engine : engine_ok ctx idx edge_buf_size garbage mem_words;
  ro_post : ∀ k, post_ret k = 0;
  ro_fuel : (0 < post_fuel)%nat;
  ro_cache : caches_coherent ctx idx (rr_words remote);
  ro_edges : Forall (λ w, 0 ≤ w < num_vertices (app ctx)) (rr_words remote);
  ro_n : 0 ≤ num_vertices (app ctx);
}.

Context (Hro : run_ok).

Definition rdma_graph : graph :=
  Graph (num_vertices (app ctx)) (adj_of idx (num_edges (app ctx)) (rr_words remote)).

Lemma rdma_graph_wf : graph_wf rdma_graph.
Proof.
  pose proof (csr_n _ _ _ (eo_csr _ _ _ _ _ (ro_engine Hro))).
  split; simpl; [pose proof (ro_n Hro); lia|]. intros v w _ Hw.
  unfold adj_of in Hw. revert w Hw. apply Forall_forall, Forall_slice, (ro_edges Hro).
Qed.

Lemma rdma_deg v :
  0 ≤ v < num_vertices (app ctx) → deg idx (num_edges (app ctx)) v = g_deg rdma_graph v.
Proof.
  intros Hv. symmetry. apply (zlen_adj _ (num_vertices (app ctx)));
    [apply (eo_csr _ _ _ _ _ (ro_engine Hro))|apply (sv_len _ _ (ro_served Hro))|done].
Qed.

Lemma rdma_client_ok {U} act act' lo hi (function : nat → Z → list Z → Z → U → result U) I :
  (∀ v, 0 ≤ v < num_vertices (app ctx) → act' v = true → lo ≤ v < hi ∧ act v = true) →
  visits_ok rdma_graph act lo hi function I → client_ok remote function ctx idx act' I.
Proof.
  intros Hact Hv t v dn u Hr Ha Hn HI. rewrite rdma_deg by done. destruct (Hact v Hr Ha).
  by apply Hv.
Qed.

Lemma rdma_covers act act' lo hi l :
  0 ≤ lo → hi ≤ num_vertices (app ctx) → (∀ v, lo ≤ v < hi → act' v = act v) →
  covers act' (deg idx (num_edges (app ctx))) (rng lo hi) l →
  covers act (g_deg rdma_graph) (rng lo hi) l.
Proof.
  intros Hlo Hhi Hact (Hn & Hs & Hc). split; [done|]. split.
  - intros x Hx. destruct (Hs x Hx) as [Hr Ha]. split; [done|]. apply elem_of_rng in Hr.
    by rewrite <- Hact.
  - intros x Hx Ha Hd. pose proof Hx as Hr. apply elem_of_rng in Hr.
    apply Hc; [done|by rewrite Hact|]. by rewrite rdma_deg by lia.
Qed.

Lemma ready_queue : queue_drains post_fuel.
Proof.
  intros k. exists 0%nat. split; [apply (ro_fuel Hro)|]. split; [apply (ro_post Hro)|lia].
Qed.

(** The engine's state apart from the client's. *)
Record eng_cell := EngCell { c_mem : list Z; c_tm : timing; c_polls : nat; c_posts : nat }.

Definition open_state {U} (su : eng_cell * U) : @estate _ U :=
  EState (c_mem su.1) (c_tm su.1) (c_polls su.1) (c_posts su.1) su.2.
Definition close_state {U} (e : @estate _ U) : eng_cell * U :=
  (EngCell (e_mem e) (e_tm e) (e_polls e) (e_posts e), e_user e).

Definition rdma_ops : EngineOps := {|
  eng_graph := rdma_graph;
  eng_state := eng_cell;
  ccy_for_each_active U function k frontier lo hi su :=
    close_state <$> ccy_for_each_active_batch remote function post_fuel k ctx idx garbage
                      edge_buf_size frontier lo hi (open_state su);
  for_each_in_range U function k lo hi su :=
    close_state <$> for_each_range remote function k ctx idx garbage edge_buf_size lo hi
                      (open_state su);
  clear_all_stats s :=
    EngCell (c_mem s) (map_stats clear_all (c_tm s)) (c_polls s) (c_posts s);
|}.

Program Definition rdma_engine : EdgeEngine (EO := rdma_ops) := {|
  eng_ok (s : eng_cell) := zlen (c_mem s) = mem_words;
  eng_graph_wf := rdma_graph_wf;
|}.
Next Obligation. done. Qed.
Next Obligation.
  intros U function I k frontier lo hi s u Hbm Hsz Hv Hlo Hhi Hs HI. cbn [ccy_for_each_active eng_graph rdma_ops] in *.
  destruct (ccy_for_each_active_batch_ok remote function ctx idx edge_buf_size garbage mem_words I
    (ro_served Hro) (ro_engine Hro) post_fuel frontier k lo hi (open_state (s, u)))
    as (e' & l & -> & Hm & Hc & HI'); try done.
  - apply ready_queue.
  - apply Hro.
  - apply (rdma_client_ok (bm_get frontier) _ lo hi); [|done].
    intros v _. unfold active_in. rewrite andb_true_iff, bool_decide_eq_true. tauto.
  - exists (close_state e').1, (e_user e'), l. split; [done|]. split; [done|]. split; [|done].
    apply (rdma_covers _ (active_in frontier lo hi)); [done|done| |done].
    intros v Hr. by apply active_in_range.
Qed.
Next Obligation.
  intros U function I k lo hi s u Hv Hlo Hhi Hs HI. cbn [for_each_in_range eng_graph rdma_ops] in *.
  destruct (for_each_range_ok remote function ctx idx edge_buf_size garbage mem_words I
    (ro_served Hro) (ro_engine Hro) k lo hi (open_state (s, u)))
    as (e' & l & -> & Hm & Hc & HI'); try done.
  - apply (ro_post Hro).
  - apply (rdma_client_ok (has_edges rdma_graph) _ lo hi); [|done].
    intros v Hr. unfold linked_in, has_edges. rewrite andb_true_iff, !bool_decide_eq_true.
    rewrite rdma_deg by done. tauto.
  - exists (close_state e').1, (e_user e'), l. split; [done|]. split; [done|]. split; [|done].
    apply (rdma_covers _ (linked_in ctx idx lo hi)); [done|done| |done].
    intros v Hr. unfold linked_in, has_edges. simpl in Hhi. rewrite rdma_deg by lia.
    by rewrite (bool_decide_eq_true_2 (lo ≤ v < hi)), andb_true_r by done.
Qed.
End rdma.
