(* ===== verification/Workers.v ===== *)
(** * Workers: what the workers of a round do at the same time

    The shared state of a push round is the table of the kernel and the frontier of
    the next round.  [set_bit_c] is [Bitmap::set_bit] as the operations other
    threads can see: [__sync_fetch_and_or], with which goes the increment of the
    worker's own counter, then the atomic increment of a counter all threads share.
    [split] are the ways the engine may distribute the vertices of a round over
    workers, and [workers_end] is the rule for such a round. *)

From S2P Require Import Prelude Platform Bitmap Engine EdgeEngine Interleaving.

Section workers.
  Context {BU : BuildOptions} {BO : Boost} {OS : Os} {CB : Combinable} {SC : Scheduler}.

Section shared_state.
  Context {T : Type}.

(** An atomic operation on the table. *)
Definition on_table {A} (op : T → result (T * A)) : prog (T * Bitmap) A :=
  atomically (λ s, '(x, a) ← op s.1; Ok ((x, s.2), a)).

Lemma run_on_table {A} (op : T → result (T * A)) s :
  run (on_table op) s = ('(x, a) ← op s.1; Ok ((x, s.2), a)).
Proof. unfold on_table, atomically. cbn. by destruct (op s.1) as [[x a]|]. Qed.

Definition fetch_or (t : nat) (i : Z) (s : T * Bitmap) : result ((T * Bitmap) * bool) :=
  let b := s.2 in
  _ ← cassert (bool_decide (i < size b));
  prev ← aget (data b) (WORD_OFFSET i);
  d ← aset (data b) (WORD_OFFSET i) (Z.lor prev (Z.shiftl 1 (BIT_OFFSET i)));
  let was_unset := bool_decide (Z.land prev (Z.shiftl 1 (BIT_OFFSET i)) = 0) in
  let fs := if was_unset then comb_incr t (frontier_size b) else frontier_size b in
  Ok ((s.1, set_counters fs (collide_count b) (no_collide_count b) (set_data d b)), was_unset).

Definition count_collision (s : T * Bitmap) : result ((T * Bitmap) * unit) :=
  let b := s.2 in
  Ok ((s.1, set_counters (frontier_size b) (u32 (collide_count b + 1)) (no_collide_count b) b), ()).
Definition count_no_collision (s : T * Bitmap) : result ((T * Bitmap) * unit) :=
  let b := s.2 in
  Ok ((s.1, set_counters (frontier_size b) (collide_count b) (u32 (no_collide_count b + 1)) b), ()).

Definition set_bit_c (t : nat) (i : Z) : prog (T * Bitmap) bool :=
  was_unset ← atomically (fetch_or t i);
  _ ← atomically (if was_unset : bool then count_no_collision else count_collision);
  mret was_unset.

(** Without interruption it is [set_bit]. *)
Lemma run_set_bit t i (x : T) b :
  run (set_bit_c t i) (x, b) = ('(r, b) ← set_bit t i b; Ok ((x, b), r)).
Proof.
  unfold set_bit_c, set_bit, atomically. cbn. unfold fetch_or. cbn.
  destruct (cassert _); [|done]. rewrite !bind_ok.
  destruct (aget _ _) as [prev|]; [|done]. rewrite !bind_ok.
  destruct (aset _ _ _) as [d|]; [|done]. rewrite !bind_ok. by case_bool_decide.
Qed.

Lemma fetch_or_spec t i (x : T) b :
  bm_wf b → 0 ≤ i < size b →
  ∃ b', fetch_or t i (x, b) = Ok ((x, b'), negb (bm_get b i)) ∧ bm_wf b' ∧ size b' = size b
    ∧ ∀ j, 0 ≤ j → bm_get b' j = bool_decide (j = i) || bm_get b j.
Proof.
  intros Hwf Hi. destruct (set_bit_spec t i b Hwf Hi) as (b1 & E & [Hok Hn] & Hs & Hb).
  unfold set_bit in E. unfold fetch_or. cbv zeta in *. cbn [fst snd].
  apply bind_ok_inv in E as ([] & Ec & E). apply bind_ok_inv in E as (prev & Ea & E).
  apply bind_ok_inv in E as (d & Ed & E). rewrite Ec, bind_ok, Ea, bind_ok, Ed, bind_ok.
  case_bool_decide; injection E as <- <-; (eexists; split; [done|]; split; [|by split]);
    (split; [destruct Hok; by split|exact Hn]).
Qed.

(** ** Rules *)
Context {L : Type} (n : Z) (J : T → (Z → bool) → list L → Prop).

(** The frontier is well formed, and [J] speaks about its bits. *)
Definition with_frontier (s : T * Bitmap) (ls : list L) : Prop :=
  bm_wf s.2 ∧ size s.2 = n ∧ J s.1 (bm_get s.2) ls.

Lemma safe_on_table {A B} i g (op : T → result (T * A)) (k : A → prog (T * Bitmap) B) Q :
  (∀ x f ls, J x f ls → ls !! i = Some g →
     ∃ x' a g', op x = Ok (x', a) ∧ J x' f (<[i := g']> ls) ∧ safe with_frontier i g' (k a) Q) →
  safe with_frontier i g (on_table op ≫= k) Q.
Proof.
  intros Hop [x b] ls (Hw & Hs & HJ) Hg. destruct (Hop _ _ _ HJ Hg) as (x' & a & g' & E & HJ' & Hk).
  exists (x', b), a, g'. cbn [fst snd] in *. by rewrite E.
Qed.

Lemma safe_on_table_ret {A} i g (op : T → result (T * A)) Q :
  (∀ x f ls, J x f ls → ls !! i = Some g →
     ∃ x' a g', op x = Ok (x', a) ∧ J x' f (<[i:=g']> ls) ∧ Q g' a) →
  safe with_frontier i g (on_table op) Q.
Proof.
  intros Hop [x b] ls (Hw & Hs & HJ) Hg. destruct (Hop _ _ _ HJ Hg) as (x' & a & g' & E & HJ' & Hk).
  exists (x', b), a, g'. cbn [fst snd] in *. by rewrite E.
Qed.

Lemma safe_set_bit i g g' t w Q :
  0 ≤ w < n →
  (∀ x f f' ls, J x f ls → (∀ j, 0 ≤ j → f' j = f j) → J x f' ls) →
  (∀ x f f' ls, J x f ls → ls !! i = Some g → (∀ j, 0 ≤ j → f' j = bool_decide (j = w) || f j) →
     J x f' (<[i := g']> ls)) →
  (∀ r, Q g' r) →
  safe with_frontier i g (set_bit_c t w) Q.
Proof.
  intros Hw Hext Hflag HQ [x b] ls (Hwf & Hs & HJ) Hg.
  destruct (fetch_or_spec t w x b Hwf) as (b' & E & Hwf' & Hs' & Hb); [cbn in Hs; lia|].
  exists (x, b'), (negb (bm_get b w)), g'. split; [done|]. cbn [fst snd] in *. split.
  { split; [done|]. split; [cbn; lia|]. by apply (Hflag x (bm_get b)). }
  intros s1 ls1 H1 Hg1. rewrite <- (list_insert_id ls1 i g') in H1 by done.
  destruct H1 as ([[Hz Hd] Hn1] & Hs1 & H1).
  destruct (negb (bm_get b w)); (eexists _, (), g'; split; [done|]; split; [|apply HQ]);
    (split; [by split|by split]).
Qed.
End shared_state.

(** ** The workers of a round *)
Section tasks.
  Context {EO : EngineOps} {S : Type}.

(** The active vertices with edges of a range are divided among workers, each of
    which hands its vertices to [function] one after the other. *)
Definition split (act : Z → bool) (lo hi : Z) (function : nat → Z → prog S unit)
    (ts : list (prog S unit)) : Prop :=
  ∃ parts : list (list Z),
    covers act (g_deg eng_graph) (rng lo hi) (concat parts)
    ∧ ts = imap (λ t vs, each vs (function t)) parts.

Lemma split_exists act lo hi function : ∃ ts, split act lo hi function ts.
Proof.
  eexists; exists [filter (λ v, act v = true) (rng lo hi)]. split; [|done].
  cbn. rewrite app_nil_r. split; [apply NoDup_filter, NoDup_rng|].
  split; intros x; rewrite list_elem_of_filter; naive_solver.
Qed.

(** The engine is not called: the workers have nothing to do. *)
Definition idle (function : nat → Z → prog S unit) (ts : list (prog S unit)) : Prop :=
  ∃ parts : list (list Z), concat parts = [] ∧ ts = imap (λ t vs, each vs (function t)) parts.

(** A frontier the engine can be called on. *)
Definition full_frontier (b : Bitmap) : Prop := bm_wf b ∧ size b = g_n eng_graph.

(** [ccy_for_each_active_batch] on the whole frontier. *)
Definition pushing (push : nat → Z → prog S unit) (frontier : Bitmap) : list (prog S unit) → Prop :=
  split (bm_get frontier) 0 (g_n eng_graph) push.

Lemma pushing_exists push frontier : ∃ ts, pushing push frontier ts.
Proof. apply split_exists. Qed.
End tasks.

(** Some worker still has to put [w] into the next frontier; the ghost value of one
    worker is replaced. *)
Lemma pending_insert {L} (pending : L → option Z) (ls : list L) (i : nat) (g g' : L) w (P : Prop) :
  ls !! i = Some g → pending g ≠ Some w ∨ P ∨ pending g' = Some w →
  (∃ j h, ls !! j = Some h ∧ pending h = Some w) →
  P ∨ ∃ j h, <[i:=g']> ls !! j = Some h ∧ pending h = Some w.
Proof.
  intros Hi Hg (j & h & Hj & Hh). destruct (decide (i = j)) as [<-|Hne].
  - simplify_eq. destruct Hg as [?|[?|?]]; [done|by left|]. right. exists i, g'.
    split; [|done]. apply list_lookup_insert_eq. by eapply lookup_lt_Some.
  - right. exists j, h. by rewrite list_lookup_insert_ne.
Qed.

(** What the workers have done so far, each a prefix of what it was given. *)
Section prefixes.
  Context {L A : Type} (done : L → list A).

Lemma bind_insert ls i g g' new :
  ls !! i = Some g → done g' = done g ++ new → (<[i:=g']> ls ≫= done) ≡ₚ new ++ (ls ≫= done).
Proof.
  intros Hi Hh.
  assert (ls ≫= done = (take i ls ≫= done) ++ done g ++ (drop (S i) ls ≫= done)) as ->.
  { rewrite <- bind_cons, <- bind_app. by rewrite take_drop_middle. }
  rewrite insert_take_drop by (by eapply lookup_lt_Some).
  rewrite !bind_app, !bind_cons, Hh. solve_Permutation.
Qed.

Lemma bind_insert_same ls i g g' :
  ls !! i = Some g → done g' = done g → <[i:=g']> ls ≫= done = ls ≫= done.
Proof.
  intros Hi Hh. rewrite <- (take_drop_middle ls i g Hi) at 2.
  rewrite insert_take_drop by (by eapply lookup_lt_Some). by rewrite !bind_app, !bind_cons, Hh.
Qed.

Lemma prefixes_perm ls parts :
  Forall2 (λ g vs, done g `prefix_of` vs) ls parts →
  ∃ rest, concat parts ≡ₚ (ls ≫= done) ++ rest.
Proof.
  intros HF. induction HF as [|g vs ls ps [suf Hs] _ [rest IH]]; [by exists []|].
  exists (suf ++ rest). cbn [concat]. rewrite bind_cons, IH, Hs. solve_Permutation.
Qed.

Lemma prefixes_same ls parts i g g' :
  Forall2 (λ g vs, done g `prefix_of` vs) ls parts → ls !! i = Some g → done g' = done g →
  Forall2 (λ g vs, done g `prefix_of` vs) (<[i:=g']> ls) parts.
Proof.
  intros HF Hi Hh. destruct (Forall2_lookup_l _ _ _ _ _ HF Hi) as (vs & Hvs & Hp).
  eapply Forall2_insert_l; [done..|by rewrite Hh].
Qed.
End prefixes.

(** Following the edges of some vertices, with the ghost value as a function of the
    targets done. *)
Lemma safe_edges {S L} (I : S → list L → Prop) (adj : Z → list Z) i vs f (g : list Z → L) :
  (∀ pre w suf, vs ≫= adj = pre ++ w :: suf →
     safe I i (g pre) (f w) (λ g' _, g' = g (pre ++ [w]))) →
  safe I i (g []) (each vs (λ v, each (adj v) f)) (λ g' _, g' = g (vs ≫= adj)).
Proof.
  intros Hf.
  assert (Houter : safe I i (g ([] ≫= adj)) (each vs (λ v, each (adj v) f))
      (λ g' _, g' = g (vs ≫= adj))); [|done].
  apply (safe_each I i vs _ (λ pre, g (pre ≫= adj))). intros pre v suf Hvs.
  rewrite bind_app, bind_singleton.
  assert (Hinner : safe I i (g ((pre ≫= adj) ++ [])) (each (adj v) f)
      (λ g' _, g' = g ((pre ≫= adj) ++ adj v))); [|by rewrite app_nil_r in Hinner].
  apply (safe_each I i (adj v) f (λ done, g ((pre ≫= adj) ++ done))).
  intros done w rest Hadj. rewrite app_assoc. apply (Hf _ w (rest ++ (suf ≫= adj))).
  rewrite Hvs, bind_app, bind_cons, Hadj. by rewrite <- !app_assoc.
Qed.
(** A round: all workers start with the same ghost value, and when a worker is done
    its ghost value is a function of what it was given. *)
Lemma workers_end {S L} (I : S → list L → Prop) (parts : list (list Z)) (function : nat → Z → prog S unit)
    (start : L) (fin : list Z → L) (Q : S → Prop) s :
  I s ((λ _, start) <$> parts) →
  (∀ i vs, parts !! i = Some vs →
     safe I i start (each vs (function i)) (λ g' _, g' = fin vs)) →
  (∀ s', I s' (fin <$> parts) → Q s') →
  round_ends Q (Cfg s (imap (λ t vs, each vs (function t)) parts)).
Proof.
  intros HI Hsafe HQ.
  apply (par_ends I _ (λ i g, ∀ vs, parts !! i = Some vs → g = fin vs) _ ((λ _, start) <$> parts)); [done|..].
  - by rewrite length_fmap, length_imap.
  - intros i p Hp. rewrite list_lookup_imap in Hp. apply fmap_Some in Hp as (vs & Hvs & ->).
    exists start. split; [by rewrite list_lookup_fmap, Hvs|].
    eapply safe_mono; [|by apply Hsafe]. intros g [] -> vs' Hvs'. by simplify_eq.
  - intros s' ls' HI' Hlen Hfin. apply HQ. enough (ls' = fin <$> parts) as <- by done.
    rewrite length_fmap in Hlen. apply list_eq. intros i. rewrite list_lookup_fmap.
    destruct (ls' !! i) as [g|] eqn:Ei.
    + assert (is_Some (parts !! i)) as [vs Hvs].
      { apply lookup_lt_is_Some. rewrite <- Hlen. by eapply lookup_lt_Some. }
      rewrite Hvs. cbn. by rewrite (Hfin i g Ei vs Hvs).
    + apply lookup_ge_None in Ei. rewrite (proj2 (lookup_ge_None parts i)); [done|lia].
Qed.
End workers.
