(* ===== verification/Bfs.v ===== *)
(** * Bfs: breadth-first search ([bfs.hpp])

    The kernel stores in [parent] the round in which a vertex is first reached.
    [bfs_correct] shows that the run terminates and that this is the length of
    a shortest path from the start vertex. *)

From S2P Require Import Prelude Platform VertexTable Bitmap Engine EdgeEngine.

Definition NULLVERT : Z := 0xffffffff.

Record bfs_vertex := BfsVertex { parent : Z; visited : bool }.

#[export] Instance bfs_vertex_inhabited : Inhabited bfs_vertex := populate (BfsVertex NULLVERT false).

(** [parent.compare_exchange_strong(expect, t_parent)] *)
Definition update_atomic (t_parent : Z) (x : bfs_vertex) : bool * bfs_vertex :=
  if bool_decide (parent x = NULLVERT) then (true, BfsVertex t_parent (visited x)) else (false, x).

Section bfs.
  Context {BU : BuildOptions} {BO : Boost} {OS : Os} {CB : Combinable} {SC : Scheduler}.
  Context {EO : EngineOps} {EE : EdgeEngine}.

(** The state [bfs_push] captures by reference: the table and [next_frontier]. *)
Abbreviation push_state := (list bfs_vertex * Bitmap)%type.

Definition bfs_push (round : Z) (t : nat) (v : Z) (edges : list Z) (n : Z) (st : push_state)
    : result push_state :=
  for_u32 0 n (λ i '(vtable, next_frontier),
    w ← aget edges i;
    x ← aget vtable w;
    if negb (visited x) then
      let '(updated, x) := update_atomic round x in
      if updated : bool then
        vtable ← aset vtable w (BfsVertex (parent x) true);
        '(_, next_frontier) ← set_bit t w next_frontier;
        Ok (vtable, next_frontier)
      else Ok (vtable, next_frontier)
    else Ok (vtable, next_frontier)) st.

Record bfs_state := BfsState {
  frontier : Bitmap;
  next_frontier : Bitmap;
  vtable : list bfs_vertex;
  round : Z;
  engine : eng_state;
}.

(** One evaluation of [while (!frontier->is_empty()) { ... }].  The bitmaps swap
    roles at the end of the round; [DEBUG] is set, so the statistics are printed
    and cleared. *)
Definition bfs_step (st : bfs_state) : result (bfs_state + bfs_state) :=
  if is_empty (frontier st) then Ok (inr st)
  else
    let round := u32 (round st + 1) in
    '(eng, (vtable, next)) ←
      ccy_for_each_active (bfs_push round) (Z.to_nat round) (frontier st) 0 (g_n eng_graph)
        (engine st, (vtable st, next_frontier st));
    cleared ← clear (Z.to_nat round) (frontier st);
    Ok (inl (BfsState next cleared vtable round (clear_all_stats eng))).

(** [operator()] up to the loop. *)
Definition bfs_enter (start_v : Z) (frontierA frontierB : Bitmap)
    (vtable : list bfs_vertex) (eng : eng_state) : result bfs_state :=
  f ← clear 0 frontierA;
  '(_, f) ← set_bit 0 start_v f;
  vtable ← parallel_for 0 0 (g_n eng_graph) (λ _ lo hi, for_u32 lo hi (λ i vtable,
             x ← aget vtable i; aset vtable i (BfsVertex (parent x) false))) vtable;
  x ← aget vtable start_v;
  vtable ← aset vtable start_v (update_atomic 0 x).2;
  Ok (BfsState f frontierB vtable 0 eng).

(** [operator()]; [fuel] bounds the number of rounds. *)
Definition bfs_kernel (fuel : nat) (start_v : Z) (frontierA frontierB : Bitmap)
    (vtable : list bfs_vertex) (eng : eng_state) : result bfs_state :=
  st ← bfs_enter start_v frontierA frontierB vtable eng;
  loopM fuel bfs_step st.

(** ** Shortest paths *)
Abbreviation G := eng_graph.
Abbreviation n := (g_n eng_graph).
Abbreviation adj := (g_adj eng_graph).

Inductive walk : nat → Z → Z → Prop :=
  | walk_nil v : walk 0 v v
  | walk_snoc k u v w : walk k u v → w ∈ adj v → walk (S k) u w.

(** [level s k] are the vertices at distance [k] from [s]. *)
Definition level (s : Z) (k : nat) (v : Z) : Prop :=
  walk k s v ∧ ∀ j, walk j s v → (k ≤ j)%nat.

(** Reached within [k] steps. *)
Definition within (s : Z) (k : nat) (v : Z) : Prop := ∃ j, (j ≤ k)%nat ∧ walk j s v.

Lemma walk_range k s v : 0 ≤ s < n → walk k s v → 0 ≤ v < n.
Proof.
  intros Hs. induction 1 as [|k u v w _ IH Hin]; [done|].
  destruct eng_graph_wf as [_ Hwf]. eapply Hwf; [by apply IH|done].
Qed.

Lemma level_unique s j k v : level s j v → level s k v → j = k.
Proof. intros [H1 L1] [H2 L2]. specialize (L1 _ H2). specialize (L2 _ H1). lia. Qed.

Lemma level_zero s v : level s 0 v ↔ v = s.
Proof.
  split; [intros [H _]; by inversion H|]. intros ->. split; [constructor|lia].
Qed.

(** ** One push *)

(** The table and the next frontier after the vertices of [T] were offered
    [round], starting from the table [vt0] and an empty frontier. *)
Record pushed (vt0 : list bfs_vertex) (r : Z) (T : Z → Prop) (st : push_state) : Prop := {
  pu_len : zlen st.1 = n;
  pu_wf : bm_wf st.2;
  pu_size : size st.2 = n;
  pu_visited w : 0 ≤ w < n → visited (at_ st.1 w) = true → parent (at_ st.1 w) ≠ NULLVERT;
  pu_old w : 0 ≤ w < n → parent (at_ vt0 w) ≠ NULLVERT →
    parent (at_ st.1 w) = parent (at_ vt0 w) ∧ bm_get st.2 w = false;
  pu_new w : 0 ≤ w < n → parent (at_ vt0 w) = NULLVERT →
    (T w ∧ parent (at_ st.1 w) = r ∧ bm_get st.2 w = true)
    ∨ (¬ T w ∧ parent (at_ st.1 w) = NULLVERT ∧ bm_get st.2 w = false);
}.

Lemma bfs_pushed_ext vt0 r T T' st :
  (∀ w, T w ↔ T' w) → pushed vt0 r T st → pushed vt0 r T' st.
Proof. intros HT [H1 H2 H3 H4 H5 H6]. split; try done. intros w. rewrite <- HT. apply H6. Qed.

Definition push_body (r : Z) (t : nat) (w : Z) (st : push_state) : result push_state :=
  x ← aget st.1 w;
  if negb (visited x) then
    let '(updated, x) := update_atomic r x in
    if updated : bool then
      vtable ← aset st.1 w (BfsVertex (parent x) true);
      '(_, next_frontier) ← set_bit t w st.2;
      Ok (vtable, next_frontier)
    else Ok st
  else Ok st.

(** The round number is not the mark of unreached vertices, if there are any. *)
Definition fresh_round (vt0 : list bfs_vertex) (r : Z) : Prop :=
  ∀ w, 0 ≤ w < n → parent (at_ vt0 w) = NULLVERT → r ≠ NULLVERT.

(** Offering [round] to one more vertex. *)
Lemma bfs_push_body_ok vt0 r T t w st :
  fresh_round vt0 r → 0 ≤ w < n → pushed vt0 r T st →
  ∃ st', push_body r t w st = Ok st' ∧ pushed vt0 r (λ x, T x ∨ x = w) st'.
Proof.
  intros Hr Hw [Hl Hwf Hs Hv Ho Hn]. unfold push_body. rewrite aget_at, bind_ok by lia.
  assert (Hkeep : parent (at_ st.1 w) ≠ NULLVERT → pushed vt0 r (λ x, T x ∨ x = w) st).
  { intros Hp. split; try done. intros x Hx Hx0. destruct (Hn x Hx Hx0) as [?|(? & ? & ?)]; [tauto|].
    right. split; [|done]. intros [?| ->]; [done|congruence]. }
  destruct (visited (at_ st.1 w)) eqn:Ev; [exists st; by split; [|apply Hkeep, Hv]|].
  simpl. unfold update_atomic. case_bool_decide as Hp; [|exists st; by split; [|apply Hkeep]].
  assert (Hw0 : parent (at_ vt0 w) = NULLVERT).
  { destruct (decide (parent (at_ vt0 w) = NULLVERT)) as [|Hne]; [done|].
    destruct (Ho w Hw Hne). congruence. }
  simpl. rewrite aset_ok, bind_ok by lia.
  destruct (set_bit_spec t w st.2 Hwf) as (b & -> & Hwf' & Hs' & Hb); [lia|].
  rewrite bind_ok. eexists; split; [done|].
  assert (Hat : ∀ x, 0 ≤ x < n → at_ (<[Z.to_nat w:=BfsVertex r true]> st.1) x
                = if decide (w = x) then BfsVertex r true else at_ st.1 x).
  { intros x Hx. apply at_insert; lia. }
  split; simpl; [by rewrite zlen_insert|done|lia|..].
  - intros x Hx. rewrite Hat by done. case_decide; [by intros _; apply (Hr w)|auto].
  - intros x Hx Hx0. rewrite Hat, Hb by lia. destruct (Ho x Hx Hx0) as [Hpx Hbx].
    case_decide as E; [subst; congruence|]. by rewrite bool_decide_eq_false_2.
  - intros x Hx Hx0. rewrite Hat, Hb by lia. case_decide as E.
    + subst x. left. rewrite bool_decide_eq_true_2 by done. auto.
    + rewrite bool_decide_eq_false_2 by done. simpl.
      destruct (Hn x Hx Hx0) as [?|(? & ? & ?)]; [tauto|]. right. split; [|done].
      intros [?|?]; [done|congruence].
Qed.

Lemma bfs_push_body r t v edges k st :
  bfs_push r t v edges k st = for_u32 0 k (λ i st, w ← aget edges i; push_body r t w st) st.
Proof.
  unfold bfs_push, for_u32. apply forM_ext. intros i [vt nf] _.
  destruct (aget edges i) as [w|]; [|done]. rewrite !bind_ok. unfold push_body. simpl.
  destruct (aget vt w) as [x|]; [|done]. rewrite !bind_ok. destruct (visited x); [done|].
  simpl. by destruct (update_atomic r x) as [[] y].
Qed.

Lemma bfs_push_ok vt0 r T t v st :
  fresh_round vt0 r → 0 ≤ v < n → pushed vt0 r T st →
  ∃ st', bfs_push r t v (adj v) (g_deg eng_graph v) st = Ok st'
    ∧ pushed vt0 r (λ x, T x ∨ x ∈ adj v) st'.
Proof.
  intros Hr Hv Hp. rewrite bfs_push_body.
  apply (edge_loop _ (λ pre, pushed vt0 r (λ x, T x ∨ x ∈ pre))); [apply eng_graph_wf|done| |].
  - eapply bfs_pushed_ext; [|exact Hp]. intros w. simpl. set_solver.
  - intros pre w suf st1 _ Hw Hp1.
    destruct (bfs_push_body_ok vt0 r (λ x, T x ∨ x ∈ pre) t w st1 Hr Hw Hp1) as (st2 & E & Hp2).
    exists st2. split; [done|]. eapply bfs_pushed_ext; [|exact Hp2]. intros x. simpl. set_solver.
Qed.

(** ** One round *)

(** The table and the frontier at the head of round [r]. *)
Record round_inv (s : Z) (r : nat) (st : bfs_state) : Prop := {
  ri_len : zlen (vtable st) = n;
  ri_front : bm_wf (frontier st) ∧ size (frontier st) = n;
  ri_next : bm_wf (next_frontier st) ∧ size (next_frontier st) = n
            ∧ ∀ v, 0 ≤ v < n → bm_get (next_frontier st) v = false;
  ri_eng : eng_ok (engine st);
  ri_round : round st = Z.of_nat r;
  ri_visited v : 0 ≤ v < n → visited (at_ (vtable st) v) = true →
    parent (at_ (vtable st) v) ≠ NULLVERT;
  ri_parent v : 0 ≤ v < n →
    (parent (at_ (vtable st) v) = NULLVERT ∧ ¬ within s r v)
    ∨ ∃ k, (k ≤ r)%nat ∧ parent (at_ (vtable st) v) = Z.of_nat k ∧ level s k v;
  ri_level v : 0 ≤ v < n → bm_get (frontier st) v = true ↔ level s r v;
}.

(** The rounds still possible: vertices not yet reached, and one for a non-empty
    frontier. *)
Definition unreached (vt : list bfs_vertex) : Z :=
  zcount (λ v, bool_decide (parent (at_ vt v) = NULLVERT)) (rng 0 n).
Definition rounds_left (st : bfs_state) : Z :=
  unreached (vtable st) + (if is_empty (frontier st) then 0 else 1).

Lemma within_S s r v :
  within s (S r) v ↔ within s r v ∨ ∃ u, walk r s u ∧ v ∈ adj u.
Proof.
  split.
  - intros (j & Hj & Hw). destruct (decide (j ≤ r)%nat) as [Hle|Hgt]; [left; by exists j|].
    right. assert (j = S r) as -> by lia. inversion Hw; subst. eauto.
  - intros [(j & Hj & Hw)|(u & Hw & Hin)]; [exists j; split; [lia|done]|].
    exists (S r). split; [done|]. by eapply walk_snoc.
Qed.

(** The vertices first reached in the next round are those not reached so far
    that have a neighbour at distance [r]. *)
Lemma level_S s r v :
  0 ≤ s < n → ¬ within s r v →
  (∀ u, walk r s u → within s r u → v ∈ adj u → level s r u) →
  within s (S r) v ↔ ∃ u, level s r u ∧ v ∈ adj u.
Proof.
  intros Hs Hnw Hl. rewrite within_S. split.
  - intros [?|(u & Hw & Hin)]; [done|]. exists u. split; [|done].
    apply Hl; [done| |done]. by exists r.
  - intros (u & [Hw _] & Hin). right. eauto.
Qed.

Lemma next_level s r st v :
  0 ≤ s < n → round_inv s r st → 0 ≤ v < n → ¬ within s r v →
  within s (S r) v ↔ ∃ u, level s r u ∧ v ∈ adj u.
Proof.
  intros Hs Hri Hv Hnw. rewrite within_S. split.
  - intros [?|(u & Hw & Hin)]; [done|]. exists u. split; [|done].
    destruct (ri_parent _ _ _ Hri u (walk_range _ _ _ Hs Hw)) as [[_ Hnu]|(k & Hk & _ & Hlu)].
    + destruct Hnu. by exists r.
    + destruct (decide (k = r)) as [->|Hne]; [done|]. destruct Hnw. exists (S k).
      split; [lia|]. destruct Hlu as [Hwu _]. by eapply walk_snoc.
  - intros (u & [Hw _] & Hin). right. eauto.
Qed.

(** What the engine leaves behind after a round. *)
Lemma bfs_push_all s r st :
  0 ≤ s < n → round_inv s r st → fresh_round (vtable st) (Z.of_nat (S r)) →
  ∃ eng vt nx, ccy_for_each_active (bfs_push (Z.of_nat (S r))) (S r) (frontier st) 0 n
      (engine st, (vtable st, next_frontier st)) = Ok (eng, (vt, nx))
    ∧ eng_ok eng
    ∧ pushed (vtable st) (Z.of_nat (S r)) (λ w, ∃ u, level s r u ∧ w ∈ adj u) (vt, nx).
Proof.
  intros Hs Hri Hfr. destruct Hri as [Hlen [Hfw Hfs] (Hnw & Hns & Hnb) Heng Hr Hvis Hpar Hlev].
  destruct (ccy_for_each_active_spec (bfs_push (Z.of_nat (S r)))
    (λ dn st', pushed (vtable st) (Z.of_nat (S r)) (λ w, ∃ u, u ∈ dn ∧ w ∈ adj u) st')
    (S r) (frontier st) 0 n (engine st) (vtable st, next_frontier st))
    as (eng & [vt nx] & l & E & Hok & (Hnd & Hin & Hall) & Hp).
  - apply Hfw.
  - done.
  - intros t v dn u Hv _ _ _ Hp. destruct (bfs_push_ok _ _ _ t v u Hfr Hv Hp) as (u' & E & Hp').
    exists u'. split; [done|]. eapply bfs_pushed_ext; [|exact Hp']. intros w. simpl. set_solver.
  - lia.
  - lia.
  - done.
  - split; simpl; try done; [intros; split; [done|by apply Hnb]|].
    intros w Hw Hw0. right. split; [set_solver|]. split; [done|by apply Hnb].
  - exists eng, vt, nx. split; [done|]. split; [done|]. eapply bfs_pushed_ext; [|exact Hp].
    intros w. simpl. split; intros (u & Hu & Hw); exists u; split; try done.
    + destruct (Hin u Hu) as [Hr1%elem_of_rng Hb]. by apply Hlev.
    + assert (0 ≤ u < n) by (eapply walk_range; [exact Hs|apply Hu]).
      apply Hall; [by apply elem_of_rng|by apply Hlev|].
      unfold g_deg, zlen. destruct (adj u); [set_solver|simpl; lia].
Qed.

Lemma unreached_bounds vt : 0 ≤ unreached vt ≤ n.
Proof.
  unfold unreached. destruct eng_graph_wf as [? _].
  pose proof (zcount_bounds (λ v, bool_decide (parent (at_ vt v) = NULLVERT)) (rng 0 n)) as Hb.
  unfold zlen in Hb. rewrite length_rng in Hb. lia.
Qed.

Lemma fresh s r st :
  round_inv s r st → Z.of_nat r + unreached (vtable st) + 1 ≤ n →
  fresh_round (vtable st) (Z.of_nat (S r)).
Proof.
  intros Hri Hle w Hw Hw0. destruct eng_graph_wf as [? _].
  assert (0 < unreached (vtable st)).
  { unfold unreached. apply zcount_pos. exists w. split; [by apply elem_of_rng|].
    by apply bool_decide_eq_true. }
  unfold NULLVERT. lia.
Qed.

(** A round that reaches a vertex leaves fewer unreached. *)
Lemma pushed_unreached vt0 r T vt nx :
  fresh_round vt0 r → pushed vt0 r T (vt, nx) →
  unreached vt ≤ unreached vt0 ∧ (is_empty nx = false → unreached vt < unreached vt0).
Proof.
  intros Hr [_ Hwf Hs _ Ho Hn]. simpl in *.
  assert (Hle : ∀ v, v ∈ rng 0 n → bool_decide (parent (at_ vt v) = NULLVERT) = true →
            bool_decide (parent (at_ vt0 v) = NULLVERT) = true).
  { intros v Hv%elem_of_rng. rewrite !bool_decide_eq_true. intros Hp.
    destruct (decide (parent (at_ vt0 v) = NULLVERT)) as [|Hne]; [done|].
    destruct (Ho v Hv Hne). congruence. }
  split; [by apply zcount_le|]. intros He.
  assert (¬ ∀ v, 0 ≤ v < size nx → bm_get nx v = false) as Hex.
  { intros Hf. apply is_empty_spec in Hf; [congruence|done]. }
  assert (∃ v, 0 ≤ v < n ∧ bm_get nx v = true) as (v & Hv & Hb).
  { destruct (decide (Exists (λ v, bm_get nx v = true) (rng 0 n))) as [(v & Hv & Hb)%Exists_exists|Hno].
    - exists v. by apply elem_of_rng in Hv.
    - destruct Hex. intros v Hv. destruct (bm_get nx v) eqn:E; [|done]. destruct Hno.
      apply Exists_exists. exists v. rewrite elem_of_rng. split; [lia|done]. }
  destruct (decide (parent (at_ vt0 v) = NULLVERT)) as [H0|H0];
    [|destruct (Ho v Hv H0); congruence].
  destruct (Hn v Hv H0) as [(_ & Hp & _)|(_ & _ & ?)]; [|congruence].
  apply (zcount_lt _ _ _ v); [done|by apply elem_of_rng|by apply bool_decide_eq_true|].
  apply bool_decide_eq_false. rewrite Hp. by apply (Hr v).
Qed.

(** The head of the next round. *)
Lemma bfs_next_inv s r st eng vt nx cl :
  0 ≤ s < n → round_inv s r st → Z.of_nat r < NULLVERT → eng_ok eng → bm_wf cl → size cl = size (frontier st) →
  (∀ v, 0 ≤ v < size (frontier st) → bm_get cl v = false) →
  pushed (vtable st) (Z.of_nat (S r)) (λ w, ∃ u, level s r u ∧ w ∈ adj u) (vt, nx) →
  round_inv s (S r)
    (BfsState nx cl vt (Z.of_nat (S r)) (clear_all_stats eng)).
Proof.
  intros Hs Hri Hrn Hok Hcw Hcs Hcb Hp. destruct (ri_front _ _ _ Hri) as [Hfw Hfs].
  destruct Hp as [Pl Pw Ps Pv Po Pn]. simpl in *.
  assert (Hset : ∀ v, 0 ≤ v < n → parent (at_ (vtable st) v) = NULLVERT →
     ¬ within s r v ∧ ((∃ u, level s r u ∧ v ∈ adj u) ↔ level s (S r) v)).
  { intros v Hv H0. destruct (ri_parent _ _ _ Hri v Hv) as [[_ Hnw]|(k & Hk & Hpk & _)].
    2:{ rewrite H0 in Hpk. unfold NULLVERT in *. lia. }
    split; [done|]. rewrite <- (next_level s r st v Hs Hri Hv Hnw). split.
    - intros (j & Hj & Hw). assert (j = S r) as ->; [|split; [done|]].
      { destruct (decide (j ≤ r)%nat); [|lia]. destruct Hnw. by exists j. }
      intros i Hi. destruct (decide (S r ≤ i)%nat); [done|]. destruct Hnw. exists i. split; [lia|done].
    - intros [Hw _]. by exists (S r). }
  assert (Hold : ∀ v, 0 ≤ v < n → parent (at_ (vtable st) v) ≠ NULLVERT → ¬ level s (S r) v).
  { intros v Hv H0 Hl. destruct (ri_parent _ _ _ Hri v Hv) as [[? _]|(k & Hk & _ & Hlk)]; [done|].
    pose proof (level_unique _ _ _ _ Hl Hlk). lia. }
  split; simpl; try done.
  + split; [done|]. split; [lia|]. intros v Hv. apply Hcb. lia.
  + by apply clear_all_stats_ok.
  + intros v Hv. destruct (decide (parent (at_ (vtable st) v) = NULLVERT)) as [H0|H0].
    * destruct (Hset v Hv H0) as [Hnw Hl]. destruct (Pn v Hv H0) as [(HT & Hpv & _)|(HT & Hpv & _)].
      -- right. exists (S r). split; [done|]. split; [done|]. by apply Hl.
      -- left. split; [done|]. by rewrite (next_level s r st).
    * right. destruct (Po v Hv H0) as [-> _].
      destruct (ri_parent _ _ _ Hri v Hv) as [[? _]|(k & Hk & Hpk & Hlk)]; [done|].
      exists k. split; [lia|done].
  + intros v Hv. destruct (decide (parent (at_ (vtable st) v) = NULLVERT)) as [H0|H0].
    * destruct (Hset v Hv H0) as [_ <-]. destruct (Pn v Hv H0) as [(HT & _ & ->)|(HT & _ & ->)]; naive_solver.
    * destruct (Po v Hv H0) as [_ ->]. specialize (Hold v Hv H0). naive_solver.
Qed.

Lemma bfs_round s r st :
  0 ≤ s < n → round_inv s r st → is_empty (frontier st) = false →
  Z.of_nat r + rounds_left st ≤ n →
  ∃ st', bfs_step st = Ok (inl st') ∧ round_inv s (S r) st' ∧ rounds_left st' < rounds_left st.
Proof.
  intros Hs Hri He Hle. destruct eng_graph_wf as [Hn32 _].
  pose proof (unreached_bounds (vtable st)).
  assert (Hr : Z.of_nat r + unreached (vtable st) + 1 ≤ n) by (unfold rounds_left in Hle; rewrite He in Hle; lia).
  pose proof (fresh s r st Hri Hr) as Hfr.
  destruct (bfs_push_all s r st Hs Hri Hfr) as (eng & vt & nx & E & Hok & Hp).
  destruct (ri_front _ _ _ Hri) as [Hfw Hfs].
  destruct (clear_spec (S r) (frontier st)) as (cl & Ec & Hcw & Hcs & Hcb); [apply Hfw|].
  exists (BfsState nx cl vt (Z.of_nat (S r)) (clear_all_stats eng)). split; [|split].
  - unfold bfs_step. rewrite He, (ri_round _ _ _ Hri), u32_id' by lia.
    replace (Z.of_nat r + 1) with (Z.of_nat (S r)) by lia. rewrite Nat2Z.id, E, bind_ok.
    cbv beta iota zeta. by rewrite Ec.
  - eapply bfs_next_inv; try done. unfold NULLVERT. lia.
  - unfold rounds_left. rewrite He. simpl. destruct (pushed_unreached _ _ _ _ _ Hfr Hp) as [H1 H2].
    destruct (is_empty nx); [lia|]. specialize (H2 eq_refl). lia.
Qed.

(** ** The whole run *)
Lemma bfs_init vt0 :
  zlen vt0 = n →
  ∃ vt, parallel_for 0 0 n (λ _ lo hi, for_u32 lo hi (λ i vtable,
          x ← aget vtable i; aset vtable i (BfsVertex (parent x) false))) vt0 = Ok vt
    ∧ zlen vt = n
    ∧ ∀ v, 0 ≤ v < n → parent (at_ vt v) = parent (at_ vt0 v) ∧ visited (at_ vt v) = false.
Proof.
  intros Hl.
  destruct (parallel_for_inv (λ done vt, zlen vt = n
      ∧ (∀ v, 0 ≤ v < n → parent (at_ vt v) = parent (at_ vt0 v))
      ∧ ∀ v, v ∈ done → visited (at_ vt v) = false) 0 0 n
    (λ _ i vtable, x ← aget vtable i; aset vtable i (BfsVertex (parent x) false)) vt0)
    as (vt & done & E & Hp & Hl' & Hpar & Hvis).
  - split; [done|]. split; [done|set_solver].
  - intros _ done i vt Hnd Hi Hdone (Hl' & Hpar & Hvis). rewrite aget_at, bind_ok, aset_ok by lia.
    eexists; split; [done|]. rewrite zlen_insert. split; [done|]. split.
    + intros v Hv. rewrite at_insert by lia. case_decide; [subst; by apply Hpar|by apply Hpar].
    + intros v Hv. assert (0 ≤ v) by (apply elem_of_cons in Hv as [->|Hv%Hdone]; lia).
      rewrite at_insert by lia. case_decide; [done|]. apply Hvis. set_solver.
  - exists vt. split; [done|]. split; [done|]. intros v Hv. split; [by apply Hpar|].
    apply Hvis. rewrite Hp. by apply elem_of_rng.
Qed.

(** The state the loop starts from. *)
Lemma bfs_start s f fB vt eng :
  0 ≤ s < n → zlen vt = n → eng_ok eng →
  (∀ v, 0 ≤ v < n → parent (at_ vt v) = (if decide (v = s) then 0 else NULLVERT)
                    ∧ visited (at_ vt v) = false) →
  bm_wf f → size f = n → (∀ v, 0 ≤ v < n → bm_get f v = bool_decide (v = s)) →
  bm_wf fB → size fB = n → (∀ v, 0 ≤ v < n → bm_get fB v = false) →
  round_inv s 0 (BfsState f fB vt 0 eng)
  ∧ Z.of_nat 0 + rounds_left (BfsState f fB vt 0 eng) ≤ n.
Proof.
  intros Hs Hl He Hp Hf Hfs Hfb HB HBs HBb. split; [split; simpl; try done|].
  - intros v Hv. destruct (Hp v Hv) as [_ ->]. done.
  - intros v Hv. destruct (Hp v Hv) as [-> _]. case_decide as E.
    + right. exists 0%nat. split; [done|]. split; [done|]. by apply level_zero.
    + left. split; [done|]. intros (j & Hj & Hw). assert (j = 0%nat) as -> by lia.
      by inversion Hw.
  - intros v Hv. rewrite Hfb, bool_decide_eq_true by done. symmetry. apply level_zero.
  - unfold rounds_left, unreached. simpl.
    assert (zcount (λ v, bool_decide (parent (at_ vt v) = NULLVERT)) (rng 0 n)
            < zcount (λ _, true) (rng 0 n)) as Hlt.
    { apply (zcount_lt _ _ _ s); [done|by apply elem_of_rng|done|].
      apply bool_decide_eq_false. destruct (Hp s Hs) as [-> _]. by rewrite decide_True. }
    pose proof (zcount_bounds (λ _ : Z, true) (rng 0 n)) as Hb.
    unfold zlen in Hb. rewrite length_rng in Hb. destruct (is_empty f); lia.
Qed.

(** The loop ends, with an empty frontier. *)
Lemma bfs_loop s fuel st :
  0 ≤ s < n → round_inv s 0 st → Z.of_nat 0 + rounds_left st ≤ n → (Z.to_nat n < fuel)%nat →
  ∃ r st', loopM fuel bfs_step st = Ok st' ∧ round_inv s r st' ∧ is_empty (frontier st') = true.
Proof.
  intros Hs Hri Hle Hfuel. pose proof (unreached_bounds (vtable st)).
  destruct (loopM_total (λ st, ∃ r, round_inv s r st ∧ Z.of_nat r + rounds_left st ≤ n)
    (λ st', ∃ r, round_inv s r st' ∧ is_empty (frontier st') = true)
    (λ st, Z.to_nat (rounds_left st)) bfs_step fuel st) as (st' & E & r & Hr).
  - by exists 0%nat.
  - lia.
  - intros st1 (r & Hri1 & Hle1). destruct (is_empty (frontier st1)) eqn:Ee.
    + exists (inr st1). unfold bfs_step. rewrite Ee. split; [done|]. by exists r.
    + destruct (bfs_round s r st1 Hs Hri1 Ee Hle1) as (st2 & E & Hri2 & Hlt).
      exists (inl st2). pose proof (unreached_bounds (vtable st2)).
      assert (0 ≤ rounds_left st2) by (unfold rounds_left; destruct (is_empty (frontier st2)); lia).
      split; [done|]. split; [exists (S r); split; [done|lia]|lia].
  - exists r, st'. naive_solver.
Qed.

(** When the frontier runs empty every vertex reachable at all has been reached. *)
Lemma closed_within s r st j v :
  0 ≤ s < n → round_inv s r st → is_empty (frontier st) = true → walk j s v → within s r v.
Proof.
  intros Hs Hri He. destruct (ri_front _ _ _ Hri) as [Hfw Hfs].
  rewrite is_empty_spec in He by done. rewrite Hfs in He. revert v.
  induction j as [|j IH]; intros v Hw; inversion Hw as [|? ? u ? Hu Hin]; subst.
  { exists 0%nat. split; [lia|constructor]. }
  pose proof (walk_range _ _ _ Hs Hu) as Hur.
  destruct (ri_parent _ _ _ Hri u Hur) as [[_ Hnu]|(k & Hk & _ & Hlu)]; [by destruct Hnu; apply IH|].
  destruct (decide (k = r)) as [->|Hne].
  - pose proof (proj2 (ri_level _ _ _ Hri u Hur) Hlu). by rewrite He in *.
  - exists (S k). split; [lia|]. destruct Hlu as [Hwu _]. by eapply walk_snoc.
Qed.

(** The table holds the distances from [start_v]. *)
Definition distances (start_v : Z) (vt : list bfs_vertex) : Prop :=
  ∀ v, 0 ≤ v < n →
    (parent (at_ vt v) = NULLVERT ∧ ∀ k, ¬ walk k start_v v)
    ∨ ∃ k, parent (at_ vt v) = Z.of_nat k ∧ level start_v k v.

Lemma bfs_done s r st :
  0 ≤ s < n → round_inv s r st → is_empty (frontier st) = true → distances s (vtable st).
Proof.
  intros Hs Hr Hemp v Hv.
  destruct (ri_parent _ _ _ Hr v Hv) as [[Hn Hnw]|(k & _ & Hk & Hlk)]; [left|right; eauto].
  split; [done|]. intros k Hk. apply Hnw. by eapply closed_within.
Qed.

(** What a run starts from: cleared frontiers and a table of unreached vertices. *)
Record bfs_ready (start_v : Z) (frontierA frontierB : Bitmap) (vt0 : list bfs_vertex)
    (eng : eng_state) : Prop := {
  br_start : 0 ≤ start_v < n;
  br_eng : eng_ok eng;
  br_A : bm_ok frontierA ∧ size frontierA = n;
  br_B : bm_wf frontierB ∧ size frontierB = n ∧ ∀ v, 0 ≤ v < n → bm_get frontierB v = false;
  br_table : zlen vt0 = n ∧ ∀ v, 0 ≤ v < n → parent (at_ vt0 v) = NULLVERT;
}.

Lemma bfs_enter_ok start_v frontierA frontierB vt0 eng :
  bfs_ready start_v frontierA frontierB vt0 eng →
  ∃ st, bfs_enter start_v frontierA frontierB vt0 eng = Ok st
    ∧ round_inv start_v 0 st ∧ Z.of_nat 0 + rounds_left st ≤ n.
Proof.
  intros [Hs He [HA HAs] (HB & HBs & HBb) [Hl0 Hp0]]. unfold bfs_enter.
  destruct (clear_spec 0 frontierA HA) as (f1 & -> & Hw1 & Hs1 & Hb1). rewrite bind_ok.
  destruct (set_bit_spec 0 start_v f1 Hw1) as (f & -> & Hw & Hsz & Hb); [lia|]. rewrite bind_ok.
  destruct (bfs_init vt0 Hl0) as (vt1 & -> & Hl1 & Hp1). rewrite bind_ok.
  rewrite aget_at, bind_ok, aset_ok, bind_ok by lia.
  assert (Hst : (update_atomic 0 (at_ vt1 start_v)).2 = BfsVertex 0 false).
  { unfold update_atomic. destruct (Hp1 start_v Hs) as [Hp Hv]. rewrite Hp, Hp0, Hv by done.
    by rewrite bool_decide_eq_true_2. }
  rewrite Hst. set (vt := <[Z.to_nat start_v:=BfsVertex 0 false]> vt1).
  eexists; split; [done|]. apply bfs_start; try done.
  - unfold vt. by rewrite zlen_insert.
  - intros v Hv. unfold vt. rewrite at_insert by lia. destruct (Hp1 v Hv) as [Hp Hvis].
    repeat case_decide; try congruence; [done|]. by rewrite Hp, Hp0.
  - lia.
  - intros v Hv. rewrite Hb, Hb1, orb_false_r by lia. done.
Qed.

Lemma bfs_kernel_ok fuel start_v frontierA frontierB vt0 eng :
  (Z.to_nat n < fuel)%nat → bfs_ready start_v frontierA frontierB vt0 eng →
  ∃ st, bfs_kernel fuel start_v frontierA frontierB vt0 eng = Ok st
    ∧ distances start_v (vtable st).
Proof.
  intros Hfuel Hready. pose proof (br_start _ _ _ _ _ Hready) as Hs. unfold bfs_kernel.
  destruct (bfs_enter_ok _ _ _ _ _ Hready) as (st0 & -> & Hri & Hle). rewrite bind_ok.
  destruct (bfs_loop start_v fuel _ Hs Hri Hle Hfuel) as (r & st & -> & Hr & Hemp).
  exists st. split; [done|]. by eapply bfs_done.
Qed.

(** C13: breadth-first search is correct and terminates.  From cleared
    frontiers and a table of unreached vertices, and with fuel for one round per
    vertex, the run ends without a fault, for every scheduling of the workers
    and every order of arrival of the edges; afterwards [parent] of a vertex is
    the length of a shortest path from the start vertex, or the mark [NULLVERT]
    if there is no path. *)
Theorem bfs_correct fuel start_v frontierA frontierB vt0 eng :
  0 ≤ start_v < n → (Z.to_nat n < fuel)%nat → eng_ok eng →
  bm_ok frontierA → size frontierA = n →
  bm_wf frontierB → size frontierB = n → (∀ v, 0 ≤ v < n → bm_get frontierB v = false) →
  zlen vt0 = n → (∀ v, 0 ≤ v < n → parent (at_ vt0 v) = NULLVERT) →
  ∃ st, bfs_kernel fuel start_v frontierA frontierB vt0 eng = Ok st
    ∧ distances start_v (vtable st).
Proof. intros. by apply bfs_kernel_ok. Qed.
End bfs.
