(* ===== verification/BfsConcurrent.v ===== *)
(** * BfsConcurrent: breadth-first search with racing workers

    [bfs_push_c] is the push function of [bfs.hpp] as the operations other threads
    can see: a read of [visited], a compare-and-swap of [parent], a write of
    [visited] and the operations of [set_bit].  [bfs_concurrent] shows that the
    kernel computes the distances however the operations of the workers are
    interleaved. *)

From S2P Require Import Prelude Platform Bitmap Engine EdgeEngine Interleaving Workers Bfs.

Section bfs.
  Context {BU : BuildOptions} {BO : Boost} {OS : Os} {CB : Combinable} {SC : Scheduler}.
  Context {EO : EngineOps} {EE : EdgeEngine}.
  Abbreviation n := (g_n eng_graph).
  Abbreviation adj := (g_adj eng_graph).
  Abbreviation push_state := (list bfs_vertex * Bitmap)%type.

Definition load_visited (w : Z) (vt : list bfs_vertex) : result (list bfs_vertex * bool) :=
  x ← aget vt w; Ok (vt, visited x).

Definition cas_parent (round w : Z) (vt : list bfs_vertex) : result (list bfs_vertex * bool) :=
  x ← aget vt w;
  let '(updated, x) := update_atomic round x in
  vt ← aset vt w x;
  Ok (vt, updated).

Definition store_visited (w : Z) (vt : list bfs_vertex) : result (list bfs_vertex * unit) :=
  x ← aget vt w; vt ← aset vt w (BfsVertex (parent x) true); Ok (vt, ()).

Definition push_edge (round : Z) (t : nat) (w : Z) : prog push_state unit :=
  seen ← on_table (load_visited w);
  if seen : bool then mret ()
  else
    updated ← on_table (cas_parent round w);
    if updated : bool then
      _ ← on_table (store_visited w);
      _ ← set_bit_c t w;
      mret ()
    else mret ().

Definition bfs_push_c (round : Z) (t : nat) (v : Z) : prog push_state unit :=
  each (adj v) (push_edge round t).

(** ** Without interruption *)
#[local] Arguments set_bit_c : simpl never.
#[local] Arguments run : simpl never.
Lemma run_bfs_push_edge r t w st :
  run (push_edge r t w) st = ('st ← push_body r t w st; Ok (st, ())).
Proof.
  unfold push_edge, push_body. destruct st as [vt b]. rewrite run_bind, run_on_table.
  unfold load_visited. cbn [fst snd]. destruct (aget vt w) as [x|] eqn:Ex; [|done]. rewrite !bind_ok.
  cbv beta iota. destruct (visited x); [done|]. rewrite run_bind, run_on_table. unfold cas_parent.
  cbn [fst snd negb]. rewrite Ex, bind_ok. unfold update_atomic. apply aget_ok_inv in Ex as [Hw ->].
  case_bool_decide as Hp; rewrite !aset_ok, !bind_ok by done; cbv beta iota.
  - rewrite run_bind, run_on_table. unfold store_visited. cbn [fst snd].
    rewrite aget_at, bind_ok, aset_ok, !bind_ok by (by rewrite zlen_insert). cbv beta iota.
    rewrite list_insert_insert_eq, at_insert_eq by done. rewrite run_bind, run_set_bit.
    by destruct (set_bit t w b) as [[r' b']|].
  - by rewrite insert_at_id.
Qed.

(** A push that is not interrupted is the push of the sequential model. *)
Lemma run_bfs_push r t v st :
  run (bfs_push_c r t v) st = ('st ← bfs_push r t v (adj v) (g_deg eng_graph v) st; Ok (st, ())).
Proof.
  unfold bfs_push_c. rewrite run_each, bfs_push_body. unfold g_deg. rewrite for_u32_aget.
  rewrite (forM_ext _ _ (push_body r t)); [by destruct (forM _ _ st)|].
  intros w st' _. rewrite run_bfs_push_edge. by destruct (push_body r t w st').
Qed.

(** ** The race *)

(** What a worker knows: the vertex it has claimed and not yet put into the next
    frontier, and the vertices it has offered the round number. *)
Record ghost := Ghost { pending : option Z; offered : list Z }.

Section race.
  Context (vt0 : list bfs_vertex) (r : Z) (T : Z → Prop) (Hr : fresh_round vt0 r).

Record racing (vt : list bfs_vertex) (f : Z → bool) (ls : list ghost) : Prop := {
  ra_len : zlen vt = n;
  ra_visited w : 0 ≤ w < n → visited (at_ vt w) = true → parent (at_ vt w) ≠ NULLVERT;
  ra_old w : 0 ≤ w < n → parent (at_ vt0 w) ≠ NULLVERT →
    parent (at_ vt w) = parent (at_ vt0 w) ∧ f w = false;
  ra_new w : 0 ≤ w < n → parent (at_ vt0 w) = NULLVERT →
    (parent (at_ vt w) = r ∧ T w
     ∧ (f w = true ∨ ∃ i g, ls !! i = Some g ∧ pending g = Some w))
    ∨ (parent (at_ vt w) = NULLVERT ∧ f w = false ∧ ∀ i g, ls !! i = Some g → w ∉ offered g);
  ra_pending i g w : ls !! i = Some g → pending g = Some w →
    0 ≤ w < n ∧ parent (at_ vt0 w) = NULLVERT ∧ parent (at_ vt w) = r;
}.

(** The vertex has been reached already. *)
Lemma racing_seen vt f ls i pre w :
  racing vt f ls → ls !! i = Some (Ghost None pre) → parent (at_ vt w) ≠ NULLVERT →
  racing vt f (<[i:=Ghost None (pre ++ [w])]> ls).
Proof.
  intros [Hl Hv Ho Hn Hp] Hi Hw. split; try done.
  - intros x Hx Hx0. destruct (Hn x Hx Hx0) as [(Hpx & HT & Hf)|(Hpx & Hf & Hno)].
    + left. split; [done|]. split; [done|]. destruct Hf as [?|Hf]; [by left|].
      eapply pending_insert; [done|by left|done].
    + right. split; [done|]. split; [done|].
      intros j g [(<- & <- & _)|[_ Hj]]%list_lookup_insert_Some; [|by eapply Hno].
      cbn. rewrite elem_of_app, list_elem_of_singleton. specialize (Hno i _ Hi). cbn in Hno.
      intros [?| ->]; [done|congruence].
  - intros j g x [(<- & <- & _)|[_ Hj]]%list_lookup_insert_Some Hg; [done|by eapply Hp].
Qed.

(** The worker claims the vertex. *)
Lemma racing_claim vt f ls i pre w :
  racing vt f ls → ls !! i = Some (Ghost None pre) → 0 ≤ w < n → T w →
  parent (at_ vt w) = NULLVERT →
  racing (<[Z.to_nat w := BfsVertex r (visited (at_ vt w))]> vt) f
    (<[i:=Ghost (Some w) (pre ++ [w])]> ls).
Proof.
  intros [Hl Hv Ho Hn Hp] Hi Hw HT Hw0.
  assert (Hw00 : parent (at_ vt0 w) = NULLVERT).
  { destruct (decide (parent (at_ vt0 w) = NULLVERT)); [done|]. destruct (Ho w Hw); congruence. }
  assert (Hat : ∀ x, 0 ≤ x < n → at_ (<[Z.to_nat w := BfsVertex r (visited (at_ vt w))]> vt) x
      = if decide (w = x) then BfsVertex r (visited (at_ vt w)) else at_ vt x).
  { intros x Hx. apply at_insert; lia. }
  split; [by rewrite zlen_insert|..].
  - intros x Hx. rewrite Hat by done. case_decide; [intros _; by apply (Hr w)|by apply Hv].
  - intros x Hx Hx0. rewrite Hat by done. case_decide; [congruence|by apply Ho].
  - intros x Hx Hx0. rewrite Hat by done. case_decide as E; [subst x|].
    + left. split; [done|]. split; [done|]. right. exists i, (Ghost (Some w) (pre ++ [w])).
      split; [|done]. apply list_lookup_insert_eq. by eapply lookup_lt_Some.
    + destruct (Hn x Hx Hx0) as [(Hpx & HTx & Hf)|(Hpx & Hf & Hno)].
      * left. split; [done|]. split; [done|]. destruct Hf as [?|Hf]; [by left|].
        eapply pending_insert; [done|by left|done].
      * right. split; [done|]. split; [done|].
        intros j g [(<- & <- & _)|[_ Hj]]%list_lookup_insert_Some; [|by eapply Hno].
        cbn. rewrite elem_of_app, list_elem_of_singleton. specialize (Hno i _ Hi). cbn in Hno.
        intros [?| ->]; done.
  - intros j g x [(<- & <- & _)|[_ Hj]]%list_lookup_insert_Some Hg.
    + cbn in Hg. simplify_eq. rewrite Hat, decide_True by done. done.
    + destruct (Hp j g x Hj Hg) as (Hx & Hx0 & Hpx). rewrite Hat by done.
      case_decide; [by subst|done].
Qed.

(** The flag of a claimed vertex is written. *)
Lemma racing_mark vt f ls i w O :
  racing vt f ls → ls !! i = Some (Ghost (Some w) O) →
  racing (<[Z.to_nat w := BfsVertex (parent (at_ vt w)) true]> vt) f ls.
Proof.
  intros [Hl Hv Ho Hn Hp] Hi. destruct (Hp i _ w Hi eq_refl) as (Hw & Hw0 & Hpw).
  assert (Hat : ∀ x, 0 ≤ x < n →
      parent (at_ (<[Z.to_nat w := BfsVertex (parent (at_ vt w)) true]> vt) x) = parent (at_ vt x)).
  { intros x Hx. rewrite at_insert by lia. by case_decide; subst. }
  split; [by rewrite zlen_insert|..].
  - intros x Hx. rewrite Hat by done. rewrite at_insert by lia. case_decide; [|by apply Hv].
    subst x. intros _. rewrite Hpw. by apply (Hr w).
  - intros x Hx. rewrite Hat by done. by apply Ho.
  - intros x Hx. rewrite Hat by done. by apply Hn.
  - intros j g x Hj Hg. destruct (Hp j g x Hj Hg) as (Hx & ?). by rewrite Hat.
Qed.

(** The claimed vertex is put into the next frontier. *)
Lemma bfs_racing_flag vt f f' ls i w O :
  racing vt f ls → ls !! i = Some (Ghost (Some w) O) →
  (∀ j, 0 ≤ j → f' j = bool_decide (j = w) || f j) →
  racing vt f' (<[i:=Ghost None O]> ls).
Proof.
  intros [Hl Hv Ho Hn Hp] Hi Hf. destruct (Hp i _ w Hi eq_refl) as (Hw & Hw0 & Hpw).
  split; try done.
  - intros x Hx Hx0. rewrite Hf by lia. rewrite bool_decide_eq_false_2 by congruence. by apply Ho.
  - intros x Hx Hx0. rewrite Hf by lia. destruct (Hn x Hx Hx0) as [(Hpx & HTx & Hfx)|(Hpx & Hfx & Hno)].
    + left. split; [done|]. split; [done|]. destruct Hfx as [->|Hfx]; [left; by rewrite orb_true_r|].
      eapply pending_insert; [done| |done]. destruct (decide (x = w)) as [->|]; [|left; cbn; congruence].
      right. left. by rewrite bool_decide_eq_true_2.
    + destruct (decide (x = w)) as [->|].
      { by destruct (Hr w Hx); [|congruence]. }
      right. rewrite bool_decide_eq_false_2 by done. split; [done|]. split; [done|].
      intros j g [(<- & <- & _)|[_ Hj]]%list_lookup_insert_Some; [|by eapply Hno].
      apply (Hno i _ Hi).
  - intros j g x [(<- & <- & _)|[_ Hj]]%list_lookup_insert_Some Hg; [done|by eapply Hp].
Qed.

Lemma bfs_racing_ext vt f f' ls :
  racing vt f ls → (∀ j, 0 ≤ j → f' j = f j) → racing vt f' ls.
Proof using Type.
  intros [Hl Hv Ho Hn Hp] Hf. split; try done; intros w Hw; rewrite Hf by lia; auto.
Qed.

(** Offering the round number to one vertex. *)
Lemma bfs_push_edge_safe i t pre w :
  0 ≤ w < n → T w →
  safe (with_frontier n racing) i (Ghost None pre) (push_edge r t w)
    (λ g' _, g' = Ghost None (pre ++ [w])).
Proof using Hr.
  intros Hw HT. apply safe_on_table. intros vt f ls HJ Hi. pose proof (ra_len _ _ _ HJ) as Hl.
  unfold load_visited. rewrite aget_at, bind_ok by lia.
  destruct (visited (at_ vt w)) eqn:Ev.
  { eexists _, _, (Ghost None (pre ++ [w])). split; [done|]. split; [|done].
    apply racing_seen; [done..|]. by apply (ra_visited _ _ _ HJ). }
  eexists _, _, (Ghost None pre). split; [done|]. rewrite list_insert_id by done. split; [done|].
  clear vt f ls HJ Hi Hl Ev. apply safe_on_table. intros vt f ls HJ Hi.
  pose proof (ra_len _ _ _ HJ) as Hl. unfold cas_parent, update_atomic. rewrite aget_at, bind_ok by lia.
  case_bool_decide as Hp.
  2:{ rewrite aset_ok, bind_ok, insert_at_id by lia. eexists _, _, (Ghost None (pre ++ [w])).
      split; [done|]. split; [by apply racing_seen|done]. }
  rewrite aset_ok, bind_ok by lia. eexists _, _, (Ghost (Some w) (pre ++ [w])). split; [done|].
  split; [by apply racing_claim|]. clear vt f ls HJ Hi Hl Hp.
  apply safe_on_table. intros vt f ls HJ Hi. pose proof (ra_len _ _ _ HJ) as Hl.
  unfold store_visited. rewrite aget_at, bind_ok, aset_ok, bind_ok by lia.
  eexists _, _, (Ghost (Some w) (pre ++ [w])). split; [done|]. rewrite (list_insert_id ls) by done.
  split; [by eapply racing_mark|]. apply safe_bind.
  eapply (safe_set_bit n racing i _ (Ghost None (pre ++ [w]))); [done|..|by intros].
  - intros. by eapply bfs_racing_ext.
  - intros. by eapply bfs_racing_flag.
Qed.

(** All pushes of a round. *)
Lemma bfs_push_round_ends nf parts :
  zlen vt0 = n → (∀ w, 0 ≤ w < n → visited (at_ vt0 w) = true → parent (at_ vt0 w) ≠ NULLVERT) →
  bm_wf nf → size nf = n → (∀ w, 0 ≤ w < n → bm_get nf w = false) →
  (∀ u w, u ∈ concat parts → w ∈ adj u → 0 ≤ w < n ∧ T w) →
  (∀ w, T w → ∃ u, u ∈ concat parts ∧ w ∈ adj u) →
  round_ends (λ s, pushed vt0 r T s)
    (Cfg (vt0, nf) (imap (λ t vs, each vs (bfs_push_c r t)) parts)).
Proof using Hr.
  intros Hl Hv Hw Hs Hb Hin Hall.
  apply (workers_end (with_frontier n racing) _ _ (Ghost None []) (λ vs, Ghost None (vs ≫= adj))).
  - split; [done|]. split; [done|]. cbn. split; try done.
    + intros w Hw0 H0. split; [done|by apply Hb].
    + intros w Hw0 H0. right. split; [done|]. split; [by apply Hb|].
      intros i g (vs & -> & _)%list_lookup_fmap_Some. set_solver.
    + intros i g w (vs & -> & _)%list_lookup_fmap_Some. done.
  - intros i vs Hvs. apply (safe_edges _ adj i vs (push_edge r i) (Ghost None)).
    intros pre w suf Hpre. assert (w ∈ vs ≫= adj) as (u & Hu & Hvu)%list_elem_of_bind
      by (rewrite Hpre; set_solver).
    apply bfs_push_edge_safe; eapply Hin; [|done| |done];
      apply elem_of_concat; exists vs; (split; [done|by eapply list_elem_of_lookup_2]).
  - intros [vt f] (Hw' & Hs' & HJ). destruct HJ as [Jl Jv Jo Jn Jp]. cbn [fst snd] in *.
    split; cbn [fst snd]; try done. intros w Hw0 H0.
    destruct (Jn w Hw0 H0) as [(Hp & HT & [Hf|(i & g & Hi & Hpe)])|(Hp & Hf & Hno)].
    + by left.
    + by apply list_lookup_fmap_Some in Hi as (vs & -> & _).
    + right. split; [|done]. intros (u & Hu & Hwu)%Hall. apply elem_of_concat in Hu as (vs & Hu & Hvs).
      apply list_elem_of_lookup in Hvs as [i Hvs].
      destruct (Hno i (Ghost None (vs ≫= adj))); [by rewrite list_lookup_fmap, Hvs|].
      apply list_elem_of_bind. by exists u.
Qed.
End race.

(** ** The kernel *)
Definition bfs_stop (st : bfs_state) : bool := is_empty (frontier st).
Definition bfs_tasks (st : bfs_state) : list (prog push_state unit) → Prop :=
  pushing (bfs_push_c (u32 (round st + 1))) (frontier st).
Definition bfs_open (st : bfs_state) : push_state := (vtable st, next_frontier st).
Definition bfs_close (st : bfs_state) (s : push_state) : result bfs_state :=
  let round := u32 (round st + 1) in
  cleared ← clear (Z.to_nat round) (frontier st);
  Ok (BfsState s.2 cleared s.1 round (clear_all_stats (engine st))).

Lemma bfs_round_ends s r st ts :
  0 ≤ s < n → round_inv s r st → Z.of_nat r + rounds_left st ≤ n → bfs_stop st = false →
  bfs_tasks st ts →
  round_ends (λ s', ∃ st', bfs_close st s' = Ok st'
      ∧ (∃ r, round_inv s r st' ∧ Z.of_nat r + rounds_left st' ≤ n)
      ∧ (Z.to_nat (rounds_left st') < Z.to_nat (rounds_left st))%nat)
    (Cfg (bfs_open st) ts).
Proof.
  intros Hs Hri Hle He (parts & (Hnd & Hin & Hall) & ->). unfold bfs_stop in He.
  destruct eng_graph_wf as [Hn32 Hwf]. pose proof (unreached_bounds (vtable st)).
  assert (Hr : Z.of_nat r + unreached (vtable st) + 1 ≤ n) by (unfold rounds_left in Hle; rewrite He in Hle; lia).
  pose proof (fresh s r st Hri Hr) as Hfr. rewrite (ri_round _ _ _ Hri), u32_id' by lia.
  replace (Z.of_nat r + 1) with (Z.of_nat (S r)) by lia.
  pose proof Hri as [Hlen [Hfw Hfs] (Hnw & Hns & Hnb) Heng Hrd Hvis Hpar Hlev].
  eapply round_ends_mono;
    [|apply (bfs_push_round_ends (vtable st) _ (λ w, ∃ u, level s r u ∧ w ∈ adj u)); try done].
  - intros [vt nx] Hp. destruct (clear_spec (S r) (frontier st)) as (cl & Ec & Hcw & Hcs & Hcb); [apply Hfw|].
    eexists; split; [|split; [exists (S r); split; [eapply bfs_next_inv; try done; unfold NULLVERT; lia|]|]].
    + unfold bfs_close. rewrite Hrd, u32_id' by lia. replace (Z.of_nat r + 1) with (Z.of_nat (S r)) by lia.
      by rewrite Nat2Z.id, Ec.
    + destruct (pushed_unreached _ _ _ _ _ Hfr Hp) as [H1 H2]. unfold rounds_left. simpl.
      destruct (is_empty nx); [lia|]. specialize (H2 eq_refl). lia.
    + destruct (pushed_unreached _ _ _ _ _ Hfr Hp) as [H1 H2]. unfold rounds_left. simpl. rewrite He.
      pose proof (unreached_bounds vt). destruct (is_empty nx); [lia|]. specialize (H2 eq_refl). lia.
  - intros u w Hu Hw. destruct (Hin u Hu) as [Hur%elem_of_rng Hb]. split; [by eapply Hwf|].
    exists u. split; [by apply Hlev|done].
  - intros w (u & Hu & Hw). exists u. split; [|done].
    assert (0 ≤ u < n) by (eapply walk_range; [exact Hs|apply Hu]).
    apply Hall; [by apply elem_of_rng|by apply Hlev|]. unfold g_deg, zlen. destruct (adj u); [set_solver|simpl; lia].
Qed.

(** All runs end, and the engine is always called on a proper frontier. *)
Lemma bfs_runs start_v frontierA frontierB vt0 eng :
  bfs_ready start_v frontierA frontierB vt0 eng →
  ∃ st, bfs_enter start_v frontierA frontierB vt0 eng = Ok st
    ∧ ends_in bfs_stop bfs_tasks bfs_open bfs_close (λ st, full_frontier (frontier st)) (λ st', distances start_v (vtable st')) (Head st).
Proof.
  intros Hready. pose proof (br_start _ _ _ _ _ Hready) as Hs.
  destruct (bfs_enter_ok _ _ _ _ _ Hready) as (st & E & Hri & Hle). exists st. split; [done|].
  apply (ends_in_mono _ _ _ _ (λ st, ∃ m : nat, ((∃ r, round_inv start_v r st ∧ Z.of_nat r + rounds_left st ≤ n) ∧ m = Z.to_nat (rounds_left st)))); [by intros st1 (m & (r & Hr1 & _) & _); apply Hr1|].
  apply (machine_ends _ _ _ _ (λ m st, (∃ r, round_inv start_v r st ∧ Z.of_nat r + rounds_left st ≤ n)
    ∧ m = Z.to_nat (rounds_left st)) _ (Z.to_nat (rounds_left st))); [| |by split; [exists 0%nat|]].
  - intros m k [(r & Hr & _) _] Hstop. by eapply bfs_done.
  - intros m k [(r & Hr & Hl) ->] Hstop. split; [apply pushing_exists|].
    intros ts Hts. eapply round_ends_mono; [|by apply (bfs_round_ends start_v r)].
    cbv beta. intros s' (st' & E' & Hinv & Hlt). by eexists _, st'.
Qed.

(** breadth-first search is correct under every interleaving.  The workers of a round
    read [visited], exchange [parent], write [visited] and set bits of the next frontier
    one operation at a time, in any order the scheduler picks and with the active
    vertices distributed among them in any way.  No run faults or goes on for ever, and
    when the kernel ends, [parent] holds the distance of every vertex from the start. *)
Theorem bfs_concurrent start_v frontierA frontierB vt0 eng :
  bfs_ready start_v frontierA frontierB vt0 eng →
  ∃ st, bfs_enter start_v frontierA frontierB vt0 eng = Ok st
    ∧ ends bfs_stop bfs_tasks bfs_open bfs_close (λ st', distances start_v (vtable st')) (Head st).
Proof.
  intros Hready. destruct (bfs_runs _ _ _ _ _ Hready) as (st & E & Hends). exists st. split; [done|].
  by eapply ends_in_mono, Hends.
Qed.
End bfs.
