(* ===== verification/Kcore.v ===== *)
(** * Kcore: k-core decomposition ([kcore.hpp])

    Vertices of degree below [k] are removed round by round, each removal
    decrementing its neighbours' counters.  [kcore_correct] shows that on a
    symmetric graph the vertices left with a counter of at least [k] are exactly
    those of the k-core, the largest set in which every vertex has [k] neighbours. *)

From S2P Require Import Prelude Platform VertexTable Bitmap Engine EdgeEngine.

Section kcore.
  Context {BU : BuildOptions} {BO : Boost} {OS : Os} {CB : Combinable} {SC : Scheduler}.
  Context {EO : EngineOps} {EE : EdgeEngine}.
  Abbreviation n := (g_n eng_graph).
  Abbreviation adj := (g_adj eng_graph).
  Abbreviation gdeg := (g_deg eng_graph).

(** [kcore_vertex] is its [degree] field; [fetch_sub(1)] returns the old value. *)
Definition subtract_degree (d : Z) : Z * Z := (d, u32 (d - 1)).

Abbreviation push_state := (list Z * Bitmap)%type.

Definition kcore_push (k : Z) (t : nat) (v : Z) (edges : list Z) (m : Z) (st : push_state)
    : result push_state :=
  for_u32 0 m (λ i '(vtable, next_frontier),
    w ← aget edges i;
    d ← aget vtable w;
    let '(old, d) := subtract_degree d in
    vtable ← aset vtable w d;
    if bool_decide (old = k) then
      '(_, next_frontier) ← set_bit t w next_frontier; Ok (vtable, next_frontier)
    else Ok (vtable, next_frontier)) st.

Record kcore_state := KcoreState {
  frontier : Bitmap;
  next_frontier : Bitmap;
  degree : list Z;
  rounds : nat;
  engine : eng_state;
}.

(** One evaluation of the [while]; [rounds] only numbers the calls. *)
Definition kcore_step (k : Z) (st : kcore_state) : result (kcore_state + kcore_state) :=
  if is_empty (frontier st) then Ok (inr st)
  else
    '(eng, (vt, next)) ←
      ccy_for_each_active (kcore_push k) (rounds st) (frontier st) 0 n
        (engine st, (degree st, next_frontier st));
    cleared ← clear (rounds st) (frontier st);
    Ok (inl (KcoreState next cleared vt (S (rounds st)) eng)).

(** The body of the initial loop. *)
Definition kcore_init (k : Z) (idx : list vertex) (num_edges : Z) (t : nat) (v : Z)
    (st : push_state) : result push_state :=
  d ← get_num_edges v idx n num_edges;
  vtable ← aset st.1 v d;
  if bool_decide (d < k) then
    '(_, f) ← set_bit t v st.2; Ok (vtable, f)
  else Ok (vtable, st.2).

(** [operator()] up to its [while]. *)
Definition kcore_enter (k : Z) (idx : list vertex) (num_edges : Z)
    (frontierA frontierB : Bitmap) (vtable : list Z) (eng : eng_state) : result kcore_state :=
  '(vt, f) ← parallel_for 0 0 n (λ t lo hi, for_u32 lo hi (kcore_init k idx num_edges t))
               (vtable, frontierA);
  Ok (KcoreState f frontierB vt 1 eng).

Definition kcore_kernel (fuel : nat) (k : Z) (idx : list vertex) (num_edges : Z)
    (frontierA frontierB : Bitmap) (vtable : list Z) (eng : eng_state) : result kcore_state :=
  st ← kcore_enter k idx num_edges frontierA frontierB vtable eng;
  loopM fuel (kcore_step k) st.

(** [kth_core_membership]: the size of the k-core, as [print_result] logs it. *)
Definition kth_core_membership (r : nat) (vtable : list Z) (total_verts t_k : Z) : result Z :=
  parallel_reduce r 0 total_verts 0 (λ a b, for_u32 a b (λ i init,
      is_member ← (d ← aget vtable i; Ok (bool_decide (t_k ≤ d)));
      Ok (if is_member : bool then u32 (init + 1) else init)))
    (λ t_a t_b, u32 (t_a + t_b)).

(** ** Cores *)

Definition symmetric : Prop :=
  ∀ v w, 0 ≤ v < n → 0 ≤ w < n → occ w (adj v) = occ v (adj w).

(** The edges from [v] into a set of vertices. *)
Definition edges_into (S : Z → bool) (v : Z) : Z := zcount S (adj v).

(** [S] is a set of vertices in which every vertex has [k] neighbours. *)
Definition k_dense (k : Z) (S : Z → bool) : Prop :=
  ∀ v, 0 ≤ v < n → S v = true → k ≤ edges_into S v.

(** The edges a vertex has lost to the removed vertices [R]. *)
Definition lost (R : list Z) (v : Z) : Z := zsum (λ u, occ v (adj u)) R.

Section facts.
  Context (Hsym : symmetric).

Lemma lost_in (R : list Z) v :
  NoDup R → (∀ u, u ∈ R → 0 ≤ u < n) → 0 ≤ v < n →
  lost R v = zcount (λ x, bool_decide (x ∈ R)) (adj v).
Proof.
  intros Hnd HR Hv. rewrite <- zsum_occ by done. apply zsum_ext. intros u Hu. by apply Hsym; auto.
Qed.

Lemma lost_le (R : list Z) v :
  NoDup R → (∀ u, u ∈ R → 0 ≤ u < n) → 0 ≤ v < n → 0 ≤ lost R v ≤ gdeg v.
Proof. intros. rewrite lost_in by done. apply zcount_bounds. Qed.

(** A vertex of a dense set that avoids [R] keeps [k] edges. *)
Lemma dense_bound k T R v :
  k_dense k T → NoDup R → (∀ u, u ∈ R → 0 ≤ u < n) → (∀ u, u ∈ R → T u = false) →
  0 ≤ v < n → T v = true → k ≤ gdeg v - lost R v.
Proof.
  intros HT Hnd HR HRT Hv HTv. specialize (HT v Hv HTv). rewrite lost_in by done.
  pose proof (zcount_disjoint T (λ x, bool_decide (x ∈ R)) (adj v)) as Hd.
  unfold edges_into, g_deg in *. enough (zcount T (adj v) + zcount (λ x, bool_decide (x ∈ R)) (adj v)
    ≤ zlen (adj v)) by lia. apply Hd.
  intros x _ Hx. apply bool_decide_eq_false. intros Hin%HRT. congruence.
Qed.

(** ** One push *)

(** The counters and the next frontier after each vertex [w] lost [L w] more
    edges, starting from the removed vertices [R]. *)
Record pushed (k : Z) (R : list Z) (L : Z → Z) (st : push_state) : Prop := {
  pu_len : zlen st.1 = n;
  pu_wf : bm_wf st.2;
  pu_size : size st.2 = n;
  pu_degree w : 0 ≤ w < n → at_ st.1 w = gdeg w - lost R w - L w;
  pu_next w : 0 ≤ w < n →
    bm_get st.2 w = bool_decide (k ≤ gdeg w - lost R w ∧ gdeg w - lost R w - L w < k);
}.

Lemma kcore_pushed_ext k R L L' st :
  (∀ w, 0 ≤ w < n → L w = L' w) → pushed k R L st → pushed k R L' st.
Proof.
  intros HL [H1 H2 H3 H4 H5]. split; try done; intros w Hw.
  - rewrite H4, HL by done. done.
  - rewrite H5, HL by done. done.
Qed.

Definition push_body (k : Z) (t : nat) (w : Z) (st : push_state) : result push_state :=
  d ← aget st.1 w;
  vtable ← aset st.1 w (u32 (d - 1));
  if bool_decide (d = k) then
    '(_, next_frontier) ← set_bit t w st.2; Ok (vtable, next_frontier)
  else Ok (vtable, st.2).

Lemma kcore_push_body_ok k R L t w st :
  0 ≤ w < n → (∀ x, 0 ≤ L x) → L w + 1 ≤ gdeg w - lost R w < 2 ^ 32 → pushed k R L st →
  ∃ st', push_body k t w st = Ok st'
    ∧ pushed k R (λ x, L x + Z.b2z (bool_decide (w = x))) st'.
Proof.
  intros Hw HL0 HL [Hl Hwf Hs Hd Hn]. pose proof (HL0 w). unfold push_body.
  rewrite aget_at, bind_ok, aset_ok, bind_ok by lia. rewrite Hd, u32_id' by lia.
  assert (Hat : ∀ x, 0 ≤ x < n → at_ (<[Z.to_nat w:=gdeg w - lost R w - L w - 1]> st.1) x
      = gdeg x - lost R x - (L x + Z.b2z (bool_decide (w = x)))).
  { intros x Hx. rewrite at_insert by lia. case_decide as E.
    - subst x. rewrite bool_decide_eq_true_2 by done. simpl. lia.
    - rewrite bool_decide_eq_false_2, Hd by done. simpl. lia. }
  case_bool_decide as Ek.
  - destruct (set_bit_spec t w st.2 Hwf) as (b & -> & Hwf' & Hs' & Hb); [lia|].
    rewrite bind_ok. eexists; split; [done|]. split; simpl; [by rewrite zlen_insert|done|lia|done|].
    intros x Hx. rewrite Hb, Hn by lia. apply eq_true_iff_eq.
    rewrite orb_true_iff, !bool_decide_eq_true. case_bool_decide; simpl; [subst x|]; lia.
  - eexists; split; [done|]. split; simpl; [by rewrite zlen_insert|done|lia|done|].
    intros x Hx. rewrite Hn by lia. apply bool_decide_ext.
    case_bool_decide; simpl; [subst x|]; lia.
Qed.

Lemma kcore_push_body k t edges m st :
  ∀ v, kcore_push k t v edges m st = for_u32 0 m (λ i st, w ← aget edges i; push_body k t w st) st.
Proof.
  intros v. unfold kcore_push, for_u32. apply forM_ext. by intros i [vt nf] _.
Qed.

(** Pushing all edges of a vertex not removed before. *)
Lemma kcore_push_ok k R dn t v st :
  NoDup (v :: dn ++ R) → (∀ u, u ∈ v :: dn ++ R → 0 ≤ u < n) →
  (∀ w, 0 ≤ w < n → gdeg w < 2 ^ 32) → pushed k R (lost dn) st →
  ∃ st', kcore_push k t v (adj v) (gdeg v) st = Ok st' ∧ pushed k R (lost (v :: dn)) st'.
Proof.
  intros Hnd HR H32 Hp. rewrite kcore_push_body.
  destruct (edge_loop eng_graph (λ pre, pushed k R (λ w, lost dn w + occ w pre)) (push_body k t) v st)
    as (st' & E & Hp'); [apply eng_graph_wf|set_solver| | |exists st'; split; [done|]].
  - eapply kcore_pushed_ext; [|exact Hp]. intros w _. simpl. unfold occ, zcount, zsum. simpl. lia.
  - intros pre w suf st1 Hadj Hw Hp1.
    assert (Hlost : ∀ x, 0 ≤ lost dn x) by (intros x; apply zsum_nonneg; intros; apply occ_nonneg).
    destruct (kcore_push_body_ok k R (λ w, lost dn w + occ w pre) t w st1 Hw) as (st2 & E & Hp2); [|  |done|].
    + intros x. pose proof (occ_nonneg x pre). specialize (Hlost x). lia.
    + pose proof (lost_le (v :: dn ++ R) w Hnd HR Hw) as Hb. unfold lost in Hb.
      rewrite zsum_cons, zsum_app in Hb. fold (lost dn w) (lost R w) in Hb. rewrite Hadj in Hb.
      rewrite occ_app, occ_cons, (bool_decide_eq_true_2 (w = w)) in Hb by done.
      simpl Z.b2z in Hb. pose proof (occ_nonneg w suf). pose proof (H32 w Hw).
      pose proof (zsum_nonneg (λ u, occ w (adj u)) R) as HRn. fold (lost R w) in HRn.
      assert (0 ≤ lost R w) by (apply HRn; intros; apply occ_nonneg). lia.
    + exists st2. split; [done|]. eapply kcore_pushed_ext; [|exact Hp2]. intros x _. simpl.
      rewrite occ_snoc. lia.
  - eapply kcore_pushed_ext; [|exact Hp']. intros w _. unfold lost. cbv beta. rewrite zsum_cons. lia.
Qed.

(** ** One round *)

(** At the head of a round, [R] has been removed; the frontier are the vertices
    that have lost too many edges and are still to be removed. *)
Record round_inv (k : Z) (R : list Z) (st : kcore_state) : Prop := {
  ri_len : zlen (degree st) = n;
  ri_front : bm_wf (frontier st) ∧ size (frontier st) = n;
  ri_next : bm_wf (next_frontier st) ∧ size (next_frontier st) = n
            ∧ ∀ v, 0 ≤ v < n → bm_get (next_frontier st) v = false;
  ri_eng : eng_ok (engine st);
  ri_removed : NoDup R ∧ ∀ u, u ∈ R → 0 ≤ u < n ∧ gdeg u - lost R u < k;
  ri_degree v : 0 ≤ v < n → at_ (degree st) v = gdeg v - lost R v;
  ri_frontier v : 0 ≤ v < n →
    bm_get (frontier st) v = bool_decide (gdeg v - lost R v < k ∧ v ∉ R);
  ri_safe T : k_dense k T → ∀ u, u ∈ R → T u = false;
}.

Definition front (st : kcore_state) : list Z :=
  filter (λ v, bm_get (frontier st) v = true) (rng 0 n).

Lemma lost_app R1 R2 v : lost (R1 ++ R2) v = lost R1 v + lost R2 v.
Proof. apply zsum_app. Qed.

Lemma lost_nil v : lost [] v = 0.
Proof. done. Qed.

Lemma lost_nonneg R v : 0 ≤ lost R v.
Proof. apply zsum_nonneg. intros. apply occ_nonneg. Qed.

Lemma elem_of_front st v : v ∈ front st ↔ 0 ≤ v < n ∧ bm_get (frontier st) v = true.
Proof. unfold front. rewrite list_elem_of_filter, elem_of_rng. tauto. Qed.

Lemma front_removed k R st :
  round_inv k R st →
  NoDup (front st ++ R) ∧ ∀ u, u ∈ front st ++ R → 0 ≤ u < n.
Proof.
  intros Hri. destruct (ri_removed _ _ _ Hri) as [Hnd HR]. split.
  - apply NoDup_app. split; [apply NoDup_filter, NoDup_rng|]. split; [|done].
    intros v [Hv Hb]%elem_of_front. rewrite (ri_frontier _ _ _ Hri) in Hb by done.
    apply bool_decide_eq_true in Hb as [_ ?]. done.
  - intros u [[Hu _]%elem_of_front|Hu%HR]%elem_of_app; [done|apply Hu].
Qed.

(** What the engine leaves behind: the frontier's edges are removed. *)
Lemma kcore_push_all k R st :
  (∀ w, 0 ≤ w < n → gdeg w < 2 ^ 32) → round_inv k R st →
  ∃ eng vt nx, ccy_for_each_active (kcore_push k) (rounds st) (frontier st) 0 n
      (engine st, (degree st, next_frontier st)) = Ok (eng, (vt, nx))
    ∧ eng_ok eng ∧ pushed k R (lost (front st)) (vt, nx).
Proof.
  intros H32 Hri. pose proof Hri as [Hlen [Hfw Hfs] (Hnw & Hns & Hnb) Heng [HRnd HR] Hdeg Hfr Hsafe].
  destruct (ccy_for_each_active_spec (kcore_push k)
    (λ dn st', NoDup (dn ++ R) ∧ (∀ u, u ∈ dn ++ R → 0 ≤ u < n) ∧ pushed k R (lost dn) st')
    (rounds st) (frontier st) 0 n (engine st) (degree st, next_frontier st))
    as (eng & [vt nx] & l & E & Hok & Hcov & _ & _ & Hp).
  - apply Hfw.
  - done.
  - intros t v dn u Hv _ Ha Hnin (Hnd & Hr & Hp).
    assert (v ∉ R) by (rewrite Hfr in Ha by done; by apply bool_decide_eq_true in Ha as [_ ?]).
    assert (NoDup (v :: dn ++ R)) by (apply NoDup_cons; rewrite not_elem_of_app; done).
    assert (∀ u, u ∈ v :: dn ++ R → 0 ≤ u < n) by (intros x [->|Hx]%elem_of_cons; auto).
    destruct (kcore_push_ok k R dn t v u) as (u' & E & Hp'); [done..|]. by exists u'.
  - lia.
  - lia.
  - done.
  - split; [done|]. split; [intros u Hu; by apply HR|].
    split; [done|done|done| |]; intros w Hw; rewrite lost_nil; cbn [fst snd].
    + rewrite Hdeg by done. lia.
    + rewrite Hnb by done. symmetry. apply bool_decide_eq_false. lia.
  - exists eng, vt, nx. split; [done|]. split; [done|]. eapply kcore_pushed_ext; [|exact Hp].
    intros w Hw. apply (covers_zsum _ _ _ _ _ Hcov); [apply NoDup_rng|].
    intros x _ Hx. unfold g_deg, zlen in Hx. destruct (adj x); [done|simpl in Hx; lia].
Qed.

(** The state after the round. *)
Lemma kcore_next_inv k R st cl vt nx r eng :
  round_inv k R st → pushed k R (lost (front st)) (vt, nx) → eng_ok eng →
  bm_wf cl → size cl = n → (∀ v, 0 ≤ v < n → bm_get cl v = false) →
  round_inv k (front st ++ R) (KcoreState nx cl vt r eng).
Proof.
  intros Hri [Pl Pw Ps Pd Pn] Heng Hcw Hcs Hcb. simpl in *.
  pose proof (front_removed _ _ _ Hri) as [Hnd Hin]. pose proof Hri as [_ _ _ _ [_ HR] _ Hfr Hsafe].
  split; simpl; try done.
  - split; [done|]. intros u Hu. split; [by apply Hin|]. rewrite lost_app.
    pose proof (lost_nonneg (front st) u).
    apply elem_of_app in Hu as [[Hu Hb]%elem_of_front|Hu%HR]; [|lia].
    rewrite Hfr in Hb by done. apply bool_decide_eq_true in Hb as [? _]. lia.
  - intros v Hv. rewrite Pd, lost_app by done. lia.
  - intros v Hv. rewrite Pn, lost_app by done. apply bool_decide_ext.
    rewrite not_elem_of_app, elem_of_front, Hfr by done. rewrite bool_decide_eq_true.
    pose proof (lost_nonneg (front st) v). destruct (decide (v ∈ R)) as [Hv'|Hv'].
    + specialize (HR v Hv'). split; [lia|tauto].
    + split; [intros [??]; split; [lia|]; split; [intros (_ & ? & _); lia|done]|].
      intros [? [Hnf _]]. split; [|lia].
      destruct (decide (k ≤ gdeg v - lost R v)); [done|]. destruct Hnf. split; [done|]. split; [lia|done].
  - intros T HT u [[Hu Hb]%elem_of_front|Hu]%elem_of_app; [|by apply (Hsafe T HT)].
    rewrite Hfr in Hb by done. apply bool_decide_eq_true in Hb as [Hlt _].
    destruct (T u) eqn:ET; [|done].
    pose proof (dense_bound k T R u HT) as Hd. apply NoDup_app in Hnd as (_ & _ & HndR).
    assert (k ≤ gdeg u - lost R u); [|lia].
    apply Hd; [done|intros; by apply Hin, elem_of_app; right|by apply Hsafe|done|done].
Qed.

Lemma front_nonempty k R st : round_inv k R st → is_empty (frontier st) = false → front st ≠ [].
Proof using Type.
  intros Hri He Hnil. destruct (ri_front _ _ _ Hri) as [Hfw Hfs].
  assert (is_empty (frontier st) = true); [|congruence].
  apply is_empty_spec; [done|]. rewrite Hfs. intros i Hi.
  destruct (bm_get (frontier st) i) eqn:Eb; [|done].
  assert (i ∈ front st) as Hif by (by apply elem_of_front). rewrite Hnil in Hif.
  by apply not_elem_of_nil in Hif.
Qed.

Lemma kcore_round k R st :
  (∀ w, 0 ≤ w < n → gdeg w < 2 ^ 32) → round_inv k R st → is_empty (frontier st) = false →
  ∃ st', kcore_step k st = Ok (inl st') ∧ round_inv k (front st ++ R) st' ∧ front st ≠ [].
Proof.
  intros H32 Hri He. destruct (kcore_push_all k R st H32 Hri) as (eng & vt & nx & E & Hok & Hp).
  pose proof (ri_front _ _ _ Hri) as [Hfw Hfs].
  destruct (clear_spec (rounds st) (frontier st)) as (cl & Ec & Hcw & Hcs & Hcb); [apply Hfw|].
  exists (KcoreState nx cl vt (S (rounds st)) eng). split; [|split; [|by eapply front_nonempty]].
  - unfold kcore_step. rewrite He, E, bind_ok. cbv beta iota. by rewrite Ec.
  - apply kcore_next_inv; [done..|lia|]. intros v Hv. apply Hcb. lia.
Qed.

(** The loop ends with every removable vertex removed. *)
Lemma removed_length k R st : round_inv k R st → (length R ≤ Z.to_nat n)%nat.
Proof.
  intros Hri. destruct (ri_removed _ _ _ Hri) as [Hnd HR].
  rewrite <- (Z.sub_0_r n), <- (length_rng 0 n). apply NoDup_incl_length; [by apply NoDup_ListNoDup|].
  intros u Hu%list_elem_of_In. apply list_elem_of_In, elem_of_rng. by apply HR.
Qed.

Lemma kcore_loop k fuel R st :
  (∀ w, 0 ≤ w < n → gdeg w < 2 ^ 32) → round_inv k R st → (Z.to_nat n < fuel)%nat →
  ∃ R' st', loopM fuel (kcore_step k) st = Ok st' ∧ round_inv k R' st'
    ∧ is_empty (frontier st') = true.
Proof.
  intros H32 Hri Hfuel. pose proof (removed_length _ _ _ Hri).
  destruct (loopM_total_ind (λ m st, ∃ R, round_inv k R st ∧ (m = Z.to_nat n - length R)%nat)
    (λ st', ∃ R', round_inv k R' st' ∧ is_empty (frontier st') = true)
    (kcore_step k) fuel (Z.to_nat n - length R) st) as (st' & E & R' & Hr).
  - by exists R.
  - lia.
  - intros m st1 (R1 & Hri1 & ->). destruct (is_empty (frontier st1)) eqn:Ee.
    + exists (inr st1). unfold kcore_step. rewrite Ee. split; [done|]. by exists R1.
    + destruct (kcore_round k R1 st1 H32 Hri1 Ee) as (st2 & E & Hri2 & Hne).
      exists (inl st2). split; [done|]. pose proof (removed_length _ _ _ Hri2) as Hl.
      rewrite length_app in Hl. destruct (front st1) as [|x F] eqn:EF; [done|].
      rewrite <- EF in *. eexists. split; [by eexists|]. rewrite length_app, EF in *. simpl in *. lia.
  - exists R', st'. naive_solver.
Qed.

(** The state of the loop after initialisation. *)
Lemma kcore_init_ok k idx num_edges f vt0 :
  zlen vt0 = n → bm_wf f → size f = n → (∀ v, 0 ≤ v < n → bm_get f v = false) →
  (∀ v, 0 ≤ v < n → get_num_edges v idx n num_edges = Ok (gdeg v)) →
  ∃ vt f', parallel_for 0 0 n (λ t lo hi, for_u32 lo hi (kcore_init k idx num_edges t)) (vt0, f)
      = Ok (vt, f')
    ∧ zlen vt = n ∧ bm_wf f' ∧ size f' = n
    ∧ ∀ v, 0 ≤ v < n → at_ vt v = gdeg v ∧ bm_get f' v = bool_decide (gdeg v < k).
Proof.
  intros Hl Hw Hs Hb Hdeg.
  destruct (parallel_for_inv (λ done st, zlen st.1 = n ∧ bm_wf st.2 ∧ size st.2 = n
      ∧ (∀ v, v ∈ done → at_ st.1 v = gdeg v)
      ∧ ∀ v, 0 ≤ v < n → bm_get st.2 v = bool_decide (v ∈ done ∧ gdeg v < k)) 0 0 n
    (kcore_init k idx num_edges) (vt0, f))
    as ([vt f'] & done & E & Hp & Hl' & Hw' & Hs' & Hd & Hb'); simpl in *.
  - split; [done|]. split; [done|]. split; [done|]. split; [set_solver|].
    intros v Hv. by rewrite Hb by done.
  - intros t done v [vt f1] Hnd Hv Hdone (Hl1 & Hw1 & Hs1 & Hd1 & Hb1). simpl in *.
    unfold kcore_init. simpl. rewrite Hdeg, bind_ok, aset_ok, bind_ok by lia.
    assert (Hvt : ∀ x, x ∈ v :: done → at_ (<[Z.to_nat v:=gdeg v]> vt) x = gdeg x).
    { intros x Hx. assert (0 ≤ x) by (apply elem_of_cons in Hx as [->|Hx%Hdone]; lia).
      rewrite at_insert by lia. case_decide; [by subst|]. apply Hd1. set_solver. }
    apply NoDup_cons in Hnd as [Hnin _]. case_bool_decide as Ek.
    + destruct (set_bit_spec t v f1 Hw1) as (f2 & -> & Hw2 & Hs2 & Hb2); [lia|]. rewrite bind_ok.
      eexists; split; [done|]. simpl. rewrite zlen_insert. split; [done|]. split; [done|].
      split; [lia|]. split; [done|]. intros x Hx. rewrite Hb2, Hb1 by lia.
      apply eq_true_iff_eq. rewrite orb_true_iff, !bool_decide_eq_true, elem_of_cons. naive_solver.
    + eexists; split; [done|]. simpl. rewrite zlen_insert. split; [done|]. split; [done|].
      split; [done|]. split; [done|]. intros x Hx. rewrite Hb1 by lia. apply bool_decide_ext.
      rewrite elem_of_cons. naive_solver.
  - exists vt, f'. split; [done|]. split; [done|]. split; [done|]. split; [done|].
    intros v Hv. assert (v ∈ done) by (rewrite Hp; by apply elem_of_rng).
    split; [by apply Hd|]. rewrite Hb' by done. apply bool_decide_ext. tauto.
Qed.
End facts.

(** The counters of a table tell the k-core: the largest set in which every
    vertex keeps [k] edges. *)
Definition is_core (k : Z) (vt : list Z) : Prop :=
  k_dense k (λ v, bool_decide (k ≤ at_ vt v))
  ∧ ∀ T, k_dense k T → ∀ v, 0 ≤ v < n → T v = true → k ≤ at_ vt v.

(** What the kernel starts from. *)
Record kcore_ready (idx : list vertex) (num_edges : Z) (frontierA frontierB : Bitmap)
    (vt0 : list Z) (eng : eng_state) : Prop := {
  kr_eng : eng_ok eng;
  kr_degree v : 0 ≤ v < n → get_num_edges v idx n num_edges = Ok (gdeg v) ∧ gdeg v < 2 ^ 32;
  kr_A : bm_wf frontierA ∧ size frontierA = n ∧ ∀ v, 0 ≤ v < n → bm_get frontierA v = false;
  kr_B : bm_wf frontierB ∧ size frontierB = n ∧ ∀ v, 0 ≤ v < n → bm_get frontierB v = false;
  kr_table : zlen vt0 = n;
}.

Lemma kcore_enter_ok k idx num_edges frontierA frontierB vt0 eng :
  symmetric → kcore_ready idx num_edges frontierA frontierB vt0 eng →
  ∃ st, kcore_enter k idx num_edges frontierA frontierB vt0 eng = Ok st ∧ round_inv k [] st.
Proof.
  intros Hsym [He Hdeg (HAw & HAs & HAb) (HBw & HBs & HBb) Hl0]. unfold kcore_enter.
  destruct (kcore_init_ok Hsym k idx num_edges frontierA vt0) as (vt & f & -> & Hl & Hw & Hs & Hv);
    [done..|intros v Hv; by apply Hdeg|]. rewrite bind_ok. cbv beta iota.
  eexists; split; [done|]. split; simpl; try done; [split; [constructor|set_solver]| | |set_solver].
  - intros v Hv0. change (lost [] v) with 0. destruct (Hv v Hv0). lia.
  - intros v Hv0. change (lost [] v) with 0. rewrite Z.sub_0_r. destruct (Hv v Hv0) as [_ ->].
    apply bool_decide_ext. set_solver.
Qed.

(** With an empty frontier the counters tell the core. *)
Lemma kcore_done k R st :
  symmetric → round_inv k R st → is_empty (frontier st) = true → is_core k (degree st).
Proof.
  intros Hsym Hri Hemp. destruct (ri_removed _ _ _ Hri) as [Hnd HR].
  destruct (ri_front _ _ _ Hri) as [Hfw Hfs]. rewrite is_empty_spec, Hfs in Hemp by done.
  assert (HinR : ∀ v, 0 ≤ v < n → at_ (degree st) v < k ↔ v ∈ R).
  { intros v Hv0. rewrite (ri_degree _ _ _ Hri) by done. split; [|intros Hin; by apply HR].
    intros Hlt. destruct (decide (v ∈ R)); [done|]. specialize (Hemp v Hv0).
    rewrite (ri_frontier _ _ _ Hri) in Hemp by done. by apply bool_decide_eq_false in Hemp as []. }
  destruct eng_graph_wf as [_ Hwf]. split.
  - intros v Hv0 Hk%bool_decide_eq_true. rewrite (ri_degree _ _ _ Hri) in Hk by done.
    rewrite (lost_in Hsym) in Hk by (done || intros; by apply HR).
    unfold g_deg in Hk. rewrite <- zcount_negb in Hk. unfold edges_into.
    etrans; [exact Hk|]. apply Z.eq_le_incl, zsum_ext. intros x Hx. f_equal.
    pose proof (HinR x ltac:(eauto)) as H. apply eq_true_iff_eq.
    rewrite negb_true_iff, bool_decide_eq_false, bool_decide_eq_true.
    rewrite <- H. lia.
  - intros T HT v Hv0 HTv. destruct (decide (k ≤ at_ (degree st) v)) as [|Hlt]; [done|].
    assert (v ∈ R) as Hin by (apply HinR; [done|lia]).
    rewrite (ri_safe _ _ _ Hri T HT v Hin) in HTv. done.
Qed.

Lemma kcore_kernel_ok fuel k idx num_edges frontierA frontierB vt0 eng :
  symmetric → (Z.to_nat n < fuel)%nat → kcore_ready idx num_edges frontierA frontierB vt0 eng →
  ∃ st, kcore_kernel fuel k idx num_edges frontierA frontierB vt0 eng = Ok st
    ∧ is_core k (degree st).
Proof.
  intros Hsym Hfuel Hready. unfold kcore_kernel.
  destruct (kcore_enter_ok k _ _ _ _ _ _ Hsym Hready) as (st0 & -> & Hri0). rewrite bind_ok.
  destruct (kcore_loop Hsym k fuel [] st0) as (R & st & -> & Hri & Hemp);
    [intros w Hw; by apply (kr_degree _ _ _ _ _ _ Hready)|done..|].
  exists st. split; [done|]. by eapply kcore_done.
Qed.

(** C14: the k-core kernel is correct and terminates.  On a symmetric
    graph, for every scheduling of the workers and with fuel for one round per
    vertex, the run ends without a fault; the vertices whose counter is at least
    [k] then form a set in which every vertex keeps [k] edges into the set, and
    every other such set is contained in it: they are the k-core. *)
Theorem kcore_correct fuel k idx num_edges frontierA frontierB vt0 eng :
  symmetric → (Z.to_nat n < fuel)%nat → eng_ok eng →
  (∀ v, 0 ≤ v < n → get_num_edges v idx n num_edges = Ok (gdeg v) ∧ gdeg v < 2 ^ 32) →
  bm_wf frontierA → size frontierA = n → (∀ v, 0 ≤ v < n → bm_get frontierA v = false) →
  bm_wf frontierB → size frontierB = n → (∀ v, 0 ≤ v < n → bm_get frontierB v = false) →
  zlen vt0 = n →
  ∃ st, kcore_kernel fuel k idx num_edges frontierA frontierB vt0 eng = Ok st
    ∧ is_core k (degree st).
Proof. intros. by apply kcore_kernel_ok. Qed.

(** the reported size of the k-core is the number of vertices whose
    counter is at least [k], however the reduction is split over the workers. *)
Theorem kth_core_membership_correct r vtable total_verts t_k :
  0 ≤ total_verts < 2 ^ 32 → zlen vtable = total_verts →
  kth_core_membership r vtable total_verts t_k
  = Ok (zcount (λ v, bool_decide (t_k ≤ at_ vtable v)) (rng 0 total_verts)).
Proof.
  intros Hn Hl. unfold kth_core_membership.
  rewrite (parallel_reduce_count r 0 total_verts _ (λ v, bool_decide (t_k ≤ at_ vtable v))).
  - pose proof (zcount_bounds (λ v, bool_decide (t_k ≤ at_ vtable v)) (rng 0 total_verts)) as Hb.
    unfold zlen in Hb. rewrite length_rng in Hb. by rewrite u32_id' by lia.
  - intros i Hi. by rewrite aget_at by lia.
Qed.
End kcore.
