(* ===== verification/KcoreConcurrent.v ===== *)
(** * KcoreConcurrent: k-core decomposition with racing workers

    [kcore_push_c] is the push function of [kcore.hpp] as the operations other
    threads can see: an atomic subtraction and the operations of [set_bit].
    [kcore_concurrent] shows that the kernel finds the core however the operations
    of the workers are interleaved: of the workers that subtract from the same
    counter exactly one sees it reach [k]. *)

From S2P Require Import Prelude Platform VertexTable Bitmap Engine EdgeEngine Interleaving Workers Kcore.

Section kcore.
  Context {BU : BuildOptions} {BO : Boost} {OS : Os} {CB : Combinable} {SC : Scheduler}.
  Context {EO : EngineOps} {EE : EdgeEngine}.
  Abbreviation n := (g_n eng_graph).
  Abbreviation adj := (g_adj eng_graph).
  Abbreviation gdeg := (g_deg eng_graph).
  Abbreviation push_state := (list Z * Bitmap)%type.

Definition fetch_sub (w : Z) (vt : list Z) : result (list Z * Z) :=
  d ← aget vt w;
  let '(old, d) := subtract_degree d in
  vt ← aset vt w d;
  Ok (vt, old).

Definition push_edge (k : Z) (t : nat) (w : Z) : prog push_state unit :=
  old ← on_table (fetch_sub w);
  if bool_decide (old = k) then
    _ ← set_bit_c t w;
    mret ()
  else mret ().

Definition kcore_push_c (k : Z) (t : nat) (v : Z) : prog push_state unit :=
  each (adj v) (push_edge k t).

(** ** Without interruption *)
#[local] Arguments set_bit_c : simpl never.
#[local] Arguments run : simpl never.
Lemma run_kcore_push_edge k t w st :
  run (push_edge k t w) st = ('st ← push_body k t w st; Ok (st, ())).
Proof.
  unfold push_edge, push_body. destruct st as [vt b]. rewrite run_bind, run_on_table.
  unfold fetch_sub, subtract_degree. cbn [fst snd].
  destruct (aget vt w) as [d|]; [|done]. rewrite !bind_ok.
  destruct (aset vt w _) as [vt'|]; [|done]. rewrite !bind_ok. cbv beta iota.
  case_bool_decide; [|done]. rewrite run_bind, run_set_bit.
  by destruct (set_bit t w b) as [[r' b']|].
Qed.

(** A push that is not interrupted is the push of the sequential model. *)
Lemma run_kcore_push k t v st :
  run (kcore_push_c k t v) st = ('st ← kcore_push k t v (adj v) (gdeg v) st; Ok (st, ())).
Proof.
  unfold kcore_push_c. rewrite run_each, kcore_push_body. unfold g_deg. rewrite for_u32_aget.
  rewrite (forM_ext _ _ (push_body k t)); [by destruct (forM _ _ st)|].
  intros w st' _. rewrite run_kcore_push_edge. by destruct (push_body k t w st').
Qed.

(** ** The race *)

(** What a worker knows: the vertex whose counter it has seen reach [k] and not yet
    put into the next frontier, and the vertices it has subtracted from. *)
Record ghost := Ghost { pending : option Z; subtracted : list Z }.

Definition taken (ls : list ghost) (w : Z) : Z := zsum (λ g, occ w (subtracted g)) ls.

Lemma taken_insert ls i g g' w :
  ls !! i = Some g →
  taken (<[i := g']> ls) w = taken ls w + occ w (subtracted g') - occ w (subtracted g).
Proof. apply (zsum_insert (λ g, occ w (subtracted g))). Qed.

Lemma taken_nonneg ls w : 0 ≤ taken ls w.
Proof. apply zsum_nonneg. intros. apply occ_nonneg. Qed.

Section race.
  Context (Hsym : symmetric) (k : Z) (R : list Z) (parts : list (list Z)).
  Context (Hnd : NoDup (concat parts ++ R)).
  Context (Hin : ∀ u, u ∈ concat parts ++ R → 0 ≤ u < n).
  Context (H32 : ∀ w, 0 ≤ w < n → gdeg w < 2 ^ 32).

(** The counter of [w] fell below [k] when it had lost [L] more edges. *)
Definition crossed (L w : Z) : Prop := k ≤ gdeg w - lost R w ∧ gdeg w - lost R w - L < k.

Record racing (vt : list Z) (f : Z → bool) (ls : list ghost) : Prop := {
  ra_len : zlen vt = n;
  ra_prefix : Forall2 (λ g vs, subtracted g `prefix_of` (vs ≫= adj)) ls parts;
  ra_degree w : 0 ≤ w < n → at_ vt w = gdeg w - lost R w - taken ls w;
  ra_flag w : 0 ≤ w < n → f w = true → crossed (taken ls w) w;
  ra_crossed w : 0 ≤ w < n → crossed (taken ls w) w →
    f w = true ∨ ∃ i g, ls !! i = Some g ∧ pending g = Some w;
  ra_pending i g w : ls !! i = Some g → pending g = Some w → 0 ≤ w < n ∧ crossed (taken ls w) w;
}.

Lemma lost_concat w : lost (concat parts) w = zsum (λ vs, occ w (vs ≫= adj)) parts.
Proof using Type.
  clear Hnd Hin. unfold lost. induction parts as [|vs ps IH]; [done|]. cbn [concat].
  rewrite zsum_app, zsum_cons, IH. f_equal. induction vs as [|v vs IHv]; [done|].
  rewrite bind_cons, occ_app, zsum_cons. by rewrite IHv.
Qed.

(** No counter is decremented more often than the vertex has edges. *)
Lemma taken_le ls w :
  Forall2 (λ g vs, subtracted g `prefix_of` (vs ≫= adj)) ls parts → 0 ≤ w < n →
  0 ≤ lost R w ∧ lost R w + taken ls w ≤ gdeg w.
Proof using Hsym Hnd Hin.
  intros HF Hw. split; [apply lost_nonneg|].
  pose proof (lost_le Hsym _ w Hnd Hin Hw) as [_ Hle]. rewrite lost_app, lost_concat in Hle.
  enough (taken ls w ≤ zsum (λ vs, occ w (vs ≫= adj)) parts) by lia. clear -HF. unfold taken.
  induction HF as [|g vs ls ps [suf Hs] _ IH]; [done|].
  rewrite !zsum_cons, Hs, occ_app.
  pose proof (occ_nonneg w suf). lia.
Qed.

(** A subtraction; the worker that sees the counter at [k] has to set the bit. *)
Lemma racing_subtract vt f ls i pre w vs :
  racing vt f ls → ls !! i = Some (Ghost None pre) → 0 ≤ w < n →
  parts !! i = Some vs → (pre ++ [w]) `prefix_of` (vs ≫= adj) →
  u32 (at_ vt w - 1) = at_ vt w - 1
  ∧ racing (<[Z.to_nat w := at_ vt w - 1]> vt) f
      (<[i:=Ghost (if bool_decide (at_ vt w = k) then Some w else None) (pre ++ [w])]> ls).
Proof using Hsym Hnd Hin H32.
  intros [Hl Hpre Hd Hf Hc Hp] Hi Hw Hvs Hpw.
  set (g' := Ghost (if bool_decide (at_ vt w = k) then Some w else None) (pre ++ [w])).
  assert (Ht : ∀ x, taken (<[i:=g']> ls) x = taken ls x + Z.b2z (bool_decide (w = x))).
  { intros x. rewrite (taken_insert _ _ _ _ _ Hi). unfold g'. cbn [subtracted]. rewrite occ_snoc. lia. }
  pose proof (Forall2_insert_l _ _ _ i g' _ Hpre Hvs Hpw) as Hpre'.
  pose proof (taken_le _ w Hpre' Hw) as [H0 Hle]. rewrite Ht, bool_decide_eq_true_2 in Hle by done.
  cbn [Z.b2z] in Hle. pose proof (taken_nonneg ls w). pose proof (H32 w Hw). pose proof (Hd w Hw) as Hdw.
  assert (Hmono : ∀ x, crossed (taken ls x) x → crossed (taken (<[i:=g']> ls) x) x).
  { unfold crossed. intros x [??]. rewrite Ht. case_bool_decide; cbn; lia. }
  assert (Hnew : crossed (taken ls w + 1) w → ¬ crossed (taken ls w) w → at_ vt w = k).
  { unfold crossed. lia. }
  split; [apply u32_id'; lia|]. split; [by rewrite zlen_insert|done|..].
  - intros x Hx. rewrite at_insert, Ht by lia. case_decide as E.
    + subst x. rewrite bool_decide_eq_true_2 by done. cbn. lia.
    + rewrite bool_decide_eq_false_2 by done. rewrite Hd by done. cbn. lia.
  - intros x Hx Hfx. apply Hmono. auto.
  - intros x Hx Hcx. destruct (decide (crossed (taken ls x) x)) as [Hco|Hno].
    + destruct (Hc x Hx Hco) as [?|Hpe]; [by left|]. eapply pending_insert; [done|by left|done].
    + right. exists i, g'. split; [apply list_lookup_insert_eq; by eapply lookup_lt_Some|].
      cbn. rewrite Ht in Hcx. destruct (decide (w = x)) as [->|Hne].
      * rewrite (bool_decide_eq_true_2 (x = x)) in Hcx by done.
        by rewrite bool_decide_eq_true_2 by auto.
      * rewrite (bool_decide_eq_false_2 (w = x)) in Hcx by done. cbn in Hcx.
        by rewrite Z.add_0_r in Hcx.
  - intros j g x [(<- & <- & _)|[_ Hj]]%list_lookup_insert_Some Hg.
    + cbn in Hg. case_bool_decide as Ek; [|done]. simplify_eq. split; [done|].
      rewrite Ht, bool_decide_eq_true_2 by done. unfold crossed. cbn. lia.
    + destruct (Hp j g x Hj Hg) as [Hx Hcx]. split; [done|]. by apply Hmono.
Qed.

(** The bit is set. *)
Lemma kcore_racing_flag vt f f' ls i w O :
  racing vt f ls → ls !! i = Some (Ghost (Some w) O) →
  (∀ j, 0 ≤ j → f' j = bool_decide (j = w) || f j) →
  racing vt f' (<[i:=Ghost None O]> ls).
Proof using Type.
  intros [Hl Hpre Hd Hf Hc Hp] Hi Hf'. destruct (Hp i _ w Hi eq_refl) as (Hw & Hcw).
  assert (Ht : ∀ x, taken (<[i:=Ghost None O]> ls) x = taken ls x).
  { intros x. rewrite (taken_insert _ _ _ _ _ Hi). cbn. lia. }
  split; [done|..].
  - destruct (Forall2_lookup_l _ _ _ _ _ Hpre Hi) as (vs & Hvs & Hpv). by eapply Forall2_insert_l.
  - intros x Hx. rewrite Ht. auto.
  - intros x Hx. rewrite Ht, Hf' by lia. intros [->%bool_decide_eq_true|?]%orb_true_iff; auto.
  - intros x Hx. rewrite Ht, Hf' by lia. intros Hcx. destruct (Hc x Hx Hcx) as [->|Hpe].
    + left. by rewrite orb_true_r.
    + eapply pending_insert; [done| |done]. destruct (decide (x = w)) as [->|]; [|left; cbn; congruence].
      right. left. by rewrite bool_decide_eq_true_2.
  - intros j g x [(<- & <- & _)|[_ Hj]]%list_lookup_insert_Some Hg; [done|]. rewrite Ht. by eapply Hp.
Qed.

Lemma kcore_racing_ext vt f f' ls :
  racing vt f ls → (∀ j, 0 ≤ j → f' j = f j) → racing vt f' ls.
Proof using Type.
  intros [Hl Hpre Hd Hf Hc Hp] He. split; try done; intros w Hw; rewrite He by lia; auto.
Qed.

(** Subtracting from the counter of one vertex. *)
Lemma kcore_push_edge_safe i t pre w suf vs :
  parts !! i = Some vs → vs ≫= adj = pre ++ w :: suf → 0 ≤ w < n →
  safe (with_frontier n racing) i (Ghost None pre) (push_edge k t w)
    (λ g' _, g' = Ghost None (pre ++ [w])).
Proof using Hsym Hnd Hin H32.
  intros Hvs Hadj Hw. apply safe_on_table. intros vt f ls HJ Hi. pose proof (ra_len _ _ _ HJ) as Hl.
  destruct (racing_subtract vt f ls i pre w vs) as [Hu HJ'];
    [done..|exists suf; by rewrite <- app_assoc|].
  unfold fetch_sub, subtract_degree. rewrite aget_at, bind_ok by lia. rewrite Hu, aset_ok, bind_ok by lia.
  eexists _, _, _. split; [done|]. split; [exact HJ'|].
  clear Hi Hl Hu HJ HJ'. generalize (at_ vt w). clear vt f ls. intros d.
  case_bool_decide; [|done]. apply safe_bind.
  eapply (safe_set_bit n racing i _ (Ghost None (pre ++ [w]))); [done|..|by intros].
  - intros. by eapply kcore_racing_ext.
  - intros. by eapply kcore_racing_flag.
Qed.

(** All pushes of a round. *)
Lemma kcore_push_round_ends vt0 nf :
  zlen vt0 = n → (∀ w, 0 ≤ w < n → at_ vt0 w = gdeg w - lost R w) →
  bm_wf nf → size nf = n → (∀ w, 0 ≤ w < n → bm_get nf w = false) →
  round_ends (pushed k R (lost (concat parts)))
    (Cfg (vt0, nf) (imap (λ t vs, each vs (kcore_push_c k t)) parts)).
Proof using EE Hsym Hnd Hin H32.
  intros Hl Hd Hw Hs Hb. pose proof eng_graph_wf as [_ Hgwf].
  assert (H0 : ∀ w, taken ((λ _, Ghost None []) <$> parts) w = 0).
  { intros w. unfold taken. rewrite zsum_fmap. clear. induction parts; [done|]. by rewrite zsum_cons. }
  apply (workers_end (with_frontier n racing) _ _ (Ghost None []) (λ vs, Ghost None (vs ≫= adj))).
  - split; [done|]. split; [done|]. cbn. split; try done.
    + apply Forall2_fmap_l, Forall_Forall2_diag, Forall_true. intros vs. apply prefix_nil.
    + intros w Hw0. rewrite H0, Hd by done. lia.
    + intros w Hw0. by rewrite Hb.
    + intros w Hw0. rewrite H0. unfold crossed. lia.
    + intros i g w (vs & -> & _)%list_lookup_fmap_Some. done.
  - intros i vs Hvs. apply (safe_edges _ adj i vs (push_edge k i) (Ghost None)).
    intros pre w suf Hpre. eapply kcore_push_edge_safe; [done..|].
    assert (w ∈ vs ≫= adj) as (u & Hu & Hvu)%list_elem_of_bind by (rewrite Hpre; set_solver).
    eapply Hgwf; [|done]. apply Hin, elem_of_app. left. apply elem_of_concat. exists vs.
    split; [done|by eapply list_elem_of_lookup_2].
  - intros [vt f] (Hw' & Hs' & HJ). destruct HJ as [Jl Jpre Jd Jf Jc Jp]. cbn [fst snd] in *.
    assert (Ht : ∀ w, taken ((λ vs, Ghost None (vs ≫= adj)) <$> parts) w = lost (concat parts) w).
    { intros w. unfold taken. by rewrite zsum_fmap, lost_concat. }
    split; cbn [fst snd]; try done; intros w Hw0.
    + by rewrite Jd, Ht.
    + apply eq_true_iff_eq. rewrite bool_decide_eq_true. rewrite <- Ht. split; [by apply Jf|].
      intros Hc. destruct (Jc w Hw0 Hc) as [?|(i & g & Hi & Hpe)]; [done|].
      by apply list_lookup_fmap_Some in Hi as (vs & -> & _).
Qed.
End race.

(** ** The kernel *)
Definition kcore_stop (st : kcore_state) : bool := is_empty (frontier st).
Definition kcore_tasks (k : Z) (st : kcore_state) : list (prog push_state unit) → Prop :=
  pushing (kcore_push_c k) (frontier st).
Definition kcore_open (st : kcore_state) : push_state := (degree st, next_frontier st).
Definition kcore_close (st : kcore_state) (s : push_state) : result kcore_state :=
  cleared ← clear (rounds st) (frontier st);
  Ok (KcoreState s.2 cleared s.1 (S (rounds st)) (engine st)).

Lemma kcore_round_ends k R st ts :
  symmetric → (∀ w, 0 ≤ w < n → gdeg w < 2 ^ 32) → round_inv k R st → kcore_tasks k st ts →
  round_ends (λ s, ∃ st', kcore_close st s = Ok st' ∧ round_inv k (front st ++ R) st')
    (Cfg (kcore_open st) ts).
Proof.
  intros Hsym H32 Hri (parts & Hcov & ->). pose proof Hcov as (Hnd & Hin & Hall).
  pose proof (front_removed _ _ _ Hri) as [HndR HinR].
  pose proof Hri as [Hlen [Hfw Hfs] (Hnw & Hns & Hnb) Heng _ Hdeg Hfr _].
  assert (Hpf : ∀ u, u ∈ concat parts → u ∈ front st).
  { intros u [? ?]%Hin. rewrite elem_of_front. by rewrite <- elem_of_rng. }
  eapply round_ends_mono; [|apply (kcore_push_round_ends Hsym k R parts); try done].
  - intros [vt nx] Hp.
    destruct (clear_spec (rounds st) (frontier st)) as (cl & Ec & Hcw & Hcs & Hcb); [apply Hfw|].
    eexists; split; [unfold kcore_close; by rewrite Ec|]. apply kcore_next_inv; try done; [|lia|].
    + eapply kcore_pushed_ext; [|exact Hp]. intros w Hw.
      apply (covers_zsum _ _ _ _ _ Hcov); [apply NoDup_rng|].
      intros x _ Hx. unfold g_deg, zlen in Hx. destruct (adj x); [done|simpl in Hx; lia].
    + intros v Hv. apply Hcb. lia.
  - apply NoDup_app in HndR as (_ & Hdis & HR). apply NoDup_app. auto.
  - intros u [Hu|Hu]%elem_of_app; apply HinR, elem_of_app; auto.
Qed.

(** All runs end, and the engine is always called on a proper frontier. *)
Lemma kcore_runs k idx num_edges frontierA frontierB vt0 eng :
  symmetric → kcore_ready idx num_edges frontierA frontierB vt0 eng →
  ∃ st, kcore_enter k idx num_edges frontierA frontierB vt0 eng = Ok st
    ∧ ends_in kcore_stop (kcore_tasks k) kcore_open kcore_close (λ st, full_frontier (frontier st))
        (λ st', is_core k (degree st')) (Head st).
Proof.
  intros Hsym Hready. destruct (kcore_enter_ok k _ _ _ _ _ _ Hsym Hready) as (st & E & Hri).
  exists st. split; [done|].
  apply (ends_in_mono _ _ _ _ (λ st, ∃ (m : nat) R, round_inv k R st ∧ (m = Z.to_nat n - length R)%nat)); [by intros st1 (m & R & HR & _); apply HR|].
  apply (machine_ends _ _ _ _ (λ m st, ∃ R, round_inv k R st ∧ (m = Z.to_nat n - length R)%nat) _
    (Z.to_nat n)); [| |exists []; split; [done|cbn; lia]].
  - intros m st' (R & HR & _) Hstop. by eapply kcore_done.
  - intros m st1 (R & HR & ->) Hstop. split; [apply pushing_exists|]. intros ts Hts.
    eapply round_ends_mono; [|apply (kcore_round_ends k R st1); [done| |done..]];
      [|intros w Hw; by apply (kr_degree _ _ _ _ _ _ Hready)].
    cbv beta. intros s (st2 & E2 & Hri2). eexists _, st2. split; [done|].
    split; [by eexists|]. pose proof (removed_length _ _ _ Hri2) as Hl. rewrite length_app in *.
    pose proof (front_nonempty _ _ _ HR Hstop). destruct (front st1); [done|]. cbn in *. lia.
Qed.

(** k-core decomposition is correct under every interleaving.  The workers of a round
    subtract from the counters of neighbours and set bits of the next frontier one
    atomic operation at a time, in any order.  On a symmetric graph no run faults or goes
    on for ever, exactly one worker sees a counter cross the threshold, and when the
    kernel ends, the vertices whose counter is at least [k] are the k-core. *)
Theorem kcore_concurrent k idx num_edges frontierA frontierB vt0 eng :
  symmetric → kcore_ready idx num_edges frontierA frontierB vt0 eng →
  ∃ st, kcore_enter k idx num_edges frontierA frontierB vt0 eng = Ok st
    ∧ ends kcore_stop (kcore_tasks k) kcore_open kcore_close
        (λ st', is_core k (degree st')) (Head st).
Proof.
  intros Hsym Hready. destruct (kcore_runs k _ _ _ _ _ _ Hsym Hready) as (st & E & Hends). exists st.
  split; [done|]. by eapply ends_in_mono, Hends.
Qed.
End kcore.
