(* ===== verification/ConnectedComponents.v ===== *)
(** * ConnectedComponents: label propagation ([connected_components.hpp])

    Every vertex starts with its own number as label and pushes its label to its
    neighbours, which keep the smaller one.  [cc_correct] shows that the run
    terminates with the smallest number that reaches each vertex; the lemmas on
    [update_atomic] show that the compare-and-swap loop is an atomic minimum
    whatever the other threads, which only lower labels, do meanwhile. *)

From stdpp Require Import sorting.
From S2P Require Import Prelude Platform VertexTable Bitmap Engine EdgeEngine.

(** ** The compare-and-swap loop *)

(** What happens to the label between two accesses of the loop's [k]-th
    iteration: writes of other threads before the test and before the exchange,
    and whether the weak exchange fails spuriously. *)
Record turn := Turn { before_test : Z → Z; before_cas : Z → Z; spurious : bool }.

Definition should_update (proposed_label id : Z) : bool := bool_decide (proposed_label < id).

Definition update_step (env : nat → turn) (proposed_label : Z) (st : nat * Z * Z)
    : result (nat * Z * Z + bool * Z) :=
  let '(k, current, id) := st in
  let id := before_test (env k) id in
  if should_update proposed_label id then
    let id := before_cas (env k) id in
    if negb (spurious (env k)) && bool_decide (id = current)
    then Ok (inr (true, proposed_label))
    else Ok (inl (S k, id, id))
  else Ok (inr (false, id)).

Definition update_atomic (env : nat → turn) (fuel : nat) (proposed_label id : Z)
    : result (bool * Z) :=
  loopM fuel (update_step env proposed_label) (0%nat, id, id).

(** No interference: the vertex is not touched by another thread meanwhile. *)
Definition quiet_turn : turn := Turn id id false.
Definition quiet : nat → turn := λ _, quiet_turn.

(** [vertex_map] and [vertex_map_shortcut], which no kernel calls. *)
Definition vertex_map : bool := true.

Definition vertex_map_shortcut (vtable : list Z) (id : Z) : result (bool * Z) :=
  let my_id := id in
  l ← aget vtable my_id;
  if bool_decide (my_id ≠ l) then Ok (true, l) else Ok (false, id).

(** Other threads only lower the label, and leave it alone from turn [K] on. *)
Record lowering (env : nat → turn) (K : nat) : Prop := {
  lw_test k x : before_test (env k) x ≤ x;
  lw_cas k x : before_cas (env k) x ≤ x;
  lw_quiet k : (K ≤ k)%nat → ∀ x, before_test (env k) x = x ∧ before_cas (env k) x = x
                                   ∧ spurious (env k) = false;
}.

Lemma update_atomic_quiet p id :
  update_atomic quiet 2 p id = Ok (if bool_decide (p < id) then (true, p) else (false, id)).
Proof.
  unfold update_atomic. simpl. unfold should_update. simpl.
  case_bool_decide; [|done]. by rewrite bool_decide_eq_true_2.
Qed.

(** [update_atomic] is an atomic minimum.  Whatever the other threads
    do, as long as they only lower the label and leave it alone from their
    [K]-th turn on, the loop ends within [K + 1] iterations, the label is at most
    the proposed one and never grows, and the result tells whether this call
    replaced a larger label by the proposed one. *)
Theorem update_atomic_min env K p id :
  lowering env K →
  ∃ b id', update_atomic env (S K) p id = Ok (b, id') ∧ id' ≤ id ∧ id' ≤ p
    ∧ (b = true → id' = p ∧ p < id).
Proof.
  intros [Ht Hc Hq]. unfold update_atomic.
  destruct (loopM_total (λ st, ∃ k x, st = (k, x, x) ∧ x ≤ id ∧ (k ≤ K)%nat)
    (λ r, r.2 ≤ id ∧ r.2 ≤ p ∧ (r.1 = true → r.2 = p ∧ p < id))
    (λ st, K - st.1.1)%nat (update_step env p) (S K) (0%nat, id, id)) as ([b id'] & E & H1 & H2 & H3).
  - exists 0%nat, id. split; [done|lia].
  - simpl. lia.
  - intros st (k & x & -> & Hx & Hk). unfold update_step, should_update.
    pose proof (Ht k x). pose proof (Hc k (before_test (env k) x)).
    case_bool_decide as Hlt; [|eexists; split; [done|]; simpl; lia].
    destruct (negb (spurious (env k)) && bool_decide (before_cas (env k) (before_test (env k) x) = x)) eqn:Eb.
    + apply andb_true_iff in Eb as [_ Eb%bool_decide_eq_true].
      eexists; split; [done|]. simpl. lia.
    + eexists; split; [done|]. assert (k < K)%nat.
      { destruct (decide (K ≤ k)%nat) as [Hge|]; [|lia]. destruct (Hq k Hge x) as (E1 & _ & E3).
        destruct (Hq k Hge (before_test (env k) x)) as (_ & E2 & _).
        rewrite E3, E2, E1, bool_decide_eq_true_2 in Eb by done. done. }
      split; [|simpl; lia]. eexists _, _. split; [done|]. lia.
  - exists b, id'. naive_solver.
Qed.

Section cc.
  Context {BU : BuildOptions} {BO : Boost} {OS : Os} {CB : Combinable} {SC : Scheduler}.
  Context {EO : EngineOps} {EE : EdgeEngine}.
  Abbreviation n := (g_n eng_graph).
  Abbreviation adj := (g_adj eng_graph).

Abbreviation push_state := (list Z * Bitmap)%type.

(** [connected_components_vertex] is its [id] field. *)
Definition CC_push (t : nat) (v : Z) (edges : list Z) (m : Z) (st : push_state)
    : result push_state :=
  my_id ← aget st.1 v;
  for_u32 0 m (λ i '(vtable, next_frontier),
    w ← aget edges i;
    id ← aget vtable w;
    '(updated, id) ← update_atomic quiet 2 my_id id;
    vtable ← aset vtable w id;
    if updated : bool then
      '(_, next_frontier) ← set_bit t w next_frontier; Ok (vtable, next_frontier)
    else Ok (vtable, next_frontier)) st.

Record cc_state := CcState {
  frontier : Bitmap;
  next_frontier : Bitmap;
  labels : list Z;
  rounds : nat;
  engine : eng_state;
}.

Definition cc_step (st : cc_state) : result (cc_state + cc_state) :=
  if is_empty (frontier st) then Ok (inr st)
  else
    '(eng, (vt, next)) ←
      ccy_for_each_active CC_push (rounds st) (frontier st) 0 n
        (engine st, (labels st, next_frontier st));
    cleared ← clear (rounds st) (frontier st);
    Ok (inl (CcState next cleared vt (S (rounds st)) eng)).

(** [operator()] up to its [while]. *)
Definition cc_enter (frontierA frontierB : Bitmap) (vtable : list Z) (eng : eng_state)
    : result cc_state :=
  vt ← parallel_for 0 0 n (λ _ lo hi, for_u32 lo hi (λ v vtable, aset vtable v v)) vtable;
  f ← set_all 0 0 frontierA;
  Ok (CcState f frontierB vt 1 eng).

Definition cc_kernel (fuel : nat) (frontierA frontierB : Bitmap) (vtable : list Z)
    (eng : eng_state) : result cc_state :=
  st ← cc_enter frontierA frontierB vtable eng;
  loopM fuel cc_step st.

(** ** The summary [print_top_n] prints *)
Definition count_step (vtable : list Z) (v : Z) (comp_counts : gmap Z Z) : result (gmap Z Z) :=
  rep_comp ← aget vtable v;
  match comp_counts !! rep_comp with
  | None => Ok (<[rep_comp := 1]> comp_counts)
  | Some c => Ok (<[rep_comp := u32 (c + 1)]> comp_counts)
  end.

(** The order of [std::pair<uint32_t, uint32_t>]. *)
Definition pair_le (a b : Z * Z) : Prop := a.1 < b.1 ∨ a.1 = b.1 ∧ a.2 ≤ b.2.
#[export] Instance pair_le_dec a b : Decision (pair_le a b).
Proof. unfold pair_le. apply _. Defined.

(** The three numbers of the log: all components, non-trivial components, and
    the size of the largest; [std::sort] sorts and [rbegin()] is the last. *)
Definition print_top_n (vtable : list Z) (num_verts : Z) : result (Z * Z * Z) :=
  comp_counts ← for_u32 0 num_verts (count_step vtable) ∅;
  let v := merge_sort pair_le ((λ p, (p.2, p.1)) <$> map_to_list comp_counts) in
  let '(non_trivial, trivial_comps) := fold_left (λ '(nt, tr) (it : Z * Z),
      if bool_decide (1 < it.1) then (nt + 1, tr) else (nt, tr + 1)) (reverse v) (0, 0) in
  match last v with
  | Some (count, _) => Ok (non_trivial + trivial_comps, non_trivial, count)
  | None => Fault OutOfBounds
  end.

(** ** Reachability *)
Definition edge (u v : Z) : Prop := 0 ≤ u < n ∧ v ∈ adj u.
Abbreviation reaches := (rtc edge).

(** A label is the number of a vertex that reaches the labelled one. *)
Definition label_ok (L : list Z) : Prop :=
  zlen L = n ∧ ∀ v, 0 ≤ v < n → 0 ≤ at_ L v ≤ v ∧ reaches (at_ L v) v.

Definition settled (L : list Z) (v : Z) : Prop := ∀ w, w ∈ adj v → at_ L w ≤ at_ L v.

(** ** One push *)

(** The labels and the next frontier, starting from the labels [L0]; the
    vertices of [D] are settled unless they were activated again. *)
Record pushed (L0 : list Z) (D : Z → Prop) (st : push_state) : Prop := {
  pu_label : label_ok st.1;
  pu_wf : bm_wf st.2;
  pu_size : size st.2 = n;
  pu_mono v : 0 ≤ v < n → at_ st.1 v ≤ at_ L0 v;
  pu_next v : 0 ≤ v < n → bm_get st.2 v = true → at_ st.1 v < at_ L0 v;
  pu_settled v : 0 ≤ v < n → D v → bm_get st.2 v = true ∨ settled st.1 v;
}.

Definition push_body (my_id : Z) (t : nat) (w : Z) (st : push_state) : result push_state :=
  id ← aget st.1 w;
  if bool_decide (my_id < id) then
    vtable ← aset st.1 w my_id;
    '(_, next_frontier) ← set_bit t w st.2; Ok (vtable, next_frontier)
  else Ok st.

(** Offering [my_id], the label of [v], to one neighbour [w] of [v]. *)
Lemma cc_push_body_ok L0 D t v w my_id st :
  0 ≤ v < n → 0 ≤ w < n → w ∈ adj v → at_ st.1 v = my_id → pushed L0 D st →
  ∃ st', push_body my_id t w st = Ok st' ∧ pushed L0 D st'
    ∧ at_ st'.1 v = my_id ∧ at_ st'.1 w ≤ my_id
    ∧ ∀ x, 0 ≤ x < n → at_ st'.1 x ≤ at_ st.1 x.
Proof.
  intros Hv Hw Hadj Hid Hp. pose proof Hp as [[Hl Hlab] Hwf Hs Hm Hn Hset].
  unfold push_body. rewrite aget_at, bind_ok by lia. case_bool_decide as Hlt.
  2:{ exists st. split; [done|]. split; [done|]. split; [done|]. split; [lia|]. intros; lia. }
  assert (Hvw : v ≠ w) by (intros ->; lia).
  rewrite aset_ok, bind_ok by lia.
  destruct (set_bit_spec t w st.2 Hwf) as (b & -> & Hwf' & Hs' & Hb); [lia|]. rewrite bind_ok.
  set (L := <[Z.to_nat w:=my_id]> st.1).
  assert (Hat : ∀ x, 0 ≤ x < n → at_ L x = if decide (w = x) then my_id else at_ st.1 x).
  { intros x Hx. apply at_insert; lia. }
  assert (Hmono : ∀ x, 0 ≤ x < n → at_ L x ≤ at_ st.1 x).
  { intros x Hx. rewrite Hat by done. case_decide; [subst; lia|lia]. }
  destruct (Hlab v Hv) as [Hlv Hrv]. destruct eng_graph_wf as [_ Hgwf].
  eexists; split; [done|]. simpl. split; [|split; [|split; [|done]]].
  2:{ rewrite Hat, decide_False by done. done. }
  2:{ rewrite Hat, decide_True by done. lia. }
  split; simpl; [split| | | | |]; [unfold L; by rewrite zlen_insert| |done|lia|..].
  - intros x Hx. destruct (Hlab x Hx) as [Hlx Hrx]. rewrite Hat by done. case_decide as E; [|done].
    subst x. split; [lia|]. apply (rtc_r _ v); [by rewrite <- Hid|by split].
  - intros x Hx. specialize (Hmono x Hx). specialize (Hm x Hx). lia.
  - intros x Hx Hbx. rewrite Hb in Hbx by lia. apply orb_true_iff in Hbx.
    rewrite bool_decide_eq_true in Hbx. rewrite Hat by done. case_decide as E.
    + subst x. specialize (Hm w Hx). lia.
    + apply Hn; [done|]. naive_solver.
  - intros x Hx HD. rewrite Hb by lia. destruct (decide (x = w)) as [->|Hne].
    + left. by rewrite bool_decide_eq_true_2.
    + rewrite bool_decide_eq_false_2 by done. simpl. destruct (Hset x Hx HD) as [|Hs0]; [by left|].
      right. intros y Hy. rewrite (Hat x), decide_False by done.
      assert (0 ≤ y < n) as Hyr by eauto. specialize (Hmono y Hyr). specialize (Hs0 y Hy). lia.
Qed.

Lemma CC_push_body t v edges m st :
  CC_push t v edges m st
  = (my_id ← aget st.1 v;
     for_u32 0 m (λ i st, w ← aget edges i; push_body my_id t w st) st).
Proof.
  unfold CC_push. destruct (aget st.1 v) as [my_id|]; [|done]. rewrite !bind_ok.
  unfold for_u32. apply forM_ext. intros i [vt nf] _. cbv beta iota. destruct (aget edges i) as [w|f]; [|done].
  rewrite !bind_ok. unfold push_body. cbn [fst snd].
  destruct (aget vt w) as [id|] eqn:Ew; [|done]. rewrite !bind_ok, update_atomic_quiet, bind_ok.
  apply aget_ok_inv in Ew as [Hw ->].
  case_bool_decide; [done|]. rewrite aset_ok by done. rewrite bind_ok. do 2 f_equal.
  apply list_eq_at; [by rewrite zlen_insert|]. intros j Hj. rewrite zlen_insert in Hj.
  rewrite at_insert by lia. by case_decide; subst.
Qed.

(** After a push the vertex is settled. *)
Lemma CC_push_ok L0 D t v st :
  0 ≤ v < n → pushed L0 D st →
  ∃ st', CC_push t v (adj v) (g_deg eng_graph v) st = Ok st' ∧ pushed L0 (λ x, D x ∨ x = v) st'.
Proof.
  intros Hv Hp. rewrite CC_push_body. destruct eng_graph_wf as [_ Hgwf].
  rewrite aget_at, bind_ok by (destruct (pu_label _ _ _ Hp); lia).
  destruct (edge_loop eng_graph (λ pre st', pushed L0 D st' ∧ at_ st'.1 v = at_ st.1 v
      ∧ ∀ w, w ∈ pre → at_ st'.1 w ≤ at_ st.1 v) (push_body (at_ st.1 v) t) v st)
    as (st' & E & Hp' & Hid & Hall).
  - apply eng_graph_wf.
  - done.
  - split; [done|]. split; [done|]. set_solver.
  - intros pre w suf st1 Hadj Hw (Hp1 & Hid1 & Hall1).
    destruct (cc_push_body_ok L0 D t v w (at_ st.1 v) st1) as (st2 & E & Hp2 & Hid2 & Hw2 & Hm2);
      [done|done|rewrite Hadj; set_solver|done|done|].
    exists st2. split; [done|]. split; [done|]. split; [done|].
    intros x [Hx| ->%list_elem_of_singleton]%elem_of_app; [|done].
    assert (0 ≤ x < n) by (apply (Hgwf v); [done|rewrite Hadj; set_solver]).
    etrans; [by apply Hm2|by apply Hall1].
  - exists st'. split; [done|]. destruct Hp' as [H1 H2 H3 H4 H5 H6]. split; try done.
    intros x Hx [HD| ->]; [by apply H6|]. right. intros w Hw. rewrite Hid. by apply Hall.
Qed.

(** ** One round *)
Record round_inv (st : cc_state) : Prop := {
  ri_label : label_ok (labels st);
  ri_front : bm_wf (frontier st) ∧ size (frontier st) = n;
  ri_next : bm_wf (next_frontier st) ∧ size (next_frontier st) = n
            ∧ ∀ v, 0 ≤ v < n → bm_get (next_frontier st) v = false;
  ri_eng : eng_ok (engine st);
  ri_settled v : 0 ≤ v < n → bm_get (frontier st) v = false → settled (labels st) v;
}.

(** The labels can only be lowered so often. *)
Definition label_sum (L : list Z) : Z := zsum (at_ L) (rng 0 n).
Definition rounds_left (st : cc_state) : nat :=
  Z.to_nat (label_sum (labels st) + (if is_empty (frontier st) then 0 else 1)).

Lemma label_sum_nonneg L : label_ok L → 0 ≤ label_sum L.
Proof. intros [_ HL]. apply zsum_nonneg. intros v Hv%elem_of_rng. by apply HL. Qed.

Lemma nonempty_bit f :
  bm_wf f → size f = n → is_empty f = false → ∃ v, 0 ≤ v < n ∧ bm_get f v = true.
Proof.
  intros Hw Hs He.
  destruct (decide (Exists (λ v, bm_get f v = true) (rng 0 n))) as [(v & Hv & Hb)%Exists_exists|Hno].
  - exists v. by apply elem_of_rng in Hv.
  - assert (is_empty f = true); [|congruence]. apply is_empty_spec; [done|]. rewrite Hs.
    intros v Hv. destruct (bm_get f v) eqn:E; [|done]. destruct Hno. apply Exists_exists.
    exists v. by rewrite elem_of_rng.
Qed.

(** The state after a round that pushed the vertices [l]. *)
Lemma cc_next_inv st l cl vt nx r eng :
  round_inv st → is_empty (frontier st) = false →
  covers (bm_get (frontier st)) (g_deg eng_graph) (rng 0 n) l →
  pushed (labels st) (λ v, bm_get (frontier st) v = false ∨ v ∈ l) (vt, nx) → eng_ok eng →
  bm_wf cl → size cl = n → (∀ v, 0 ≤ v < n → bm_get cl v = false) →
  round_inv (CcState nx cl vt r eng) ∧ (rounds_left (CcState nx cl vt r eng) < rounds_left st)%nat.
Proof.
  intros Hri He (Hnd & Hin & Hall) [Hlab' Hw' Hs' Hm' Hn' Hset'] Heng Hcw Hcs Hcb. simpl in *.
  pose proof Hri as [Hlab _ _ _ _]. split.
  - split; simpl; try done. intros v Hv Hb. destruct (decide (0 < g_deg eng_graph v)) as [Hd|Hd].
    + destruct (Hset' v Hv) as [Hb'|]; [|congruence|done].
      destruct (bm_get (frontier st) v) eqn:Ef; [right|by left].
      apply Hall; [by apply elem_of_rng|done..].
    + intros w Hw. unfold g_deg, zlen in Hd. destruct (adj v); [set_solver|simpl in Hd; lia].
  - unfold rounds_left. rewrite He. simpl. pose proof (label_sum_nonneg _ Hlab).
    pose proof (label_sum_nonneg _ Hlab').
    assert (label_sum vt ≤ label_sum (labels st)).
    { apply zsum_le. intros v Hv%elem_of_rng. by apply Hm'. }
    destruct (is_empty nx) eqn:En; [lia|].
    destruct (nonempty_bit nx Hw' Hs' En) as (v & Hv & Hb).
    enough (label_sum vt < label_sum (labels st)) by lia.
    apply (zsum_lt _ _ _ v); [|by apply elem_of_rng|by apply Hn'].
    intros x Hx%elem_of_rng. by apply Hm'.
Qed.

Lemma cc_round st :
  round_inv st → is_empty (frontier st) = false →
  ∃ st', cc_step st = Ok (inl st') ∧ round_inv st' ∧ (rounds_left st' < rounds_left st)%nat.
Proof.
  intros Hri He. pose proof Hri as [Hlab [Hfw Hfs] (Hnw & Hns & Hnb) Heng Hset].
  destruct (ccy_for_each_active_spec CC_push
    (λ dn, pushed (labels st) (λ v, bm_get (frontier st) v = false ∨ v ∈ dn))
    (rounds st) (frontier st) 0 n (engine st) (labels st, next_frontier st))
    as (eng & [vt nx] & l & E & Hok & Hcov & Hp).
  - apply Hfw.
  - done.
  - intros t v dn u Hv _ _ _ Hp. destruct (CC_push_ok _ _ t v u Hv Hp) as (u' & E & Hp').
    exists u'. split; [done|]. destruct Hp' as [H1 H2 H3 H4 H5 H6]. split; try done.
    intros x Hx HD. apply H6; [done|]. set_solver.
  - lia.
  - lia.
  - done.
  - split; simpl; try done.
    + intros v Hv Hb. by rewrite Hnb in Hb.
    + intros v Hv [Hb|Hb]; [right; by apply Hset|set_solver].
  - destruct (clear_spec (rounds st) (frontier st)) as (cl & Ec & Hcw & Hcs & Hcb); [apply Hfw|].
    exists (CcState nx cl vt (S (rounds st)) eng). split.
    + unfold cc_step. rewrite He, E, bind_ok. cbv beta iota. by rewrite Ec.
    + apply (cc_next_inv st l); try done; [lia|]. intros v Hv. apply Hcb. lia.
Qed.

(** ** The whole run *)
Lemma cc_loop fuel st :
  round_inv st → (rounds_left st < fuel)%nat →
  ∃ st', loopM fuel cc_step st = Ok st' ∧ round_inv st' ∧ is_empty (frontier st') = true.
Proof.
  intros Hri Hf.
  apply (loopM_total round_inv (λ st', round_inv st' ∧ is_empty (frontier st') = true) rounds_left);
    [done|done|].
  intros st1 Hri1. destruct (is_empty (frontier st1)) eqn:Ee.
  - exists (inr st1). unfold cc_step. by rewrite Ee.
  - destruct (cc_round st1 Hri1 Ee) as (st2 & E & Hri2 & Hlt). by exists (inl st2).
Qed.

Lemma cc_init vt0 :
  zlen vt0 = n →
  ∃ vt, parallel_for 0 0 n (λ _ lo hi, for_u32 lo hi (λ v vtable, aset vtable v v)) vt0 = Ok vt
    ∧ zlen vt = n ∧ ∀ v, 0 ≤ v < n → at_ vt v = v.
Proof.
  intros Hl.
  destruct (parallel_for_inv (λ done vt, zlen vt = n ∧ ∀ v, v ∈ done → at_ vt v = v) 0 0 n
    (λ _ v vtable, aset vtable v v) vt0) as (vt & done & E & Hp & Hl' & Hv).
  - split; [done|set_solver].
  - intros _ done v vt _ Hv Hdone (Hl1 & Hv1). rewrite aset_ok by lia. eexists; split; [done|].
    rewrite zlen_insert. split; [done|]. intros x Hx.
    assert (0 ≤ x) by (apply elem_of_cons in Hx as [->|Hx%Hdone]; lia).
    rewrite at_insert by lia. case_decide; [done|]. apply Hv1. set_solver.
  - exists vt. split; [done|]. split; [done|]. intros v Hv0. apply Hv. rewrite Hp.
    by apply elem_of_rng.
Qed.

(** In a state where every vertex is settled, labels do not grow along paths. *)
Lemma settled_path L u v :
  label_ok L → (∀ x, 0 ≤ x < n → settled L x) → 0 ≤ u < n → reaches u v → at_ L v ≤ at_ L u.
Proof.
  intros HL Hset Hu. induction 1 as [|u w v [_ Hw] _ IH]; [lia|].
  destruct eng_graph_wf as [_ Hgwf]. etrans; [apply IH; by eapply Hgwf|]. by apply Hset.
Qed.

(** ** The summary *)

(** [comp_counts] holds the occurrences of the labels [ls] counted so far. *)
Definition counts (ls : list Z) (m : gmap Z Z) : Prop :=
  ∀ x, m !! x = if decide (0 < occ x ls) then Some (occ x ls) else None.

Lemma count_step_ok L v ls m :
  0 ≤ v < zlen L → zlen ls < 2 ^ 32 - 1 → counts ls m →
  ∃ m', count_step L v m = Ok m' ∧ counts (ls ++ [at_ L v]) m'.
Proof.
  intros Hv Hlen Hm. unfold count_step. rewrite aget_at, bind_ok by lia. rewrite Hm.
  set (y := at_ L v). pose proof (zcount_bounds (λ x, bool_decide (x = y)) ls) as Hb.
  fold (occ y ls) in Hb.
  assert (∃ m', match (if decide (0 < occ y ls) then Some (occ y ls) else None) with
    | None => Ok (<[y := 1]> m) | Some c => Ok (<[y := u32 (c + 1)]> m) end = Ok m'
    ∧ m' = <[y := occ y ls + 1]> m) as (m' & E & ->).
  { case_decide; eexists; (split; [done|]); [by rewrite u32_id' by lia|]. do 2 f_equal. lia. }
  exists (<[y := occ y ls + 1]> m). split; [exact E|]. intros x. rewrite occ_snoc.
  destruct (decide (x = y)) as [->|Hne].
  - rewrite lookup_insert_eq, bool_decide_eq_true_2 by done. simpl. by rewrite decide_True by lia.
  - rewrite lookup_insert_ne, Hm, bool_decide_eq_false_2 by congruence. simpl. by rewrite Z.add_0_r.
Qed.

Lemma counts_ok L num_verts :
  0 ≤ num_verts ≤ zlen L → num_verts < 2 ^ 32 →
  ∃ m, for_u32 0 num_verts (count_step L) ∅ = Ok m ∧ counts (take (Z.to_nat num_verts) L) m.
Proof.
  intros Hl Hn.
  apply (for_u32_inv (λ v m, counts (take (Z.to_nat v) L) m)); [lia| |].
  - intros x. done.
  - intros v m Hv Hm.
    destruct (count_step_ok L v (take (Z.to_nat v) L) m ltac:(lia)) as (m' & E & Hm'); [|done|].
    + unfold zlen in *. rewrite length_take. lia.
    + exists m'. split; [done|]. rewrite Z2Nat.inj_add, Nat.add_1_r by lia.
      rewrite (take_S_r _ _ (at_ L v)); [done|]. unfold at_. apply list_lookup_lookup_total_lt.
      unfold zlen in *. lia.
Qed.

(** The pairs of [comp_counts] are the distinct labels with their counts. *)
Lemma counts_pairs ls m :
  counts ls m → map_to_list m ≡ₚ (λ x, (x, occ x ls)) <$> remove_dups ls.
Proof.
  intros Hm. apply NoDup_Permutation.
  - apply NoDup_map_to_list.
  - apply NoDup_fmap_2; [by intros x y [= ->]|apply NoDup_remove_dups].
  - intros [x c]. rewrite elem_of_map_to_list, Hm, list_elem_of_fmap.
    setoid_rewrite elem_of_remove_dups.
    assert (0 < occ x ls ↔ x ∈ ls) as Hocc.
    { unfold occ. rewrite zcount_pos. setoid_rewrite bool_decide_eq_true. naive_solver. }
    case_decide as Hc; rewrite Hocc in Hc; naive_solver.
Qed.

Lemma fold_trivial (l : list (Z * Z)) nt tr :
  fold_left (λ '(nt, tr) it, if bool_decide (1 < it.1) then (nt + 1, tr) else (nt, tr + 1)) l (nt, tr)
  = (nt + zcount (λ it, bool_decide (1 < it.1)) l,
     tr + zcount (λ it, negb (bool_decide (1 < it.1))) l).
Proof.
  revert nt tr. induction l as [|it l IH]; intros nt tr; simpl; [by rewrite !Z.add_0_r|].
  unfold zcount in *. case_bool_decide; rewrite IH; simpl; f_equal; lia.
Qed.

#[export] Instance pair_le_total : Total pair_le.
Proof. intros [a b] [c d]. unfold pair_le. simpl. lia. Qed.
#[export] Instance pair_le_trans : Transitive pair_le.
Proof. intros [a b] [c d] [e f]. unfold pair_le. simpl. lia. Qed.

Lemma last_largest (l : list (Z * Z)) :
  l ≠ [] → ∃ c x, last (merge_sort pair_le l) = Some (c, x) ∧ (c, x) ∈ l ∧ ∀ it, it ∈ l → it.1 ≤ c.
Proof.
  intros Hne. pose proof (merge_sort_Permutation pair_le l) as Hp.
  pose proof (StronglySorted_merge_sort pair_le l) as Hs.
  destruct (merge_sort pair_le l) as [|[c x] s _] using rev_ind.
  { apply Permutation_nil_l in Hp. done. }
  exists c, x. rewrite last_snoc. split; [done|]. setoid_rewrite <- Hp. split; [set_solver|].
  intros it [Hit| ->%list_elem_of_singleton]%elem_of_app; [|done].
  apply StronglySorted_app_1_elem_of with (x1 := it) (x2 := (c, x)) in Hs; [|done|set_solver].
  unfold pair_le in Hs. simpl in Hs. lia.
Qed.

(** the summary of the components counts right.  For labels
    [vtable], [print_top_n] reports the number of distinct labels, the number of
    labels that occur more than once, and the number of occurrences of a most
    frequent label, for any table with at least one vertex. *)
Theorem print_top_n_correct vtable num_verts :
  0 < num_verts < 2 ^ 32 → zlen vtable = num_verts →
  ∃ total non_trivial largest,
    print_top_n vtable num_verts = Ok (total, non_trivial, largest)
    ∧ total = zlen (remove_dups vtable)
    ∧ non_trivial = zcount (λ x, bool_decide (1 < occ x vtable)) (remove_dups vtable)
    ∧ (∃ x, x ∈ vtable ∧ occ x vtable = largest)
    ∧ ∀ x, x ∈ vtable → occ x vtable ≤ largest.
Proof.
  intros Hn Hl. unfold print_top_n.
  destruct (counts_ok vtable num_verts) as (m & -> & Hm); [lia|lia|]. rewrite bind_ok.
  rewrite take_ge in Hm by (unfold zlen in Hl; lia). apply counts_pairs in Hm.
  set (l := (λ p : Z * Z, (p.2, p.1)) <$> map_to_list m).
  assert (Hpl : l ≡ₚ (λ x, (occ x vtable, x)) <$> remove_dups vtable).
  { unfold l. rewrite Hm, <- list_fmap_compose. done. }
  assert (Hcount : ∀ p : Z → bool, zcount (λ it : Z * Z, p it.1) (reverse (merge_sort pair_le l))
                   = zcount (λ x, p (occ x vtable)) (remove_dups vtable)).
  { intros p. unfold zcount. rewrite reverse_Permutation, merge_sort_Permutation, Hpl.
    by rewrite zsum_fmap. }
  cbv zeta. rewrite fold_trivial, !Z.add_0_l.
  pose proof (Hcount (λ c, bool_decide (1 < c))) as H1. cbv beta in H1. rewrite H1.
  pose proof (Hcount (λ c, negb (bool_decide (1 < c)))) as H2. cbv beta in H2. rewrite H2.
  rewrite zcount_negb.
  destruct (last_largest l) as (c & x & -> & Hin & Hmax).
  { intros Hnil. rewrite Hnil in Hpl. apply Permutation_nil_l in Hpl.
    destruct vtable as [|y vt]; [unfold zlen in Hl; simpl in Hl; lia|].
    assert (y ∈ remove_dups (y :: vt)) as Hy by (apply elem_of_remove_dups; set_solver).
    symmetry in Hpl. apply fmap_nil_inv in Hpl. rewrite Hpl in Hy. set_solver. }
  eexists _, _, c. split; [done|]. split; [lia|]. split; [done|].
  rewrite Hpl in Hin. setoid_rewrite Hpl in Hmax. apply list_elem_of_fmap in Hin as (y & [= -> ->] & Hy).
  split; [exists y; by rewrite elem_of_remove_dups in Hy|].
  intros z Hz. apply (Hmax (occ z vtable, z)). apply list_elem_of_fmap. exists z.
  by rewrite elem_of_remove_dups.
Qed.

(** What the kernel starts from. *)
Record cc_ready (frontierA frontierB : Bitmap) (vt0 : list Z) (eng : eng_state) : Prop := {
  cr_eng : eng_ok eng;
  cr_A : bm_ok frontierA ∧ size frontierA = n ∧ frontier_size frontierA = comb_new;
  cr_B : bm_wf frontierB ∧ size frontierB = n ∧ ∀ v, 0 ≤ v < n → bm_get frontierB v = false;
  cr_table : zlen vt0 = n;
}.

Lemma cc_enter_ok frontierA frontierB vt0 eng :
  cc_ready frontierA frontierB vt0 eng →
  ∃ st, cc_enter frontierA frontierB vt0 eng = Ok st ∧ round_inv st
    ∧ (rounds_left st ≤ Z.to_nat (n * n + 1))%nat.
Proof.
  intros [He (HA & HAs & HAc) (HB & HBs & HBb) Hl0]. unfold cc_enter.
  destruct (cc_init vt0 Hl0) as (vt & -> & Hl & Hv). rewrite bind_ok.
  destruct (set_all_spec 0 0 frontierA HA) as (f & -> & Hw & Hs & Hb);
    [by rewrite HAc, comb_sum_new, comb_local_new|]. rewrite bind_ok.
  assert (Hlab : label_ok vt).
  { split; [done|]. intros v Hv0. rewrite Hv by done. split; [lia|done]. }
  assert (Hsum : label_sum vt ≤ n * n).
  { etrans; [apply (zsum_le _ (λ _, n)); intros v Hv0%elem_of_rng; rewrite Hv by done; lia|].
    rewrite (zsum_const n), length_rng. destruct eng_graph_wf as [? _]. nia. }
  eexists; split; [done|]. split.
  - split; simpl; try done; [split; [done|lia]|]. intros v Hv0 Hbv. rewrite Hb in Hbv by lia. done.
  - unfold rounds_left. simpl. destruct (is_empty f); lia.
Qed.

(** Each label is the smallest number of a vertex that reaches the labelled one; on
    an undirected graph they tell the components. *)
Definition components (L : list Z) : Prop :=
  (∀ v, 0 ≤ v < n → 0 ≤ at_ L v < n ∧ reaches (at_ L v) v
     ∧ ∀ u, 0 ≤ u < n → reaches u v → at_ L v ≤ u)
  ∧ ((∀ u v, edge u v → edge v u) → ∀ u v, 0 ≤ u < n → 0 ≤ v < n →
       at_ L u = at_ L v ↔ reaches u v).

Lemma cc_done st : round_inv st → is_empty (frontier st) = true → components (labels st).
Proof.
  intros Hri Hemp. destruct (ri_front _ Hri) as [Hfw Hfs].
  rewrite is_empty_spec, Hfs in Hemp by done.
  assert (Hset : ∀ x, 0 ≤ x < n → settled (labels st) x) by (intros; apply (ri_settled _ Hri); auto).
  pose proof (ri_label _ Hri) as HL. pose proof HL as [_ HL'].
  assert (Hmin : ∀ u v, 0 ≤ u < n → reaches u v → at_ (labels st) v ≤ at_ (labels st) u)
    by (intros; by apply settled_path).
  split.
  - intros v Hv0. destruct (HL' v Hv0) as [??]. split; [lia|]. split; [done|].
    intros u Hu Hr. etrans; [by apply Hmin|]. by apply HL'.
  - intros Hsym u v Hu Hv0.
    assert (Hback : ∀ x y, reaches x y → reaches y x).
    { intros x y. induction 1 as [|x y z Hxy _ IH]; [done|]. eapply rtc_r; [done|by apply Hsym]. }
    split.
    + intros Heq. etrans; [apply Hback; by apply HL'|]. rewrite Heq. by apply HL'.
    + intros Hr. pose proof (Hmin u v Hu Hr). pose proof (Hmin v u Hv0 (Hback _ _ Hr)). lia.
Qed.

(** The kernel from its initial state. *)
Lemma cc_kernel_ok fuel frontierA frontierB vt0 eng :
  (Z.to_nat (n * n + 1) < fuel)%nat → cc_ready frontierA frontierB vt0 eng →
  ∃ st, cc_kernel fuel frontierA frontierB vt0 eng = Ok st ∧ components (labels st).
Proof.
  intros Hfuel Hready. unfold cc_kernel.
  destruct (cc_enter_ok _ _ _ _ Hready) as (st0 & -> & Hri0 & Hle). rewrite bind_ok.
  destruct (cc_loop fuel st0 Hri0) as (st & -> & Hri & Hemp); [lia|].
  exists st. split; [done|]. by apply cc_done.
Qed.

(** C15: connected components are correct and the run terminates.  For every
    scheduling of the workers, and with fuel for every possible lowering of a
    label, the run ends without a fault and leaves as the label of each vertex
    the smallest number of a vertex that reaches it; on an undirected graph two
    vertices therefore have the same label exactly when they are connected. *)
Theorem cc_correct fuel frontierA frontierB vt0 eng :
  (Z.to_nat (n * n + 1) < fuel)%nat → eng_ok eng →
  bm_ok frontierA → size frontierA = n → frontier_size frontierA = comb_new →
  bm_wf frontierB → size frontierB = n → (∀ v, 0 ≤ v < n → bm_get frontierB v = false) →
  zlen vt0 = n →
  ∃ st, cc_kernel fuel frontierA frontierB vt0 eng = Ok st
    ∧ (∀ v, 0 ≤ v < n → 0 ≤ at_ (labels st) v < n ∧ reaches (at_ (labels st) v) v
         ∧ ∀ u, 0 ≤ u < n → reaches u v → at_ (labels st) v ≤ u)
    ∧ ((∀ u v, edge u v → edge v u) → ∀ u v, 0 ≤ u < n → 0 ≤ v < n →
         at_ (labels st) u = at_ (labels st) v ↔ reaches u v).
Proof. intros. by apply cc_kernel_ok. Qed.
End cc.
