(* ===== verification/CcConcurrent.v ===== *)
(** * CcConcurrent: connected components with racing workers

    [CC_push_c] is the push function of [connected_components.hpp] as the operations
    other threads can see: loads of labels, a weak compare-and-swap that may fail
    without reason, and the operations of [set_bit].  [cc_concurrent] shows that the
    kernel finds the components however the operations of the workers are
    interleaved and whichever exchanges fail spuriously. *)

From S2P Require Import Prelude Platform Bitmap Engine EdgeEngine Interleaving Workers ConnectedComponents.

Section cc.
  Context {BU : BuildOptions} {BO : Boost} {OS : Os} {CB : Combinable} {SC : Scheduler}.
  Context {EO : EngineOps} {EE : EdgeEngine}.
  Abbreviation n := (g_n eng_graph).
  Abbreviation adj := (g_adj eng_graph).

(** The labels, and whether the next exchanges fail spuriously. *)
Record table := Table { ids : list Z; spurious : list bool }.
Abbreviation push_state := (table * Bitmap)%type.

Definition load (v : Z) (x : table) : result (table * Z) :=
  id ← aget (ids x) v; Ok (x, id).

(** [compare_exchange_weak]: whether it succeeded, and the new [current]. *)
Definition compare_exchange_weak (w current desired : Z) (x : table) : result (table * (bool * Z)) :=
  id ← aget (ids x) w;
  let fails := match spurious x with [] => false | b :: _ => b end in
  if negb fails && bool_decide (id = current) then
    L ← aset (ids x) w desired;
    Ok (Table L (tail (spurious x)), (true, current))
  else Ok (Table (ids x) (tail (spurious x)), (false, id)).

Definition out_of_fuel (x : table) : result (table * bool) := Fault OutOfFuel.

(** The loop of [update_atomic]. *)
Fixpoint update_loop (fuel : nat) (w proposed_label current : Z) : prog push_state bool :=
  match fuel with
  | O => on_table out_of_fuel
  | S fuel =>
      id ← on_table (load w);
      if should_update proposed_label id then
        '(ret, current) ← on_table (compare_exchange_weak w current proposed_label);
        if ret : bool then mret true else update_loop fuel w proposed_label current
      else mret false
  end.

Definition update_atomic_c (fuel : nat) (w proposed_label : Z) : prog push_state bool :=
  current ← on_table (load w);
  update_loop fuel w proposed_label current.

Definition push_edge (fuel : nat) (my_id : Z) (t : nat) (w : Z) : prog push_state unit :=
  updated ← update_atomic_c fuel w my_id;
  if updated : bool then
    _ ← set_bit_c t w;
    mret ()
  else mret ().

Definition CC_push_c (fuel : nat) (t : nat) (v : Z) : prog push_state unit :=
  my_id ← on_table (load v);
  each (adj v) (push_edge fuel my_id t).

(** ** Without interruption *)
#[local] Arguments set_bit_c : simpl never.
#[local] Arguments run : simpl never.

Definition quiet_state (st : list Z * Bitmap) : push_state := (Table st.1 [], st.2).

Lemma run_cc_push_edge fuel my_id t w st :
  run (push_edge (S fuel) my_id t w) (quiet_state st)
  = ((λ st, (quiet_state st, ())) <$> push_body my_id t w st).
Proof.
  unfold push_edge, update_atomic_c, push_body, quiet_state. destruct st as [L b].
  rewrite !run_bind, run_on_table. unfold load. cbn [fst snd ids].
  destruct (aget L w) as [id|] eqn:Ea; [|done]. rewrite !bind_ok. cbn [update_loop].
  rewrite run_bind, run_on_table. unfold load. cbn [fst snd ids]. rewrite Ea, !bind_ok.
  unfold should_update. case_bool_decide; [|done].
  rewrite run_bind, run_on_table. unfold compare_exchange_weak. cbn [fst snd ids spurious tail].
  rewrite Ea, bind_ok, bool_decide_eq_true_2 by done. cbn [negb andb].
  destruct (aset L w my_id) as [L'|]; [|done]. rewrite !bind_ok. cbv beta iota.
  change (run (mret true) (Table L' [], b)) with (Ok ((Table L' [], b), true)).
  rewrite bind_ok. cbv beta iota. rewrite run_bind, run_set_bit.
  by destruct (set_bit t w b) as [[r' b']|].
Qed.

(** A push that is not interrupted is the push of the sequential model. *)
Lemma run_CC_push fuel t v st :
  run (CC_push_c (S fuel) t v) (quiet_state st)
  = ((λ st, (quiet_state st, ())) <$> CC_push t v (adj v) (g_deg eng_graph v) st).
Proof.
  unfold CC_push_c. rewrite CC_push_body, run_bind, run_on_table. unfold load. destruct st as [L b].
  cbn [fst snd ids quiet_state]. destruct (aget L v) as [my_id|]; [|done]. rewrite !bind_ok. cbv beta iota.
  rewrite run_each. unfold g_deg. rewrite for_u32_aget.
  change (Table L [], b) with (quiet_state (L, b)).
  rewrite (forM_embed quiet_state _ (push_body my_id t)); [by destruct (forM _ _ _)|].
  intros w st. rewrite run_cc_push_edge. by destruct (push_body my_id t w st).
Qed.

(** ** The race *)

(** What a worker knows: the vertex it has lowered and not yet put into the next
    frontier; while it tries to lower the label of [w], a value this label has had
    and how many exchanges may still fail spuriously; the edges it has followed. *)
Record ghost := Ghost { pending : option Z; trying : option (Z * Z * nat); followed : list (Z * Z) }.

Section race.
  Context (L0 : list Z) (B : nat).

Record racing (x : table) (f : Z → bool) (ls : list ghost) : Prop := {
  ra_label : label_ok (ids x);
  ra_spurious : (length (spurious x) ≤ B)%nat;
  ra_mono v : 0 ≤ v < n → at_ (ids x) v ≤ at_ L0 v;
  ra_flag v : 0 ≤ v < n → f v = true → at_ (ids x) v < at_ L0 v;
  ra_lower v : 0 ≤ v < n → at_ (ids x) v < at_ L0 v →
    f v = true ∨ ∃ i g, ls !! i = Some g ∧ pending g = Some v;
  ra_pending i g w : ls !! i = Some g → pending g = Some w → 0 ≤ w < n ∧ at_ (ids x) w < at_ L0 w;
  ra_trying i g w cur b : ls !! i = Some g → trying g = Some (w, cur, b) →
    0 ≤ w < n ∧ at_ (ids x) w ≤ cur ∧ (length (spurious x) ≤ b)%nat;
  ra_followed i g v w : ls !! i = Some g → (v, w) ∈ followed g →
    0 ≤ w < n ∧ at_ (ids x) w ≤ at_ L0 v;
}.

(** A worker learns something; exchanges may have failed. *)
Lemma cc_racing_learn x f ls i g g' o :
  racing x f ls → ls !! i = Some g → pending g' = pending g →
  (length o ≤ length (spurious x))%nat →
  (∀ w cur b, trying g' = Some (w, cur, b) →
     0 ≤ w < n ∧ at_ (ids x) w ≤ cur ∧ (length o ≤ b)%nat) →
  (∀ v w, (v, w) ∈ followed g' → 0 ≤ w < n ∧ at_ (ids x) w ≤ at_ L0 v) →
  racing (Table (ids x) o) f (<[i:=g']> ls).
Proof.
  intros [Hl HB Hm Hf Hlo Hp Ht Hfo] Hi Hpe Ho Htry Hfol. split; cbn [ids spurious]; try done; [lia|..].
  - intros v Hv Hlt. destruct (Hlo v Hv Hlt) as [?|He]; [by left|].
    eapply pending_insert; [done| |done]. rewrite Hpe.
    destruct (decide (pending g = Some v)); [by right; right|by left].
  - intros j h w [(<- & <- & _)|[_ Hj]]%list_lookup_insert_Some; [rewrite Hpe|]; by eapply Hp.
  - intros j h w cur b [(<- & <- & _)|[_ Hj]]%list_lookup_insert_Some Hh; [by apply Htry|].
    destruct (Ht j h w cur b Hj Hh) as (? & ? & ?). split; [done|]. split; [done|lia].
  - intros j h v w [(<- & <- & _)|[_ Hj]]%list_lookup_insert_Some; [by apply Hfol|by eapply Hfo].
Qed.

Lemma cc_racing_know x f ls i g g' :
  racing x f ls → ls !! i = Some g → pending g' = pending g →
  (∀ w cur b, trying g' = Some (w, cur, b) →
     0 ≤ w < n ∧ at_ (ids x) w ≤ cur ∧ (length (spurious x) ≤ b)%nat) →
  (∀ v w, (v, w) ∈ followed g' → 0 ≤ w < n ∧ at_ (ids x) w ≤ at_ L0 v) →
  racing x f (<[i:=g']> ls).
Proof. intros. destruct x as [L o]. by eapply (cc_racing_learn (Table L o)). Qed.

(** A label is lowered to that of a neighbour. *)
Lemma racing_lower x f ls i O v w p cur b :
  racing x f ls → ls !! i = Some (Ghost None (Some (w, cur, b)) O) →
  0 ≤ v < n → w ∈ adj v → 0 ≤ p ≤ at_ L0 v → rtc edge p v → p < at_ (ids x) w →
  racing (Table (<[Z.to_nat w := p]> (ids x)) (tail (spurious x))) f
    (<[i:=Ghost (Some w) None (O ++ [(v, w)])]> ls).
Proof.
  intros [Hl HB Hm Hf Hlo Hp Ht Hfo] Hi Hv Hadj Hpv Hr Hlt.
  destruct (Ht i _ w cur b Hi eq_refl) as (Hw & _ & _). destruct Hl as [Hlen Hlab].
  assert (Hat : ∀ y, 0 ≤ y < n → at_ (<[Z.to_nat w:=p]> (ids x)) y = if decide (w = y) then p else at_ (ids x) y).
  { intros y Hy. apply at_insert; lia. }
  assert (Hle : ∀ y, 0 ≤ y < n → at_ (<[Z.to_nat w:=p]> (ids x)) y ≤ at_ (ids x) y).
  { intros y Hy. rewrite Hat by done. case_decide; [subst|]; lia. }
  split; cbn [ids spurious].
  - split; [by rewrite zlen_insert|]. intros y Hy. rewrite Hat by done. destruct (Hlab y Hy).
    case_decide; [subst y|done]. split; [lia|]. eapply rtc_r; [done|by split].
  - destruct (spurious x); cbn in *; lia.
  - intros y Hy. etrans; [by apply Hle|by apply Hm].
  - intros y Hy Hfy. eapply Z.le_lt_trans; [by apply Hle|by apply Hf].
  - intros y Hy. rewrite Hat by done. case_decide as E; [subst y; intros _; right|].
    + exists i, (Ghost (Some w) None (O ++ [(v, w)])). split; [|done].
      apply list_lookup_insert_eq. by eapply lookup_lt_Some.
    + intros Hy1. destruct (Hlo y Hy Hy1) as [?|He]; [by left|].
      eapply pending_insert; [done|by left|done].
  - intros j h y [(<- & <- & _)|[_ Hj]]%list_lookup_insert_Some Hh.
    + cbn in Hh. simplify_eq. split; [done|]. rewrite Hat, decide_True by done.
      pose proof (Hm y Hw). lia.
    + destruct (Hp j h y Hj Hh) as [Hy ?]. split; [done|]. specialize (Hle y Hy). lia.
  - intros j h y c d [(<- & <- & _)|[_ Hj]]%list_lookup_insert_Some Hh; [done|].
    destruct (Ht j h y c d Hj Hh) as (Hy & ? & ?). split; [done|]. specialize (Hle y Hy).
    destruct (spurious x); cbn in *; lia.
  - intros j h u y [(<- & <- & _)|[_ Hj]]%list_lookup_insert_Some Hh.
    + cbn in Hh. apply elem_of_app in Hh as [Hh|Hh%list_elem_of_singleton].
      * destruct (Hfo i _ u y Hi Hh) as [Hy ?]. split; [done|]. specialize (Hle y Hy). lia.
      * simplify_eq. split; [done|]. rewrite Hat, decide_True by done. lia.
    + destruct (Hfo j h u y Hj Hh) as [Hy ?]. split; [done|]. specialize (Hle y Hy). lia.
Qed.

(** The lowered vertex is put into the next frontier. *)
Lemma cc_racing_flag x f f' ls i w O :
  racing x f ls → ls !! i = Some (Ghost (Some w) None O) →
  (∀ j, 0 ≤ j → f' j = bool_decide (j = w) || f j) →
  racing x f' (<[i:=Ghost None None O]> ls).
Proof.
  intros [Hl HB Hm Hf Hlo Hp Ht Hfo] Hi Hf'. destruct (Hp i _ w Hi eq_refl) as (Hw & Hlw).
  split; try done.
  - intros y Hy. rewrite Hf' by lia. intros [->%bool_decide_eq_true|?]%orb_true_iff; auto.
  - intros y Hy Hlt. rewrite Hf' by lia. destruct (Hlo y Hy Hlt) as [->|He].
    + left. by rewrite orb_true_r.
    + eapply pending_insert; [done| |done]. destruct (decide (y = w)) as [->|]; [|left; cbn; congruence].
      right. left. by rewrite bool_decide_eq_true_2.
  - intros j h y [(<- & <- & _)|[_ Hj]]%list_lookup_insert_Some Hh; [done|by eapply Hp].
  - intros j h y c d [(<- & <- & _)|[_ Hj]]%list_lookup_insert_Some Hh; [done|by eapply Ht].
  - intros j h u y [(<- & <- & _)|[_ Hj]]%list_lookup_insert_Some Hh; [by eapply (Hfo i)|by eapply Hfo].
Qed.

Lemma cc_racing_ext x f f' ls :
  racing x f ls → (∀ j, 0 ≤ j → f' j = f j) → racing x f' ls.
Proof.
  intros [Hl HB Hm Hf Hlo Hp Ht Hfo] He. split; try done; intros v Hv; rewrite He by lia; auto.
Qed.

(** The loop: every failed exchange has lowered the known value or used up a
    spurious failure. *)
Lemma update_loop_safe fuel i v w p cur b O :
  0 ≤ v < n → w ∈ adj v → 0 ≤ p ≤ at_ L0 v → rtc edge p v → (Z.to_nat cur + b < fuel)%nat →
  safe (with_frontier n racing) i (Ghost None (Some (w, cur, b)) O) (update_loop fuel w p cur)
    (λ g' (r : bool), g' = Ghost (if r then Some w else None) None (O ++ [(v, w)])).
Proof.
  intros Hv Hadj Hp Hr. revert cur b. induction fuel as [|fuel IH]; intros cur b Hfuel; [lia|].
  cbn [update_loop]. apply safe_on_table. intros x f ls HJ Hi.
  destruct (ra_trying _ _ _ HJ i _ w cur b Hi eq_refl) as (Hw & Hle & Hb).
  pose proof (ra_label _ _ _ HJ) as [Hlen _]. unfold load.
  rewrite aget_at, bind_ok by lia. destruct (decide (p < at_ (ids x) w)) as [Hlt|Hge].
  2:{ eexists _, _, (Ghost None None (O ++ [(v, w)])). split; [done|].
      unfold should_update. rewrite bool_decide_eq_false_2 by done. split; [|done].
      eapply cc_racing_know; [done..|]. cbn [followed]. intros u y Hy.
      apply elem_of_app in Hy as [Hy|Hy%list_elem_of_singleton].
      - by eapply (ra_followed _ _ _ HJ).
      - simplify_eq. lia. }
  assert (Hpc : p < cur) by lia.
  eexists _, _, _. split; [done|]. rewrite list_insert_id by done. split; [done|].
  unfold should_update. rewrite bool_decide_eq_true_2 by done.
  clear x f ls HJ Hi Hle Hb Hlen Hlt. apply safe_on_table. intros x f ls HJ Hi.
  destruct (ra_trying _ _ _ HJ i _ w cur b Hi eq_refl) as (_ & Hle & Hb).
  pose proof (ra_label _ _ _ HJ) as [Hlen Hlab]. unfold compare_exchange_weak.
  rewrite aget_at, bind_ok by lia.
  set (fails := match spurious x with [] => false | b :: _ => b end).
  destruct (negb fails && bool_decide (at_ (ids x) w = cur)) eqn:E.
  - apply andb_true_iff in E as [_ E%bool_decide_eq_true]. rewrite aset_ok, bind_ok by lia.
    eexists _, _, _. split; [done|]. split; [|done]. by eapply racing_lower; [| | | | | |lia].
  - set (b' := if fails then pred b else b).
    eexists _, _, (Ghost None (Some (w, at_ (ids x) w, b')) O). split; [done|].
    assert (Hb' : (length (tail (spurious x)) ≤ b')%nat).
    { unfold b', fails. destruct (spurious x) as [|[] o]; cbn in *; lia. }
    assert (Hf' : (Z.to_nat (at_ (ids x) w) + b' < fuel)%nat).
    { destruct (Hlab w Hw) as [??]. unfold b'. destruct fails eqn:Ef.
      - assert (0 < b)%nat; [|lia]. unfold fails in Ef. destruct (spurious x); cbn in *; [done|lia].
      - cbn in E. apply bool_decide_eq_false in E. lia. }
    split; [|by apply IH]. eapply cc_racing_learn; [done..| | |].
    + destruct (spurious x); cbn; lia.
    + cbn. intros ? ? ? [= <- <- <-]. done.
    + cbn. intros. by eapply (ra_followed _ _ _ HJ).
Qed.

(** Following one edge. *)
Lemma cc_push_edge_safe fuel i t v w p O :
  0 ≤ v < n → w ∈ adj v → 0 ≤ w < n → 0 ≤ p ≤ at_ L0 v → rtc edge p v → (Z.to_nat n + B ≤ fuel)%nat →
  safe (with_frontier n racing) i (Ghost None None O) (push_edge fuel p t w)
    (λ g' _, g' = Ghost None None (O ++ [(v, w)])).
Proof.
  intros Hv Hadj Hw Hp Hr Hfuel. unfold push_edge, update_atomic_c. apply safe_bind.
  apply safe_on_table. intros x f ls HJ Hi. pose proof (ra_label _ _ _ HJ) as [Hlen Hlab].
  unfold load. rewrite aget_at, bind_ok by lia.
  eexists _, _, (Ghost None (Some (w, at_ (ids x) w, length (spurious x))) O). split; [done|]. split.
  { eapply cc_racing_know; [done..| |].
    - cbn. intros ? ? ? [= <- <- <-]. done.
    - cbn. intros. by eapply (ra_followed _ _ _ HJ). }
  eapply safe_mono; [|apply (update_loop_safe fuel i v w p); try done].
  2:{ pose proof (ra_spurious _ _ _ HJ). destruct (Hlab w Hw). lia. }
  clear x f ls HJ Hi Hlen Hlab. intros g [] ->; [|done]. apply safe_bind.
  eapply (safe_set_bit n racing i _ (Ghost None None (O ++ [(v, w)]))); [done|..|by intros].
  - intros. by eapply cc_racing_ext.
  - intros. by eapply cc_racing_flag.
Qed.

(** Pushing some vertices. *)
Definition edges_of (v : Z) : list (Z * Z) := (v,.) <$> adj v.

Lemma pushes_safe fuel i vs :
  (∀ v, v ∈ vs → 0 ≤ v < n) → (Z.to_nat n + B ≤ fuel)%nat →
  safe (with_frontier n racing) i (Ghost None None []) (each vs (CC_push_c fuel i))
    (λ g' _, g' = Ghost None None (vs ≫= edges_of)).
Proof.
  intros Hvs Hfuel. pose proof eng_graph_wf as [_ Hgwf].
  assert (Hall : safe (with_frontier n racing) i (Ghost None None ([] ≫= edges_of))
      (each vs (CC_push_c fuel i)) (λ g' _, g' = Ghost None None (vs ≫= edges_of))); [|done].
  apply (safe_each _ i vs _ (λ pre, Ghost None None (pre ≫= edges_of))). intros pre v suf Hpre.
  assert (Hv : 0 ≤ v < n) by (apply Hvs; rewrite Hpre; set_solver).
  unfold CC_push_c. apply safe_on_table. intros x f ls HJ Hi.
  pose proof (ra_label _ _ _ HJ) as [Hlen Hlab]. destruct (Hlab v Hv) as [Hpv Hr].
  pose proof (ra_mono _ _ _ HJ v Hv) as Hm. unfold load. rewrite aget_at, bind_ok by lia.
  eexists _, _, _. split; [done|]. rewrite list_insert_id by done. split; [done|].
  revert Hpv Hr Hm. generalize (at_ (ids x) v). clear x f ls HJ Hi Hlen Hlab. intros p Hpv Hr Hm.
  rewrite bind_app, bind_singleton.
  assert (Hin : safe (with_frontier n racing) i (Ghost None None ((pre ≫= edges_of) ++ ((v,.) <$> [])))
      (each (adj v) (push_edge fuel p i)) (λ g' _, g' = Ghost None None ((pre ≫= edges_of) ++ edges_of v)));
    [|by rewrite app_nil_r in Hin].
  apply (safe_each _ i (adj v) _ (λ done, Ghost None None ((pre ≫= edges_of) ++ ((v,.) <$> done)))).
  intros done w rest Hadj. rewrite fmap_app, app_assoc.
  assert (w ∈ adj v) by (rewrite Hadj; set_solver).
  apply cc_push_edge_safe; [done|done|by eapply Hgwf|lia|done|done].
Qed.

(** All pushes of a round. *)
Lemma cc_push_round_ends fuel o nf parts (D0 : Z → Prop) :
  label_ok L0 → (length o ≤ B)%nat → (Z.to_nat n + B ≤ fuel)%nat →
  bm_wf nf → size nf = n → (∀ w, 0 ≤ w < n → bm_get nf w = false) →
  (∀ v, 0 ≤ v < n → D0 v → settled L0 v) →
  (∀ v, v ∈ concat parts → 0 ≤ v < n) →
  round_ends (λ s, pushed L0 (λ v, D0 v ∨ v ∈ concat parts) (ids s.1, s.2)
                 ∧ (length (spurious s.1) ≤ B)%nat)
    (Cfg (Table L0 o, nf) (imap (λ t vs, each vs (CC_push_c fuel t)) parts)).
Proof.
  intros Hlab Ho Hfuel Hw Hs Hb Hset Hparts. pose proof eng_graph_wf as [_ Hgwf].
  apply (workers_end (with_frontier n racing) _ _ (Ghost None None []) (λ vs, Ghost None None (vs ≫= edges_of))).
  - split; [done|]. split; [done|]. cbn. split; cbn [ids spurious]; try done.
    + intros v Hv. by rewrite Hb.
    + intros v Hv. lia.
    + by intros i g w (vs & -> & _)%list_lookup_fmap_Some.
    + by intros i g w c b (vs & -> & _)%list_lookup_fmap_Some.
    + intros i g v w (vs & -> & _)%list_lookup_fmap_Some Hvw. by apply not_elem_of_nil in Hvw.
  - intros i vs Hvs. apply pushes_safe; [|done]. intros v Hv. apply Hparts, elem_of_concat.
    exists vs. split; [done|by eapply list_elem_of_lookup_2].
  - intros [x f] (Hw' & Hs' & HJ). destruct HJ as [Jl JB Jm Jf Jlo Jp Jt Jfo]. cbn [fst snd] in *.
    split; [|done]. split; cbn [fst snd]; try done. intros v Hv HD.
    destruct (bm_get f v) eqn:Ef; [by left|right].
    assert (Hv0 : at_ (ids x) v = at_ L0 v).
    { pose proof (Jm v Hv). destruct (decide (at_ (ids x) v < at_ L0 v)) as [Hlt|]; [|lia].
      destruct (Jlo v Hv Hlt) as [?|(i & g & Hi & Hpe)]; [congruence|].
      by apply list_lookup_fmap_Some in Hi as (vs & -> & _). }
    intros w Hvw. rewrite Hv0. assert (0 ≤ w < n) as Hw0 by (by eapply Hgwf).
    destruct HD as [HD|(vs & Hin & [i Hvs]%list_elem_of_lookup)%elem_of_concat].
    + etrans; [by apply Jm|]. by apply Hset.
    + apply (Jfo i (Ghost None None (vs ≫= edges_of)) v w); [by rewrite list_lookup_fmap, Hvs|]. cbn. apply list_elem_of_bind. exists v. split; [|done].
      apply list_elem_of_fmap. by exists w.
Qed.
End race.

(** ** The kernel *)

(** The state of the kernel with the spurious failures to come. *)
Abbreviation machine_state := (cc_state * list bool)%type.

Definition cc_stop (m : machine_state) : bool := is_empty (frontier m.1).
Definition cc_tasks (fuel : nat) (m : machine_state) : list (prog push_state unit) → Prop :=
  pushing (CC_push_c fuel) (frontier m.1).
Definition cc_open (m : machine_state) : push_state := (Table (labels m.1) m.2, next_frontier m.1).
Definition cc_close (m : machine_state) (s : push_state) : result machine_state :=
  cleared ← clear (rounds m.1) (frontier m.1);
  Ok (CcState s.2 cleared (ids s.1) (S (rounds m.1)) (engine m.1), spurious s.1).

Lemma cc_round_ends fuel B st o ts :
  round_inv st → cc_stop (st, o) = false → (length o ≤ B)%nat → (Z.to_nat n + B ≤ fuel)%nat →
  cc_tasks fuel (st, o) ts →
  round_ends (λ s, ∃ m', cc_close (st, o) s = Ok m' ∧ round_inv m'.1 ∧ (length m'.2 ≤ B)%nat
                ∧ (rounds_left m'.1 < rounds_left st)%nat)
    (Cfg (cc_open (st, o)) ts).
Proof.
  intros Hri He Ho Hfuel (parts & Hcov & ->). pose proof Hcov as (Hnd & Hin & Hall).
  pose proof Hri as [Hlab [Hfw Hfs] (Hnw & Hns & Hnb) Heng Hset].
  eapply round_ends_mono;
    [|apply (cc_push_round_ends (labels st) B fuel o (next_frontier st) parts
        (λ v, bm_get (frontier st) v = false)); try done].
  - intros [x nx] [Hp HB].
    destruct (clear_spec (rounds st) (frontier st)) as (cl & Ec & Hcw & Hcs & Hcb); [apply Hfw|].
    eexists; split; [unfold cc_close; cbn [fst snd]; by rewrite Ec|]. cbn [fst snd].
    destruct (cc_next_inv st (concat parts) cl (ids x) nx (S (rounds st)) (engine st)) as [H1 H2];
      try done; [lia|intros v Hv; apply Hcb; lia].
  - intros u Hu. by apply Hin in Hu as [?%elem_of_rng _].
Qed.

(** All runs end, and the engine is always called on a proper frontier. *)
Lemma cc_runs fuel failures frontierA frontierB vt0 eng :
  cc_ready frontierA frontierB vt0 eng → (Z.to_nat n + length failures ≤ fuel)%nat →
  ∃ st, cc_enter frontierA frontierB vt0 eng = Ok st
    ∧ ends_in cc_stop (cc_tasks fuel) cc_open cc_close (λ m, full_frontier (frontier m.1)) (λ m, components (labels m.1)) (Head (st, failures)).
Proof.
  intros Hready Hfuel. destruct (cc_enter_ok _ _ _ _ Hready) as (st & E & Hri & _).
  exists st. split; [done|].
  apply (ends_in_mono _ _ _ _ (λ m, ∃ r : nat, (round_inv m.1 ∧ (length m.2 ≤ length failures)%nat) ∧ r = rounds_left m.1)); [by intros m1 (r & (HR & _) & _); apply HR|].
  apply (machine_ends _ _ _ _ (λ r m, (round_inv m.1 ∧ (length m.2 ≤ length failures)%nat)
    ∧ r = rounds_left m.1) _ (rounds_left st)); [| |done].
  - intros r [st1 o] [[Hri1 _] _] Hstop. by apply cc_done.
  - intros r [st1 o] [[Hri1 Ho] ->] Hstop. split; [apply pushing_exists|]. intros ts Hts.
    eapply round_ends_mono; [|by eapply cc_round_ends].
    cbv beta. intros s (m' & E' & Hri' & Ho' & Hlt). by eexists _, m'.
Qed.

(** connected components are correct under every interleaving.  The workers of a round
    load labels, exchange them and set bits of the next frontier one operation at a time,
    in any order, and a finite number of exchanges fails spuriously.  Every
    compare-and-swap loop ends (a label can be lowered at most as often as there are
    vertices), no run faults or goes on for ever, and when the kernel ends, every label
    is the least vertex that reaches it. *)
Theorem cc_concurrent fuel failures frontierA frontierB vt0 eng :
  cc_ready frontierA frontierB vt0 eng → (Z.to_nat n + length failures ≤ fuel)%nat →
  ∃ st, cc_enter frontierA frontierB vt0 eng = Ok st
    ∧ ends cc_stop (cc_tasks fuel) cc_open cc_close (λ m, components (labels m.1)) (Head (st, failures)).
Proof.
  intros Hready Hfuel. destruct (cc_runs fuel failures _ _ _ _ Hready Hfuel) as (st & E & Hends). exists st.
  split; [done|]. by eapply ends_in_mono, Hends.
Qed.
End cc.
