(* ===== verification/Mis.v ===== *)
(** * Mis: maximal independent set ([mis.hpp])

    Vertices are decided in order of their number, in prefixes that grow by at
    most [delta] undecided vertices per round.  [mis_correct] shows that the
    kernel terminates and computes the greedy maximal independent set, and
    [mis_stalls] that it never ends when the [delta] option exceeds the number
    of vertices. *)

From S2P Require Import Prelude Platform VertexTable Bitmap Engine EdgeEngine.

Inductive MatchFlag := UNDECIDED | IN | OUT.

#[export] Instance MatchFlag_eq_dec : EqDecision MatchFlag.
Proof. solve_decision. Defined.
#[export] Instance MatchFlag_inhabited : Inhabited MatchFlag := populate UNDECIDED.

Section mis.
  Context {BU : BuildOptions} {BO : Boost} {OS : Os} {CB : Combinable} {SC : Scheduler}.
  Context {EO : EngineOps} {EE : EdgeEngine}.
  Abbreviation n := (g_n eng_graph).
  Abbreviation adj := (g_adj eng_graph).
  Abbreviation gdeg := (g_deg eng_graph).

(** What [pull] captures by reference: the flags (a [mis_vertex] is its flag),
    [next_frontier] and the two counters. *)
Record pull_state := PullState {
  flags : list MatchFlag;
  pl_next : Bitmap;
  n_decided : combinable;
  next_frontier_size : combinable;
}.

(** One iteration of the loop of [pull] over the edges, with its [break]. *)
Definition scan_step (fl : list MatchFlag) (v : Z) (edges : list Z) (m : Z) (st : Z * MatchFlag)
    : result (Z * MatchFlag + MatchFlag) :=
  let '(i, v_flag) := st in
  if bool_decide (i < m) then
    w ← aget edges i;
    if bool_decide (w < v) then
      fw ← aget fl w;
      let v_flag := match fw with UNDECIDED => UNDECIDED | IN => OUT | OUT => v_flag end in
      if bool_decide (v_flag = OUT) then Ok (inr v_flag) else Ok (inl (i + 1, v_flag))
    else Ok (inl (i + 1, v_flag))
  else Ok (inr v_flag).

Definition pull (t : nat) (v : Z) (edges : list Z) (m : Z) (st : pull_state) : result pull_state :=
  f ← aget (flags st) v;
  if bool_decide (f = OUT) then _ ← cassert false; Ok st
  else
    v_flag ← loopM (range_fuel 0 m) (scan_step (flags st) v edges m) (0, IN);
    '(next, decided, next_size) ← (if bool_decide (v_flag = UNDECIDED) then
        '(_, next) ← set_bit t v (pl_next st);
        Ok (next, n_decided st, comb_incr t (next_frontier_size st))
      else Ok (pl_next st, comb_incr t (n_decided st), next_frontier_size st));
    fl ← aset (flags st) v v_flag;
    Ok (PullState fl next decided next_size).

Record mis_state := MisState {
  frontier : Bitmap;
  next_frontier : Bitmap;
  ms_flags : list MatchFlag;
  decided : combinable;
  next_size : combinable;
  start : Z;
  end_ : Z;
  undecided : Z;
  front_size : Z;
  rounds : nat;
  engine : eng_state;
}.

(** One evaluation of [while (undecided > 0)]. *)
Definition mis_step (delta : Z) (st : mis_state) : result (mis_state + mis_state) :=
  if bool_decide (0 < undecided st) then
    let u := PullState (ms_flags st) (next_frontier st) (decided st) (next_size st) in
    '(eng, u) ← (if bool_decide (0 < front_size st)
      then ccy_for_each_active pull (rounds st) (frontier st) 0 (end_ st) (engine st, u)
      else Ok (engine st, u));
    _ ← cassert (bool_decide (front_size st ≤ delta));
    let end' := n `min` u32 (u32 (end_ st + delta) - front_size st) in
    '(eng, u) ← (if bool_decide (start st < end')
      then for_each_in_range pull (rounds st) (start st) end' (eng, u)
      else Ok (eng, u));
    let und := u32 (undecided st - comb_sum (n_decided u)) in
    let fs := comb_sum (next_frontier_size u) in
    cleared ← clear (rounds st) (frontier st);
    Ok (inl (MisState (pl_next u) cleared (flags u) comb_new comb_new end' end' und fs
               (S (rounds st)) eng))
  else Ok (inr st).

(** The body of the initial loop. *)
Definition mis_init (idx : list vertex) (num_edges : Z) (t : nat) (v : Z)
    (st : list MatchFlag * combinable) : result (list MatchFlag * combinable) :=
  d ← get_num_edges v idx n num_edges;
  if bool_decide (d = 0) then fl ← aset st.1 v IN; Ok (fl, comb_incr t st.2) else Ok st.

(** [operator()] up to its [while]. *)
Definition mis_enter (divisor : Z) (idx : list vertex) (num_edges : Z)
    (frontierA frontierB : Bitmap) (vtable : list MatchFlag) (eng : eng_state)
    : result (Z * mis_state) :=
  if bool_decide (divisor = 0) then Fault DivByZero
  else
    let delta := n / divisor in
    '(fl, zero_deg_nodes) ← parallel_for 0 0 n (λ t lo hi, for_u32 lo hi
                              (mis_init idx num_edges t)) (vtable, comb_new);
    let und := u32 (n - comb_sum zero_deg_nodes) in
    Ok (delta, MisState frontierA frontierB fl comb_new comb_new 0 0 und 0 1 eng).

Definition mis_kernel (fuel : nat) (divisor : Z) (idx : list vertex) (num_edges : Z)
    (frontierA frontierB : Bitmap) (vtable : list MatchFlag) (eng : eng_state)
    : result mis_state :=
  '(delta, st) ← mis_enter divisor idx num_edges frontierA frontierB vtable eng;
  loopM fuel (mis_step delta) st.

(** [get_cardinality]: the size of the set, as [print_result] logs it. *)
Definition get_cardinality (r : nat) (vtable : list MatchFlag) (total_verts : Z) : result Z :=
  parallel_reduce r 0 total_verts 0 (λ a b, for_u32 a b (λ i init,
      is_in ← (f ← aget vtable i; Ok (bool_decide (f = IN)));
      Ok (if is_in : bool then u32 (init + 1) else init)))
    (λ a t_b, u32 (a + t_b)).

(** ** One pull *)
Abbreviation und fl v := (bool_decide (at_ fl v = UNDECIDED)).

(** What the scan of the smaller neighbours finds. *)
Definition scanned (fl : list MatchFlag) (v : Z) (l : list Z) (f : MatchFlag) : Prop :=
  match f with
  | OUT => ∃ w, w ∈ l ∧ w < v ∧ at_ fl w = IN
  | UNDECIDED => (∀ w, w ∈ l → w < v → at_ fl w ≠ IN) ∧ ∃ w, w ∈ l ∧ w < v ∧ at_ fl w = UNDECIDED
  | IN => ∀ w, w ∈ l → w < v → at_ fl w = OUT
  end.

Lemma scan_ok fl v :
  zlen fl = n → 0 ≤ v < n →
  ∃ f, loopM (range_fuel 0 (gdeg v)) (scan_step fl v (adj v) (gdeg v)) (0, IN) = Ok f
    ∧ scanned fl v (adj v) f.
Proof.
  intros Hl Hv. destruct eng_graph_wf as [_ Hgwf].
  apply (loopM_total (λ st, 0 ≤ st.1 ≤ gdeg v ∧ st.2 ≠ OUT
      ∧ scanned fl v (take (Z.to_nat st.1) (adj v)) st.2)
    (λ f, scanned fl v (adj v) f) (λ st, Z.to_nat (gdeg v - st.1))).
  - simpl. split; [split; [done|apply zlen_nonneg]|]. split; [done|set_solver].
  - unfold range_fuel. simpl. lia.
  - intros [i f] (Hi & Hf & Hs). simpl in *. unfold scan_step. case_bool_decide as Him.
    2:{ eexists; split; [done|]. replace i with (gdeg v) in Hs by lia.
        rewrite take_ge in Hs by (unfold g_deg, zlen; lia). done. }
    rewrite aget_at, bind_ok by (unfold g_deg in *; lia).
    set (w := at_ (adj v) i).
    assert (Hlk : adj v !! Z.to_nat i = Some w).
    { apply list_lookup_lookup_total_lt. unfold g_deg, zlen in *. lia. }
    assert (Hw : 0 ≤ w < n) by (eapply Hgwf; [exact Hv|by eapply list_elem_of_lookup_2]).
    assert (Htake : take (Z.to_nat (i + 1)) (adj v) = take (Z.to_nat i) (adj v) ++ [w]).
    { rewrite Z2Nat.inj_add, Nat.add_1_r by lia. by apply take_S_r. }
    assert (Hin : w ∈ adj v) by (by eapply list_elem_of_lookup_2).
    assert (Hnext : ∀ f', f' ≠ OUT → scanned fl v (take (Z.to_nat i) (adj v) ++ [w]) f' →
      ∃ r, Ok (inl (i + 1, f')) = Ok r ∧ match r with
        | inl s' => (0 ≤ s'.1 ≤ gdeg v ∧ s'.2 ≠ OUT ∧ scanned fl v (take (Z.to_nat s'.1) (adj v)) s'.2)
                    ∧ (Z.to_nat (gdeg v - s'.1) < Z.to_nat (gdeg v - i))%nat
        | inr f => scanned fl v (adj v) f end).
    { intros f' Hf' Hs'. eexists; split; [done|]. simpl. rewrite Htake. split; [|lia].
      split; [lia|done]. }
    case_bool_decide as Hlt.
    2:{ apply Hnext; [done|]. destruct f; simpl in *; set_solver. }
    rewrite aget_at, bind_ok by lia. destruct (at_ fl w) eqn:Ew; cbv zeta.
    + rewrite bool_decide_eq_false_2 by done. apply Hnext; [done|]. simpl. split.
      * intros x. rewrite elem_of_app, list_elem_of_singleton. intros [Hx| ->] Hxv; [|congruence].
        destruct f; simpl in Hs; [by apply Hs|by rewrite (Hs x)|done].
      * exists w. set_solver.
    + rewrite bool_decide_eq_true_2 by done. eexists; split; [done|]. simpl. by exists w.
    + rewrite bool_decide_eq_false_2 by done. apply Hnext; [done|].
      destruct f; simpl in Hs |- *; [|set_solver|done]. destruct Hs as [Hs1 (x & Hx & Hxv & Hfx)].
      split; [|exists x; set_solver]. intros y.
      rewrite elem_of_app, list_elem_of_singleton. intros [Hy| ->] Hyv; [by apply Hs1|congruence].
Qed.

(** The decisions made so far are those of the greedy algorithm. *)
Definition sound (fl : list MatchFlag) : Prop :=
  ∀ v, 0 ≤ v < n → match at_ fl v with
    | IN => ∀ w, w ∈ adj v → w < v → at_ fl w = OUT
    | OUT => ∃ w, w ∈ adj v ∧ w < v ∧ at_ fl w = IN
    | UNDECIDED => True
    end.

(** After the undecided vertices [dn] were pulled, starting from the flags [fl0]. *)
Record pulled (fl0 : list MatchFlag) (dn : list Z) (st : pull_state) : Prop := {
  pl_len : zlen (flags st) = n;
  pl_wf : bm_wf (pl_next st);
  pl_size : size (pl_next st) = n;
  pl_done : NoDup dn ∧ ∀ v, v ∈ dn → 0 ≤ v < n ∧ at_ fl0 v = UNDECIDED;
  pl_keep v : 0 ≤ v < n → v ∉ dn → at_ (flags st) v = at_ fl0 v;
  pl_sound : sound (flags st);
  pl_front v : 0 ≤ v < n → bm_get (pl_next st) v = bool_decide (v ∈ dn) && und (flags st) v;
  pl_count : comb_sum (n_decided st) = zcount (λ v, negb (und (flags st) v)) dn;
  pl_left : comb_sum (next_frontier_size st) = zcount (λ v, und (flags st) v) dn;
  pl_blocked v : v ∈ dn → at_ (flags st) v = UNDECIDED →
    ∃ w, 0 ≤ w < v ∧ at_ fl0 w = UNDECIDED;
}.

Lemma dn_length dn : NoDup dn → (∀ v, v ∈ dn → 0 ≤ v < n) → zlen dn ≤ n.
Proof.
  intros Hnd HR. destruct eng_graph_wf as [Hn _]. unfold zlen.
  assert (length dn ≤ length (rng 0 n))%nat.
  { apply NoDup_incl_length; [by apply NoDup_ListNoDup|].
    intros u Hu%list_elem_of_In. apply list_elem_of_In, elem_of_rng. by apply HR. }
  rewrite length_rng in *. lia.
Qed.

(** Flags that change at one undecided vertex only. *)
Lemma sound_set fl v f :
  zlen fl = n → 0 ≤ v < n → at_ fl v = UNDECIDED → sound fl →
  f = UNDECIDED ∨ scanned fl v (adj v) f →
  sound (<[Z.to_nat v:=f]> fl).
Proof.
  intros Hl Hv Hu Hs Hsc x Hx. destruct eng_graph_wf as [_ Hgwf].
  assert (Hat : ∀ y, 0 ≤ y → at_ (<[Z.to_nat v:=f]> fl) y = if decide (v = y) then f else at_ fl y).
  { intros y Hy. apply at_insert; lia. }
  rewrite Hat by lia. case_decide as E.
  - subst x. destruct Hsc as [->|Hsc]; [done|]. destruct f; [done| |].
    + intros w Hw Hlt. rewrite Hat, decide_False by (try lia; apply (Hgwf v w Hv Hw)). by apply Hsc.
    + destruct Hsc as (w & Hw & Hlt & Hfw). exists w. split; [done|]. split; [done|].
      by rewrite Hat, decide_False by (try lia; apply (Hgwf v w Hv Hw)).
  - specialize (Hs x Hx). destruct (at_ fl x); [done| |].
    + intros w Hw Hlt. rewrite Hat by apply (Hgwf x w Hx Hw). case_decide as E'; [|by apply Hs].
      subst w. rewrite (Hs v Hw Hlt) in Hu. done.
    + destruct Hs as (w & Hw & Hlt & Hfw). exists w. split; [done|]. split; [done|].
      rewrite Hat by apply (Hgwf x w Hx Hw). case_decide; [congruence|done].
Qed.

Lemma zcount_cons {A} (p : A → bool) x l : zcount p (x :: l) = Z.b2z (p x) + zcount p l.
Proof. done. Qed.

Lemma mem_cons_ne (x v : Z) dn : x ≠ v → bool_decide (x ∈ dn) = bool_decide (x ∈ v :: dn).
Proof. intros Hne. apply bool_decide_ext. rewrite elem_of_cons. tauto. Qed.

Lemma pull_ok fl0 dn t v st :
  0 ≤ v < n → at_ fl0 v = UNDECIDED → v ∉ dn → pulled fl0 dn st →
  ∃ st', pull t v (adj v) (gdeg v) st = Ok st' ∧ pulled fl0 (v :: dn) st'.
Proof.
  intros Hv Hu Hnin [Hl Hw Hs [Hnd HR] Hk Hso Hf Hc Hle Hb]. destruct eng_graph_wf as [Hn Hgwf].
  assert (Hfv : at_ (flags st) v = UNDECIDED) by (by rewrite Hk).
  unfold pull. rewrite aget_at, bind_ok, Hfv by lia. rewrite bool_decide_eq_false_2 by done.
  destruct (scan_ok (flags st) v Hl Hv) as (f & -> & Hsc). rewrite bind_ok.
  assert (Hlen : zlen (v :: dn) ≤ n).
  { apply dn_length; [by constructor|]. intros x [->|Hx]%elem_of_cons; [done|by apply HR]. }
  replace (zlen (v :: dn)) with (zlen dn + 1) in Hlen by (unfold zlen; simpl; lia).
  set (fl := <[Z.to_nat v:=f]> (flags st)).
  assert (Hat : ∀ y, 0 ≤ y → at_ fl y = if decide (v = y) then f else at_ (flags st) y).
  { intros y Hy. apply at_insert; lia. }
  assert (Hother : ∀ (h : bool → bool), zcount (λ x, h (und fl x)) dn = zcount (λ x, h (und (flags st) x)) dn).
  { intros h. apply zsum_ext. intros x Hx. rewrite Hat, decide_False; [done| |apply HR, Hx]. by intros ->. }
  pose proof (Hother id) as Ho1. pose proof (Hother negb) as Ho2. unfold id in Ho1. cbv beta in Ho1, Ho2.
  pose proof (zcount_bounds (λ x, und (flags st) x) dn).
  pose proof (zcount_bounds (λ x, negb (und (flags st) x)) dn).
  assert (Hcommon : ∀ next dec sz, bm_wf next → size next = n →
    (∀ x, 0 ≤ x < n → bm_get next x = bool_decide (x ∈ v :: dn) && und fl x) →
    comb_sum dec = zcount (λ x, negb (und fl x)) (v :: dn) →
    comb_sum sz = zcount (λ x, und fl x) (v :: dn) → pulled fl0 (v :: dn) (PullState fl next dec sz)).
  { intros next dec sz H1 H2 H3 H4 H5. split; simpl; try done.
    - unfold fl. by rewrite zlen_insert.
    - split; [by constructor|]. intros x [->|Hx]%elem_of_cons; [done|by apply HR].
    - intros x Hx [Hne Hx']%not_elem_of_cons. rewrite Hat, decide_False by (lia || done). by apply Hk.
    - apply sound_set; [done..|by right].
    - intros x [->|Hx]%elem_of_cons.
      + rewrite Hat, decide_True by (lia || done). intros ->. destruct Hsc as [_ (w & Hwa & Hlt & Hfw)].
        assert (0 ≤ w < n) by eauto. exists w. split; [lia|].
        destruct (decide (w ∈ dn)) as [Hwd|Hwd]; [by apply HR|by rewrite <- Hk].
      + rewrite Hat, decide_False; [by apply Hb| |apply HR, Hx]. by intros ->. }
  assert (Hfu : und fl v = bool_decide (f = UNDECIDED)) by (by rewrite Hat, decide_True by (lia || done)).
  destruct (decide (f = UNDECIDED)) as [Ef|Ef];
    [rewrite (bool_decide_eq_true_2 (f = UNDECIDED)) by done
    |rewrite (bool_decide_eq_false_2 (f = UNDECIDED)) by done].
  - destruct (set_bit_spec t v (pl_next st) Hw) as (b & -> & Hw' & Hs' & Hb'); [lia|].
    rewrite !bind_ok. cbv beta iota. rewrite aset_ok, bind_ok by lia. eexists; split; [done|]. apply Hcommon; [done|lia|..].
    + intros x Hx. rewrite Hb', Hf by lia. destruct (decide (x = v)) as [->|Hne].
      * rewrite Hfu. rewrite (bool_decide_eq_true_2 (v ∈ v :: dn)) by (apply elem_of_cons; by left).
        by rewrite (bool_decide_eq_true_2 (v = v)), (bool_decide_eq_true_2 (f = UNDECIDED)) by done.
      * rewrite Hat, decide_False by (lia || done). rewrite (bool_decide_eq_false_2 (x = v)) by done.
        simpl. f_equal. by apply mem_cons_ne.
    + rewrite zcount_cons, Hfu, Ho2, Hc. by rewrite bool_decide_eq_true_2.
    + rewrite zcount_cons, Hfu, Ho1, <- Hle, bool_decide_eq_true_2 by done. simpl.
      rewrite comb_sum_incr, Hle, u32_id'; lia.
  - rewrite !bind_ok. cbv beta iota. rewrite aset_ok, bind_ok by lia. eexists; split; [done|]. apply Hcommon; [done|done|..].
    + intros x Hx. rewrite Hf by lia. destruct (decide (x = v)) as [->|Hne].
      * rewrite Hfu, (bool_decide_eq_false_2 (v ∈ dn)), (bool_decide_eq_false_2 (f = UNDECIDED)) by done.
        by rewrite andb_false_r.
      * rewrite Hat, decide_False by (lia || done). f_equal. by apply mem_cons_ne.
    + rewrite zcount_cons, Hfu, Ho2, <- Hc, bool_decide_eq_false_2 by done. simpl.
      rewrite comb_sum_incr, Hc, u32_id'; lia.
    + rewrite zcount_cons, Hfu, Ho1, Hle. by rewrite bool_decide_eq_false_2.
Qed.

(** ** One round *)

#[local] Instance exists_in_rng_dec (l : list Z) (p : Z → bool) : Decision (∃ w, w ∈ l ∧ p w = true).
Proof.
  destruct (decide (Exists (λ w, p w = true) l)) as [H|H]; [left|right]; by rewrite <- Exists_exists.
Defined.

(** The smallest index with a property. *)
Lemma smallest (p : Z → bool) v :
  0 ≤ v → p v = true → ∃ m, 0 ≤ m ≤ v ∧ p m = true ∧ ∀ w, 0 ≤ w < m → p w = false.
Proof.
  intros Hv. pattern v. apply (Zlt_0_ind _); [|done]. clear v Hv. intros v IH Hv Hp.
  destruct (decide (∃ w, w ∈ rng 0 v ∧ p w = true)) as [(w & Hw%elem_of_rng & Hpw)|Hno].
  - destruct (IH w ltac:(lia) Hpw) as (m & Hm & Hpm & Hmin). exists m. split; [lia|done].
  - exists v. split; [lia|]. split; [done|]. intros w Hw. destruct (p w) eqn:E; [|done].
    destruct Hno. exists w. by rewrite elem_of_rng.
Qed.

(** At the head of a round: below [end_] every vertex has been pulled, the
    undecided ones among them are the frontier; from [end_] on, only the
    vertices without edges are decided. *)
Record round_inv (delta : Z) (st : mis_state) : Prop := {
  mi_len : zlen (ms_flags st) = n;
  mi_range : start st = end_ st ∧ 0 ≤ end_ st ≤ n;
  mi_front : bm_wf (frontier st) ∧ size (frontier st) = n;
  mi_bits v : 0 ≤ v < n →
    bm_get (frontier st) v = bool_decide (v < end_ st) && und (ms_flags st) v;
  mi_next : bm_wf (next_frontier st) ∧ size (next_frontier st) = n
            ∧ ∀ v, 0 ≤ v < n → bm_get (next_frontier st) v = false;
  mi_eng : eng_ok (engine st);
  mi_counters : comb_sum (decided st) = 0 ∧ comb_sum (next_size st) = 0;
  mi_sound : sound (ms_flags st);
  mi_isolated v : 0 ≤ v < n → gdeg v = 0 → at_ (ms_flags st) v = IN;
  mi_ahead v : end_ st ≤ v < n → 0 < gdeg v → at_ (ms_flags st) v = UNDECIDED;
  mi_undecided : undecided st = zcount (λ v, und (ms_flags st) v) (rng 0 n);
  mi_size : front_size st = zcount (λ v, und (ms_flags st) v) (rng 0 (end_ st));
  mi_delta : front_size st ≤ delta;
}.

Abbreviation pull0 st := (PullState (ms_flags st) (next_frontier st) (decided st) (next_size st)).

Lemma pulled_nil delta st : round_inv delta st → pulled (ms_flags st) [] (pull0 st).
Proof.
  intros Hri. destruct (mi_next _ _ Hri) as (H1 & H2 & H3), (mi_counters _ _ Hri) as [H4 H5].
  split; simpl; try done; try apply Hri; try (by intros v Hv%not_elem_of_nil).
  split; [constructor|]. by intros v Hv%not_elem_of_nil.
Qed.

Lemma und_linked delta st v :
  round_inv delta st → 0 ≤ v < n → und (ms_flags st) v = true → 0 < gdeg v.
Proof.
  intros Hri Hv Hu%bool_decide_eq_true. pose proof (zlen_nonneg (adj v)).
  destruct (decide (gdeg v = 0)) as [E|]; [|unfold g_deg in *; lia].
  rewrite (mi_isolated _ _ Hri v Hv E) in Hu. done.
Qed.

(** Which vertices the two calls of the engine pull. *)
Lemma front_covered delta st l :
  round_inv delta st → covers (bm_get (frontier st)) gdeg (rng 0 (end_ st)) l →
  ∀ x, x ∈ l ↔ 0 ≤ x < end_ st ∧ und (ms_flags st) x = true.
Proof.
  intros Hri (_ & Hl & Hall) x. destruct (mi_range _ _ Hri) as [_ He]. split.
  - intros [Hx%elem_of_rng Hb]%Hl. rewrite (mi_bits _ _ Hri) in Hb by lia.
    by apply andb_true_iff in Hb as [_ ?].
  - intros [Hx Hu]. apply Hall; [by apply elem_of_rng| |].
    + rewrite (mi_bits _ _ Hri) by lia. by rewrite Hu, bool_decide_eq_true_2 by lia.
    + eapply und_linked; [done|lia|done].
Qed.

Lemma front_empty delta st :
  round_inv delta st → ¬ 0 < front_size st →
  ∀ x, x ∈ [] ↔ 0 ≤ x < end_ st ∧ und (ms_flags st) x = true.
Proof.
  intros Hri Hf x. split; [by intros ?%not_elem_of_nil|]. intros [Hx Hu].
  assert (zcount (λ v, und (ms_flags st) v) (rng 0 (end_ st)) = 0) as Hz.
  { rewrite <- (mi_size _ _ Hri). pose proof (zcount_bounds (λ v, und (ms_flags st) v) (rng 0 (end_ st))).
    rewrite <- (mi_size _ _ Hri) in *. lia. }
  rewrite zcount_zero in Hz. rewrite Hz in Hu; [done|]. by apply elem_of_rng.
Qed.

Lemma fresh_covered delta st e' l1 l :
  round_inv delta st → end_ st ≤ e' ≤ n →
  (∀ x, x ∈ l1 ↔ 0 ≤ x < end_ st ∧ und (ms_flags st) x = true) →
  covers (has_edges eng_graph) gdeg (rng (end_ st) e') l →
  ∀ x, x ∈ l ++ l1 ↔ 0 ≤ x < e' ∧ und (ms_flags st) x = true.
Proof.
  intros Hri He' Hl1 (_ & Hl & Hall) x. destruct (mi_range _ _ Hri) as [_ He].
  rewrite elem_of_app, Hl1. split.
  - intros [[Hx%elem_of_rng Hd%bool_decide_eq_true]%Hl|[Hx Hu]]; [|split; [lia|done]].
    split; [lia|]. apply bool_decide_eq_true, (mi_ahead _ _ Hri); [lia|done].
  - intros [Hx Hu]. destruct (decide (x < end_ st)); [right; split; [lia|done]|left].
    assert (0 < gdeg x) as Hd by (eapply und_linked; [done|lia|done]).
    apply Hall; [apply elem_of_rng; lia|by apply bool_decide_eq_true|done].
Qed.

(** The frontier is pulled again. *)
Lemma mis_phase1 delta st :
  round_inv delta st →
  ∃ eng u l, (if bool_decide (0 < front_size st)
      then ccy_for_each_active pull (rounds st) (frontier st) 0 (end_ st) (engine st, pull0 st)
      else Ok (engine st, pull0 st)) = Ok (eng, u)
    ∧ eng_ok eng ∧ pulled (ms_flags st) l u
    ∧ ∀ x, x ∈ l ↔ 0 ≤ x < end_ st ∧ und (ms_flags st) x = true.
Proof.
  intros Hri. destruct (mi_front _ _ Hri) as [Hw Hs], (mi_range _ _ Hri) as [_ He].
  pose proof (pulled_nil _ _ Hri) as H0. case_bool_decide as Hf.
  - destruct (ccy_for_each_active_spec pull (pulled (ms_flags st)) (rounds st) (frontier st) 0
      (end_ st) (engine st) (pull0 st)) as (eng & u & l & E & Hok & Hcov & HI);
      [apply Hw|done| |lia|lia|apply Hri|done|].
    + intros t v dn u Hv Hr Ha Hn HI. rewrite (mi_bits _ _ Hri) in Ha by done.
      apply andb_true_iff in Ha as [_ Hu%bool_decide_eq_true]. by apply pull_ok.
    + exists eng, u, l. split; [done|]. split; [done|]. split; [done|]. by eapply front_covered.
  - exists (engine st), (pull0 st), []. split; [done|]. split; [apply Hri|]. split; [done|].
    by eapply front_empty.
Qed.

(** New vertices are pulled for the first time. *)
Lemma mis_phase2 delta st e' eng u l1 :
  round_inv delta st → end_ st ≤ e' ≤ n → eng_ok eng → pulled (ms_flags st) l1 u →
  (∀ x, x ∈ l1 ↔ 0 ≤ x < end_ st ∧ und (ms_flags st) x = true) →
  ∃ eng' u' l, (if bool_decide (start st < e')
      then for_each_in_range pull (rounds st) (start st) e' (eng, u) else Ok (eng, u)) = Ok (eng', u')
    ∧ eng_ok eng' ∧ pulled (ms_flags st) l u'
    ∧ ∀ x, x ∈ l ↔ 0 ≤ x < e' ∧ und (ms_flags st) x = true.
Proof.
  intros Hri He' Hok Hp Hl1. destruct (mi_range _ _ Hri) as [-> He]. case_bool_decide as Hlt.
  - destruct (for_each_in_range_spec pull (λ dn u, pulled (ms_flags st) (dn ++ l1) u) (rounds st)
      (end_ st) e' eng u) as (eng' & u' & l & E & Hok' & Hcov & HI); [|lia|lia|done|done|].
    + intros t v dn u0 Hv Hr Ha%bool_decide_eq_true Hn HI.
      apply pull_ok; [done|apply (mi_ahead _ _ Hri); [lia|done]| |done].
      rewrite not_elem_of_app, Hl1. split; [done|]. lia.
    + exists eng', u', (l ++ l1). split; [done|]. split; [done|]. split; [done|].
      by eapply fresh_covered.
  - exists eng, u, l1. split; [done|]. split; [done|]. split; [done|].
    replace e' with (end_ st) by lia. done.
Qed.

(** The counts after the vertices [l], undecided in [fl0], were pulled. *)
Lemma pulled_counts fl0 l u e :
  pulled fl0 l u → 0 ≤ e ≤ n → (∀ x, x ∈ l ↔ 0 ≤ x < e ∧ und fl0 x = true) →
  zcount (λ v, und (flags u) v) (rng 0 n)
  = zcount (λ v, und fl0 v) (rng 0 n) - comb_sum (n_decided u)
  ∧ zcount (λ v, und (flags u) v) (rng 0 e) = comb_sum (next_frontier_size u).
Proof.
  intros Hp He Hl. destruct (pl_done _ _ _ Hp) as [Hnd HR].
  assert (Hsub : ∀ (f : Z → Z) hi, e ≤ hi → zsum f l = zsum (λ x, if decide (x ∈ l) then f x else 0) (rng 0 hi)).
  { intros f hi Hhi. apply zsum_sublist; [done|apply NoDup_rng|].
    intros x [Hx _]%Hl. apply elem_of_rng. lia. }
  rewrite (pl_count _ _ _ Hp), (pl_left _ _ _ Hp). unfold zcount. split.
  - rewrite (Hsub _ n) by lia. apply Z.add_move_r. rewrite <- zsum_add.
    apply zsum_ext. intros x Hx%elem_of_rng. case_decide as Hd.
    + rewrite (bool_decide_eq_true_2 (at_ fl0 x = UNDECIDED)) by (by apply HR). by case_bool_decide.
    + rewrite (pl_keep _ _ _ Hp) by done. lia.
  - rewrite (Hsub _ e) by lia. apply zsum_ext. intros x Hx%elem_of_rng. case_decide as Hd; [done|].
    rewrite (pl_keep _ _ _ Hp) by (done || lia).
    destruct (und fl0 x) eqn:E; [|done]. by destruct Hd; apply Hl.
Qed.

(** What is left to do: vertices to reach and vertices to decide. *)
Definition work (st : mis_state) : nat := Z.to_nat (n - end_ st + undecided st).

(** How far the round goes. *)
Definition new_end (delta : Z) (st : mis_state) : Z := n `min` (end_ st + delta - front_size st).

Lemma new_end_ok delta st :
  0 < delta → n + delta < 2 ^ 32 → round_inv delta st →
  n `min` u32 (u32 (end_ st + delta) - front_size st) = new_end delta st
  ∧ end_ st ≤ new_end delta st ≤ n.
Proof.
  intros Hd H32 Hri. destruct (mi_range _ _ Hri) as [Hse He], eng_graph_wf as [Hn _].
  pose proof (zcount_bounds (λ v, und (ms_flags st) v) (rng 0 (end_ st))) as Hb'.
  rewrite <- (mi_size _ _ Hri) in Hb'. unfold zlen in Hb'. rewrite length_rng in Hb'.
  pose proof (mi_delta _ _ Hri) as Hfd. unfold new_end.
  by rewrite (u32_id' (end_ st + delta)), (u32_id' (end_ st + delta - front_size st)) by lia; lia.
Qed.

(** Vertices undecided after the round were undecided before. *)
Lemma pulled_und fl0 l u x :
  pulled fl0 l u → 0 ≤ x < n → und (flags u) x = true → und fl0 x = true.
Proof.
  intros Hp Hx Hu. destruct (decide (x ∈ l)) as [Hxl|Hxl]; [|by rewrite <- (pl_keep _ _ _ Hp)].
  by apply bool_decide_eq_true, (pl_done _ _ _ Hp).
Qed.

(** The state after a round that pulled the vertices [l]. *)
Definition mis_next (delta : Z) (st : mis_state) (u : pull_state) (cl : Bitmap) (eng : eng_state)
    : mis_state :=
  MisState (pl_next u) cl (flags u) comb_new comb_new (new_end delta st) (new_end delta st)
    (u32 (undecided st - comb_sum (n_decided u))) (comb_sum (next_frontier_size u))
    (S (rounds st)) eng.

Lemma mis_next_inv delta st l u cl eng :
  0 < delta → n + delta < 2 ^ 32 → round_inv delta st → pulled (ms_flags st) l u →
  (∀ x, x ∈ l ↔ 0 ≤ x < new_end delta st ∧ und (ms_flags st) x = true) → eng_ok eng →
  bm_wf cl → size cl = n → (∀ v, 0 ≤ v < n → bm_get cl v = false) →
  round_inv delta (mis_next delta st u cl eng).
Proof.
  intros Hd H32 Hri Hp Hl Hok Hcw Hcs Hcb. destruct (new_end_ok _ _ Hd H32 Hri) as [_ He].
  destruct (mi_range _ _ Hri) as [Hse He0], eng_graph_wf as [Hn _].
  pose proof (zcount_bounds (λ v, und (ms_flags st) v) (rng 0 n)) as Hb.
  rewrite <- (mi_undecided _ _ Hri) in Hb. unfold zlen in Hb. rewrite length_rng in Hb.
  destruct (pulled_counts _ _ _ (new_end delta st) Hp) as [Hcu Hcf]; [lia|done|].
  rewrite <- (mi_undecided _ _ Hri) in Hcu.
  pose proof (zcount_bounds (λ v, und (flags u) v) (rng 0 n)) as Hb2.
  pose proof (comb_sum_range (n_decided u)) as [? ?].
  unfold mis_next.
  split; cbn [frontier next_frontier ms_flags decided next_size start end_ undecided front_size engine].
  - apply Hp.
  - lia.
  - split; apply Hp.
  - intros v Hv. rewrite (pl_front _ _ _ Hp) by done. destruct (und (flags u) v) eqn:Ev; [|by rewrite !andb_false_r].
    rewrite !andb_true_r. apply bool_decide_ext. rewrite Hl. split; [lia|]. intros Hlt.
    split; [lia|]. by eapply pulled_und.
  - done.
  - done.
  - by rewrite comb_sum_new.
  - apply Hp.
  - intros v Hv Hd0. rewrite (pl_keep _ _ _ Hp); [by apply (mi_isolated _ _ Hri)|done|].
    rewrite Hl. intros [_ Hu0]. eapply und_linked in Hu0; [|done..]. lia.
  - intros v Hv Hd0. rewrite (pl_keep _ _ _ Hp); [apply (mi_ahead _ _ Hri); [lia|done]|lia|].
    rewrite Hl. lia.
  - rewrite Hcu, u32_id' by lia. done.
  - by rewrite Hcf.
  - rewrite <- Hcf. transitivity (zcount (λ v, und (ms_flags st) v) (rng 0 (new_end delta st))).
    { apply zcount_le. intros x Hx%elem_of_rng. apply (pulled_und _ l); [done|lia]. }
    rewrite (rng_app 0 (end_ st)) by lia. unfold zcount. rewrite zsum_app.
    fold (zcount (λ v, und (ms_flags st) v) (rng 0 (end_ st))). rewrite <- (mi_size _ _ Hri).
    pose proof (zcount_bounds (λ v, und (ms_flags st) v) (rng (end_ st) (new_end delta st))) as Hb3.
    unfold zcount, zlen, new_end in *. rewrite length_rng in Hb3. lia.
Qed.

(** It has less to do. *)
Lemma mis_next_work delta st l u cl eng :
  0 < delta → n + delta < 2 ^ 32 → round_inv delta st → 0 < undecided st →
  pulled (ms_flags st) l u →
  (∀ x, x ∈ l ↔ 0 ≤ x < new_end delta st ∧ und (ms_flags st) x = true) →
  (work (mis_next delta st u cl eng) < work st)%nat.
Proof.
  intros Hd H32 Hri Hu Hp Hl. destruct (new_end_ok _ _ Hd H32 Hri) as [_ He].
  destruct (mi_range _ _ Hri) as [Hse He0], eng_graph_wf as [Hn _].
  pose proof (zcount_bounds (λ v, und (ms_flags st) v) (rng 0 n)) as Hb.
  rewrite <- (mi_undecided _ _ Hri) in Hb. unfold zlen in Hb. rewrite length_rng in Hb.
  destruct (pulled_counts _ _ _ (new_end delta st) Hp) as [Hcu Hcf]; [lia|done|].
  rewrite <- (mi_undecided _ _ Hri) in Hcu.
  pose proof (zcount_bounds (λ v, und (flags u) v) (rng 0 n)) as Hb2.
  pose proof (comb_sum_range (n_decided u)) as [? ?].
  unfold work, mis_next. cbn [end_ undecided]. rewrite u32_id' by lia. rewrite <- Hcu.
  destruct (decide (end_ st < new_end delta st)) as [Hlt|Hge]; [lia|].
  assert (zcount (λ v, und (flags u) v) (rng 0 n) < undecided st) as Hdec; [|lia].
  rewrite (mi_undecided _ _ Hri).
  assert (∃ v, v ∈ rng 0 (end_ st) ∧ und (ms_flags st) v = true) as (v & Hv%elem_of_rng & Hvu).
  { apply zcount_pos. rewrite <- (mi_size _ _ Hri). pose proof (mi_delta _ _ Hri).
    destruct (decide (end_ st = n)) as [En|]; [|unfold new_end in *; lia].
    rewrite (mi_size _ _ Hri), En, <- (mi_undecided _ _ Hri). done. }
  destruct (smallest (λ v, und (ms_flags st) v) v) as (m & Hm & Hmu & Hmin); [lia|done|].
  apply (zcount_lt _ _ _ m); [|apply elem_of_rng; lia|done|].
  - intros y Hy%elem_of_rng. by apply (pulled_und _ l).
  - apply bool_decide_eq_false. intros Hbad.
    destruct (pl_blocked _ _ _ Hp m) as (w & Hw & Hwu); [apply Hl; split; [lia|done]|done|].
    specialize (Hmin w Hw). apply bool_decide_eq_false in Hmin. done.
Qed.

Lemma mis_round delta st :
  0 < delta → n + delta < 2 ^ 32 → round_inv delta st → 0 < undecided st →
  ∃ st', mis_step delta st = Ok (inl st') ∧ round_inv delta st' ∧ (work st' < work st)%nat.
Proof.
  intros Hd H32 Hri Hu. destruct (new_end_ok _ _ Hd H32 Hri) as [He He'].
  destruct (mis_phase1 _ _ Hri) as (eng1 & u1 & l1 & E1 & Hok1 & Hp1 & Hl1).
  destruct (mis_phase2 delta st (new_end delta st) eng1 u1 l1 Hri) as (eng & u & l & E2 & Hok & Hp & Hl);
    [lia|done..|].
  destruct (mi_front _ _ Hri) as [[Hbm Hct] Hsz].
  destruct (clear_spec (rounds st) (frontier st) Hbm) as (cl & Ec & Hcw & Hcs & Hcb).
  exists (mis_next delta st u cl eng). split; [|split; [|by eapply mis_next_work]].
  - unfold mis_step. rewrite bool_decide_eq_true_2 by done. cbv zeta. rewrite E1, bind_ok. cbv beta iota.
    rewrite cassert_true, bind_ok by (apply bool_decide_eq_true, Hri).
    rewrite He, E2, bind_ok. cbv beta iota. by rewrite Ec, bind_ok.
  - eapply mis_next_inv; try done; [lia|]. intros v Hv. apply Hcb. lia.
Qed.

(** ** The initial loop *)
Lemma mis_init_ok idx num_edges vt0 :
  zlen vt0 = n → (∀ v, 0 ≤ v < n → at_ vt0 v = UNDECIDED) →
  (∀ v, 0 ≤ v < n → get_num_edges v idx n num_edges = Ok (gdeg v)) →
  ∃ fl zd, parallel_for 0 0 n (λ t lo hi, for_u32 lo hi (mis_init idx num_edges t)) (vt0, comb_new)
      = Ok (fl, zd)
    ∧ zlen fl = n
    ∧ (∀ v, 0 ≤ v < n → at_ fl v = if decide (gdeg v = 0) then IN else UNDECIDED)
    ∧ u32 (n - comb_sum zd) = zcount (λ v, und fl v) (rng 0 n).
Proof.
  intros Hl H0 Hdeg. destruct eng_graph_wf as [Hn _].
  set (iso := λ v, bool_decide (gdeg v = 0)).
  destruct (parallel_for_inv (λ dn st, zlen st.1 = n ∧ NoDup dn ∧ (∀ v, v ∈ dn → 0 ≤ v < n)
      ∧ (∀ v, 0 ≤ v < n → at_ st.1 v = if decide (v ∈ dn ∧ gdeg v = 0) then IN else UNDECIDED)
      ∧ comb_sum st.2 = zcount iso dn) 0 0 n (mis_init idx num_edges) (vt0, comb_new))
    as ([fl zd] & dn & E & Hp & Hl' & Hnd & _ & Hf & Hc); cbn [fst snd] in *.
  - split; [done|]. split; [constructor|]. split; [by intros v Hv%not_elem_of_nil|].
    split; [|by rewrite comb_sum_new].
    intros v Hv. rewrite decide_False; [by apply H0|]. by intros [Hx%not_elem_of_nil _].
  - intros t dn v [fl zd] Hnd Hv Hdn (Hl1 & Hnd1 & _ & Hf & Hc). cbn [fst snd] in *. unfold mis_init. cbn [fst snd].
    rewrite Hdeg, bind_ok by done.
    assert (Hlen : zlen (v :: dn) ≤ n).
    { apply dn_length; [done|]. intros x [->|Hx]%elem_of_cons; [done|by apply Hdn]. }
    replace (zlen (v :: dn)) with (zlen dn + 1) in Hlen by (unfold zlen; simpl; lia).
    pose proof (zcount_bounds iso dn).
    assert (∀ x, x ∈ v :: dn → 0 ≤ x < n) by (intros x [->|Hx]%elem_of_cons; [done|by apply Hdn]).
    case_bool_decide as Ed.
    + rewrite aset_ok, bind_ok by lia. eexists; split; [done|]. cbn [fst snd]. rewrite zlen_insert.
      split; [done|]. split; [done|]. split; [done|]. split.
      * intros x Hx. rewrite at_insert by lia. destruct (decide (v = x)) as [->|Hne].
        -- rewrite decide_True; [done|]. split; [apply elem_of_cons; by left|done].
        -- rewrite Hf by done. apply decide_ext. rewrite elem_of_cons. naive_solver.
      * rewrite comb_sum_incr, Hc, zcount_cons. unfold iso at 2. rewrite bool_decide_eq_true_2 by done.
        rewrite u32_id' by lia. simpl. lia.
    + eexists; split; [done|]. cbn [fst snd]. split; [done|]. split; [done|]. split; [done|]. split.
      * intros x Hx. rewrite Hf by done. apply decide_ext. rewrite elem_of_cons. naive_solver.
      * rewrite Hc, zcount_cons. unfold iso at 2. by rewrite bool_decide_eq_false_2.
  - exists fl, zd. split; [done|]. split; [done|].
    assert (Hat : ∀ v, 0 ≤ v < n → at_ fl v = if decide (gdeg v = 0) then IN else UNDECIDED).
    { intros v Hv. rewrite Hf by done. apply decide_ext. rewrite Hp, elem_of_rng. tauto. }
    split; [done|]. rewrite Hc. unfold zcount. rewrite Hp. fold (zcount iso (rng 0 n)).
    pose proof (zcount_bounds iso (rng 0 n)) as Hb. unfold zlen in Hb. rewrite length_rng in Hb.
    rewrite u32_id' by lia.
    replace n with (zlen (rng 0 n)) at 1 by (unfold zlen; rewrite length_rng; lia).
    rewrite <- zcount_negb. apply zsum_ext. intros v Hv%elem_of_rng. f_equal. unfold iso.
    rewrite Hat by done. case_decide; by repeat case_bool_decide.
Qed.

(** ** The greedy maximal independent set *)

(** Every vertex is decided, and a vertex is in the set when none of its
    smaller neighbours is. *)
Definition greedy (fl : list MatchFlag) : Prop :=
  ∀ v, 0 ≤ v < n → at_ fl v ≠ UNDECIDED
    ∧ (at_ fl v = IN ↔ ∀ w, w ∈ adj v → w < v → at_ fl w ≠ IN).

Definition undirected : Prop :=
  ∀ v w, 0 ≤ v < n → 0 ≤ w < n → w ∈ adj v ↔ v ∈ adj w.

Lemma sound_greedy fl :
  sound fl → zcount (λ v, und fl v) (rng 0 n) = 0 → greedy fl.
Proof.
  intros Hs Hz v Hv. rewrite zcount_zero in Hz. specialize (Hz v ltac:(by apply elem_of_rng)).
  apply bool_decide_eq_false in Hz. split; [done|]. specialize (Hs v Hv).
  destruct (at_ fl v); [done| |].
  - split; [|done]. intros _ w Hw Hlt. by rewrite Hs.
  - split; [done|]. intros Hno. destruct Hs as (w & Hw & Hlt & Hi). by destruct (Hno w).
Qed.

Lemma mis_done delta st : round_inv delta st → ¬ 0 < undecided st → greedy (ms_flags st).
Proof.
  intros Hri Hu. apply sound_greedy; [apply Hri|]. rewrite <- (mi_undecided _ _ Hri).
  pose proof (zcount_bounds (λ v, und (ms_flags st) v) (rng 0 n)) as Hb.
  rewrite <- (mi_undecided _ _ Hri) in Hb. lia.
Qed.

Lemma mis_loop delta fuel st :
  0 < delta → n + delta < 2 ^ 32 → round_inv delta st → (work st < fuel)%nat →
  ∃ st', loopM fuel (mis_step delta) st = Ok st' ∧ greedy (ms_flags st').
Proof.
  intros Hd H32 Hri Hfuel. apply (loopM_total (round_inv delta) _ work); [done|done|].
  intros s Hs. destruct (decide (0 < undecided s)) as [Hu|Hu].
  - destruct (mis_round delta s Hd H32 Hs Hu) as (s' & E & Hs' & Hlt). by exists (inl s').
  - exists (inr s). unfold mis_step. rewrite bool_decide_eq_false_2 by done. split; [done|].
    by eapply mis_done.
Qed.

Lemma mis_init_inv divisor fl f fn eng :
  zlen fl = n →
  (∀ v, 0 ≤ v < n → at_ fl v = if decide (gdeg v = 0) then IN else UNDECIDED) →
  bm_wf f → size f = n → (∀ v, 0 ≤ v < n → bm_get f v = false) →
  bm_wf fn → size fn = n → (∀ v, 0 ≤ v < n → bm_get fn v = false) → eng_ok eng → 0 ≤ n / divisor →
  round_inv (n / divisor)
    (MisState f fn fl comb_new comb_new 0 0 (zcount (λ v, und fl v) (rng 0 n)) 0 1 eng).
Proof.
  intros Hl Hat Hw Hs Hb Hw' Hs' Hb' He Hd. destruct eng_graph_wf as [Hn _].
  split; cbn [frontier next_frontier ms_flags decided next_size start end_ undecided front_size engine];
    try done.
  - lia.
  - intros v Hv. rewrite Hb by done. by rewrite bool_decide_eq_false_2 by lia.
  - by rewrite comb_sum_new.
  - intros v Hv. rewrite Hat by done. case_decide as E; [|done]. intros w Hw0.
    unfold g_deg, zlen in E. destruct (adj v); [by apply not_elem_of_nil in Hw0|done].
  - intros v Hv E. by rewrite Hat, decide_True.
  - intros v Hv E. rewrite Hat, decide_False by lia. done.
Qed.

(** What the kernel starts from. *)
Record mis_ready (divisor : Z) (idx : list vertex) (num_edges : Z) (frontierA frontierB : Bitmap)
    (vt0 : list MatchFlag) (eng : eng_state) : Prop := {
  mr_divisor : 0 < divisor ≤ n ∧ n + n / divisor < 2 ^ 32;
  mr_eng : eng_ok eng;
  mr_degree v : 0 ≤ v < n → get_num_edges v idx n num_edges = Ok (gdeg v);
  mr_A : bm_wf frontierA ∧ size frontierA = n ∧ ∀ v, 0 ≤ v < n → bm_get frontierA v = false;
  mr_B : bm_wf frontierB ∧ size frontierB = n ∧ ∀ v, 0 ≤ v < n → bm_get frontierB v = false;
  mr_table : zlen vt0 = n ∧ ∀ v, 0 ≤ v < n → at_ vt0 v = UNDECIDED;
}.

Lemma mis_enter_ok divisor idx num_edges frontierA frontierB vt0 eng :
  mis_ready divisor idx num_edges frontierA frontierB vt0 eng →
  ∃ st, mis_enter divisor idx num_edges frontierA frontierB vt0 eng = Ok (n / divisor, st)
    ∧ 0 < n / divisor ∧ round_inv (n / divisor) st ∧ (work st ≤ 2 * Z.to_nat n)%nat.
Proof.
  intros [[Hdv H32] He Hdeg (HAw & HAs & HAb) (HBw & HBs & HBb) [Hl0 Hu0]]. unfold mis_enter.
  rewrite bool_decide_eq_false_2 by lia. cbv zeta.
  destruct (mis_init_ok idx num_edges vt0 Hl0 Hu0 Hdeg) as (fl & zd & -> & Hl & Hat & Hzd).
  rewrite bind_ok. cbv beta iota zeta. rewrite Hzd. pose proof (Z.div_str_pos n divisor Hdv) as Hdelta.
  pose proof (zcount_bounds (λ v, und fl v) (rng 0 n)) as Hb. unfold zlen in Hb. rewrite length_rng in Hb.
  eexists; split; [done|]. split; [done|]. split; [by apply mis_init_inv; try done; lia|].
  unfold work. cbn [end_ undecided]. lia.
Qed.

(** The greedy set, and what it is on an undirected graph. *)
Definition maximal_independent (fl : list MatchFlag) : Prop :=
  greedy fl
  ∧ (undirected →
     (∀ v w, 0 ≤ v < n → w ∈ adj v → v ≠ w → ¬ (at_ fl v = IN ∧ at_ fl w = IN))
     ∧ ∀ v, 0 ≤ v < n → at_ fl v ≠ IN → ∃ w, w ∈ adj v ∧ at_ fl w = IN).

Lemma greedy_maximal fl : greedy fl → maximal_independent fl.
Proof.
  intros Hg. split; [done|]. intros Hsym. destruct eng_graph_wf as [_ Hgwf]. split.
  - intros v w Hv Hw Hne [Hiv Hiw]. assert (0 ≤ w < n) by eauto.
    destruct (Hg v Hv) as [_ Hgv], (Hg w) as [_ Hgw]; [done|].
    destruct (decide (w < v)) as [Hlt|Hge].
    + by apply (proj1 Hgv Hiv w Hw).
    + apply (proj1 Hgw Hiw v); [by apply Hsym|lia|done].
  - intros v Hv Hni. destruct (Hg v Hv) as [_ Hgv].
    destruct (decide (Exists (λ w, at_ fl w = IN) (adj v))) as [Hex|Hno].
    + apply Exists_exists in Hex. naive_solver.
    + destruct Hni. apply Hgv. intros w Hw _ Hi. apply Hno, Exists_exists. eauto.
Qed.

(** The kernel from its initial state. *)
Lemma mis_kernel_ok fuel divisor idx num_edges frontierA frontierB vt0 eng :
  (2 * Z.to_nat n < fuel)%nat → mis_ready divisor idx num_edges frontierA frontierB vt0 eng →
  ∃ st, mis_kernel fuel divisor idx num_edges frontierA frontierB vt0 eng = Ok st
    ∧ maximal_independent (ms_flags st).
Proof.
  intros Hfuel Hready. unfold mis_kernel. pose proof (mr_divisor _ _ _ _ _ _ _ Hready) as [_ H32].
  destruct (mis_enter_ok _ _ _ _ _ _ _ Hready) as (st0 & -> & Hd & Hri & Hw). rewrite bind_ok. cbv beta iota.
  destruct (mis_loop (n / divisor) fuel st0) as (st & -> & Hg); [done|done|done|lia|].
  exists st. split; [done|]. by apply greedy_maximal.
Qed.

(** C16: the MIS kernel terminates and computes the greedy maximal
    independent set.  The [delta] option is a positive divisor of at most the number
    of vertices [n], and [n + n / delta] is below [2^32] (the loop adds the quotient to the
    end of a range of vertices in 32 bits); the index gives every vertex its degree, the
    two frontiers have a bit per vertex and are empty, and every vertex is undecided.
    Then for every scheduling of the workers, with fuel for two rounds per vertex, the
    run ends without a fault; every vertex is then decided and it is in the set exactly
    when none of its smaller neighbours is.  On an undirected graph no two distinct
    members are adjacent, and every vertex outside the set has a neighbour inside. *)
Theorem mis_correct fuel divisor idx num_edges frontierA frontierB vt0 eng :
  0 < divisor ≤ n → n + n / divisor < 2 ^ 32 → (2 * Z.to_nat n < fuel)%nat → eng_ok eng →
  (∀ v, 0 ≤ v < n → get_num_edges v idx n num_edges = Ok (gdeg v)) →
  bm_wf frontierA → size frontierA = n → (∀ v, 0 ≤ v < n → bm_get frontierA v = false) →
  bm_wf frontierB → size frontierB = n → (∀ v, 0 ≤ v < n → bm_get frontierB v = false) →
  zlen vt0 = n → (∀ v, 0 ≤ v < n → at_ vt0 v = UNDECIDED) →
  ∃ st, mis_kernel fuel divisor idx num_edges frontierA frontierB vt0 eng = Ok st
    ∧ greedy (ms_flags st)
    ∧ (undirected →
       (∀ v w, 0 ≤ v < n → w ∈ adj v → v ≠ w → ¬ (at_ (ms_flags st) v = IN ∧ at_ (ms_flags st) w = IN))
       ∧ ∀ v, 0 ≤ v < n → at_ (ms_flags st) v ≠ IN → ∃ w, w ∈ adj v ∧ at_ (ms_flags st) w = IN).
Proof. intros. by apply mis_kernel_ok. Qed.

(** A [delta] option of zero is a division by zero, raised before
    the kernel touches any vertex. *)
Theorem mis_divides_by_option fuel idx num_edges frontierA frontierB vt0 eng :
  mis_kernel fuel 0 idx num_edges frontierA frontierB vt0 eng = Fault DivByZero.
Proof. done. Qed.

(** ** A divisor that is too large *)
Record stalled (st : mis_state) : Prop := {
  sl_ends : start st = 0 ∧ end_ st = 0 ∧ front_size st = 0;
  sl_und : 0 < undecided st < 2 ^ 32;
  sl_front : bm_ok (frontier st);
  sl_next : bm_ok (next_frontier st);
  sl_count : comb_sum (decided st) = 0 ∧ comb_sum (next_size st) = 0;
}.

Lemma stalled_step st : stalled st → ∃ st', mis_step 0 st = Ok (inl st') ∧ stalled st'.
Proof.
  intros [(Hs & He & Hf) Hu Hfr Hne [Hc1 Hc2]]. destruct eng_graph_wf as [Hn _].
  destruct (clear_spec (rounds st) (frontier st) Hfr) as (cl & Ec & [Hcw _] & _).
  eexists; split.
  { unfold mis_step. rewrite bool_decide_eq_true_2 by lia. cbv zeta. rewrite Hs, He, Hf.
    rewrite (bool_decide_eq_false_2 (0 < 0)), bind_ok by lia. cbv beta iota.
    rewrite cassert_true, bind_ok by (by apply bool_decide_eq_true).
    change (u32 (u32 (0 + 0) - 0)) with 0. rewrite Z.min_r by lia.
    rewrite (bool_decide_eq_false_2 (0 < 0)), bind_ok by lia. cbv beta iota. rewrite Ec, bind_ok. done. }
  split; cbn [frontier next_frontier ms_flags decided next_size start end_ undecided front_size
    n_decided next_frontier_size pl_next flags]; try done.
  - rewrite Hc1, Z.sub_0_r, u32_id' by lia. done.
  - by rewrite comb_sum_new.
Qed.

(** C34: the MIS kernel never ends when the [delta] option exceeds the
    number of vertices.  Then [delta = total_verts / divisor] is zero, no new
    vertex is ever pulled, and as soon as one vertex has an edge no fuel suffices. *)
Theorem mis_stalls fuel divisor idx num_edges frontierA frontierB vt0 eng v :
  n < divisor → 0 ≤ v < n → 0 < gdeg v →
  (∀ v, 0 ≤ v < n → get_num_edges v idx n num_edges = Ok (gdeg v)) →
  bm_ok frontierA → bm_ok frontierB →
  zlen vt0 = n → (∀ v, 0 ≤ v < n → at_ vt0 v = UNDECIDED) →
  mis_kernel fuel divisor idx num_edges frontierA frontierB vt0 eng = Fault OutOfFuel.
Proof.
  intros Hdv Hv Hdegv Hdeg HA HB Hl0 Hu0. unfold mis_kernel, mis_enter.
  rewrite bool_decide_eq_false_2 by lia. cbv zeta. rewrite Z.div_small by lia.
  destruct (mis_init_ok idx num_edges vt0 Hl0 Hu0 Hdeg) as (fl & zd & -> & Hl & Hat & Hzd).
  rewrite !bind_ok. cbv beta iota zeta. rewrite Hzd. destruct eng_graph_wf as [Hn _].
  set (st0 := MisState _ _ _ _ _ _ _ _ _ _ _). assert (stalled st0) as Hst.
  { pose proof (zcount_bounds (λ v, und fl v) (rng 0 n)) as Hb. unfold zlen in Hb. rewrite length_rng in Hb.
    split; unfold st0; cbn [frontier next_frontier ms_flags decided next_size start end_ undecided front_size];
      [done| |done|done|by rewrite comb_sum_new].
    split; [|lia]. apply zcount_pos. exists v. split; [by apply elem_of_rng|].
    apply bool_decide_eq_true. rewrite Hat, decide_False by (done || lia). done. }
  clearbody st0. revert st0 Hst. induction fuel as [|fuel IH]; intros st Hst; [done|].
  destruct (stalled_step st Hst) as (st' & E & Hst'). simpl. rewrite E, bind_ok. by apply IH.
Qed.

(** the reported cardinality is the number of members of the set,
    however the reduction is split over the workers. *)
Theorem get_cardinality_correct r vtable total_verts :
  0 ≤ total_verts < 2 ^ 32 → zlen vtable = total_verts →
  get_cardinality r vtable total_verts
  = Ok (zcount (λ v, bool_decide (at_ vtable v = IN)) (rng 0 total_verts)).
Proof.
  intros Hn Hl. unfold get_cardinality.
  rewrite (parallel_reduce_count r 0 total_verts _ (λ v, bool_decide (at_ vtable v = IN))).
  - pose proof (zcount_bounds (λ v, bool_decide (at_ vtable v = IN)) (rng 0 total_verts)) as Hb.
    unfold zlen in Hb. rewrite length_rng in Hb. by rewrite u32_id' by lia.
  - intros i Hi. by rewrite aget_at, bind_ok by lia.
Qed.
End mis.
