(* ===== verification/MisConcurrent.v ===== *)
(** * MisConcurrent: maximal independent set with racing workers

    [pull_c] is the pull function of [mis.hpp] as the operations other threads can
    see: a read of the flag of every smaller neighbour while other workers write
    theirs, the operations of [set_bit], and the write of the vertex's own flag.
    [mis_concurrent] shows that the kernel computes the greedy maximal independent
    set however the operations of the workers are interleaved: a flag that is
    decided never changes again, so a worker that reads an old flag only puts its
    decision off. *)

From S2P Require Import Prelude Platform VertexTable Bitmap Engine EdgeEngine Interleaving Workers Mis.

Section mis.
  Context {BU : BuildOptions} {BO : Boost} {OS : Os} {CB : Combinable} {SC : Scheduler}.
  Context {EO : EngineOps} {EE : EdgeEngine}.
  Abbreviation n := (g_n eng_graph).
  Abbreviation adj := (g_adj eng_graph).
  Abbreviation gdeg := (g_deg eng_graph).
  Abbreviation und fl v := (bool_decide (at_ fl v = UNDECIDED)).

(** The flags and the two counters, which have one cell per thread. *)
Record table := Table { flag : list MatchFlag; decided_by : combinable; left_by : combinable }.
Abbreviation shared_state := (table * Bitmap)%type.

Definition pack (u : pull_state) : shared_state :=
  (Table (flags u) (n_decided u) (next_frontier_size u), pl_next u).
Definition unpack (s : shared_state) : pull_state :=
  PullState (flag s.1) s.2 (decided_by s.1) (left_by s.1).

Definition load_flag (v : Z) (x : table) : result (table * MatchFlag) :=
  f ← aget (flag x) v; Ok (x, f).

(** [assert(1 == 0)]. *)
Definition unreachable (x : table) : result (table * unit) := _ ← cassert false; Ok (x, ()).

(** The write of the flag, and the increment of the worker's own counter. *)
Definition store_flag (t : nat) (v : Z) (v_flag : MatchFlag) (x : table) : result (table * unit) :=
  fl ← aset (flag x) v v_flag;
  if bool_decide (v_flag = UNDECIDED)
  then Ok (Table fl (decided_by x) (comb_incr t (left_by x)), ())
  else Ok (Table fl (comb_incr t (decided_by x)) (left_by x), ()).

(** The loop of [pull] over the edges, with its [break]. *)
Fixpoint scan (v : Z) (edges : list Z) (v_flag : MatchFlag) : prog shared_state MatchFlag :=
  match edges with
  | [] => mret v_flag
  | w :: edges =>
      if bool_decide (w < v) then
        fw ← on_table (load_flag w);
        let v_flag := match fw with UNDECIDED => UNDECIDED | IN => OUT | OUT => v_flag end in
        if bool_decide (v_flag = OUT) then mret v_flag else scan v edges v_flag
      else scan v edges v_flag
  end.

Definition pull_c (t : nat) (v : Z) : prog shared_state unit :=
  f ← on_table (load_flag v);
  if bool_decide (f = OUT) then on_table unreachable
  else
    v_flag ← scan v (adj v) IN;
    if bool_decide (v_flag = UNDECIDED) then
      _ ← set_bit_c t v;
      on_table (store_flag t v v_flag)
    else on_table (store_flag t v v_flag).

(** ** Without interruption *)
#[local] Arguments set_bit_c : simpl never.
#[local] Arguments run : simpl never.

Lemma loop_scan_step fuel fl v l m i a :
  loopM (S fuel) (scan_step fl v l m) (i, a)
  = if bool_decide (i < m) then
      w ← aget l i;
      if bool_decide (w < v) then
        fw ← aget fl w;
        let a := match fw with UNDECIDED => UNDECIDED | IN => OUT | OUT => a end in
        if bool_decide (a = OUT) then Ok a else loopM fuel (scan_step fl v l m) (i + 1, a)
      else loopM fuel (scan_step fl v l m) (i + 1, a)
    else Ok a.
Proof.
  cbn [loopM]. unfold scan_step at 2. case_bool_decide; [|done].
  destruct (aget l i) as [w|]; [|done]. rewrite !bind_ok. case_bool_decide; [|done].
  destruct (aget fl w) as [fw|]; [|done]. rewrite !bind_ok. cbv zeta. by case_bool_decide.
Qed.

Lemma run_scan v u suf pre a fuel :
  (length suf < fuel)%nat →
  run (scan v suf a) (pack u)
  = ((pack u,.) <$> loopM fuel (scan_step (flags u) v (pre ++ suf) (zlen (pre ++ suf))) (zlen pre, a)).
Proof.
  revert pre a fuel. induction suf as [|w suf IH]; intros pre a [|fuel] Hf; cbn in Hf; [lia| |lia|].
  - rewrite loop_scan_step, app_nil_r, bool_decide_eq_false_2 by lia. done.
  - rewrite loop_scan_step. pose proof (zlen_nonneg pre). pose proof (zlen_nonneg suf).
    assert (Hl : zlen (pre ++ w :: suf) = zlen pre + (1 + zlen suf)) by (rewrite zlen_app; unfold zlen; cbn; lia).
    rewrite bool_decide_eq_true_2 by lia. rewrite aget_at, bind_ok by lia.
    assert (Hw : at_ (pre ++ w :: suf) (zlen pre) = w).
    { unfold at_, zlen. rewrite Nat2Z.id. by rewrite list_lookup_total_middle. }
    rewrite Hw. assert (Hrec : ∀ a fuel, (length suf < fuel)%nat → run (scan v suf a) (pack u)
      = (pack u,.) <$> loopM fuel (scan_step (flags u) v (pre ++ w :: suf) (zlen (pre ++ w :: suf))) (zlen pre + 1, a)).
    { intros a' fuel' Hf'. pose proof (IH (pre ++ [w]) a' fuel' Hf') as E.
      rewrite <- app_assoc, (zlen_app pre [w]) in E. exact E. }
    cbn [scan]. case_bool_decide; [|apply Hrec; lia].
    rewrite run_bind, run_on_table. unfold load_flag. change (flag (pack u).1) with (flags u).
    destruct (aget (flags u) w) as [fw|]; [|done]. rewrite !bind_ok. cbv beta iota zeta.
    change ((pack u).1, (pack u).2) with (pack u).
    case_bool_decide; [done|]. apply Hrec. lia.
Qed.

(** A pull that is not interrupted is the pull of the sequential model. *)
Lemma run_pull t v u :
  run (pull_c t v) (pack u) = ((λ u, (pack u, ())) <$> pull t v (adj v) (gdeg v) u).
Proof.
  unfold pull_c, pull. rewrite run_bind, run_on_table. unfold load_flag. cbn [pack fst snd flag].
  destruct (aget (flags u) v) as [f|]; [|done]. rewrite !bind_ok. cbv beta iota.
  change (Table (flags u) (n_decided u) (next_frontier_size u), pl_next u) with (pack u).
  case_bool_decide.
  { rewrite run_on_table. unfold unreachable. destruct (cassert false) as [[]|]; done. }
  rewrite run_bind. rewrite (run_scan v u (adj v) [] IN (range_fuel 0 (gdeg v)));
    [|unfold range_fuel, g_deg, zlen; lia]. cbn [app]. fold (gdeg v).
  destruct (loopM _ _ _) as [a|]; [|done]. rewrite bind_ok. cbn [fmap result_fmap]. rewrite !bind_ok. cbv beta iota.
  case_bool_decide as Ea.
  - rewrite run_bind. unfold pack at 1. rewrite run_set_bit. destruct (set_bit t v (pl_next u)) as [[r b]|]; [|done].
    rewrite !bind_ok. cbv beta iota. rewrite run_on_table. unfold store_flag. cbn [fst snd flag].
    destruct (aset (flags u) v a) as [fl|]; [|done]. rewrite !bind_ok, bool_decide_eq_true_2 by done. done.
  - rewrite run_on_table. unfold store_flag. cbn [pack fst snd flag].
    destruct (aset (flags u) v a) as [fl|]; [|done]. rewrite !bind_ok, bool_decide_eq_false_2 by done. done.
Qed.

(** ** The race *)

(** What a worker knows: the vertices it has pulled; for the one it is pulling, the
    neighbours it has looked at and the flag so far; whether it has already put it
    into the next frontier. *)
Record ghost := Ghost { handled : list Z; scanning : option (Z * list Z * MatchFlag);
  flagged : option Z }.

Section race.
  Context (fl0 : list MatchFlag) (D0 : list Z) (parts : list (list Z)).
  Context (Hnd : NoDup (concat parts ++ D0)).
  Context (Hin : ∀ v, v ∈ concat parts ++ D0 → 0 ≤ v < n ∧ at_ fl0 v = UNDECIDED).

(** The vertices pulled so far. *)
Definition all (ls : list ghost) : list Z := (ls ≫= handled) ++ D0.

(** What the neighbours [seen] of [v] said, whenever they were looked at. *)
Definition found (fl : list MatchFlag) (v : Z) (seen : list Z) (a : MatchFlag) : Prop :=
  match a with
  | OUT => ∃ w, w ∈ adj v ∧ 0 ≤ w < v ∧ at_ fl w = IN
  | UNDECIDED => ∃ w, w ∈ adj v ∧ 0 ≤ w < v ∧ at_ fl0 w = UNDECIDED
  | IN => ∀ w, w ∈ seen → 0 ≤ w < v → at_ fl w = OUT
  end.

Record racing (x : table) (f : Z → bool) (ls : list ghost) : Prop := {
  ra_len : zlen (flag x) = n;
  ra_prefix : Forall2 (λ g vs, handled g `prefix_of` vs) ls parts;
  ra_keep v : 0 ≤ v < n → v ∉ all ls → at_ (flag x) v = at_ fl0 v;
  ra_sound : sound (flag x);
  ra_left v : v ∈ all ls → at_ (flag x) v = UNDECIDED → f v = true;
  ra_front v : 0 ≤ v < n → f v = true →
    (v ∈ all ls ∧ at_ (flag x) v = UNDECIDED) ∨ ∃ i g, ls !! i = Some g ∧ flagged g = Some v;
  ra_count : comb_sum (decided_by x) = zcount (λ v, negb (und (flag x) v)) (all ls)
    ∧ comb_sum (left_by x) = zcount (λ v, und (flag x) v) (all ls);
  ra_blocked v : v ∈ all ls → at_ (flag x) v = UNDECIDED → ∃ w, 0 ≤ w < v ∧ at_ fl0 w = UNDECIDED;
  ra_scan i g v seen a : ls !! i = Some g → scanning g = Some (v, seen, a) → found (flag x) v seen a;
  ra_flagged i g v : ls !! i = Some g → flagged g = Some v → 0 ≤ v < n ∧ f v = true;
}.

(** The vertices pulled are some of those the workers were given. *)
Lemma all_ok ls :
  Forall2 (λ g vs, handled g `prefix_of` vs) ls parts →
  NoDup (all ls) ∧ ∀ v, v ∈ all ls → 0 ≤ v < n ∧ at_ fl0 v = UNDECIDED.
Proof using Hnd Hin.
  intros HF. destruct (prefixes_perm _ _ _ HF) as [rest Hr].
  assert (Hp : concat parts ++ D0 ≡ₚ all ls ++ rest) by (unfold all; rewrite Hr; solve_Permutation).
  pose proof Hnd as Hnd'. rewrite Hp in Hnd'.
  apply NoDup_app in Hnd' as (? & _ & _). split; [done|]. intros v Hv. apply Hin. rewrite Hp. set_solver.
Qed.

Lemma all_insert ls i g g' vs :
  ls !! i = Some g → handled g' = handled g ++ vs → all (<[i:=g']> ls) ≡ₚ vs ++ all ls.
Proof using Type.
  intros Hi Hh. unfold all. rewrite (bind_insert handled ls i g g' vs) by done. by rewrite app_assoc.
Qed.

Lemma all_same ls i g g' :
  ls !! i = Some g → handled g' = handled g → all (<[i:=g']> ls) = all ls.
Proof using Type. intros Hi Hh. unfold all. f_equal. by eapply bind_insert_same. Qed.

(** A worker that is about to pull [v] finds it undecided and not yet pulled. *)
Lemma next_fresh x f ls i g vs v :
  racing x f ls → ls !! i = Some g → parts !! i = Some vs → (handled g ++ [v]) `prefix_of` vs →
  0 ≤ v < n ∧ v ∉ all ls ∧ at_ (flag x) v = UNDECIDED ∧ at_ fl0 v = UNDECIDED
  ∧ zlen (v :: all ls) ≤ n.
Proof using EE Hnd Hin.
  intros HJ Hi Hvs Hp. pose proof (ra_prefix _ _ _ HJ) as HF.
  set (g' := Ghost (handled g ++ [v]) None None).
  destruct (all_ok (<[i:=g']> ls)) as [Hnd' Hin']; [by eapply Forall2_insert_l|].
  rewrite (all_insert ls i g g' [v]) in Hnd' by done. cbn [app] in Hnd'.
  assert (Hall : ∀ y, y ∈ v :: all ls → 0 ≤ y < n ∧ at_ fl0 y = UNDECIDED).
  { intros y Hy. apply Hin'. by rewrite (all_insert ls i g g' [v]) by done. }
  pose proof Hnd' as [Hv _]%NoDup_cons. destruct (Hall v) as [??]; [set_solver|].
  split; [done|]. split; [done|]. split; [by rewrite (ra_keep _ _ _ HJ)|]. split; [done|].
  apply dn_length; [done|]. intros y Hy. by apply Hall.
Qed.

(** A worker has looked at a flag. *)
Lemma mis_racing_know x f ls i g g' :
  racing x f ls → ls !! i = Some g → handled g' = handled g → flagged g' = flagged g →
  (∀ v seen a, scanning g' = Some (v, seen, a) → found (flag x) v seen a) →
  racing x f (<[i:=g']> ls).
Proof using Type.
  intros [Hl Hp Hk Hs Hle Hf Hc Hb Hsc Hfl] Hi Hh Hg Hsc'.
  pose proof (all_same ls i g g' Hi Hh) as Ea. split; rewrite ?Ea; try done.
  - by eapply prefixes_same.
  - intros v Hv Hfv. destruct (Hf v Hv Hfv) as [?|He]; [by left|].
    eapply pending_insert; [done| |done]. rewrite Hg.
    destruct (decide (flagged g = Some v)); [by right; right|by left].
  - intros j h v seen a [(<- & <- & _)|[_ Hj]]%list_lookup_insert_Some; [by apply Hsc'|by eapply Hsc].
  - intros j h v [(<- & <- & _)|[_ Hj]]%list_lookup_insert_Some; [rewrite Hg|]; by eapply Hfl.
Qed.

(** The vertex is put into the next frontier. *)
Lemma mis_racing_flag x f f' ls i H sc v :
  racing x f ls → ls !! i = Some (Ghost H sc None) → 0 ≤ v < n →
  (∀ j, 0 ≤ j → f' j = bool_decide (j = v) || f j) →
  racing x f' (<[i:=Ghost H sc (Some v)]> ls).
Proof using Hnd Hin.
  intros [Hl Hp Hk Hs Hle Hf Hc Hb Hsc Hfl] Hi Hv Hf'.
  pose proof (all_same ls i _ (Ghost H sc (Some v)) Hi eq_refl) as Ea.
  destruct (all_ok ls Hp) as [_ Hall]. split; rewrite ?Ea; try done.
  - by eapply prefixes_same.
  - intros w Hw Hu. destruct (Hall w Hw) as [Hwn _]. rewrite Hf' by lia. rewrite Hle by done.
    by rewrite orb_true_r.
  - intros w Hw. rewrite Hf' by lia. intros [->%bool_decide_eq_true|Hfw]%orb_true_iff.
    + right. exists i, (Ghost H sc (Some v)). split; [|done].
      apply list_lookup_insert_eq. by eapply lookup_lt_Some.
    + destruct (Hf w Hw Hfw) as [?|He]; [by left|]. eapply pending_insert; [done|by left|done].
  - intros j h w seen a [(<- & <- & _)|[_ Hj]]%list_lookup_insert_Some; [by eapply (Hsc i _ w seen a Hi)|by eapply Hsc].
  - intros j h w [(<- & <- & _)|[_ Hj]]%list_lookup_insert_Some Hw.
    + cbn in Hw. simplify_eq. split; [done|]. by rewrite Hf', bool_decide_eq_true_2 by (done || lia).
    + destruct (Hfl j h w Hj Hw) as [Hwn Hfw]. split; [done|]. rewrite Hf', Hfw by lia.
      by rewrite orb_true_r.
Qed.

Lemma mis_racing_ext x f f' ls :
  racing x f ls → (∀ j, 0 ≤ j → f' j = f j) → racing x f' ls.
Proof using Hnd Hin.
  intros [Hl Hp Hk Hs Hle Hf Hc Hb Hsc Hfl] He. destruct (all_ok ls Hp) as [_ Hall].
  split; try done.
  - intros v Hv. destruct (Hall v Hv). rewrite He by lia. by apply Hle.
  - intros v Hv. rewrite He by lia. by apply Hf.
  - intros j h v Hj Hh. destruct (Hfl j h v Hj Hh). split; [done|]. by rewrite He by lia.
Qed.

(** What was found is still so after the flag of an undecided vertex was written. *)
Lemma found_store fl v b u seen a :
  0 ≤ v < zlen fl → at_ fl v = UNDECIDED →
  found fl u seen a → found (<[Z.to_nat v:=b]> fl) u seen a.
Proof using Type.
  intros Hv Hu. destruct a; cbn; [done| |].
  - intros Hf w Hw Hwu. rewrite at_insert by lia. case_decide; [|by apply Hf].
    subst w. rewrite Hf in Hu by done. done.
  - intros (w & Hw & Hwu & Hi). exists w. split; [done|]. split; [done|].
    rewrite at_insert by lia. case_decide; [congruence|done].
Qed.

(** The flag of the vertex is written. *)
Lemma racing_store x f ls i H vs v seen a t :
  racing x f ls → parts !! i = Some vs → (H ++ [v]) `prefix_of` vs →
  ls !! i = Some (Ghost H (Some (v, seen, a)) (if bool_decide (a = UNDECIDED) then Some v else None)) →
  (a = IN → ∀ w, w ∈ adj v → w < v → w ∈ seen) →
  ∃ x', store_flag t v a x = Ok (x', ()) ∧ racing x' f (<[i:=Ghost (H ++ [v]) None None]> ls).
Proof using EE Hnd Hin.
  intros HJ Hvs Hpv Hi Hseen.
  destruct (next_fresh _ _ _ _ _ _ v HJ Hi Hvs Hpv) as (Hv & Hnin & Hu & Hu0 & Hlen).
  destruct HJ as [Hl Hp Hk Hs Hle Hf [Hc1 Hc2] Hb Hsc Hfl].
  set (g' := Ghost (H ++ [v]) None None). set (fl := <[Z.to_nat v:=a]> (flag x)).
  pose proof (all_insert ls i _ g' [v] Hi eq_refl) as Ea. cbn [app] in Ea.
  destruct (all_ok ls Hp) as [_ Hall]. destruct eng_graph_wf as [Hn32 Hgwf].
  pose proof (Hsc i _ v seen a Hi eq_refl) as Hfound.
  assert (Hat : ∀ y, 0 ≤ y → at_ fl y = if decide (v = y) then a else at_ (flag x) y).
  { intros y Hy. apply at_insert; lia. }
  assert (Hother : ∀ y, y ∈ all ls → at_ fl y = at_ (flag x) y).
  { intros y Hy. destruct (Hall y Hy). rewrite Hat, decide_False; [done|by intros ->|lia]. }
  assert (Hatv : at_ fl v = a) by (by rewrite Hat, decide_True by (done || lia)).
  assert (Hcount : ∀ h : bool → bool, zcount (λ y, h (und fl y)) (all (<[i:=g']> ls))
    = Z.b2z (h (bool_decide (a = UNDECIDED))) + zcount (λ y, h (und (flag x) y)) (all ls)).
  { intros h. unfold zcount. rewrite Ea, zsum_cons, Hatv. f_equal. apply zsum_ext.
    intros y Hy. by rewrite Hother. }
  pose proof (zcount_bounds (λ y, und (flag x) y) (all ls)).
  pose proof (zcount_bounds (λ y, negb (und (flag x) y)) (all ls)).
  replace (zlen (v :: all ls)) with (zlen (all ls) + 1) in Hlen by (unfold zlen; simpl; lia).
  unfold store_flag. rewrite aset_ok, bind_ok by lia. fold fl.
  assert (Hres : ∀ d l, comb_sum d = zcount (λ y, negb (und fl y)) (all (<[i:=g']> ls)) →
    comb_sum l = zcount (λ y, und fl y) (all (<[i:=g']> ls)) → racing (Table fl d l) f (<[i:=g']> ls)).
  { intros d l Hd Hlf. split; cbn [flag decided_by left_by]; try done.
    - unfold fl. by rewrite zlen_insert.
    - by eapply Forall2_insert_l.
    - intros y Hy Hny. rewrite Ea in Hny. apply not_elem_of_cons in Hny as [Hne Hny].
      rewrite Hat, decide_False by (done || lia). by apply Hk.
    - apply sound_set; [done..|]. destruct a; [by left|right..].
      + intros w Hw Hlt. apply Hfound; [by apply Hseen|]. split; [by eapply Hgwf|done].
      + destruct Hfound as (w & ? & ? & ?). exists w. split; [done|]. split; [lia|done].
    - intros y. rewrite Ea. intros [->|Hy]%elem_of_cons Hyu; [|rewrite Hother in Hyu by done; by apply Hle].
      rewrite Hatv in Hyu. eapply (Hfl i); [done|]. cbn. by rewrite bool_decide_eq_true_2.
    - intros y Hy Hfy. rewrite Ea. destruct (Hf y Hy Hfy) as [[Hya Hyu]|He].
      + left. split; [by apply elem_of_cons; right|]. by rewrite Hother.
      + destruct (decide (y = v ∧ a = UNDECIDED)) as [[-> Ha]|Hne].
        * left. split; [apply elem_of_cons; by left|]. by rewrite Hatv.
        * apply (pending_insert flagged ls i (Ghost H (Some (v, seen, a))
            (if bool_decide (a = UNDECIDED) then Some v else None)) g'); [done| |done].
          left. cbn. case_bool_decide; [|done]. intros [= ->]. by destruct Hne.
    - intros y. rewrite Ea. intros [->|Hy]%elem_of_cons Hyu; [|rewrite Hother in Hyu by done; by apply Hb].
      rewrite Hatv in Hyu. rewrite Hyu in Hfound. destruct Hfound as (w & _ & ? & ?). by exists w.
    - intros j h u sn b [(<- & <- & _)|[_ Hj]]%list_lookup_insert_Some Hh; [done|].
      apply found_store; [lia|done|]. by eapply Hsc.
    - intros j h w [(<- & <- & _)|[_ Hj]]%list_lookup_insert_Some Hh; [done|by eapply Hfl]. }
  pose proof (Hcount negb) as Hc1'. pose proof (Hcount id) as Hc2'. unfold id in Hc2'. cbv beta in Hc1', Hc2'.
  case_bool_decide as Ha; (eexists; split; [done|]); apply Hres; rewrite ?Hc1', ?Hc2', ?comb_sum_incr;
    cbn [negb Z.b2z]; rewrite ?u32_id'; lia.
Qed.

(** Looking at the smaller neighbours. *)
Lemma scan_safe i H v edges seen a :
  0 ≤ v < n → (∀ w, w ∈ edges → w ∈ adj v) → a ≠ OUT →
  (∀ w, w ∈ adj v → w < v → w ∈ seen ∨ w ∈ edges) →
  safe (with_frontier n racing) i (Ghost H (Some (v, seen, a)) None) (scan v edges a)
    (λ g' r, ∃ seen', g' = Ghost H (Some (v, seen', r)) None
       ∧ (r = IN → ∀ w, w ∈ adj v → w < v → w ∈ seen')).
Proof using EE Hnd Hin.
  intros Hv. destruct eng_graph_wf as [_ Hgwf]. revert seen a.
  induction edges as [|w edges IH]; intros seen a Hed Ha Hseen.
  { exists seen. split; [done|]. intros _ w Hw Hlt. destruct (Hseen w Hw Hlt) as [?|Hn]; [done|].
    by apply not_elem_of_nil in Hn. }
  assert (Hwa : w ∈ adj v) by (apply Hed, elem_of_cons; by left).
  assert (Hed' : ∀ y, y ∈ edges → y ∈ adj v) by (intros y Hy; apply Hed, elem_of_cons; by right).
  cbn [scan]. case_bool_decide as Hlt.
  2:{ apply IH; [done|done|]. intros y Hy Hyv. destruct (Hseen y Hy Hyv) as [?|Hc]; [by left|].
      apply elem_of_cons in Hc as [->|Hc]; [done|by right]. }
  assert (Hw : 0 ≤ w < n) by (by eapply Hgwf).
  assert (Hseen' : ∀ y, y ∈ adj v → y < v → y ∈ seen ++ [w] ∨ y ∈ edges).
  { intros y Hy Hyv. rewrite elem_of_app, list_elem_of_singleton.
    destruct (Hseen y Hy Hyv) as [?|Hc]; [tauto|]. apply elem_of_cons in Hc as [->|Hc]; tauto. }
  apply safe_on_table. intros x f ls HJ Hi. pose proof (ra_len _ _ _ HJ) as Hl.
  pose proof (ra_scan _ _ _ HJ i _ v seen a Hi eq_refl) as Hfound.
  unfold load_flag. rewrite aget_at, bind_ok by lia.
  set (a' := match at_ (flag x) w with UNDECIDED => UNDECIDED | IN => OUT | OUT => a end).
  assert (Hf' : found (flag x) v (seen ++ [w]) a').
  { unfold a'. destruct (at_ (flag x) w) eqn:Ew; cbn.
    - exists w. split; [done|]. split; [lia|]. destruct (decide (w ∈ all ls)) as [Hal|Hal].
      + by apply (proj2 (all_ok ls (ra_prefix _ _ _ HJ))).
      + by rewrite <- (ra_keep _ _ _ HJ).
    - exists w. by split; [|split; [lia|]].
    - destruct a; [done| |done]. intros y Hy Hyv. apply elem_of_app in Hy as [Hy|Hy%list_elem_of_singleton];
        [by apply Hfound|by subst]. }
  eexists _, _, (Ghost H (Some (v, seen ++ [w], a')) None). split; [done|]. split.
  { eapply mis_racing_know; [done..|]. cbn. intros u sn b [= <- <- <-]. done. }
  fold a'. case_bool_decide as Eo; [|by apply IH].
  rewrite Eo. exists (seen ++ [w]). split; [by rewrite <- Eo|done].
Qed.

(** Pulling one vertex. *)
Lemma pull_safe i vs pre v suf :
  parts !! i = Some vs → vs = pre ++ v :: suf →
  safe (with_frontier n racing) i (Ghost pre None None) (pull_c i v)
    (λ g' _, g' = Ghost (pre ++ [v]) None None).
Proof using EE Hnd Hin.
  intros Hvs Hsplit. assert (Hp : (pre ++ [v]) `prefix_of` vs) by (exists suf; by rewrite <- app_assoc).
  destruct (Hin v) as [Hv _].
  { apply elem_of_app. left. apply elem_of_concat. exists vs. split; [rewrite Hsplit; set_solver|].
    by eapply list_elem_of_lookup_2. }
  unfold pull_c. apply safe_on_table. intros x f ls HJ Hi. pose proof (ra_len _ _ _ HJ) as Hl.
  destruct (next_fresh _ _ _ _ _ _ v HJ Hi Hvs Hp) as (_ & _ & Hu & _).
  unfold load_flag. rewrite aget_at, bind_ok by lia. rewrite Hu.
  eexists _, _, (Ghost pre (Some (v, [], IN)) None). split; [done|]. split.
  { eapply mis_racing_know; [done..|]. cbn. intros u sn b [= <- <- <-] w Hw. by apply not_elem_of_nil in Hw. }
  clear x f ls HJ Hi Hl Hu. rewrite bool_decide_eq_false_2 by done. apply safe_bind.
  eapply safe_mono; [|apply scan_safe; [done|done|done|by right]].
  intros g a (seen & -> & Hseen). case_bool_decide as Ha.
  - apply safe_bind. eapply (safe_set_bit n racing i _ (Ghost pre (Some (v, seen, a)) (Some v))); [done|..].
    + intros. by eapply mis_racing_ext.
    + intros. by eapply mis_racing_flag.
    + intros _. apply safe_on_table_ret. intros x f ls HJ Hi.
      edestruct racing_store as (x' & E & HJ'); [exact HJ|exact Hvs|exact Hp| | |].
      { rewrite Hi. by rewrite bool_decide_eq_true_2. } { done. }
      exists x', (), (Ghost (pre ++ [v]) None None). split; [exact E|]. by split.
  - apply safe_on_table_ret. intros x f ls HJ Hi.
    edestruct racing_store as (x' & E & HJ'); [exact HJ|exact Hvs|exact Hp| | |].
    { rewrite Hi. by rewrite bool_decide_eq_false_2. } { done. }
    exists x', (), (Ghost (pre ++ [v]) None None). split; [exact E|]. by split.
Qed.

(** All pulls of one call of the engine. *)
Lemma pulls_end u :
  pulled fl0 D0 u →
  round_ends (λ s, pulled fl0 (concat parts ++ D0) (unpack s))
    (Cfg (pack u) (imap (λ t vs, each vs (pull_c t)) parts)).
Proof using EE Hnd Hin.
  intros [Hl Hw Hs Hdone Hk Hso Hf Hc Hle Hb].
  assert (H0 : all ((λ _, Ghost [] None None) <$> parts) = D0).
  { unfold all. replace (((λ _, Ghost [] None None) <$> parts) ≫= handled) with (@nil Z); [done|].
    clear. induction parts; [done|]. by rewrite fmap_cons, bind_cons. }
  apply (workers_end (with_frontier n racing) _ _ (Ghost [] None None) (λ vs, Ghost vs None None)).
  - split; [done|]. split; [done|]. cbn [pack fst snd]. split; cbn [flag decided_by left_by]; rewrite ?H0; try done.
    + apply Forall2_fmap_l, Forall_Forall2_diag, Forall_true. intros vs. apply prefix_nil.
    + intros v Hv Hu. rewrite Hf by (by apply Hdone). by rewrite Hu, !bool_decide_eq_true_2.
    + intros v Hv. rewrite Hf by done. intros [? ?%bool_decide_eq_true]%andb_true_iff.
      left. split; [by eapply bool_decide_eq_true|done].
    + by intros i g v seen a (vs & -> & _)%list_lookup_fmap_Some.
    + by intros i g v (vs & -> & _)%list_lookup_fmap_Some.
  - intros i vs Hvs. apply (safe_each _ i vs (pull_c i) (λ pre, Ghost pre None None)).
    intros pre v suf Hpre. by eapply pull_safe.
  - intros [x f] (Hw' & Hs' & HJ). cbn [fst snd] in *. set (ls' := _ <$> parts) in HJ.
    assert (Ha : all ls' = concat parts ++ D0).
    { unfold all, ls'. f_equal. clear. induction parts; [done|]. by rewrite fmap_cons, bind_cons, IHl. }
    destruct HJ as [Jl Jp Jk Jso Jle Jf [Jc1 Jc2] Jb Jsc Jfl]. rewrite Ha in *.
    split; cbn [unpack flags pl_next n_decided next_frontier_size fst snd]; try done.
    intros v Hv. apply eq_true_iff_eq. rewrite andb_true_iff, !bool_decide_eq_true. split.
    + intros Hfv. destruct (Jf v Hv Hfv) as [?|(i & g & Hi & Hg)]; [done|].
      by apply list_lookup_fmap_Some in Hi as (vs & -> & _).
    + intros [??]. by apply Jle.
Qed.
End race.

(** ** The kernel *)

(** Where the kernel is: at the test of its loop, or between the two calls of the
    engine, with the captured state and the new [end]. *)
Inductive point :=
  | At_test (st : mis_state)
  | Between (st : mis_state) (u : pull_state) (end' : Z).

Definition mis_stop (p : point) : bool :=
  match p with At_test st => negb (bool_decide (0 < undecided st)) | Between _ _ _ => false end.

Definition mis_tasks (p : point) (ts : list (prog shared_state unit)) : Prop :=
  match p with
  | At_test st =>
      if bool_decide (0 < front_size st) then split (bm_get (frontier st)) 0 (end_ st) pull_c ts
      else idle pull_c ts
  | Between st _ end' =>
      if bool_decide (start st < end') then split (has_edges eng_graph) (start st) end' pull_c ts
      else idle pull_c ts
  end.

Definition mis_open (p : point) : shared_state :=
  match p with
  | At_test st => pack (PullState (ms_flags st) (next_frontier st) (decided st) (next_size st))
  | Between _ u _ => pack u
  end.

Definition mis_close (delta : Z) (p : point) (s : shared_state) : result point :=
  match p with
  | At_test st =>
      _ ← cassert (bool_decide (front_size st ≤ delta));
      Ok (Between st (unpack s) (n `min` u32 (u32 (end_ st + delta) - front_size st)))
  | Between st _ end' =>
      let u := unpack s in
      let und := u32 (undecided st - comb_sum (n_decided u)) in
      let fs := comb_sum (next_frontier_size u) in
      cleared ← clear (rounds st) (frontier st);
      Ok (At_test (MisState (pl_next u) cleared (flags u) comb_new comb_new end' end' und fs
            (S (rounds st)) (engine st)))
  end.

(** What holds there; [l] are the vertices pulled so far. *)
Definition point_inv (delta : Z) (m : nat) (p : point) : Prop :=
  match p with
  | At_test st => round_inv delta st ∧ m = (2 * work st)%nat
  | Between st u end' =>
      round_inv delta st ∧ m = (2 * work st - 1)%nat ∧ 0 < undecided st ∧ end' = new_end delta st
      ∧ ∃ l, pulled (ms_flags st) l u
          ∧ ∀ x, x ∈ l ↔ 0 ≤ x < end_ st ∧ at_ (ms_flags st) x = UNDECIDED
  end.

(** The engine can be called there. *)
Definition callable (p : point) : Prop :=
  match p with
  | At_test st => full_frontier (frontier st) ∧ 0 ≤ end_ st ≤ n
  | Between st _ end' => 0 ≤ start st ∧ end' ≤ n
  end.

Lemma point_callable delta m p : point_inv delta m p → callable p.
Proof.
  destruct p as [st|st u e']; [intros [Hri _]|intros (Hri & _ & _ & -> & _)]; cbn;
    pose proof (mi_range _ _ Hri); pose proof (mi_front _ _ Hri).
  - by destruct_and!.
  - unfold new_end. lia.
Qed.

Lemma mis_tasks_exist p : ∃ ts, mis_tasks p ts.
Proof.
  destruct p as [st|st u e']; unfold mis_tasks; case_bool_decide;
    first [by apply split_exists|by exists [], []].
Qed.

(** The frontier is pulled again. *)
Lemma first_call_ends delta st ts :
  0 < delta → n + delta < 2 ^ 32 → round_inv delta st → 0 < undecided st →
  mis_tasks (At_test st) ts →
  round_ends (λ s, ∃ m' p', mis_close delta (At_test st) s = Ok p' ∧ point_inv delta m' p'
      ∧ (m' < 2 * work st)%nat) (Cfg (mis_open (At_test st)) ts).
Proof.
  intros Hd H32 Hri Hu Hts. destruct (new_end_ok _ _ Hd H32 Hri) as [He _].
  assert (Hl : ∃ parts, ts = imap (λ t vs, each vs (pull_c t)) parts ∧ NoDup (concat parts)
      ∧ ∀ x, x ∈ concat parts ↔ 0 ≤ x < end_ st ∧ und (ms_flags st) x = true) .
  { cbn [mis_tasks] in Hts. case_bool_decide as Hf.
    - destruct Hts as (parts & Hcov & ->). exists parts. split; [done|].
      split; [apply Hcov|]. by eapply front_covered.
    - destruct Hts as (parts & Hnil & ->). exists parts. rewrite Hnil. split; [done|].
      split; [constructor|]. by eapply front_empty. }
  destruct Hl as (parts & -> & Hnd & Hl). destruct (mi_range _ _ Hri) as [_ Hr].
  eapply round_ends_mono; [|apply (pulls_end (ms_flags st) [] parts); [| |by eapply pulled_nil]];
    rewrite app_nil_r; [|done|].
  - intros s Hp. eexists _, _. split.
    { unfold mis_close. by rewrite cassert_true, bind_ok, He by (apply bool_decide_eq_true, Hri). }
    split; [split; [done|]; split; [reflexivity|]; split; [done|]; split; [done|]|].
    + exists (concat parts). split; [done|]. intros x. by rewrite Hl, bool_decide_eq_true.
    + enough (0 < work st)%nat by lia. unfold work. lia.
  - intros v [Hv Huv%bool_decide_eq_true]%Hl. split; [lia|done].
Qed.

(** New vertices are pulled for the first time. *)
Lemma second_call_ends delta m st u e' ts :
  0 < delta → n + delta < 2 ^ 32 → point_inv delta m (Between st u e') →
  mis_tasks (Between st u e') ts →
  round_ends (λ s, ∃ m' p', mis_close delta (Between st u e') s = Ok p' ∧ point_inv delta m' p'
      ∧ (m' < m)%nat) (Cfg (mis_open (Between st u e')) ts).
Proof.
  intros Hd H32 (Hri & -> & Hu & -> & l1 & Hp1 & Hl1) Hts.
  destruct (new_end_ok _ _ Hd H32 Hri) as [_ He]. destruct (mi_range _ _ Hri) as [Hse Hr].
  assert (Hl1' : ∀ x, x ∈ l1 ↔ 0 ≤ x < end_ st ∧ und (ms_flags st) x = true)
    by (intros x; by rewrite Hl1, bool_decide_eq_true).
  assert (Hl : ∃ parts, ts = imap (λ t vs, each vs (pull_c t)) parts ∧ NoDup (concat parts ++ l1)
      ∧ ∀ x, x ∈ concat parts ++ l1 ↔ 0 ≤ x < new_end delta st ∧ und (ms_flags st) x = true).
  { cbn [mis_tasks] in Hts. rewrite Hse in Hts. case_bool_decide as Hf.
    - destruct Hts as (parts & Hcov & ->). exists parts. split; [done|].
      split; [|by eapply fresh_covered]. apply NoDup_app. split; [apply Hcov|].
      split; [|by destruct (pl_done _ _ _ Hp1)]. intros x Hx Hx1.
      destruct Hcov as (_ & Hin & _). apply Hin in Hx as [Hx%elem_of_rng _]. apply Hl1 in Hx1. lia.
    - destruct Hts as (parts & Hnil & ->). exists parts. rewrite Hnil. split; [done|]. cbn [app]. replace (new_end delta st) with (end_ st) by lia.
      split; [by destruct (pl_done _ _ _ Hp1)|done]. }
  destruct Hl as (parts & -> & Hnd & Hl).
  eapply round_ends_mono; [|apply (pulls_end (ms_flags st) l1 parts); [done| |done]].
  - cbv beta. intros s Hp. destruct (mi_front _ _ Hri) as [[Hbm Hct] Hsz].
    destruct (clear_spec (rounds st) (frontier st) Hbm) as (cl & Ec & Hcw & Hcs & Hcb).
    exists (2 * work (mis_next delta st (unpack s) cl (engine st)))%nat,
      (At_test (mis_next delta st (unpack s) cl (engine st))).
    split; [cbn [mis_close]; by rewrite Ec|]. split.
    + split; [|done]. eapply mis_next_inv; try done; [apply Hri|lia|]. intros v Hv. apply Hcb. lia.
    + pose proof (mis_next_work delta st (concat parts ++ l1) (unpack s) cl (engine st)
        Hd H32 Hri Hu Hp Hl). lia.
  - intros v [Hv Huv%bool_decide_eq_true]%Hl. split; [lia|done].
Qed.

(** All runs end, and the engine is always called on a proper frontier. *)
Lemma mis_runs divisor idx num_edges frontierA frontierB vt0 eng :
  mis_ready divisor idx num_edges frontierA frontierB vt0 eng →
  ∃ delta st, mis_enter divisor idx num_edges frontierA frontierB vt0 eng = Ok (delta, st)
    ∧ ends_in mis_stop mis_tasks mis_open (mis_close delta) callable
        (λ p, ∃ st', p = At_test st' ∧ maximal_independent (ms_flags st')) (Head (At_test st)).
Proof.
  intros Hready. destruct (mr_divisor _ _ _ _ _ _ _ Hready) as [_ H32].
  destruct (mis_enter_ok _ _ _ _ _ _ _ Hready) as (st & E & Hd & Hri & _).
  exists (n / divisor), st. split; [done|].
  apply (ends_in_mono _ _ _ _ (λ p, ∃ m, point_inv (n / divisor) m p)); [intros p (m & Hp); by eapply point_callable|].
  apply (machine_ends _ _ _ _ (point_inv (n / divisor)) _ (2 * work st)); [| |done].
  - intros m [st1|st1 u e'] Hp Hstop; [|done]. exists st1. split; [done|]. destruct Hp as [Hri1 _].
    apply greedy_maximal. eapply mis_done; [done|]. cbn in Hstop. by case_bool_decide.
  - intros m [st1|st1 u e'] Hp Hstop; (split; [apply mis_tasks_exist|]); intros ts Hts.
    + destruct Hp as [Hri1 ->]. apply first_call_ends; try done. cbn in Hstop. by case_bool_decide.
    + by apply (second_call_ends (n / divisor) m).
Qed.

(** the maximal independent set is correct under every interleaving.  A worker reads
    the flags of neighbours while other workers write theirs, sets bits of the next
    frontier and writes its own flag, one operation at a time, in any order, in both
    engine calls of an iteration.  No run faults or goes on for ever, and when the kernel
    ends, the vertices that are [IN] are the greedy set: it is independent and maximal,
    and does not depend on the schedule. *)
Theorem mis_concurrent divisor idx num_edges frontierA frontierB vt0 eng :
  mis_ready divisor idx num_edges frontierA frontierB vt0 eng →
  ∃ delta st, mis_enter divisor idx num_edges frontierA frontierB vt0 eng = Ok (delta, st)
    ∧ ends mis_stop mis_tasks mis_open (mis_close delta)
        (λ p, ∃ st', p = At_test st' ∧ maximal_independent (ms_flags st')) (Head (At_test st)).
Proof.
  intros Hready. destruct (mis_runs _ _ _ _ _ _ _ Hready) as (delta & st & E & Hends). exists delta, st.
  split; [done|]. by eapply ends_in_mono, Hends.
Qed.
End mis.
