(* ===== verification/PagerankDelta.v ===== *)
(** * PagerankDelta: delta-accumulating PageRank ([pagerank_delta.hpp])

    [pagerank_correct] shows that the kernel runs at most four rounds of the
    synchronous delta iteration [pr_round], in which a vertex receives the shares of
    its active in-neighbours, and that it stops earlier only when no vertex is
    active; [print_top_20_ok] that the ranks it prints are the twenty
    largest. *)

From Stdlib Require Import SpecFloat.
From stdpp Require Import sorting.
From S2P Require Import Prelude Platform StdLib Bitmap Engine EdgeEngine.

(** [0.85f] and [0.001f] are the nearest multiples of [2^-24] and [2^-33]. *)
Definition alpha : f32 := binary_normalize 24 128 14260634 (-24) false.
Definition epsilon : f32 := binary_normalize 24 128 8589935 (-33) false.
Definition INIT_RESIDUAL : f32 := f32_sub (f32_of_u32 1) alpha.

Record pagerank_delta_vertex := PrVertex { value : f32; delta : f32; residual : f32 }.
#[export] Instance pr_vertex_inhabited : Inhabited pagerank_delta_vertex :=
  populate (PrVertex f32_zero f32_zero f32_zero).

(** ** [update_add_atomic]: a compare-and-swap loop.  What the other threads do
    to the residual before the [k]-th exchange, and whether it fails spuriously: *)
Record turn := Turn { before_cas : f32 → f32; spurious : bool }.

Definition add_step (env : nat → turn) (s_val : f32) (st : nat * f32 * f32)
    : result (nat * f32 * f32 + bool * f32) :=
  let '(k, current, res) := st in
  let res := before_cas (env k) res in
  if negb (spurious (env k)) && bool_decide (res = current)
  then Ok (inr (true, f32_add current s_val))
  else Ok (inl (S k, res, res)).

Definition update_add_atomic (env : nat → turn) (fuel : nat) (s_val res : f32)
    : result (bool * f32) :=
  loopM fuel (add_step env s_val) (0%nat, res, res).

(** No interference: the residual is not touched by another thread meanwhile. *)
Definition quiet : nat → turn := λ _, Turn id false.

Definition vertex_map (u : pagerank_delta_vertex) : bool * pagerank_delta_vertex :=
  let res := residual u in
  if SFltb epsilon (SFabs res) then (true, PrVertex (f32_add (value u) res) res f32_zero)
  else (false, u).

Lemma update_add_quiet s_val res :
  update_add_atomic quiet 1 s_val res = Ok (true, f32_add res s_val).
Proof. unfold update_add_atomic. simpl. by rewrite bool_decide_eq_true_2. Qed.

(** The residual just before the [k]-th exchange. *)
Fixpoint residual_at (env : nat → turn) (k : nat) (res : f32) : f32 :=
  let prev := match k with O => res | S k' => residual_at env k' res end in
  before_cas (env k) prev.

(** [update_add_atomic] is an atomic addition.  Whatever the other
    threads do, as long as they leave the residual alone from their [K]-th turn
    on, the loop ends within [K + 1] exchanges, and it adds the value to what the
    residual is at the exchange that succeeds: no update of another thread is
    lost and the value is added once. *)
Theorem update_add_atomic_adds env K s_val res :
  (∀ k, (K ≤ k)%nat → spurious (env k) = false ∧ ∀ x, before_cas (env k) x = x) →
  ∃ k, (k ≤ K)%nat ∧ update_add_atomic env (S K) s_val res
                     = Ok (true, f32_add (residual_at env k res) s_val).
Proof.
  intros Hq. unfold update_add_atomic.
  destruct (loopM_total (λ st, ∃ k x, st = (k, x, x) ∧ (k ≤ K)%nat
      ∧ x = match k with O => res | S k' => residual_at env k' res end)
    (λ r, ∃ k, (k ≤ K)%nat ∧ r = (true, f32_add (residual_at env k res) s_val))
    (λ st, K - st.1.1)%nat (add_step env s_val) (S K) (0%nat, res, res)) as (r & E & k & Hk & ->).
  - exists 0%nat, res. split; [done|]. split; [lia|done].
  - simpl. lia.
  - intros st (k & x & -> & Hk & Hx). unfold add_step.
    assert (Hat : before_cas (env k) x = residual_at env k res) by (destruct k; simpl; by rewrite Hx).
    destruct (negb (spurious (env k)) && bool_decide (before_cas (env k) x = x)) eqn:Eb.
    + apply andb_true_iff in Eb as [_ Eb%bool_decide_eq_true]. eexists; split; [done|].
      exists k. split; [done|]. by rewrite <- Hat, Eb.
    + assert (k < K)%nat.
      { destruct (decide (K ≤ k)%nat) as [Hge|]; [|lia]. destruct (Hq k Hge) as (E1 & E2).
        by rewrite E1, E2, bool_decide_eq_true_2 in Eb. }
      eexists; split; [done|]. split; [|simpl; lia]. eexists _, _. split; [done|]. by split.
  - exists k. by rewrite E.
Qed.

Section pagerank.
  Context {BU : BuildOptions} {BO : Boost} {OS : Os} {CB : Combinable} {SC : Scheduler}.
  Context {EO : EngineOps} {EE : EdgeEngine}.
  Abbreviation n := (g_n eng_graph).
  Abbreviation adj := (g_adj eng_graph).
  Abbreviation gdeg := (g_deg eng_graph).
  Abbreviation table := (list pagerank_delta_vertex).

Definition add_residual (my_val : f32) (w : Z) (vtable : table) : result table :=
  u ← aget vtable w;
  '(_, r) ← update_add_atomic quiet 1 my_val (residual u);
  aset vtable w (PrVertex (value u) (delta u) r).

Definition pagerank_push (t : nat) (v : Z) (edges : list Z) (m : Z) (vtable : table)
    : result table :=
  if bool_decide (0 < m) then
    u ← aget vtable v;
    let my_delta := delta u in
    vtable ← aset vtable v (PrVertex (value u) f32_zero (residual u));
    let my_val := f32_div (f32_mul my_delta alpha) (f32_of_u32 m) in
    for_u32 0 m (λ i vtable, w ← aget edges i; add_residual my_val w vtable) vtable
  else Ok vtable.

Definition pagerank_init (t : nat) (v : Z) (vtable : table) : result table :=
  aset vtable v (PrVertex f32_zero INIT_RESIDUAL f32_zero).

(** The loop after the edges: [if (vtable[v].vertex_map()) next_frontier->set_bit(v)]. *)
Definition pagerank_map (t : nat) (v : Z) (st : table * Bitmap) : result (table * Bitmap) :=
  u ← aget st.1 v;
  let '(active, u) := vertex_map u in
  vtable ← aset st.1 v u;
  if active : bool then '(_, next) ← set_bit t v st.2; Ok (vtable, next) else Ok (vtable, st.2).

Record pr_state := PrState {
  frontier : Bitmap;
  next_frontier : Bitmap;
  vtab : table;
  iter : Z;
  engine : eng_state;
}.

Definition max_iterations : Z := 5.

(** One evaluation of [while (!frontier->is_empty() && ++iter < max_iterations)]. *)
Definition pr_step (st : pr_state) : result (pr_state + pr_state) :=
  if is_empty (frontier st) then Ok (inr st)
  else
    let it := u32 (iter st + 1) in
    if bool_decide (it < max_iterations) then
      '(eng, vt) ← ccy_for_each_active pagerank_push (2 * Z.to_nat it) (frontier st) 0 n
                     (engine st, vtab st);
      '(vt, next) ← parallel_for (2 * Z.to_nat it + 1) 0 n
                      (λ t lo hi, for_u32 lo hi (pagerank_map t)) (vt, next_frontier st);
      cleared ← clear (2 * Z.to_nat it) (frontier st);
      Ok (inl (PrState next cleared vt it eng))
    else Ok (inr (PrState (frontier st) (next_frontier st) (vtab st) it (engine st))).

(** [operator()] up to its [while]. *)
Definition pagerank_enter (frontierA frontierB : Bitmap) (vtable : table) (eng : eng_state)
    : result pr_state :=
  vt ← parallel_for 0 0 n (λ t lo hi, for_u32 lo hi (pagerank_init t)) vtable;
  f ← set_all 1 0 frontierA;
  Ok (PrState f frontierB vt 0 eng).

Definition pagerank_kernel (fuel : nat) (frontierA frontierB : Bitmap) (vtable : table)
    (eng : eng_state) : result pr_state :=
  st ← pagerank_enter frontierA frontierB vtable eng;
  loopM fuel pr_step st.

(** ** The synchronous iteration *)

(** What a vertex gives to each of its out-neighbours. *)
Definition share (vt : table) (v : Z) : f32 :=
  f32_div (f32_mul (delta (at_ vt v)) alpha) (f32_of_u32 (gdeg v)).

(** What [w] receives when the vertices [l] push in this order (first last). *)
Definition received (vt : table) (l : list Z) (w : Z) : list f32 :=
  reverse l ≫= λ v, replicate (Z.to_nat (occ w (adj v))) (share vt v).

(** The vertex after its residual [r] has been examined. *)
Definition applied (u : pagerank_delta_vertex) (used : bool) (r : f32)
    : bool * pagerank_delta_vertex :=
  vertex_map (PrVertex (value u) (if used then f32_zero else delta u) r).

(** One round: every active vertex with out-edges gives its share, once, in some
    order; a vertex whose residual exceeds [epsilon] in magnitude adds it to its
    value and is active in the next round. *)
Definition pr_round (vt : table) (act : Z → bool) (vt' : table) (act' : Z → bool) : Prop :=
  ∃ l, covers act gdeg (rng 0 n) l ∧ zlen vt' = n ∧
    ∀ w, 0 ≤ w < n →
      applied (at_ vt w) (bool_decide (w ∈ l ∧ 0 < gdeg w))
        (fold_left f32_add (received vt l w) (residual (at_ vt w)))
      = (act' w, at_ vt' w).

(** Some number of rounds of a kind. *)
Inductive rounds_of (round : table → (Z → bool) → table → (Z → bool) → Prop)
    : nat → table → (Z → bool) → table → (Z → bool) → Prop :=
  | pr_none vt act : rounds_of round 0 vt act vt act
  | pr_more k vt1 act1 vt2 act2 vt3 act3 :
      rounds_of round k vt1 act1 vt2 act2 → round vt2 act2 vt3 act3 →
      rounds_of round (S k) vt1 act1 vt3 act3.

Definition pr_rounds := rounds_of pr_round.

(** ** One push *)
Record pushed (vt0 : table) (dn : list Z) (vt : table) : Prop := {
  pu_len : zlen vt = n;
  pu_at w : 0 ≤ w < n →
    at_ vt w = PrVertex (value (at_ vt0 w))
      (if bool_decide (w ∈ dn ∧ 0 < gdeg w) then f32_zero else delta (at_ vt0 w))
      (fold_left f32_add (received vt0 dn w) (residual (at_ vt0 w)));
}.

Lemma received_cons vt0 v dn w :
  received vt0 (v :: dn) w
  = received vt0 dn w ++ replicate (Z.to_nat (occ w (adj v))) (share vt0 v).
Proof. unfold received. by rewrite reverse_cons, bind_app, bind_singleton. Qed.

Lemma pagerank_push_ok vt0 dn t v vt :
  0 ≤ v < n → v ∉ dn → pushed vt0 dn vt →
  ∃ vt', pagerank_push t v (adj v) (gdeg v) vt = Ok vt' ∧ pushed vt0 (v :: dn) vt'.
Proof.
  intros Hv Hnin [Hl Hat]. unfold pagerank_push. case_bool_decide as Hd.
  2:{ assert (adj v = []) as Hnil by (unfold g_deg, zlen in Hd; destruct (adj v); [done|simpl in Hd; lia]).
      exists vt. split; [done|]. split; [done|]. intros w Hw.
      rewrite Hat, received_cons, Hnil by done. change (occ w []) with 0. cbn [Z.to_nat replicate].
      rewrite app_nil_r. f_equal. destruct (decide (w = v)) as [->|Hne].
      - by rewrite !bool_decide_eq_false_2 by tauto.
      - erewrite bool_decide_ext; [done|]. rewrite elem_of_cons. naive_solver. }
  rewrite aget_at, bind_ok, aset_ok, bind_ok by lia.
  assert (Hdel : delta (at_ vt v) = delta (at_ vt0 v)).
  { rewrite Hat by done. simpl. by rewrite bool_decide_eq_false_2 by tauto. }
  rewrite Hdel. fold (share vt0 v). set (vt1 := <[Z.to_nat v:=_]> vt).
  destruct (edge_loop eng_graph (λ pre vt', zlen vt' = n ∧ ∀ w, 0 ≤ w < n →
      at_ vt' w = PrVertex (value (at_ vt0 w))
        (if bool_decide (w ∈ v :: dn ∧ 0 < gdeg w) then f32_zero else delta (at_ vt0 w))
        (fold_left f32_add (received vt0 dn w ++ replicate (Z.to_nat (occ w pre)) (share vt0 v))
           (residual (at_ vt0 w)))) (add_residual (share vt0 v)) v vt1)
    as (vt2 & E & Hl2 & Hat2); [apply eng_graph_wf|done| | |].
  - unfold vt1. rewrite zlen_insert. split; [done|]. intros w Hw.
    change (occ w []) with 0. cbn [Z.to_nat replicate]. rewrite app_nil_r, at_insert by lia.
    case_decide as E.
    + subst w. rewrite bool_decide_eq_true_2 by (split; [apply elem_of_cons; by left|done]).
      by rewrite Hat by done.
    + rewrite Hat by done. f_equal. erewrite bool_decide_ext; [done|]. rewrite elem_of_cons. naive_solver.
  - intros pre w suf vt' Hadj Hw [Hl' Hat']. unfold add_residual.
    rewrite aget_at, bind_ok, update_add_quiet, bind_ok by lia. cbv beta iota.
    rewrite aset_ok by lia. eexists; split; [done|]. rewrite zlen_insert. split; [done|].
    intros x Hx. rewrite at_insert by lia. pose proof (occ_nonneg x pre). rewrite occ_snoc.
    case_decide as E.
    + subst x. rewrite Hat', (bool_decide_eq_true_2 (w = w)) by done. cbn [value delta residual Z.b2z].
      replace (Z.to_nat (occ w pre + 1)) with (S (Z.to_nat (occ w pre))) by lia.
      by rewrite replicate_S_end, app_assoc, (fold_left_app f32_add (received vt0 dn w ++ _)).
    + rewrite Hat' by done. rewrite (bool_decide_eq_false_2 (w = x)), Z.add_0_r by done. done.
  - exists vt2. split; [done|]. split; [done|]. intros w Hw. by rewrite Hat2, received_cons by done.
Qed.

(** ** Examining the residuals *)
Lemma pagerank_map_ok vt0 next r :
  zlen vt0 = n → bm_wf next → size next = n → (∀ v, 0 ≤ v < n → bm_get next v = false) →
  ∃ vt next', parallel_for r 0 n (λ t lo hi, for_u32 lo hi (pagerank_map t)) (vt0, next) = Ok (vt, next')
    ∧ zlen vt = n ∧ bm_wf next' ∧ size next' = n
    ∧ ∀ w, 0 ≤ w < n → vertex_map (at_ vt0 w) = (bm_get next' w, at_ vt w).
Proof.
  intros Hl Hw Hs Hb.
  destruct (parallel_for_inv (λ dn st, zlen st.1 = n ∧ bm_wf st.2 ∧ size st.2 = n
      ∧ ∀ w, 0 ≤ w < n → (if decide (w ∈ dn) then vertex_map (at_ vt0 w) else (false, at_ vt0 w))
                          = (bm_get st.2 w, at_ st.1 w)) r 0 n pagerank_map (vt0, next))
    as ([vt nx] & dn & E & Hp & Hl' & Hw' & Hs' & Hat); cbn [fst snd] in *.
  - split; [done|]. split; [done|]. split; [done|]. intros w Hw0.
    rewrite decide_False by apply not_elem_of_nil. by rewrite Hb.
  - intros t dn v [vt nx] [Hnin _]%NoDup_cons Hv Hdn (Hl1 & Hw1 & Hs1 & Hat). cbn [fst snd] in *.
    unfold pagerank_map. cbn [fst snd]. rewrite aget_at, bind_ok by lia.
    pose proof (Hat v Hv) as Hatv. rewrite decide_False in Hatv by done. injection Hatv as Hbv Huv.
    rewrite <- Huv. destruct (vertex_map (at_ vt0 v)) as [active u] eqn:Ev.
    rewrite aset_ok, bind_ok by lia.
    assert (Hrest : ∀ nx' b, (∀ w, 0 ≤ w → bm_get nx' w = bool_decide (w = v) && b || bm_get nx w) →
      b = active → ∀ w, 0 ≤ w < n → (if decide (w ∈ v :: dn) then vertex_map (at_ vt0 w) else (false, at_ vt0 w))
        = (bm_get nx' w, at_ (<[Z.to_nat v:=u]> vt) w)).
    { intros nx' b Hnx -> w Hw0. rewrite at_insert, Hnx by lia. destruct (decide (w = v)) as [->|Hne].
      - rewrite decide_True by (apply elem_of_cons; by left).
        rewrite decide_True, (bool_decide_eq_true_2 (v = v)), <- Hbv, orb_false_r, Ev by done. done.
      - rewrite (bool_decide_eq_false_2 (w = v)) by done. rewrite (decide_False (P := v = w)) by congruence.
        rewrite andb_false_l, orb_false_l, <- Hat by done. apply decide_ext. rewrite elem_of_cons. tauto. }
    destruct active.
    + destruct (set_bit_spec t v nx Hw1) as (b & -> & Hwb & Hsb & Hbb); [lia|]. rewrite bind_ok.
      eexists; split; [done|]. cbn [fst snd]. rewrite zlen_insert. split; [done|]. split; [done|].
      split; [lia|]. apply (Hrest _ true); [|done]. intros w Hw0. by rewrite Hbb, andb_true_r by done.
    + eexists; split; [done|]. cbn [fst snd]. rewrite zlen_insert. split; [done|]. split; [done|].
      split; [done|]. apply (Hrest _ false); [|done]. intros w Hw0. by rewrite andb_false_r.
  - exists vt, nx. split; [done|]. split; [done|]. split; [done|]. split; [done|].
    intros w Hw0. rewrite <- Hat, decide_True; [done| |done]. rewrite Hp. by apply elem_of_rng.
Qed.

(** ** One round of the kernel is one round of the iteration *)
Record round_inv (st : pr_state) : Prop := {
  ri_len : zlen (vtab st) = n;
  ri_front : bm_wf (frontier st) ∧ size (frontier st) = n;
  ri_next : bm_wf (next_frontier st) ∧ size (next_frontier st) = n
            ∧ ∀ v, 0 ≤ v < n → bm_get (next_frontier st) v = false;
  ri_eng : eng_ok (engine st);
}.

Lemma pr_step_ok st :
  round_inv st → is_empty (frontier st) = false → 0 ≤ iter st → iter st + 1 < max_iterations →
  ∃ st', pr_step st = Ok (inl st') ∧ round_inv st' ∧ iter st' = iter st + 1
    ∧ pr_round (vtab st) (bm_get (frontier st)) (vtab st') (bm_get (frontier st')).
Proof.
  intros [Hl [Hfw Hfs] (Hnw & Hns & Hnb) Heng] He Hi Hmax. unfold max_iterations in Hmax.
  destruct (ccy_for_each_active_spec pagerank_push (pushed (vtab st)) (2 * Z.to_nat (iter st + 1))
    (frontier st) 0 n (engine st) (vtab st)) as (eng & vt1 & l & E1 & Hok & Hcov & Hp);
    [apply Hfw|done| |lia|lia|done| |].
  { intros t v dn u Hv _ _ Hn Hp. by apply pagerank_push_ok. }
  { split; [done|]. intros w Hw. rewrite bool_decide_eq_false_2 by (intros [?%not_elem_of_nil _]; done).
    by destruct (at_ (vtab st) w). }
  destruct (pagerank_map_ok vt1 (next_frontier st) (2 * Z.to_nat (iter st + 1) + 1))
    as (vt2 & nx & E2 & Hl2 & Hw2 & Hs2 & Hat2); [apply Hp|done..|].
  destruct (clear_spec (2 * Z.to_nat (iter st + 1)) (frontier st)) as (cl & Ec & Hcw & Hcs & Hcb); [apply Hfw|].
  eexists; split; [|split; [|split]].
  - unfold pr_step. rewrite He. cbv zeta. rewrite u32_id' by lia.
    rewrite bool_decide_eq_true_2 by (unfold max_iterations; lia).
    rewrite E1, bind_ok. cbv beta iota. rewrite E2, bind_ok. cbv beta iota. rewrite Ec, bind_ok. done.
  - split; cbn [vtab frontier next_frontier engine]; [done|done| |done].
    split; [done|]. split; [lia|]. intros v Hv. apply Hcb. lia.
  - done.
  - exists l. split; [done|]. split; [done|]. intros w Hw. cbn [vtab frontier].
    rewrite <- Hat2 by done. rewrite (pu_at _ _ _ Hp) by done. done.
Qed.

(** What the kernel starts from. *)
Record pagerank_ready (frontierA frontierB : Bitmap) (vt0 : table) (eng : eng_state) : Prop := {
  pr_eng : eng_ok eng;
  pr_A : bm_ok frontierA ∧ size frontierA = n ∧ frontier_size frontierA = comb_new;
  pr_B : bm_wf frontierB ∧ size frontierB = n ∧ ∀ v, 0 ≤ v < n → bm_get frontierB v = false;
  pr_table : zlen vt0 = n;
}.

(** The initial table with every vertex active. *)
Definition initial (st : pr_state) : Prop :=
  ∀ v, 0 ≤ v < n →
    at_ (vtab st) v = PrVertex f32_zero INIT_RESIDUAL f32_zero ∧ bm_get (frontier st) v = true.

Lemma pagerank_enter_ok frontierA frontierB vt0 eng :
  pagerank_ready frontierA frontierB vt0 eng →
  ∃ st, pagerank_enter frontierA frontierB vt0 eng = Ok st ∧ round_inv st ∧ iter st = 0 ∧ initial st.
Proof.
  intros [He (HA & HAs & HAc) (HB & HBs & HBb) Hl0]. unfold pagerank_enter.
  destruct (parallel_for_inv (λ dn vt, zlen vt = n ∧
      ∀ v, v ∈ dn → at_ vt v = PrVertex f32_zero INIT_RESIDUAL f32_zero) 0 0 n pagerank_init vt0)
    as (vt & dn & -> & Hp & Hl & Hat).
  { split; [done|]. by intros v Hv%not_elem_of_nil. }
  { intros t dn v vt _ Hv Hdn [Hl Hat]. unfold pagerank_init. rewrite aset_ok by lia.
    eexists; split; [done|]. rewrite zlen_insert. split; [done|]. intros x Hx.
    assert (0 ≤ x) by (apply elem_of_cons in Hx as [->|Hx%Hdn]; lia).
    rewrite at_insert by lia. case_decide; [done|]. apply Hat. apply elem_of_cons in Hx. naive_solver. }
  rewrite bind_ok.
  destruct (set_all_spec 1 0 frontierA HA) as (f & -> & Hw & Hs & Hb);
    [by rewrite HAc, comb_sum_new, comb_local_new|]. rewrite bind_ok.
  eexists; split; [done|]. split; [|split; [done|]].
  - split; cbn [vtab frontier next_frontier engine]; try done. split; [done|lia].
  - intros v Hv. cbn [vtab frontier]. split; [apply Hat; rewrite Hp; by apply elem_of_rng|apply Hb; lia].
Qed.

Lemma pagerank_kernel_ok fuel frontierA frontierB vt0 eng :
  (4 < fuel)%nat → pagerank_ready frontierA frontierB vt0 eng →
  ∃ st k init act, pagerank_kernel fuel frontierA frontierB vt0 eng = Ok st
    ∧ (k ≤ 4)%nat
    ∧ (∀ v, 0 ≤ v < n → at_ init v = PrVertex f32_zero INIT_RESIDUAL f32_zero ∧ act v = true)
    ∧ pr_rounds k init act (vtab st) (bm_get (frontier st))
    ∧ (k = 4%nat ∨ ∀ v, 0 ≤ v < n → bm_get (frontier st) v = false)
    ∧ zlen (vtab st) = n.
Proof.
  intros Hfuel Hready. unfold pagerank_kernel.
  destruct (pagerank_enter_ok _ _ _ _ Hready) as (st0 & -> & Hri0 & Hit0 & Hinit).
  rewrite bind_ok.
  destruct (loopM_total_ind (λ m st, round_inv st ∧ (m ≤ 4)%nat ∧ iter st = 4 - Z.of_nat m
      ∧ pr_rounds (4 - m) (vtab st0) (bm_get (frontier st0)) (vtab st) (bm_get (frontier st)))
    (λ st, ∃ k, (k ≤ 4)%nat ∧ pr_rounds k (vtab st0) (bm_get (frontier st0)) (vtab st) (bm_get (frontier st))
      ∧ (k = 4%nat ∨ ∀ v, 0 ≤ v < n → bm_get (frontier st) v = false) ∧ zlen (vtab st) = n)
    pr_step fuel 4 st0) as (st & -> & k & Hk & Hr & Hend).
  - split; [done|]. split; [lia|]. split; [lia|]. constructor.
  - done.
  - intros m st (Hri & Hm & Hit & Hr). destruct (is_empty (frontier st)) eqn:Ee.
    + exists (inr st). unfold pr_step. rewrite Ee. split; [done|]. exists (4 - m)%nat.
      split; [lia|]. split; [done|]. split; [|by apply Hri]. right. destruct (ri_front _ Hri) as [Hfw Hfs].
      rewrite is_empty_spec, Hfs in Ee by done. done.
    + destruct m as [|m].
      * eexists; split.
        { unfold pr_step. rewrite Ee, Hit. cbv zeta. rewrite bool_decide_eq_false_2 by done. done. }
        exists 4%nat. split; [lia|]. split; [done|]. split; [by left|by apply Hri].
      * destruct (pr_step_ok st Hri Ee) as (st' & E & Hri' & Hit' & Hround);
          [lia|unfold max_iterations; lia|].
        exists (inl st'). split; [done|]. exists m. split; [|lia]. split; [done|]. split; [lia|].
        split; [lia|]. replace (4 - m)%nat with (S (4 - S m)) by lia. by econstructor.
  - by exists st, k, (vtab st0), (bm_get (frontier st0)).
Qed.

(** C17: the PageRank kernel implements the synchronous delta iteration and
    terminates.  For every scheduling of the workers, with fuel for five tests
    of the loop, the run ends without a fault after some number of rounds, at
    most four although [max_iterations] is five; the final table and frontier are
    those of that many rounds of [pr_round] from the initial table with every
    vertex active; and fewer than four rounds are run only when no vertex is
    active any more. *)
Theorem pagerank_correct fuel frontierA frontierB vt0 eng :
  (4 < fuel)%nat → eng_ok eng →
  bm_ok frontierA → size frontierA = n → frontier_size frontierA = comb_new →
  bm_wf frontierB → size frontierB = n → (∀ v, 0 ≤ v < n → bm_get frontierB v = false) →
  zlen vt0 = n →
  ∃ st k init act, pagerank_kernel fuel frontierA frontierB vt0 eng = Ok st
    ∧ (k ≤ 4)%nat
    ∧ (∀ v, 0 ≤ v < n → at_ init v = PrVertex f32_zero INIT_RESIDUAL f32_zero ∧ act v = true)
    ∧ pr_rounds k init act (vtab st) (bm_get (frontier st))
    ∧ (k = 4%nat ∨ ∀ v, 0 ≤ v < n → bm_get (frontier st) v = false).
Proof.
  intros Hfuel He HA HAs HAc HB HBs HBb Hl0.
  destruct (pagerank_kernel_ok fuel frontierA frontierB vt0 eng) as (st & k & init & act & E & Hk & Hi & Hr & Hend & _);
    [done..|]. by exists st, k, init, act.
Qed.
End pagerank.

(** ** The ranks that are printed ([print_top_20]) *)

(** [operator<] on [std::pair<float, uint32_t>] *)
Definition ranked_lt (p q : f32 * Z) : bool :=
  SFltb p.1 q.1 || negb (SFltb q.1 p.1) && bool_decide (p.2 < q.2).

Definition top_step (vtable : list pagerank_delta_vertex) (v : Z) (t20 : list (f32 * Z))
    : result (list (f32 * Z)) :=
  x ← aget vtable v;
  if bool_decide (zlen t20 < 20) then Ok (std_sort ranked_lt (t20 ++ [(value x, v)]))
  else
    first ← aget t20 0;
    if SFltb first.1 (value x) then
      t20 ← aset t20 0 (value x, v);
      Ok (std_sort ranked_lt t20)
    else Ok t20.

(** The pairs in the order in which they are printed. *)
Definition print_top_20 (vtable : list pagerank_delta_vertex) (num_verts : Z)
    : result (list (f32 * Z)) :=
  t20 ← for_u32 0 num_verts (top_step vtable) [];
  Ok (reverse t20).

Section top_20.
  Context (vtable : list pagerank_delta_vertex).
  Context (Hnum : ∀ v, 0 ≤ v < zlen vtable → not_nan (value (at_ vtable v))).

Definition ranked (p : f32 * Z) : Prop := 0 ≤ p.2 < zlen vtable ∧ p.1 = value (at_ vtable p.2).

Lemma ranked_not_nan p : ranked p → not_nan p.1.
Proof using Hnum. intros [Hp ->]. by apply Hnum. Qed.

(** The order of pairs as that of four integers. *)
Lemma ranked_lt_key p q (a := f32_key p.1) (b := f32_key q.1) : ranked p → ranked q →
  ranked_lt p q = true ↔ key_lt a b ∨ (a.1.1 = b.1.1 ∧ a.1.2 = b.1.2 ∧ a.2 = b.2) ∧ p.2 < q.2.
Proof using Hnum.
  intros Hp%ranked_not_nan Hq%ranked_not_nan. unfold ranked_lt.
  rewrite orb_true_iff, andb_true_iff, negb_true_iff, <- not_true_iff_false, bool_decide_eq_true.
  rewrite !f32_lt_key by done. fold a b. unfold key_lt. lia.
Qed.

Lemma ranked_asym p q : ranked p → ranked q → ranked_lt p q = true → ranked_lt q p = false.
Proof using Hnum.
  intros Hp Hq. rewrite <- not_true_iff_false, !ranked_lt_key by done. unfold key_lt. lia.
Qed.

Lemma ranked_nlt p q r : ranked p → ranked q → ranked r →
  ranked_lt p q = false → ranked_lt q r = false → ranked_lt p r = false.
Proof using Hnum.
  intros Hp Hq Hr. rewrite <- !not_true_iff_false, !ranked_lt_key by done. unfold key_lt. lia.
Qed.

Lemma ranked_lt_value p q : ranked_lt q p = false → SFltb q.1 p.1 = false.
Proof. unfold ranked_lt. by destruct (SFltb q.1 p.1). Qed.

(** The largest ranks of the first [k] vertices. *)
Record top_of (k : Z) (l : list (f32 * Z)) : Prop := {
  to_ranked : Forall ranked l;
  to_below p : p ∈ l → p.2 < k;
  to_nodup : NoDup l.*2;
  to_len : zlen l = k `min` 20;
  to_sorted : sorted_by ranked_lt l;
  to_few v : zlen l < 20 → 0 ≤ v < k → v ∈ l.*2;
  to_rest p v : p ∈ l → 0 ≤ v < k → v ∉ l.*2 → SFltb p.1 (value (at_ vtable v)) = false;
}.

(** Sorting a list that is right but for its order. *)
Lemma top_of_sort k l :
  Forall ranked l → (∀ p, p ∈ l → p.2 < k) → NoDup l.*2 → zlen l = k `min` 20 →
  (∀ v, zlen l < 20 → 0 ≤ v < k → v ∈ l.*2) →
  (∀ p v, p ∈ l → 0 ≤ v < k → v ∉ l.*2 → SFltb p.1 (value (at_ vtable v)) = false) →
  top_of k (std_sort ranked_lt l).
Proof using Hnum.
  intros Hr Hb Hn Hl Hfew Hrest. pose proof (std_sort_perm ranked_lt l) as Hp. split.
  - by rewrite Hp.
  - intros p. rewrite Hp. apply Hb.
  - by rewrite Hp.
  - unfold zlen in *. by rewrite Hp.
  - apply (std_sort_sorted ranked_lt ranked); [by apply ranked_asym|by apply ranked_nlt|done].
  - intros v. unfold zlen in *. rewrite Hp. apply Hfew.
  - intros p v. rewrite Hp. apply Hrest.
Qed.

Lemma top_step_ok k l : 0 ≤ k < zlen vtable → top_of k l →
  ∃ l', top_step vtable k l = Ok l' ∧ top_of (k + 1) l'.
Proof using Hnum.
  intros Hk [Hr Hb Hn Hl Hs Hfew Hrest]. unfold top_step. rewrite (aget_at vtable k), bind_ok by lia.
  set (x := value (at_ vtable k)). assert (Hx : ranked (x, k)) by done.
  assert (Hkl : k ∉ l.*2) by (intros (p & -> & Hp)%list_elem_of_fmap; specialize (Hb p Hp); lia).
  case_bool_decide as Hlt.
  - eexists; split; [done|].
    assert (Hall : ∀ v, 0 ≤ v < k + 1 → v ∈ (l ++ [(x, k)]).*2).
    { intros v Hv. rewrite fmap_app, elem_of_app. cbn [fmap list_fmap snd].
      rewrite list_elem_of_singleton.
      destruct (decide (v = k)); [by right|left; apply Hfew; [done|lia]]. }
    apply top_of_sort.
    + apply Forall_app_2, Forall_singleton; done.
    + intros p [Hp| ->%list_elem_of_singleton]%elem_of_app; [specialize (Hb p Hp); lia|cbn; lia].
    + rewrite fmap_app. apply NoDup_app. split; [done|]. split; [|apply NoDup_singleton].
      intros v Hv ->%list_elem_of_singleton. done.
    + rewrite zlen_app. unfold zlen at 2. cbn. lia.
    + intros v _. apply Hall.
    + intros p v _ Hv Hnv. destruct Hnv. by apply Hall.
  - destruct l as [|p0 l]; [unfold zlen in *; cbn in *; lia|].
    change (aget (p0 :: l) 0) with (Ok p0). rewrite bind_ok. cbn [fmap list_fmap] in *.
    apply Forall_cons in Hr as [Hp0 Hr]. apply NoDup_cons in Hn as [Hp0l Hn].
    apply StronglySorted_inv in Hs as [Hsl Hmin]. rewrite Forall_forall in Hmin.
    assert (Hge : ∀ p, p ∈ l → SFltb p.1 p0.1 = false) by (intros p Hp; by apply ranked_lt_value, Hmin).
    destruct (SFltb p0.1 x) eqn:Ex.
    + rewrite aset_ok, bind_ok by (unfold zlen in *; cbn; lia). eexists; split; [done|].
      change (<[Z.to_nat 0:=(x, k)]> (p0 :: l)) with ((x, k) :: l).
      assert (Hv0 : p0.1 = value (at_ vtable p0.2)) by apply Hp0.
      apply top_of_sort; cbn [fmap list_fmap].
      * by constructor.
      * intros p [->|Hp]%elem_of_cons; [cbn; lia|]. specialize (Hb p ltac:(set_solver)). lia.
      * constructor; [set_solver|done].
      * unfold zlen in *. cbn in *. lia.
      * unfold zlen in *. cbn in *. lia.
      * intros p v Hp Hv Hnv. cbn in Hnv. apply not_elem_of_cons in Hnv as [Hvk Hvl].
        assert (Hold : ∀ q, q ∈ p0 :: l → SFltb q.1 (value (at_ vtable v)) = false).
        { intros q Hq. destruct (decide (v = p0.2)) as [->|Hne].
          - rewrite <- Hv0. apply elem_of_cons in Hq as [->|Hq]; [|by apply Hge].
            destruct (SFltb p0.1 p0.1) eqn:Hc; [|done].
            by rewrite (f32_lt_asym p0.1 p0.1) in Hc by (done || by apply ranked_not_nan).
          - apply Hrest; [done|lia|]. by rewrite not_elem_of_cons. }
        apply elem_of_cons in Hp as [->|Hp]; [|apply Hold; set_solver]. cbn.
        destruct (SFltb x (value (at_ vtable v))) eqn:Hc; [|done].
        pose proof (f32_lt_trans p0.1 x (value (at_ vtable v)) (ranked_not_nan _ Hp0)
          (ranked_not_nan _ Hx) (Hnum v ltac:(lia)) Ex Hc) as Hlt0.
        by rewrite Hold in Hlt0 by set_solver.
    + exists (p0 :: l). split; [done|]. split; cbn [fmap list_fmap].
      * by constructor.
      * intros p Hp. specialize (Hb p Hp). lia.
      * by constructor.
      * lia.
      * constructor; [done|by rewrite Forall_forall].
      * lia.
      * intros p v Hp Hv Hnv. destruct (decide (v = k)) as [->|Hvk]; [|apply Hrest; [done|lia|done]].
        fold x. apply elem_of_cons in Hp as [->|Hp]; [done|].
        apply (f32_nlt_trans p.1 p0.1 x); [|by apply ranked_not_nan|by apply Hnum|by apply Hge|done].
        apply ranked_not_nan. rewrite Forall_forall in Hr. by apply Hr.
Qed.

(** [print_top_20] lists the vertices of the largest ranks.  On a table
    whose ranks are numbers it does not fault, and the list has as many entries as
    there are vertices, at most twenty, each of another vertex with its rank, in
    descending order; no vertex that is left out has a larger rank than one that
    is listed. *)
Lemma print_top_20_ok num_verts :
  num_verts = zlen vtable → num_verts < 2 ^ 32 →
  ∃ l, print_top_20 vtable num_verts = Ok l
    ∧ zlen l = num_verts `min` 20
    ∧ NoDup l.*2
    ∧ Forall ranked l
    ∧ StronglySorted (λ p q, ranked_lt p q = false) l
    ∧ ∀ p v, p ∈ l → 0 ≤ v < num_verts → v ∉ l.*2 → SFltb p.1 (value (at_ vtable v)) = false.
Proof using Hnum.
  intros Hnv Hn32. pose proof (zlen_nonneg vtable). unfold print_top_20.
  destruct (for_u32_inv top_of 0 num_verts (top_step vtable) []) as (l & -> & [Hr _ Hn Hl Hs _ Hrest]).
  - lia.
  - split; try by constructor.
    + by intros p Hp%not_elem_of_nil.
    + intros v Hv Hv0. lia.
    + by intros p v Hp%not_elem_of_nil.
  - intros k l Hk. apply top_step_ok. lia.
  - rewrite bind_ok. exists (reverse l). split; [done|].
    split; [unfold zlen in *; by rewrite length_reverse|].
    split; [by rewrite fmap_reverse, reverse_Permutation|]. split; [by rewrite reverse_Permutation|].
    split; [by apply sorted_by_reverse|].
    intros p v. rewrite fmap_reverse, !elem_of_reverse. apply Hrest.
Qed.
End top_20.
