(* ===== verification/PagerankConcurrent.v ===== *)
(** * PagerankConcurrent: PageRank with racing workers

    [pagerank_push_c] is the push function of [pagerank_delta.hpp] as the operations
    other threads can see: the accesses to the vertex's own [delta], and for every
    edge a load and weak compare-and-swaps of a residual.  [pagerank_map_c] is the
    body of the loop after it.  [pagerank_concurrent] shows that the kernel runs the
    rounds of the delta iteration however the operations of the workers are
    interleaved and whichever exchanges fail spuriously, with the shares of a vertex
    added in some order, which may be another one for every vertex. *)

From S2P Require Import Prelude Platform StdLib Bitmap Engine EdgeEngine Interleaving Workers PagerankDelta.

Section pagerank.
  Context {BU : BuildOptions} {BO : Boost} {OS : Os} {CB : Combinable} {SC : Scheduler}.
  Context {EO : EngineOps} {EE : EdgeEngine}.
  Abbreviation n := (g_n eng_graph).
  Abbreviation adj := (g_adj eng_graph).
  Abbreviation gdeg := (g_deg eng_graph).

(** The vertices, and whether the next exchanges fail spuriously. *)
Record table := Table { cells : list pagerank_delta_vertex; failing : list bool }.
Abbreviation shared_state := (table * Bitmap)%type.

Definition load_delta (v : Z) (x : table) : result (table * f32) :=
  u ← aget (cells x) v; Ok (x, delta u).

Definition clear_delta (v : Z) (x : table) : result (table * unit) :=
  u ← aget (cells x) v;
  vt ← aset (cells x) v (PrVertex (value u) f32_zero (residual u));
  Ok (Table vt (failing x), ()).

Definition load_residual (w : Z) (x : table) : result (table * f32) :=
  u ← aget (cells x) w; Ok (x, residual u).

(** [compare_exchange_weak]: whether it succeeded, and the new [current]. *)
Definition compare_exchange_weak (w : Z) (current desired : f32) (x : table)
    : result (table * (bool * f32)) :=
  u ← aget (cells x) w;
  let fails := match failing x with [] => false | b :: _ => b end in
  if negb fails && bool_decide (residual u = current) then
    vt ← aset (cells x) w (PrVertex (value u) (delta u) desired);
    Ok (Table vt (tail (failing x)), (true, current))
  else Ok (Table (cells x) (tail (failing x)), (false, residual u)).

Definition out_of_fuel (x : table) : result (table * unit) := Fault OutOfFuel.

(** The loop of [update_add_atomic]. *)
Fixpoint add_loop (fuel : nat) (w : Z) (s_val current : f32) : prog shared_state unit :=
  match fuel with
  | O => on_table out_of_fuel
  | S fuel =>
      '(ok, current) ← on_table (compare_exchange_weak w current (f32_add current s_val));
      if ok : bool then mret () else add_loop fuel w s_val current
  end.

Definition update_add_atomic_c (fuel : nat) (s_val : f32) (w : Z) : prog shared_state unit :=
  current ← on_table (load_residual w);
  add_loop fuel w s_val current.

Definition pagerank_push_c (fuel : nat) (t : nat) (v : Z) : prog shared_state unit :=
  if bool_decide (0 < gdeg v) then
    my_delta ← on_table (load_delta v);
    _ ← on_table (clear_delta v);
    let my_val := f32_div (f32_mul my_delta alpha) (f32_of_u32 (gdeg v)) in
    each (adj v) (update_add_atomic_c fuel my_val)
  else mret ().

(** [vertex_map] of a vertex no other worker looks at. *)
Definition apply_map (v : Z) (x : table) : result (table * bool) :=
  u ← aget (cells x) v;
  let '(active, u) := vertex_map u in
  vt ← aset (cells x) v u;
  Ok (Table vt (failing x), active).

Definition pagerank_map_c (t : nat) (v : Z) : prog shared_state unit :=
  active ← on_table (apply_map v);
  if active : bool then _ ← set_bit_c t v; mret () else mret ().

(** ** Without interruption *)
#[local] Arguments set_bit_c : simpl never.
#[local] Arguments run : simpl never.

Definition quiet_state (b : Bitmap) (vt : list pagerank_delta_vertex) : shared_state := (Table vt [], b).

Lemma run_update_add fuel s_val w b vt :
  run (update_add_atomic_c (S fuel) s_val w) (quiet_state b vt)
  = ((λ vt, (quiet_state b vt, ())) <$> add_residual s_val w vt).
Proof.
  unfold update_add_atomic_c, add_residual. rewrite run_bind, run_on_table. unfold load_residual.
  cbn [quiet_state fst snd cells]. destruct (aget vt w) as [u|] eqn:Ea; [|done].
  rewrite !bind_ok. cbv beta iota. rewrite update_add_quiet, bind_ok. cbn [add_loop].
  rewrite run_bind, run_on_table. unfold compare_exchange_weak. cbn [fst snd cells failing tail].
  rewrite Ea, bind_ok, bool_decide_eq_true_2 by done. cbn [negb andb].
  by destruct (aset vt w _) as [vt'|].
Qed.

(** A push that is not interrupted is the push of the sequential model. *)
Lemma run_pagerank_push fuel t v b vt :
  run (pagerank_push_c (S fuel) t v) (quiet_state b vt)
  = ((λ vt, (quiet_state b vt, ())) <$> pagerank_push t v (adj v) (gdeg v) vt).
Proof.
  unfold pagerank_push_c, pagerank_push. case_bool_decide; [|done].
  rewrite run_bind, run_on_table. unfold load_delta. cbn [quiet_state fst snd cells].
  destruct (aget vt v) as [u|] eqn:Ea; [|done]. rewrite !bind_ok. cbv beta iota zeta.
  rewrite run_bind, run_on_table. unfold clear_delta. cbn [fst snd cells failing]. rewrite Ea, bind_ok.
  destruct (aset vt v _) as [vt1|]; [|done]. rewrite !bind_ok. cbv beta iota. rewrite run_each.
  change (Table vt1 [], b) with (quiet_state b vt1). set (my_val := f32_div _ _).
  unfold g_deg. rewrite for_u32_aget.
  rewrite (forM_embed (quiet_state b) _ (add_residual my_val)); [by destruct (forM _ _ _)|].
  intros w vt'. rewrite run_update_add. by destruct (add_residual my_val w vt').
Qed.

Lemma run_pagerank_map t v vt b :
  run (pagerank_map_c t v) (quiet_state b vt)
  = ((λ st, (quiet_state st.2 st.1, ())) <$> pagerank_map t v (vt, b)).
Proof.
  unfold pagerank_map_c, pagerank_map. rewrite run_bind, run_on_table. unfold apply_map.
  cbn [quiet_state fst snd cells failing]. destruct (aget vt v) as [u|]; [|done]. rewrite !bind_ok.
  destruct (vertex_map u) as [active u']. destruct (aset vt v u') as [vt'|]; [|done].
  rewrite !bind_ok. cbv beta iota. destruct active; [|done]. rewrite run_bind, run_set_bit.
  by destruct (set_bit t v b) as [[r b']|].
Qed.

(** ** Rounds *)

(** A round of the delta iteration in which every vertex adds the shares it receives
    in an order of its own. *)
Definition async_round (vt : list pagerank_delta_vertex) (act : Z → bool)
    (vt' : list pagerank_delta_vertex) (act' : Z → bool) : Prop :=
  ∃ l, covers act gdeg (rng 0 n) l ∧ zlen vt' = n ∧
    ∀ w, 0 ≤ w < n → ∃ shares, shares ≡ₚ received vt l w ∧
      applied (at_ vt w) (bool_decide (w ∈ l ∧ 0 < gdeg w))
        (fold_left f32_add shares (residual (at_ vt w)))
      = (act' w, at_ vt' w).

(** What the shares in [l] are to [w]. *)
Definition shares_to (w : Z) (l : list (Z * f32)) : list f32 := snd <$> filter (λ p, p.1 = w) l.

#[global] Instance shares_to_perm w : Proper ((≡ₚ) ==> (≡ₚ)) (shares_to w).
Proof. intros l1 l2 H. unfold shares_to. by rewrite H. Qed.

Lemma shares_to_app w l1 l2 : shares_to w (l1 ++ l2) = shares_to w l1 ++ shares_to w l2.
Proof. unfold shares_to. by rewrite filter_app, fmap_app. Qed.

(** The shares the vertices [vs] give, in order. *)
Definition plan (vt : list pagerank_delta_vertex) (vs : list Z) : list (Z * f32) :=
  vs ≫= λ v, (λ w, (w, share vt v)) <$> adj v.
Definition linked (vs : list Z) : list Z := filter (λ v, 0 < gdeg v) vs.

Lemma shares_to_each w (s : f32) l :
  shares_to w ((λ x, (x, s)) <$> l) = replicate (Z.to_nat (occ w l)) s.
Proof.
  induction l as [|x l IHl]; [done|]. rewrite fmap_cons, occ_cons. unfold shares_to in *.
  rewrite filter_cons. cbn [fst]. pose proof (occ_nonneg w l). case_decide.
  - rewrite bool_decide_eq_true_2, fmap_cons, IHl by done.
    by replace (Z.to_nat (Z.b2z true + occ w l)) with (S (Z.to_nat (occ w l))) by (cbn; lia).
  - by rewrite bool_decide_eq_false_2.
Qed.

Lemma shares_to_plan vt w vs : shares_to w (plan vt vs) ≡ₚ received vt vs w.
Proof.
  unfold received. rewrite reverse_Permutation. unfold plan. induction vs as [|v vs IH]; [done|].
  by rewrite !bind_cons, shares_to_app, IH, shares_to_each.
Qed.

(** ** The race of the pushes *)

(** What a worker knows: the vertices whose [delta] it has taken, the shares it has
    given; while it tries to add to the residual of [w], a value this residual had
    when some number of shares had been given, and how many exchanges may still
    fail spuriously. *)
Record ghost := Ghost { taken : list Z; gave : list (Z * f32);
  trying : option (Z * f32 * nat * nat) }.

Section race.
  Context (vt0 : list pagerank_delta_vertex) (parts : list (list Z)) (B : nat).
  Context (Hnd : NoDup (concat parts)).
  Context (Hin : ∀ v, v ∈ concat parts → 0 ≤ v < n).

Definition total : nat := length (plan vt0 (concat parts)).

Record racing (x : table) (f : Z → bool) (ls : list ghost) : Prop := {
  ra_len : zlen (cells x) = n;
  ra_failing : (length (failing x) ≤ B)%nat;
  ra_bits v : 0 ≤ v < n → f v = false;
  ra_taken : Forall2 (λ g vs, taken g `prefix_of` vs) ls (linked <$> parts);
  ra_gave : Forall2 (λ g es, gave g `prefix_of` es) ls (plan vt0 <$> parts);
  ra_own w : 0 ≤ w < n →
    value (at_ (cells x) w) = value (at_ vt0 w)
    ∧ delta (at_ (cells x) w) = if decide (w ∈ ls ≫= taken) then f32_zero else delta (at_ vt0 w);
  ra_residual w : 0 ≤ w < n →
    ∃ shares, shares ≡ₚ shares_to w (ls ≫= gave)
      ∧ residual (at_ (cells x) w) = fold_left f32_add shares (residual (at_ vt0 w));
  ra_trying i g w cur d b : ls !! i = Some g → trying g = Some (w, cur, d, b) →
    0 ≤ w < n ∧ (d ≤ length (ls ≫= gave))%nat ∧ (length (failing x) ≤ b)%nat
    ∧ (length (ls ≫= gave) = d → residual (at_ (cells x) w) = cur);
}.

Lemma concat_linked : concat (linked <$> parts) = linked (concat parts).
Proof using Type.
  clear Hnd Hin. induction parts as [|vs ps IH]; [done|]. rewrite fmap_cons. cbn [concat].
  rewrite IH. unfold linked. by rewrite filter_app.
Qed.

Lemma concat_plan : concat (plan vt0 <$> parts) = plan vt0 (concat parts).
Proof using Type.
  clear Hnd Hin. induction parts as [|vs ps IH]; [done|]. rewrite fmap_cons. cbn [concat].
  rewrite IH. unfold plan. by rewrite bind_app.
Qed.

(** No more shares are given than planned. *)
Lemma gave_le ls :
  Forall2 (λ g es, gave g `prefix_of` es) ls (plan vt0 <$> parts) → (length (ls ≫= gave) ≤ total)%nat.
Proof using Type.
  intros HF. destruct (prefixes_perm _ _ _ HF) as [rest Hr]. unfold total.
  rewrite <- concat_plan, Hr, length_app. lia.
Qed.

(** A worker learns something; exchanges may have failed. *)
Lemma pr_racing_learn x f ls i g g' o :
  racing x f ls → ls !! i = Some g → taken g' = taken g → gave g' = gave g →
  (length o ≤ length (failing x))%nat →
  (∀ w cur d b, trying g' = Some (w, cur, d, b) →
     0 ≤ w < n ∧ (d ≤ length (ls ≫= gave))%nat ∧ (length o ≤ b)%nat
     ∧ (length (ls ≫= gave) = d → residual (at_ (cells x) w) = cur)) →
  racing (Table (cells x) o) f (<[i:=g']> ls).
Proof using Type.
  intros [Hl HB Hb Ht Hg Ho Hr Htr] Hi Ht' Hg' Hlen Htry.
  split; cbn [cells failing]; rewrite ?(bind_insert_same taken _ _ _ _ Hi Ht'),
    ?(bind_insert_same gave _ _ _ _ Hi Hg'); try done; [lia|..].
  - by eapply prefixes_same.
  - by eapply prefixes_same.
  - intros j h w cur d b [(<- & <- & _)|[_ Hj]]%list_lookup_insert_Some Hh; [by apply Htry|].
    destruct (Htr j h w cur d b Hj Hh) as (? & ? & ? & ?). split; [done|]. split; [done|].
    split; [lia|done].
Qed.

Lemma pr_racing_know x f ls i g g' :
  racing x f ls → ls !! i = Some g → taken g' = taken g → gave g' = gave g →
  (∀ w cur d b, trying g' = Some (w, cur, d, b) →
     0 ≤ w < n ∧ (d ≤ length (ls ≫= gave))%nat ∧ (length (failing x) ≤ b)%nat
     ∧ (length (ls ≫= gave) = d → residual (at_ (cells x) w) = cur)) →
  racing x f (<[i:=g']> ls).
Proof using Type. intros. destruct x as [vt o]. by eapply (pr_racing_learn (Table vt o)). Qed.

(** The [delta] of a vertex is taken by the worker it was given to only. *)
Lemma racing_take x f ls i T G v vs :
  racing x f ls → ls !! i = Some (Ghost T G None) → parts !! i = Some vs →
  (T ++ [v]) `prefix_of` linked vs →
  0 ≤ v < n ∧ delta (at_ (cells x) v) = delta (at_ vt0 v)
  ∧ racing (Table (<[Z.to_nat v := PrVertex (value (at_ (cells x) v)) f32_zero
                        (residual (at_ (cells x) v))]> (cells x)) (failing x)) f
      (<[i:=Ghost (T ++ [v]) G None]> ls).
Proof using Hnd Hin.
  intros [Hl HB Hb Ht Hg Ho Hr Htr] Hi Hvs Hp. set (g' := Ghost (T ++ [v]) G None).
  assert (Ht' : Forall2 (λ g vs, taken g `prefix_of` vs) (<[i:=g']> ls) (linked <$> parts)).
  { eapply Forall2_insert_l; [done|by rewrite list_lookup_fmap, Hvs|done]. }
  pose proof (bind_insert taken ls i _ g' [v] Hi eq_refl) as Ea. cbn [app] in Ea.
  destruct (prefixes_perm _ _ _ Ht') as [rest Hrest]. rewrite concat_linked, Ea in Hrest.
  assert (Hnd' : NoDup ((v :: (ls ≫= taken)) ++ rest)).
  { rewrite <- Hrest. by apply NoDup_filter. }
  assert (Hv : v ∈ linked (concat parts)) by (rewrite Hrest; set_solver).
  apply list_elem_of_filter in Hv as [_ Hv]. apply Hin in Hv.
  assert (Hnv : v ∉ ls ≫= taken) by (apply NoDup_cons in Hnd' as [Hn _]; set_solver).
  split; [done|]. split; [by rewrite (proj2 (Ho v Hv)), decide_False|].
  pose proof (bind_insert_same gave ls i _ g' Hi eq_refl) as Eg.
  set (u := PrVertex _ _ _). assert (Hat : ∀ w, 0 ≤ w → at_ (<[Z.to_nat v:=u]> (cells x)) w
    = if decide (v = w) then u else at_ (cells x) w) by (intros w Hw; apply at_insert; lia).
  assert (Hres : ∀ w, 0 ≤ w → residual (at_ (<[Z.to_nat v:=u]> (cells x)) w) = residual (at_ (cells x) w)).
  { intros w Hw. rewrite Hat by done. case_decide; [by subst|done]. }
  split; cbn [cells failing]; rewrite ?Eg; try done.
  - by rewrite zlen_insert.
  - by eapply prefixes_same.
  - intros w Hw. rewrite Hat by lia. case_decide as E.
    + subst w. split; [by apply Ho|]. rewrite decide_True; [done|]. rewrite Ea. set_solver.
    + destruct (Ho w Hw) as [-> ->]. split; [done|]. apply decide_ext. rewrite Ea, elem_of_cons. naive_solver.
  - intros w Hw. rewrite Hres by lia. by apply Hr.
  - intros j h w cur d b [(<- & <- & _)|[_ Hj]]%list_lookup_insert_Some Hh; [done|].
    destruct (Htr j h w cur d b Hj Hh) as (? & ? & ? & ?). rewrite Hres by lia. done.
Qed.

(** A share is added. *)
Lemma racing_add x f ls i T G w cur d b val vs :
  racing x f ls → ls !! i = Some (Ghost T G (Some (w, cur, d, b))) → parts !! i = Some vs →
  (G ++ [(w, val)]) `prefix_of` plan vt0 vs → residual (at_ (cells x) w) = cur →
  racing (Table (<[Z.to_nat w := PrVertex (value (at_ (cells x) w)) (delta (at_ (cells x) w))
                        (f32_add cur val)]> (cells x)) (tail (failing x))) f
      (<[i:=Ghost T (G ++ [(w, val)]) None]> ls).
Proof using Type.
  intros [Hl HB Hb Ht Hg Ho Hr Htr] Hi Hvs Hp Hcur. set (g' := Ghost T (G ++ [(w, val)]) None).
  destruct (Htr i _ w cur d b Hi eq_refl) as (Hw & _).
  pose proof (bind_insert gave ls i _ g' [(w, val)] Hi eq_refl) as Ea. cbn [app] in Ea.
  pose proof (bind_insert_same taken ls i _ g' Hi eq_refl) as Et.
  assert (Hlen : length (<[i:=g']> ls ≫= gave) = S (length (ls ≫= gave))) by (by rewrite Ea).
  set (u := PrVertex _ _ _). assert (Hat : ∀ y, 0 ≤ y → at_ (<[Z.to_nat w:=u]> (cells x)) y
    = if decide (w = y) then u else at_ (cells x) y) by (intros y Hy; apply at_insert; lia).
  split; cbn [cells failing]; rewrite ?Et; try done.
  - by rewrite zlen_insert.
  - destruct (failing x); cbn in *; lia.
  - by eapply prefixes_same.
  - eapply Forall2_insert_l; [done|by rewrite list_lookup_fmap, Hvs|done].
  - intros y Hy. rewrite Hat by lia. case_decide; [subst y|]; by apply Ho.
  - intros y Hy. destruct (Hr y Hy) as (rs & Hrs & Hres). rewrite Hat by lia. case_decide as E.
    + subst y. exists (rs ++ [val]). split.
      * rewrite Ea. unfold shares_to. rewrite filter_cons_True, fmap_cons by done. cbn [snd].
        fold (shares_to w (ls ≫= gave)). rewrite Hrs. solve_Permutation.
      * unfold u. cbn [residual]. by rewrite fold_left_app, <- Hres, Hcur.
    + exists rs. split; [|done]. rewrite Ea. unfold shares_to. by rewrite filter_cons_False by done.
  - intros j h y c e m [(<- & <- & _)|[_ Hj]]%list_lookup_insert_Some Hh; [done|].
    destruct (Htr j h y c e m Hj Hh) as (? & ? & ? & ?). split; [done|]. rewrite Hlen.
    split; [lia|]. split; [destruct (failing x); cbn in *; lia|]. intros. lia.
Qed.

Lemma pr_racing_ext x f f' ls :
  racing x f ls → (∀ j, 0 ≤ j → f' j = f j) → racing x f' ls.
Proof using Type.
  intros [Hl HB Hb Ht Hg Ho Hr Htr] He. split; try done. intros v Hv. rewrite He by lia. by apply Hb.
Qed.

(** The loop: every failed exchange means that a share has been added meanwhile, or
    uses up a spurious failure. *)
Lemma add_loop_safe fuel i vs T G suf w val cur d b :
  parts !! i = Some vs → plan vt0 vs = G ++ (w, val) :: suf → (total - d + b < fuel)%nat →
  safe (with_frontier n racing) i (Ghost T G (Some (w, cur, d, b))) (add_loop fuel w val cur)
    (λ g' _, g' = Ghost T (G ++ [(w, val)]) None).
Proof using Type.
  intros Hvs Hplan. revert cur d b. induction fuel as [|fuel IH]; intros cur d b Hfuel; [lia|].
  cbn [add_loop]. apply safe_on_table. intros x f ls HJ Hi.
  destruct (ra_trying _ _ _ HJ i _ w cur d b Hi eq_refl) as (Hw & Hd & Hb & Hc).
  pose proof (ra_len _ _ _ HJ) as Hlen. pose proof (gave_le _ (ra_gave _ _ _ HJ)) as Htot.
  unfold compare_exchange_weak. rewrite aget_at, bind_ok by lia.
  set (fails := match failing x with [] => false | b :: _ => b end).
  destruct (negb fails && bool_decide (residual (at_ (cells x) w) = cur)) eqn:E.
  - apply andb_true_iff in E as [_ E%bool_decide_eq_true]. rewrite aset_ok, bind_ok by lia.
    eexists _, _, (Ghost T (G ++ [(w, val)]) None). split; [done|]. split; [|done].
    eapply racing_add; [done..| |done]. exists suf. by rewrite <- app_assoc.
  - set (b' := if fails then pred b else b).
    eexists _, _, (Ghost T G (Some (w, residual (at_ (cells x) w), length (ls ≫= gave), b'))).
    split; [done|].
    assert (Hb' : (length (tail (failing x)) ≤ b')%nat).
    { unfold b', fails. destruct (failing x) as [|[] o]; cbn in *; lia. }
    assert (Hf' : (total - length (ls ≫= gave) + b' < fuel)%nat).
    { unfold b'. destruct fails eqn:Ef.
      - assert (0 < b)%nat; [|lia]. unfold fails in Ef. destruct (failing x); cbn in *; [done|lia].
      - cbn in E. apply bool_decide_eq_false in E.
        destruct (decide (length (ls ≫= gave) = d)) as [Hd'|]; [by destruct E; apply Hc|lia]. }
    split; [|by apply IH]. eapply pr_racing_learn; [done..| |].
    + destruct (failing x); cbn; lia.
    + cbn. intros ? ? ? ? [= <- <- <- <-]. done.
Qed.

(** Giving one share. *)
Lemma update_safe fuel i vs T G suf w val :
  parts !! i = Some vs → plan vt0 vs = G ++ (w, val) :: suf → 0 ≤ w < n → (total + B < fuel)%nat →
  safe (with_frontier n racing) i (Ghost T G None) (update_add_atomic_c fuel val w)
    (λ g' _, g' = Ghost T (G ++ [(w, val)]) None).
Proof using Type.
  intros Hvs Hplan Hw Hfuel. unfold update_add_atomic_c. apply safe_on_table. intros x f ls HJ Hi.
  pose proof (ra_len _ _ _ HJ) as Hlen. pose proof (ra_failing _ _ _ HJ).
  unfold load_residual. rewrite aget_at, bind_ok by lia.
  eexists _, _, (Ghost T G (Some (w, residual (at_ (cells x) w), length (ls ≫= gave), length (failing x)))).
  split; [done|]. split; [|eapply add_loop_safe; [done..|lia]].
  eapply pr_racing_know; [done..|]. cbn. intros ? ? ? ? [= <- <- <- <-]. done.
Qed.

Lemma plan_app l1 l2 : plan vt0 (l1 ++ l2) = plan vt0 l1 ++ plan vt0 l2.
Proof using Type. unfold plan. by rewrite bind_app. Qed.
Lemma plan_singleton v : plan vt0 [v] = (λ w, (w, share vt0 v)) <$> adj v.
Proof using Type. unfold plan. by rewrite bind_singleton. Qed.

(** Pushing one vertex. *)
Lemma push_safe fuel i vs pre v suf :
  parts !! i = Some vs → vs = pre ++ v :: suf → (total + B < fuel)%nat →
  safe (with_frontier n racing) i (Ghost (linked pre) (plan vt0 pre) None) (pagerank_push_c fuel i v)
    (λ g' _, g' = Ghost (linked (pre ++ [v])) (plan vt0 (pre ++ [v])) None).
Proof using EE Hnd Hin.
  intros Hvs Hsplit Hfuel. destruct eng_graph_wf as [_ Hgwf]. unfold pagerank_push_c.
  rewrite plan_app, plan_singleton. unfold linked at 2. rewrite filter_app. fold (linked pre).
  case_bool_decide as Hd.
  2:{ assert (adj v = []) as -> by (unfold g_deg, zlen in Hd; destruct (adj v); [done|simpl in Hd; lia]).
      rewrite filter_cons_False by done. cbn. by rewrite !app_nil_r. }
  rewrite filter_cons_True by done. rewrite filter_nil.
  assert (Hp : (linked pre ++ [v]) `prefix_of` linked vs).
  { exists (linked suf). rewrite Hsplit. unfold linked. rewrite filter_app, filter_cons_True by done.
    by rewrite <- app_assoc. }
  apply safe_on_table. intros x f ls HJ Hi. pose proof (ra_len _ _ _ HJ) as Hl.
  destruct (racing_take x f ls i _ _ v vs HJ Hi Hvs Hp) as (Hv & Hdel & _).
  unfold load_delta. rewrite aget_at, bind_ok by lia. rewrite Hdel.
  eexists _, _, _. split; [done|]. rewrite list_insert_id by done. split; [done|].
  clear x f ls HJ Hi Hl Hdel. apply safe_on_table. intros x f ls HJ Hi. pose proof (ra_len _ _ _ HJ) as Hl.
  destruct (racing_take x f ls i _ _ v vs HJ Hi Hvs Hp) as (_ & _ & HJ').
  unfold clear_delta. rewrite aget_at, bind_ok, aset_ok, bind_ok by lia.
  eexists _, _, _. split; [done|]. split; [exact HJ'|]. clear x f ls HJ Hi Hl HJ'.
  cbv zeta. fold (share vt0 v). set (sh := share vt0 v).
  assert (Hin0 : safe (with_frontier n racing) i
      (Ghost (linked pre ++ [v]) (plan vt0 pre ++ ((λ w, (w, sh)) <$> [])) None)
      (each (adj v) (update_add_atomic_c fuel sh))
      (λ g' _, g' = Ghost (linked pre ++ [v]) (plan vt0 pre ++ ((λ w, (w, sh)) <$> adj v)) None));
    [|by rewrite app_nil_r in Hin0].
  apply (safe_each _ i (adj v) _
    (λ done, Ghost (linked pre ++ [v]) (plan vt0 pre ++ ((λ w, (w, sh)) <$> done)) None)).
  intros done w rest Hadj. rewrite fmap_app, app_assoc.
  apply (update_safe fuel i vs _ _ (((λ w, (w, sh)) <$> rest) ++ plan vt0 suf)); [exact Hvs| | |exact Hfuel].
  - rewrite Hsplit. change (v :: suf) with ([v] ++ suf).
    rewrite !plan_app, plan_singleton, Hadj, fmap_app, fmap_cons. by rewrite <- !app_assoc.
  - eapply Hgwf; [exact Hv|]. rewrite Hadj. set_solver.
Qed.

(** The table after the pushes of all workers. *)
Record all_pushed (x : table) : Prop := {
  ap_len : zlen (cells x) = n;
  ap_failing : (length (failing x) ≤ B)%nat;
  ap_at w : 0 ≤ w < n → ∃ shares, shares ≡ₚ received vt0 (concat parts) w
    ∧ at_ (cells x) w = PrVertex (value (at_ vt0 w))
        (if bool_decide (w ∈ concat parts ∧ 0 < gdeg w) then f32_zero else delta (at_ vt0 w))
        (fold_left f32_add shares (residual (at_ vt0 w)));
}.

Definition finished_ghost (vs : list Z) : ghost := Ghost (linked vs) (plan vt0 vs) None.

Lemma racing_done x f ls :
  racing x f ls → ls = finished_ghost <$> parts → all_pushed x.
Proof using Type.
  intros [Hl HB Hb Ht Hg Ho Hr Htr] ->. split; [done|done|]. intros w Hw.
  assert (Et : (finished_ghost <$> parts) ≫= taken = linked (concat parts)).
  { rewrite <- concat_linked. clear. induction parts as [|vs ps IH]; [done|].
    rewrite !fmap_cons, bind_cons, IH. done. }
  assert (Eg : (finished_ghost <$> parts) ≫= gave = plan vt0 (concat parts)).
  { rewrite <- concat_plan. clear. induction parts as [|vs ps IH]; [done|].
    rewrite !fmap_cons, bind_cons, IH. done. }
  destruct (Hr w Hw) as (rs & Hrs & Hres), (Ho w Hw) as [Hval Hdel]. rewrite Eg, shares_to_plan in Hrs.
  exists rs. split; [done|]. destruct (at_ (cells x) w) as [a c r]. cbn in *. subst. f_equal.
  rewrite Et. unfold linked. case_decide as E; rewrite list_elem_of_filter in E.
  - rewrite bool_decide_eq_true_2; [done|tauto].
  - rewrite bool_decide_eq_false_2; [done|tauto].
Qed.

(** All pushes of a round. *)
Lemma pushes_end fuel o nf :
  zlen vt0 = n → (length o ≤ B)%nat → (total + B < fuel)%nat →
  bm_wf nf → size nf = n → (∀ v, 0 ≤ v < n → bm_get nf v = false) →
  round_ends (λ s, all_pushed s.1 ∧ bm_wf s.2 ∧ size s.2 = n ∧ ∀ v, 0 ≤ v < n → bm_get s.2 v = false)
    (Cfg (Table vt0 o, nf) (imap (λ t vs, each vs (pagerank_push_c fuel t)) parts)).
Proof using EE Hnd Hin.
  intros Hl Ho Hfuel Hw Hs Hb.
  assert (Ht : ((λ _, Ghost [] [] None) <$> parts) ≫= taken = []).
  { clear. induction parts; [done|]. by rewrite fmap_cons, bind_cons. }
  assert (Hg : ((λ _, Ghost [] [] None) <$> parts) ≫= gave = []).
  { clear. induction parts; [done|]. by rewrite fmap_cons, bind_cons. }
  apply (workers_end (with_frontier n racing) _ _ (Ghost [] [] None) finished_ghost).
  - split; [done|]. split; [done|]. cbn [fst snd]. split; cbn [cells failing]; rewrite ?Ht, ?Hg; try done.
    + apply Forall2_fmap, Forall_Forall2_diag, Forall_true. intros vs. apply prefix_nil.
    + apply Forall2_fmap, Forall_Forall2_diag, Forall_true. intros vs. apply prefix_nil.
    + intros w Hw0. by exists [].
    + by intros i g w c d b (vs & -> & _)%list_lookup_fmap_Some.
  - intros i vs Hvs. apply (safe_each _ i vs _ finished_ghost). intros pre v suf Hpre. by eapply push_safe.
  - intros [x f] (Hw' & Hs' & HJ). cbn [fst snd] in *.
    split; [by eapply racing_done|split; [done|split; [done|apply (ra_bits _ _ _ HJ)]]].
Qed.
End race.

(** ** The race of the loop over the vertices *)

(** What a worker knows: the vertices it has examined, and the one it has found
    active and not yet put into the next frontier. *)
Record map_ghost := MapGhost { examined : list Z; pending : option Z }.

Section map_race.
  Context (vt1 : list pagerank_delta_vertex) (parts : list (list Z)) (B : nat).
  Context (Hnd : NoDup (concat parts)).
  Context (Hin : ∀ v, v ∈ concat parts → 0 ≤ v < n).

Definition active_after (w : Z) : bool := (vertex_map (at_ vt1 w)).1.

Record mapping (x : table) (f : Z → bool) (ls : list map_ghost) : Prop := {
  ma_len : zlen (cells x) = n;
  ma_failing : (length (failing x) ≤ B)%nat;
  ma_examined : Forall2 (λ g vs, examined g `prefix_of` vs) ls parts;
  ma_at w : 0 ≤ w < n →
    at_ (cells x) w = if decide (w ∈ ls ≫= examined) then (vertex_map (at_ vt1 w)).2 else at_ vt1 w;
  ma_bits w : 0 ≤ w < n → f w = true → w ∈ ls ≫= examined ∧ active_after w = true;
  ma_active w : 0 ≤ w < n → w ∈ ls ≫= examined → active_after w = true →
    f w = true ∨ ∃ i g, ls !! i = Some g ∧ pending g = Some w;
  ma_pending i g w : ls !! i = Some g → pending g = Some w →
    0 ≤ w < n ∧ w ∈ ls ≫= examined ∧ active_after w = true;
}.

Lemma mapping_step x f ls i D v vs :
  mapping x f ls → ls !! i = Some (MapGhost D None) → parts !! i = Some vs →
  (D ++ [v]) `prefix_of` vs →
  0 ≤ v < n ∧ at_ (cells x) v = at_ vt1 v
  ∧ mapping (Table (<[Z.to_nat v := (vertex_map (at_ vt1 v)).2]> (cells x)) (failing x)) f
      (<[i:=MapGhost (D ++ [v]) (if active_after v then Some v else None)]> ls).
Proof using Hnd Hin.
  intros [Hl HB He Ha Hb Hac Hp] Hi Hvs Hpre.
  set (g' := MapGhost (D ++ [v]) (if active_after v then Some v else None)).
  assert (He' : Forall2 (λ g vs, examined g `prefix_of` vs) (<[i:=g']> ls) parts)
    by (by eapply Forall2_insert_l).
  pose proof (bind_insert examined ls i _ g' [v] Hi eq_refl) as Ea. cbn [app] in Ea.
  destruct (prefixes_perm _ _ _ He') as [rest Hrest]. rewrite Ea in Hrest.
  pose proof Hnd as Hnd'. rewrite Hrest in Hnd'. cbn [app] in Hnd'. apply NoDup_cons in Hnd' as [Hnv _].
  assert (Hv : 0 ≤ v < n) by (apply Hin; rewrite Hrest; set_solver).
  assert (Hnv' : v ∉ ls ≫= examined) by set_solver.
  split; [done|]. split; [by rewrite Ha, decide_False|].
  split; cbn [cells failing]; try done.
  - by rewrite zlen_insert.
  - intros w Hw. rewrite at_insert by lia. case_decide as E.
    + subst w. rewrite decide_True; [done|]. rewrite Ea. set_solver.
    + rewrite Ha by done. apply decide_ext. rewrite Ea, elem_of_cons. naive_solver.
  - intros w Hw Hfw. destruct (Hb w Hw Hfw). rewrite Ea. set_solver.
  - intros w Hw. rewrite Ea. intros [->|Hwe]%elem_of_cons Hact.
    + right. exists i, g'. split; [apply list_lookup_insert_eq; by eapply lookup_lt_Some|].
      unfold g'. cbn. by rewrite Hact.
    + destruct (Hac w Hw Hwe Hact) as [?|Hpe]; [by left|]. eapply pending_insert; [done|by left|done].
  - intros j h w [(<- & <- & _)|[_ Hj]]%list_lookup_insert_Some Hh.
    + unfold g' in Hh. cbn in Hh. destruct (active_after v) eqn:Eact; [|done]. simplify_eq.
      split; [done|]. split; [rewrite Ea; set_solver|done].
    + destruct (Hp j h w Hj Hh) as (? & ? & ?). split; [done|]. split; [rewrite Ea; set_solver|done].
Qed.

Lemma mapping_flag x f f' ls i D v :
  mapping x f ls → ls !! i = Some (MapGhost D (Some v)) →
  (∀ j, 0 ≤ j → f' j = bool_decide (j = v) || f j) →
  mapping x f' (<[i:=MapGhost D None]> ls).
Proof using Type.
  intros [Hl HB He Ha Hb Hac Hp] Hi Hf. destruct (Hp i _ v Hi eq_refl) as (Hv & Hve & Hva).
  pose proof (bind_insert_same examined ls i _ (MapGhost D None) Hi eq_refl) as Ee.
  split; rewrite ?Ee; try done.
  - by eapply prefixes_same.
  - intros w Hw. rewrite Hf by lia. intros [->%bool_decide_eq_true|Hfw]%orb_true_iff; [done|by apply Hb].
  - intros w Hw Hwe Hact. rewrite Hf by lia. destruct (Hac w Hw Hwe Hact) as [->|Hpe].
    + left. by rewrite orb_true_r.
    + eapply pending_insert; [done| |done]. destruct (decide (w = v)) as [->|]; [|left; cbn; congruence].
      right. left. by rewrite bool_decide_eq_true_2.
  - intros j h w [(<- & <- & _)|[_ Hj]]%list_lookup_insert_Some Hh; [done|by eapply Hp].
Qed.

Lemma mapping_ext x f f' ls :
  mapping x f ls → (∀ j, 0 ≤ j → f' j = f j) → mapping x f' ls.
Proof using Type.
  intros [Hl HB He Ha Hb Hac Hp] Hf. split; try done; intros w Hw; rewrite Hf by lia; auto.
Qed.

Lemma map_safe i vs pre v suf :
  parts !! i = Some vs → vs = pre ++ v :: suf →
  safe (with_frontier n mapping) i (MapGhost pre None) (pagerank_map_c i v)
    (λ g' _, g' = MapGhost (pre ++ [v]) None).
Proof using Hnd Hin.
  intros Hvs Hsplit. assert (Hp : (pre ++ [v]) `prefix_of` vs) by (exists suf; by rewrite <- app_assoc).
  unfold pagerank_map_c. apply safe_on_table. intros x f ls HJ Hi. pose proof (ma_len _ _ _ HJ) as Hl.
  destruct (mapping_step x f ls i pre v vs HJ Hi Hvs Hp) as (Hv & Hat & HJ').
  unfold apply_map. rewrite aget_at, bind_ok by lia. rewrite Hat. unfold active_after in HJ'.
  destruct (vertex_map (at_ vt1 v)) as [active u]. cbn [fst snd] in HJ'. rewrite aset_ok, bind_ok by lia.
  eexists _, _, _. split; [done|]. split; [exact HJ'|]. clear x f ls HJ Hi Hl Hat HJ'.
  destruct active; [|done]. apply safe_bind.
  eapply (safe_set_bit n mapping i _ (MapGhost (pre ++ [v]) None)); [done|..|by intros].
  - intros. by eapply mapping_ext.
  - intros. by eapply mapping_flag.
Qed.

Lemma maps_end o nf :
  zlen vt1 = n → (length o ≤ B)%nat → bm_wf nf → size nf = n →
  (∀ v, 0 ≤ v < n → bm_get nf v = false) → concat parts ≡ₚ rng 0 n →
  round_ends (λ s, zlen (cells s.1) = n ∧ (length (failing s.1) ≤ B)%nat ∧ bm_wf s.2 ∧ size s.2 = n
      ∧ ∀ w, 0 ≤ w < n → vertex_map (at_ vt1 w) = (bm_get s.2 w, at_ (cells s.1) w))
    (Cfg (Table vt1 o, nf) (imap (λ t vs, each vs (pagerank_map_c t)) parts)).
Proof using Hnd Hin.
  intros Hl Ho Hw Hs Hb Hcov.
  assert (He : ((λ _, MapGhost [] None) <$> parts) ≫= examined = []).
  { clear. induction parts; [done|]. by rewrite fmap_cons, bind_cons. }
  apply (workers_end (with_frontier n mapping) _ _ (MapGhost [] None) (λ vs, MapGhost vs None)).
  - split; [done|]. split; [done|]. cbn [fst snd]. split; cbn [cells failing]; rewrite ?He; try done.
    + apply Forall2_fmap_l, Forall_Forall2_diag, Forall_true. intros vs. apply prefix_nil.
    + intros w Hw0. by rewrite Hb.
    + intros w _ Hn. by apply not_elem_of_nil in Hn.
    + by intros i g w (vs & -> & _)%list_lookup_fmap_Some.
  - intros i vs Hvs. apply (safe_each _ i vs _ (λ pre, MapGhost pre None)).
    intros pre v suf Hpre. by eapply map_safe.
  - intros [x f] (Hw' & Hs' & HJ). set (ls' := _ <$> parts) in HJ.
    destruct HJ as [Jl JB Je Ja Jb Jac Jp]. cbn [fst snd] in *.
    assert (Hex : ls' ≫= examined = concat parts).
    { unfold ls'. clear. induction parts as [|vs ps IH]; [done|]. by rewrite fmap_cons, bind_cons, IH. }
    split; [done|]. split; [done|]. split; [done|]. split; [done|]. intros w Hw0.
    assert (Hwe : w ∈ ls' ≫= examined) by (rewrite Hex, Hcov; by apply elem_of_rng).
    rewrite Ja, decide_True by done. rewrite (surjective_pairing (vertex_map (at_ vt1 w))) at 1.
    f_equal. fold (active_after w). apply eq_true_iff_eq. split; [|by intros []%Jb].
    intros Hact. destruct (Jac w Hw0 Hwe Hact) as [?|(i & g & Hi & Hpe)]; [done|].
    by apply list_lookup_fmap_Some in Hi as (vs & -> & _).
Qed.
End map_race.

(** ** The kernel *)

(** Where the kernel is: at the test of its loop, or between the pushes and the loop
    over the vertices; with the spurious failures to come. *)
Inductive point :=
  | At_test (st : pr_state) (failures : list bool)
  | Between (st : pr_state) (x : table) (next : Bitmap).

Definition pagerank_stop (p : point) : bool :=
  match p with
  | At_test st _ => is_empty (frontier st) || negb (bool_decide (u32 (iter st + 1) < max_iterations))
  | Between _ _ _ => false
  end.

(** [parallel_for] over all vertices. *)
Definition mapping_tasks (ts : list (prog shared_state unit)) : Prop :=
  ∃ parts : list (list Z), concat parts ≡ₚ rng 0 n
    ∧ ts = imap (λ t vs, each vs (pagerank_map_c t)) parts.

Definition pagerank_tasks (fuel : nat) (p : point) : list (prog shared_state unit) → Prop :=
  match p with
  | At_test st _ => pushing (pagerank_push_c fuel) (frontier st)
  | Between _ _ _ => mapping_tasks
  end.

Definition pagerank_open (p : point) : shared_state :=
  match p with
  | At_test st failures => (Table (vtab st) failures, next_frontier st)
  | Between _ x next => (x, next)
  end.

Definition pagerank_close (p : point) (s : shared_state) : result point :=
  match p with
  | At_test st _ => Ok (Between st s.1 s.2)
  | Between st _ _ =>
      let it := u32 (iter st + 1) in
      cleared ← clear (2 * Z.to_nat it) (frontier st);
      Ok (At_test (PrState s.2 cleared (cells s.1) it (engine st)) (failing s.1))
  end.

Lemma plan_length vt vs : Z.of_nat (length (plan vt vs)) = zsum gdeg vs.
Proof.
  induction vs as [|v vs IH]; [done|]. unfold plan in *. rewrite bind_cons, length_app, length_fmap.
  rewrite zsum_cons. unfold g_deg at 1, zlen. lia.
Qed.

Section runs.
  Context (init : pr_state) (B fuel : nat).
  Context (Hfuel : (Z.to_nat (zsum gdeg (rng 0 n)) + B < fuel)%nat).

(** What holds there after the rounds so far; [m] counts the parallel loops left. *)
Definition point_inv (m : nat) (p : point) : Prop :=
  match p with
  | At_test st failures =>
      round_inv st ∧ (length failures ≤ B)%nat
      ∧ ∃ k, (k ≤ 4)%nat ∧ iter st = Z.of_nat k ∧ (m = 2 * (4 - k))%nat
          ∧ rounds_of async_round k (vtab init) (bm_get (frontier init)) (vtab st) (bm_get (frontier st))
  | Between st x next =>
      round_inv st ∧ (bm_wf next ∧ size next = n ∧ ∀ v, 0 ≤ v < n → bm_get next v = false)
      ∧ (∃ parts, covers (bm_get (frontier st)) gdeg (rng 0 n) (concat parts)
           ∧ all_pushed (vtab st) parts B x)
      ∧ ∃ k, (k < 4)%nat ∧ iter st = Z.of_nat k ∧ (m = 2 * (4 - k) - 1)%nat
          ∧ rounds_of async_round k (vtab init) (bm_get (frontier init)) (vtab st) (bm_get (frontier st))
  end.

(** The engine can be called there. *)
Definition callable (p : point) : Prop :=
  match p with At_test st _ => full_frontier (frontier st) | Between _ _ _ => True end.

Lemma pr_point_callable m p : point_inv m p → callable p.
Proof using Type. destruct p; [|done]. intros [Hri _]. apply Hri. Qed.

Lemma pr_tasks_exist p : ∃ ts, pagerank_tasks fuel p ts.
Proof using Type.
  destruct p; [apply pushing_exists|]. eexists; exists [rng 0 n]. split; [|done].
  cbn. by rewrite app_nil_r.
Qed.

Lemma pushes_run m st failures ts :
  point_inv m (At_test st failures) → pagerank_stop (At_test st failures) = false →
  pagerank_tasks fuel (At_test st failures) ts →
  round_ends (λ s, ∃ m' p', pagerank_close (At_test st failures) s = Ok p' ∧ point_inv m' p' ∧ (m' < m)%nat)
    (Cfg (pagerank_open (At_test st failures)) ts).
Proof using EE Hfuel.
  intros (Hri & Ho & k & Hk & Hit & -> & Hrs) Hstop (parts & Hcov & ->).
  pose proof Hri as [Hl [Hfw Hfs] (Hnw & Hns & Hnb) Heng].
  pose proof Hcov as (Hnd & Hin & _).
  assert (Hin' : ∀ v, v ∈ concat parts → 0 ≤ v < n) by (intros v Hv; by apply elem_of_rng, Hin).
  apply orb_false_iff in Hstop as [He Hstop]. apply negb_false_iff, bool_decide_eq_true in Hstop.
  rewrite Hit, u32_id' in Hstop by lia. unfold max_iterations in Hstop.
  eapply round_ends_mono; [|eapply (pushes_end (vtab st) parts B Hnd Hin'); try done].
  - intros s (Hp & Hw & Hs & Hb). exists (2 * (4 - k) - 1)%nat, (Between st s.1 s.2).
    split; [done|]. split; [|lia]. split; [done|]. split; [done|]. split; [by exists parts|].
    exists k. split; [lia|done].
  - assert (Ht : Z.of_nat (total (vtab st) parts) ≤ zsum gdeg (rng 0 n)); [|lia].
    unfold total. rewrite plan_length, (zsum_sublist gdeg _ (rng 0 n)); [|done|apply NoDup_rng|].
    + apply zsum_le. intros v _. case_decide; [done|]. apply zlen_nonneg.
    + intros v Hv. by apply elem_of_rng, Hin'.
Qed.

Lemma maps_run m st x next ts :
  point_inv m (Between st x next) → pagerank_tasks fuel (Between st x next) ts →
  round_ends (λ s, ∃ m' p', pagerank_close (Between st x next) s = Ok p' ∧ point_inv m' p' ∧ (m' < m)%nat)
    (Cfg (pagerank_open (Between st x next)) ts).
Proof using EE Hfuel.
  intros (Hri & (Hnw & Hns & Hnb) & (pp & Hcov & Hp) & k & Hk & Hit & -> & Hrs) (parts & Hperm & ->).
  pose proof Hri as [Hl [Hfw Hfs] _ Heng]. destruct x as [vt1 o].
  destruct Hp as [Hl1 Ho Hat]. cbn [cells failing] in *.
  assert (Hnd : NoDup (concat parts)) by (rewrite Hperm; apply NoDup_rng).
  assert (Hin : ∀ v, v ∈ concat parts → 0 ≤ v < n) by (intros v; rewrite Hperm; by rewrite elem_of_rng).
  eapply round_ends_mono; [|by apply (maps_end vt1 parts B Hnd Hin)].
  intros s (Hl2 & Ho2 & Hw2 & Hs2 & Hmap). cbn [pagerank_close]. rewrite Hit, u32_id' by lia.
  destruct (clear_spec (2 * Z.to_nat (Z.of_nat k + 1)) (frontier st)) as (cl & Ec & Hcw & Hcs & Hcb); [apply Hfw|].
  rewrite Ec, bind_ok.
  exists (2 * (4 - S k))%nat, (At_test (PrState s.2 cl (cells s.1) (Z.of_nat k + 1) (engine st)) (failing s.1)).
  split; [done|]. split; [|lia]. split; [|split; [done|]].
  - split; cbn [vtab frontier next_frontier engine]; [done|done| |done].
    split; [done|]. split; [lia|]. intros v Hv. apply Hcb. lia.
  - exists (S k). split; [lia|]. split; [cbn; lia|]. split; [done|]. cbn [vtab frontier].
    econstructor; [done|]. exists (concat pp). split; [done|]. split; [done|]. intros w Hw.
    destruct (Hat w Hw) as (rs & Hrs' & Hw1). exists rs. split; [done|].
    unfold applied. by rewrite <- Hmap, Hw1.
Qed.
End runs.

(** All runs end, and the engine is always called on a proper frontier. *)
Lemma pagerank_runs fuel failures frontierA frontierB vt0 eng :
  pagerank_ready frontierA frontierB vt0 eng →
  (Z.to_nat (zsum gdeg (rng 0 n)) + length failures < fuel)%nat →
  ∃ st, pagerank_enter frontierA frontierB vt0 eng = Ok st ∧ initial st
    ∧ ends_in pagerank_stop (pagerank_tasks fuel) pagerank_open pagerank_close callable
        (λ p, ∃ st' o k, p = At_test st' o ∧ (k ≤ 4)%nat
           ∧ rounds_of async_round k (vtab st) (bm_get (frontier st)) (vtab st') (bm_get (frontier st'))
           ∧ (k = 4%nat ∨ ∀ v, 0 ≤ v < n → bm_get (frontier st') v = false))
        (Head (At_test st failures)).
Proof.
  intros Hready Hfuel. destruct (pagerank_enter_ok _ _ _ _ Hready) as (st & E & Hri & Hit & Hinit).
  exists st. split; [done|]. split; [done|].
  apply (ends_in_mono _ _ _ _ (λ p, ∃ m, point_inv st (length failures) m p)); [intros p (m & Hp); by eapply pr_point_callable|].
  apply (machine_ends _ _ _ _ (point_inv st (length failures)) _ 8).
  - intros m [st1 o|] Hp Hstop; [|done]. destruct Hp as (Hri1 & Ho & k & Hk & Hit1 & -> & Hrs).
    exists st1, o, k. split; [done|]. split; [done|]. split; [done|].
    apply orb_true_iff in Hstop as [He|Hstop].
    + right. destruct (ri_front _ Hri1) as [Hfw Hfs]. rewrite is_empty_spec, Hfs in He by done. done.
    + left. apply negb_true_iff, bool_decide_eq_false in Hstop.
      rewrite Hit1, u32_id' in Hstop by lia. unfold max_iterations in Hstop. lia.
  - intros m [st1 o|st1 x nx] Hp Hstop; (split; [apply pr_tasks_exist|]); intros ts Hts.
    + by apply (pushes_run st (length failures) fuel Hfuel).
    + by eapply maps_run.
  - split; [done|]. split; [done|]. exists 0%nat. split; [lia|]. split; [done|]. split; [done|]. constructor.
Qed.

(** PageRank is correct under every interleaving.  The workers of the push phase take
    the delta of a vertex and add shares to residuals by a compare-and-swap loop, and
    those of the map phase apply the residuals, one operation at a time, in any order,
    while a finite number of exchanges fails spuriously.  No run faults or goes on for
    ever, no share is lost or added twice (binary32 addition is not associative, so the
    sum of a vertex is that of its shares in some order), and the kernel ends after four
    rounds or with an empty frontier. *)
Theorem pagerank_concurrent fuel failures frontierA frontierB vt0 eng :
  pagerank_ready frontierA frontierB vt0 eng →
  (Z.to_nat (zsum gdeg (rng 0 n)) + length failures < fuel)%nat →
  ∃ st, pagerank_enter frontierA frontierB vt0 eng = Ok st ∧ initial st
    ∧ ends pagerank_stop (pagerank_tasks fuel) pagerank_open pagerank_close
        (λ p, ∃ st' o k, p = At_test st' o ∧ (k ≤ 4)%nat
           ∧ rounds_of async_round k (vtab st) (bm_get (frontier st)) (vtab st') (bm_get (frontier st'))
           ∧ (k = 4%nat ∨ ∀ v, 0 ≤ v < n → bm_get (frontier st') v = false))
        (Head (At_test st failures)).
Proof.
  intros Hready Hfuel. destruct (pagerank_runs fuel failures _ _ _ _ Hready Hfuel) as (st & E & Hinit & Hends).
  exists st. split; [done|]. split; [done|]. by eapply ends_in_mono, Hends.
Qed.
End pagerank.
