(* ===== verification/EngineKernels.v ===== *)
(** * EngineKernels: the kernels on the engine's racing workers

    The push functions of the kernels as the engine calls them: every edge is read
    from the edge buffer (or from a cached list) before it is followed.  A round is a
    call of the engine with these functions, next to a card that delivers words at any
    time; the theorems say that the kernels compute what they should in all executions
    of workers and card. *)

From S2P Require Import Prelude Platform VertexTable Bitmap Stats PackWindow Engine EdgeEngine.
From S2P Require Import Interleaving Hiding Workers EngineConcurrent.
From S2P Require Bfs BfsConcurrent Kcore KcoreConcurrent ConnectedComponents CcConcurrent.
From S2P Require Mis MisConcurrent StdLib PagerankDelta PagerankConcurrent.

#[local] Existing Instances Mis.MatchFlag_eq_dec.

Section functions.
  Context {BU : BuildOptions} {BO : Boost} {OS : Os} {CB : Combinable}.
  Context {ETS : EnumerableThreadSpecific}.

(** [for (i = 0; i < n; ++i) { w = edges[i]; ... }] *)
Definition edges_c {U} (n : Z) (edge : Z → prog (nic_state * U) Z) (f : Z → prog U unit)
    : prog (nic_state * U) unit :=
  each (rng 0 n) (λ k, w ← edge k; lift (f w)).

Definition bfs_function (round : Z) : edge_function (list Bfs.bfs_vertex * Bitmap) :=
  λ t v n edge, edges_c n edge (BfsConcurrent.push_edge round t).

Definition kcore_function (k : Z) : edge_function (list Z * Bitmap) :=
  λ t v n edge, edges_c n edge (KcoreConcurrent.push_edge k t).

Definition cc_function (fuel : nat) : edge_function (CcConcurrent.table * Bitmap) :=
  λ t v n edge,
    my_id ← lift (on_table (CcConcurrent.load v));
    edges_c n edge (CcConcurrent.push_edge fuel my_id t).

(** The loop of [pull] over the edges, with its [break]. *)
Fixpoint scan_c (edge : Z → prog (nic_state * (MisConcurrent.table * Bitmap)) Z) (v : Z)
    (ks : list Z) (v_flag : Mis.MatchFlag) : prog (nic_state * (MisConcurrent.table * Bitmap)) Mis.MatchFlag :=
  match ks with
  | [] => mret v_flag
  | k :: ks =>
      w ← edge k;
      if bool_decide (w < v) then
        fw ← lift (on_table (MisConcurrent.load_flag w));
        let v_flag := match fw with Mis.UNDECIDED => Mis.UNDECIDED | Mis.IN => Mis.OUT | Mis.OUT => v_flag end in
        if bool_decide (v_flag = Mis.OUT) then mret v_flag else scan_c edge v ks v_flag
      else scan_c edge v ks v_flag
  end.

Definition mis_function : edge_function (MisConcurrent.table * Bitmap) :=
  λ t v n edge,
    f ← lift (on_table (MisConcurrent.load_flag v));
    if bool_decide (f = Mis.OUT) then lift (on_table MisConcurrent.unreachable)
    else
      v_flag ← scan_c edge v (rng 0 n) Mis.IN;
      if bool_decide (v_flag = Mis.UNDECIDED) then
        _ ← lift (set_bit_c t v);
        lift (on_table (MisConcurrent.store_flag t v v_flag))
      else lift (on_table (MisConcurrent.store_flag t v v_flag)).

Definition pagerank_function (fuel : nat) : edge_function (PagerankConcurrent.table * Bitmap) :=
  λ t v n edge,
    if bool_decide (0 < n) then
      my_delta ← lift (on_table (PagerankConcurrent.load_delta v));
      _ ← lift (on_table (PagerankConcurrent.clear_delta v));
      let my_val := StdLib.f32_div (StdLib.f32_mul my_delta PagerankDelta.alpha) (StdLib.f32_of_u32 n) in
      edges_c n edge (PagerankConcurrent.update_add_atomic_c fuel my_val)
    else mret ().

(** ** They do what the push functions of the kernels do *)
Section reads.
Context {L U : Type} (Inv : nic_state → list L → Prop) (i : nat) (g : L).
Context (l : list Z) (edge : Z → prog (nic_state * U) Z).
Context (Hedge : ∀ k, 0 ≤ k < zlen l → performs (U := U) Inv i g (edge k) (Ret (at_ l k)) g).

(** Reading an edge, then what follows. *)
Lemma performs_edge {A} k (f : Z → prog (nic_state * U) A) (r : prog U A) :
  0 ≤ k < zlen l → performs Inv i g (f (at_ l k)) r g → performs Inv i g (edge k ≫= f) r g.
Proof using Hedge.
  intros Hk Hf. change r with ((Ret (at_ l k) : prog U Z) ≫= λ _, r).
  eapply performs_bind; [by apply Hedge|]. by intros w [= <-].
Qed.

(** A loop over the positions is a loop over the edges. *)
Lemma loop_positions (P : list Z → list Z → Prop) :
  P [] [] → (∀ k ks ws, 0 ≤ k < zlen l → P ks ws → P (k :: ks) (at_ l k :: ws)) → P (rng 0 (zlen l)) l.
Proof using Type.
  intros H0 HS.
  cut (∀ suf pre, l = pre ++ suf → P (rng (zlen pre) (zlen l)) suf); [intros H; by apply (H l [])|].
  induction suf as [|w suf IH]; intros pre Hl.
  - rewrite app_nil_r in Hl. by rewrite <- Hl, rng_nil by lia.
  - pose proof (zlen_nonneg pre). pose proof (zlen_nonneg suf).
    assert (Hz : zlen l = zlen pre + (1 + zlen suf)) by (rewrite Hl, zlen_app; unfold zlen; cbn; lia).
    rewrite rng_cons by lia. assert (w = at_ l (zlen pre)) as Hw.
    { unfold at_, zlen. rewrite Nat2Z.id, Hl. by rewrite list_lookup_total_middle. }
    rewrite Hw. apply HS; [lia|]. specialize (IH (pre ++ [w])). rewrite zlen_app in IH.
    apply IH. by rewrite Hl, <- app_assoc.
Qed.

Lemma edges_performs f : performs Inv i g (edges_c (zlen l) edge f) (each l f) g.
Proof using Hedge.
  unfold edges_c.
  apply (loop_positions (λ ks ws, performs Inv i g (each ks (λ k, w ← edge k; lift (f w))) (each ws f) g));
    [done|]. intros k ks ws Hk IH. cbn [each].
  eapply performs_bind; [by apply performs_edge, performs_lift|]. by intros [] _.
Qed.
End reads.

Section follow.
  Context (remote : remote_region) (ctx : client_context) (idx : list vertex).
  Abbreviation n := (num_vertices (app ctx)).
  Abbreviation adj := (adj_of idx (num_edges (app ctx)) (rr_words remote)).

Lemma bfs_follows round :
  follows remote ctx idx (λ t v, each (adj v) (BfsConcurrent.push_edge round t)) (bfs_function round).
Proof. intros L Inv i g v edge _ He. by apply edges_performs. Qed.

Lemma kcore_follows k :
  follows remote ctx idx (λ t v, each (adj v) (KcoreConcurrent.push_edge k t)) (kcore_function k).
Proof. intros L Inv i g v edge _ He. by apply edges_performs. Qed.

Lemma cc_follows fuel :
  follows remote ctx idx (λ t v, my_id ← on_table (CcConcurrent.load v);
      each (adj v) (CcConcurrent.push_edge fuel my_id t)) (cc_function fuel).
Proof.
  intros L Inv i g v edge _ He. eapply performs_bind; [apply performs_lift|].
  intros my_id _. by apply edges_performs.
Qed.

Lemma scan_performs {L} Inv (i : nat) (g : L) v l edge a :
  (∀ k, 0 ≤ k < zlen l → performs Inv i g (edge k) (Ret (at_ l k)) g) →
  performs Inv i g (scan_c edge v (rng 0 (zlen l)) a) (MisConcurrent.scan v l a) g.
Proof.
  intros He. revert a.
  apply (loop_positions l (λ ks ws, ∀ a, performs Inv i g (scan_c edge v ks a) (MisConcurrent.scan v ws a) g));
    [done|]. intros k ks ws Hk IH a. cbn [scan_c MisConcurrent.scan].
  eapply performs_edge; [exact He|done|]. case_bool_decide; [|apply IH].
  eapply performs_bind; [apply performs_lift|]. intros fw _. cbv zeta.
  case_bool_decide; [done|apply IH].
Qed.

Lemma pagerank_follows fuel :
  follows remote ctx idx (λ t v, if bool_decide (0 < zlen (adj v)) then
      my_delta ← on_table (PagerankConcurrent.load_delta v);
      _ ← on_table (PagerankConcurrent.clear_delta v);
      let my_val := StdLib.f32_div (StdLib.f32_mul my_delta PagerankDelta.alpha)
                      (StdLib.f32_of_u32 (zlen (adj v))) in
      each (adj v) (PagerankConcurrent.update_add_atomic_c fuel my_val)
    else mret ()) (pagerank_function fuel).
Proof.
  intros L Inv i g v edge _ He. unfold pagerank_function. case_bool_decide; [|done].
  eapply performs_bind; [apply performs_lift|]. intros my_delta _.
  eapply performs_bind; [apply performs_lift|]. intros [] _. by apply edges_performs.
Qed.
End follow.
End functions.

(** ** The kernels on the server's graph *)
Section kernels.
  Context {BU : BuildOptions} {BO : Boost} {OS : Os} {CB : Combinable} {ETS : EnumerableThreadSpecific}.
  Context {CK : Clock} {SC : Scheduler} {NI : Nic}.
  Context (remote : remote_region) (ctx : client_context) (idx : list vertex).
  Context (edge_buf_size : Z) (garbage : window) (mem_words : Z) (post_fuel : nat).
  Context (Hro : run_ok remote ctx idx edge_buf_size garbage mem_words post_fuel).
  Context (qp_ret : nat → nat → Z).
  Abbreviation n := (num_vertices (app ctx)).
  Abbreviation ready := (nic_ready mem_words).

#[local] Instance server_ops : EngineOps := rdma_ops remote ctx idx edge_buf_size garbage post_fuel.
#[local] Instance server_engine : EdgeEngine := rdma_engine remote ctx idx edge_buf_size garbage mem_words post_fuel Hro.

(** A call of [ccy_for_each_active_batch]. *)
Definition ccy_call {U} (function : edge_function U) (frontier : Bitmap) (hi : Z)
    : list (prog (nic_state * U) unit) → Prop :=
  engine_round (ccy_worker_c remote ctx idx edge_buf_size garbage qp_ret function post_fuel frontier) 0 hi.

(** A call of [for_each_range]. *)
Definition range_call {U} (function : edge_function U) (lo hi : Z)
    : list (prog (nic_state * U) unit) → Prop :=
  engine_round (range_worker_c remote ctx idx edge_buf_size garbage qp_ret function) lo hi.

Context (Hqp : ∀ t, (t < n_workers)%nat → qp_drains qp_ret t post_fuel).
Abbreviation hides_round := (hidden (nic_inv edge_buf_size mem_words) (worker_rests edge_buf_size mem_words)).

Lemma ccy_call_hidden {U} (push : nat → Z → prog U unit) function frontier hi e ps :
  follows remote ctx idx push function → full_frontier frontier → 0 ≤ hi ≤ n → ready e →
  ccy_call function frontier hi ps → ∃ qs, split (bm_get frontier) 0 hi push qs ∧ hides_round e ps qs.
Proof using Hro Hqp.
  intros Hfol [[Hbm _] Hsz] Hhi He Hps. pose proof (ro_served _ _ _ _ _ _ _ Hro) as Hsv.
  pose proof (ro_engine _ _ _ _ _ _ _ Hro) as Heo.
  destruct (round_hidden ctx idx edge_buf_size garbage mem_words Heo push (bm_get frontier) _ 0 hi e ps
    (λ t Ht, ccy_worker_visits remote ctx idx edge_buf_size garbage qp_ret Hsv mem_words Heo push function Hfol
      t Ht post_fuel frontier 0 hi (Hqp t Ht) Hbm Hsz (ro_cache _ _ _ _ _ _ _ Hro) ltac:(lia) ltac:(lia)) Hps He)
    as (parts & Hcov & Hh).
  eexists; split; [|exact Hh]. exists parts. split; [|done].
  by apply (rdma_covers _ _ _ _ _ _ _ Hro _ (bm_get frontier)); [lia|lia|..].
Qed.

(** The statistics between the rounds of a kernel. *)
Context (between : timing → timing).
Definition nic_after (e : nic_state) : nic_state :=
  set_timings (between (map_stats clear_stats_round (timings e))) e.

Lemma nic_after_ready e : settled (nic_inv edge_buf_size mem_words) (worker_rests edge_buf_size mem_words) e → ready (nic_after e).
Proof using Type. intros [Hm Hq Hp]%rests_ready. by split. Qed.

Abbreviation runs stop tasks open close :=
  (ends (stop_e stop) (round_e tasks) (open_e open) (close_e close nic_after)).

Lemma kernel_on_engine {K U} stop tasks open close (tasks_e : K → list (prog (nic_state * U) unit) → Prop)
    V (Q : K → Prop) k e :
  ends_in stop tasks open close V Q (Head k) → ready e →
  (∀ k, V k → stop k = false → ∃ ps, tasks_e k ps) →
  (∀ e k ps, ready e → V k → stop k = false → tasks_e k ps → ∃ qs, tasks k qs ∧ hides_round e ps qs) →
  runs stop tasks_e open close (λ s, ready s.1 ∧ Q s.2) (Head (e, k)).
Proof using Type.
  intros Hk He Hsome Htasks. by eapply (hidden_ends _ stop tasks open close _ _ _ _ nic_after_ready V).
Qed.

Definition bfs_round (st : Bfs.bfs_state) :=
  ccy_call (bfs_function (u32 (Bfs.round st + 1))) (Bfs.frontier st) n.

(** Breadth-first search is correct on the racing engine.  The workers of
    [ccy_for_each_active_batch] pack requests, post them (a post may find its queue
    full), look at the edge buffers, read edges from them and do the kernel's
    operations on [visited], [parent] and the next frontier one at a time in any order,
    each on subranges chosen by the scheduler, while the card delivers words of any
    worker's requests at any moment.  No run faults or goes on for ever, and when
    the kernel ends, nothing is in flight and [parent] holds the distance of every
    vertex from the start. *)
Theorem bfs_on_engine start_v frontierA frontierB vt0 eng e :
  Bfs.bfs_ready start_v frontierA frontierB vt0 eng → ready e →
  ∃ st, Bfs.bfs_enter start_v frontierA frontierB vt0 eng = Ok st
    ∧ runs BfsConcurrent.bfs_stop bfs_round BfsConcurrent.bfs_open BfsConcurrent.bfs_close
        (λ s, ready s.1 ∧ Bfs.distances start_v (Bfs.vtable s.2)) (Head (e, st)).
Proof using Hqp.
  intros Hready He. destruct (BfsConcurrent.bfs_runs _ _ _ _ _ Hready) as (st & E & Hends).
  exists st. split; [done|]. apply (kernel_on_engine _ _ _ _ _ _ _ _ _ Hends He).
  - intros st1 _ _. apply engine_round_exists.
  - intros e1 st1 ps He1 Hfr _ Hps. pose proof (ro_n _ _ _ _ _ _ _ Hro).
    eapply ccy_call_hidden; [apply bfs_follows|exact Hfr| |exact He1|exact Hps]. cbn. lia.
Qed.

Definition kcore_round (k : Z) (st : Kcore.kcore_state) :=
  ccy_call (kcore_function k) (Kcore.frontier st) n.

(** k-core decomposition is correct on the racing engine.  The workers read edges from
    their edge buffers, subtract from the counters of neighbours and set bits of the
    next frontier one operation at a time, interleaved with each other, with the posts
    and looks of the engine and with the deliveries of the card in any order.  On a
    symmetric graph no run faults or goes on for ever, exactly one worker sees a counter
    cross the threshold, and when the kernel ends, nothing is in flight and the
    vertices whose counter is at least [k] are the k-core. *)
Theorem kcore_on_engine k num_edges frontierA frontierB vt0 eng e :
  Kcore.symmetric → Kcore.kcore_ready idx num_edges frontierA frontierB vt0 eng → ready e →
  ∃ st, Kcore.kcore_enter k idx num_edges frontierA frontierB vt0 eng = Ok st
    ∧ runs KcoreConcurrent.kcore_stop (kcore_round k) KcoreConcurrent.kcore_open KcoreConcurrent.kcore_close
        (λ s, ready s.1 ∧ Kcore.is_core k (Kcore.degree s.2)) (Head (e, st)).
Proof using Hqp.
  intros Hsym Hready He.
  destruct (KcoreConcurrent.kcore_runs k _ _ _ _ _ _ Hsym Hready) as (st & E & Hends).
  exists st. split; [done|]. apply (kernel_on_engine _ _ _ _ _ _ _ _ _ Hends He).
  - intros st1 _ _. apply engine_round_exists.
  - intros e1 st1 ps He1 Hfr _ Hps. pose proof (ro_n _ _ _ _ _ _ _ Hro).
    eapply ccy_call_hidden; [apply kcore_follows|exact Hfr| |exact He1|exact Hps]. cbn. lia.
Qed.

Definition cc_round (fuel : nat) (m : ConnectedComponents.cc_state * list bool) :=
  ccy_call (cc_function fuel) (ConnectedComponents.frontier m.1) n.

(** Connected components end, and are correct, on the racing engine.  The workers read
    edges from their edge buffers, load labels, exchange them and set bits of the next
    frontier one operation at a time, interleaved with each other, with the engine's
    posts and looks and with the card in any order, and a finite number of exchanges
    fails spuriously.  Every compare-and-swap loop and every busy-wait ends, no run
    faults or goes on for ever, and when the kernel ends, nothing is in flight and every
    label is the least vertex that reaches it. *)
Theorem cc_on_engine fuel failures frontierA frontierB vt0 eng e :
  ConnectedComponents.cc_ready frontierA frontierB vt0 eng → (Z.to_nat n + length failures ≤ fuel)%nat →
  ready e →
  ∃ st, ConnectedComponents.cc_enter frontierA frontierB vt0 eng = Ok st
    ∧ runs CcConcurrent.cc_stop (cc_round fuel) CcConcurrent.cc_open CcConcurrent.cc_close
        (λ s, ready s.1 ∧ ConnectedComponents.components (ConnectedComponents.labels s.2.1))
        (Head (e, (st, failures))).
Proof using Hqp.
  intros Hready Hfuel He.
  destruct (CcConcurrent.cc_runs fuel failures _ _ _ _ Hready Hfuel) as (st & E & Hends).
  exists st. split; [done|]. apply (kernel_on_engine _ _ _ _ _ _ (λ m, _ (_ m.1)) _ _ Hends He).
  - intros st1 _ _. apply engine_round_exists.
  - intros e1 st1 ps He1 Hfr _ Hps. pose proof (ro_n _ _ _ _ _ _ _ Hro).
    eapply ccy_call_hidden; [apply cc_follows|exact Hfr| |exact He1|exact Hps]. cbn. lia.
Qed.

(** A call with nothing in its range. *)
Lemma empty_call_hidden {U} (push : nat → Z → prog U unit) worker lo hi e ps :
  hi ≤ lo → ready e → engine_round (U := U) worker lo hi ps → ∃ qs, idle push qs ∧ hides_round e ps qs.
Proof using Hro.
  intros Hlo He Hps.
  destruct (round_hidden ctx idx edge_buf_size garbage mem_words (ro_engine _ _ _ _ _ _ _ Hro) push
    (λ _, false) worker lo hi e ps) as (parts & (_ & Hin & _) & Hh); [|done|done|].
  { intros t Ht a b g view Ha Hb. lia. }
  eexists; split; [|exact Hh]. exists parts. split; [|done].
  destruct (concat parts) as [|x l]; [done|]. destruct (Hin x) as [_ ?]; [by left|done].
Qed.

Lemma range_call_hidden {U} (push : nat → Z → prog U unit) function lo hi e ps :
  follows remote ctx idx push function → (∀ t k, (t < n_workers)%nat → qp_ret t k = 0) →
  0 ≤ lo → hi ≤ n → ready e → range_call function lo hi ps →
  ∃ qs, split (has_edges eng_graph) lo hi push qs ∧ hides_round e ps qs.
Proof using Hro.
  intros Hfol Hq Hlo Hhi He Hps. pose proof (ro_engine _ _ _ _ _ _ _ Hro) as Heo.
  destruct (round_hidden ctx idx edge_buf_size garbage mem_words Heo push _ _ lo hi e ps
    (λ t Ht, range_worker_visits remote ctx idx edge_buf_size garbage qp_ret (ro_served _ _ _ _ _ _ _ Hro)
      mem_words Heo push function Hfol t Ht lo hi (λ k, Hq t k Ht) Hlo Hhi) Hps He) as (parts & Hcov & Hh).
  eexists; split; [|exact Hh]. exists parts. split; [|done].
  eapply (rdma_covers _ _ _ _ _ _ _ Hro); [done|done| |exact Hcov].
  intros v Hv. cbn. unfold has_edges. by rewrite <- (rdma_deg _ _ _ _ _ _ _ Hro) by lia.
Qed.

Lemma mis_follows : follows remote ctx idx MisConcurrent.pull_c mis_function.
Proof using Type.
  intros L Inv i g v edge _ He. unfold mis_function, MisConcurrent.pull_c.
  eapply performs_bind; [apply performs_lift|]. intros f _. case_bool_decide; [apply performs_lift|].
  eapply performs_bind; [by apply scan_performs|]. intros v_flag _. case_bool_decide; [|apply performs_lift].
  eapply performs_bind; [apply performs_lift|]. intros ? _. apply performs_lift.
Qed.

(** The two calls of a round of MIS; a call that the code skips is one on an empty range. *)
Definition mis_round (p : MisConcurrent.point) : list (prog (nic_state * (MisConcurrent.table * Bitmap)) unit) → Prop :=
  match p with
  | MisConcurrent.At_test st =>
      ccy_call mis_function (Mis.frontier st) (if bool_decide (0 < Mis.front_size st) then Mis.end_ st else 0)
  | MisConcurrent.Between st _ end' =>
      range_call mis_function (Mis.start st) end'
  end.

(** The maximal independent set is correct on the racing engine.  In both calls of
    an iteration, [ccy_for_each_active_batch] and [for_each_range], a worker reads
    neighbours from its edge buffer and their flags while other workers write theirs,
    sets bits of the next frontier and writes its own flag, one operation at a time,
    interleaved with the engine's operations and the card in any order.  When the card
    accepts every request ([for_each_range] does not post again), no run faults or goes
    on for ever, and when the kernel ends, nothing is in flight and the vertices that
    are [IN] are the greedy set, which is independent and maximal and does not depend
    on the schedule. *)
Theorem mis_on_engine divisor num_edges frontierA frontierB vt0 eng e :
  (∀ t k, (t < n_workers)%nat → qp_ret t k = 0) →
  Mis.mis_ready divisor idx num_edges frontierA frontierB vt0 eng → ready e →
  ∃ delta st, Mis.mis_enter divisor idx num_edges frontierA frontierB vt0 eng = Ok (delta, st)
    ∧ runs MisConcurrent.mis_stop mis_round MisConcurrent.mis_open (MisConcurrent.mis_close delta)
        (λ s, ready s.1 ∧ ∃ st', s.2 = MisConcurrent.At_test st' ∧ Mis.maximal_independent (Mis.ms_flags st'))
        (Head (e, MisConcurrent.At_test st)).
Proof using Hqp.
  intros Hq Hready He.
  destruct (MisConcurrent.mis_runs _ _ _ _ _ _ _ Hready) as (delta & st & E & Hends).
  exists delta, st. split; [done|].
  apply (kernel_on_engine _ _ _ _ _ _ (λ p, ∃ st', p = _ st' ∧ _) _ _ Hends He).
  - intros [st1|st1 u e'] _ _; apply engine_round_exists.
  - intros e1 [st1|st1 u e'] ps He1 Hv _ Hps; cbn [mis_round MisConcurrent.mis_tasks MisConcurrent.callable] in *.
    + destruct Hv as [Hfr Hend]. case_bool_decide.
      * eapply ccy_call_hidden; [apply mis_follows|exact Hfr|exact Hend|exact He1|exact Hps].
      * eapply empty_call_hidden; [|exact He1|exact Hps]. lia.
    + destruct Hv as [Hs He']. case_bool_decide.
      * eapply range_call_hidden; [apply mis_follows|exact Hq|exact Hs|exact He'|exact He1|exact Hps].
      * eapply empty_call_hidden; [|exact He1|exact Hps]. cbn. lia.
Qed.

(** Work without the engine: the threads run a [parallel_for] of their own. *)
Definition plain_call {U} (qs : list (prog U unit)) (ps : list (prog (nic_state * U) unit)) : Prop :=
  ∃ deliveries, length qs = n_workers ∧ ps = (lift <$> qs) ++ [card_c deliveries].

Lemma plain_call_hidden {U} (qs : list (prog U unit)) e ps :
  plain_call qs ps → ready e → hides_round e ps (qs ++ [Ret ()]).
Proof using Hro.
  intros (ds & Hlen & ->) He. pose proof (ro_engine _ _ _ _ _ _ _ Hro) as Heo.
  pose proof (ready_inv ctx idx edge_buf_size garbage mem_words Heo e He) as HI.
  exists (rest_ghosts e). pose proof (nr_posts _ _ He) as Hp.
  assert (Hgl : length (rest_ghosts e) = S n_workers).
  { unfold rest_ghosts. rewrite length_app, length_fmap, Hp. cbn. lia. }
  split; [done|]. rewrite !length_app, length_fmap, Hlen. split; [cbn; lia|]. split; [done|].
  intros t p [Ht|[Hge Ht]]%lookup_app_Some.
  - rewrite list_lookup_fmap in Ht. apply fmap_Some in Ht as (q & Hq & ->).
    assert (Htn : (t < n_workers)%nat) by (rewrite <- Hlen; by eapply lookup_lt_Some).
    destruct (rest_ghosts_lookup mem_words e t He Htn) as (k & _ & Hg).
    exists (Some (quiet (window_mem e) k)), q. split; [done|]. split; [by apply lookup_app_l_Some|].
    eapply hides_mono; [|apply performs_lift]. intros g [] q' [-> ->]. split; [done|]. intros _.
    eexists _, (window_mem e). split; [done|]. apply quiet_resting, (nr_mem _ _ He).
  - rewrite length_fmap in Hge, Ht. apply list_lookup_singleton_Some in Ht as [Hi <-].
    assert (t = n_workers) as -> by lia. exists None, (Ret ()). split; [|split].
    + unfold rest_ghosts. apply lookup_app_Some. right. by rewrite length_fmap, Hp, Nat.sub_diag.
    + by rewrite lookup_app_r, Hlen, Nat.sub_diag by lia.
    + apply (card_calls ctx idx edge_buf_size garbage mem_words Heo (λ _ _, Ret ()) n_workers ds (Ret ())).
      split; [done|]. intros ?. lia.
Qed.

Definition pagerank_round (fuel : nat) (p : PagerankConcurrent.point)
    (ps : list (prog (nic_state * (PagerankConcurrent.table * Bitmap)) unit)) : Prop :=
  match p with
  | PagerankConcurrent.At_test st _ => ccy_call (pagerank_function fuel) (PagerankDelta.frontier st) n ps
  | PagerankConcurrent.Between _ _ _ =>
      ∃ parts : list (list Z), concat parts ≡ₚ rng 0 n
        ∧ plain_call (imap (λ t vs, each vs (PagerankConcurrent.pagerank_map_c t)) parts) ps
  end.

(** PageRank is correct on the racing engine.  The workers of the push phase take the
    delta of a vertex, read its edges from their edge buffers and add shares to
    residuals by a compare-and-swap loop, interleaved with each other, with the engine's
    operations and with the card in any order, and a finite number of exchanges fails
    spuriously; those of the map phase apply the residuals.  No run faults or goes on
    for ever, no share is lost or added twice (binary32 addition is not associative, so
    the sum of a vertex is that of its shares in some order), and the kernel ends
    after four rounds or with an empty frontier, with nothing in flight. *)
Theorem pagerank_on_engine fuel failures frontierA frontierB vt0 eng e :
  PagerankDelta.pagerank_ready frontierA frontierB vt0 eng →
  (Z.to_nat (zsum (g_deg eng_graph) (rng 0 n)) + length failures < fuel)%nat → ready e →
  ∃ st, PagerankDelta.pagerank_enter frontierA frontierB vt0 eng = Ok st ∧ PagerankDelta.initial st
    ∧ runs PagerankConcurrent.pagerank_stop (pagerank_round fuel) PagerankConcurrent.pagerank_open
        PagerankConcurrent.pagerank_close
        (λ s, ready s.1 ∧ ∃ st' o k, s.2 = PagerankConcurrent.At_test st' o ∧ (k ≤ 4)%nat
           ∧ PagerankDelta.rounds_of PagerankConcurrent.async_round k
               (PagerankDelta.vtab st) (bm_get (PagerankDelta.frontier st))
               (PagerankDelta.vtab st') (bm_get (PagerankDelta.frontier st'))
           ∧ (k = 4%nat ∨ ∀ v, 0 ≤ v < n → bm_get (PagerankDelta.frontier st') v = false))
        (Head (e, PagerankConcurrent.At_test st failures)).
Proof using Hqp.
  intros Hready Hfuel He.
  destruct (PagerankConcurrent.pagerank_runs fuel failures _ _ _ _ Hready Hfuel) as (st & E & Hinit & Hends).
  exists st. split; [done|]. split; [done|].
  apply (kernel_on_engine _ _ _ _ _ _ (λ p, ∃ st' o k, p = _ st' o ∧ _) _ _ Hends He).
  - intros [st1 o|st1 x nx] _ _; [apply engine_round_exists|].
    pose proof some_worker as Hn. eexists. exists (rng 0 n :: replicate (n_workers - 1) []). split.
    + cbn. replace (concat _) with ([] : list Z); [by rewrite app_nil_r|]. clear. by induction (n_workers - 1)%nat.
    + exists []. rewrite length_imap. cbn [length]. rewrite length_replicate. split; [lia|done].
  - intros e1 [st1 o|st1 x nx] ps He1 Hv _ Hps; cbn [pagerank_round PagerankConcurrent.pagerank_tasks PagerankConcurrent.callable] in *.
    + pose proof (ro_n _ _ _ _ _ _ _ Hro).
      eapply ccy_call_hidden; [apply pagerank_follows|exact Hv| |exact He1|exact Hps]. cbn. lia.
    + destruct Hps as (parts & Hperm & Hps). eexists; split; [|by apply plain_call_hidden].
      exists (parts ++ [[]]). split; [by rewrite concat_app, app_nil_r|].
      by rewrite imap_app.
Qed.
End kernels.
