(* ===== verification/Csr.v ===== *)
(** * Csr: building the graph files ([util/edge_list_to_csr.cpp],
    [util/edge_list_to_decsr.cpp])

    The converters read a text file of edges and write the [.idx] and [.adj]
    files the client and the server load.  [edges_of_text] says by a grammar what the
    edges of a text are; [encode_roundtrip] shows that the converters read these
    edges, and that reading the two files back with the loader of VertexTable gives
    every vertex the sorted list of the destinations of its edges. *)

From stdpp Require Import sorting.
From S2P Require Import Prelude Platform VertexTable.

(** ** Formatted input: [ifs >> a] for a [uint32_t].  White space is skipped; a
    sign is allowed and a negative number is reduced modulo [2^32]; no digits, or
    a magnitude that does not fit, sets the stream's fail bit ([None]). *)
Definition is_space (c : Z) : bool := bool_decide (c = 32 ∨ 9 ≤ c ≤ 13).
Definition is_digit (c : Z) : bool := bool_decide (48 ≤ c ≤ 57).

Fixpoint skip_ws (s : list Z) : list Z :=
  match s with c :: s' => if is_space c then skip_ws s' else s | [] => [] end.

Fixpoint read_digits (acc : Z) (s : list Z) : Z * list Z :=
  match s with
  | c :: s' => if is_digit c then read_digits (10 * acc + (c - 48)) s' else (acc, s)
  | [] => (acc, [])
  end.

Definition read_sign (s : list Z) : bool * list Z :=
  match s with
  | 45 :: s' => (true, s')
  | 43 :: s' => (false, s')
  | _ => (false, s)
  end.

Definition extract_u32 (s : list Z) : option (Z * list Z) :=
  let '(neg, s) := read_sign (skip_ws s) in
  match s with
  | c :: _ =>
      if is_digit c then
        let '(m, rest) := read_digits 0 s in
        if bool_decide (m < 2 ^ 32) then Some (if neg : bool then u32 (- m) else m, rest) else None
      else None
  | [] => None
  end.

Abbreviation edge := (Z * Z)%type.

(** The reading loop of the [encode] functions: [flip] is the converter's
    [std::swap(a, b)], which [edge_list_to_decsr.cpp] has. *)
Definition read_step (flip make_undirected : bool) (st : list Z * list edge * Z)
    : result (list Z * list edge * Z + list edge * Z) :=
  let '(s, v, max_vert) := st in
  match extract_u32 s with
  | None => Ok (inr (v, max_vert))
  | Some (a, s) =>
      match extract_u32 s with
      | None => Ok (inr (v, max_vert))
      | Some (b, s) =>
          let '(a, b) := if flip then (b, a) else (a, b) in
          let v := v ++ [(a, b)] in
          let v := if make_undirected then v ++ [(b, a)] else v in
          Ok (inl (s, v, max_vert `max` (a `max` b)))
      end
  end.

Definition read_edges (flip make_undirected : bool) (s : list Z) : result (list edge * Z) :=
  loopM (S (length s)) (read_step flip make_undirected) (s, [], 0).

(** [operator<] on pairs, as [sort] uses it. *)
Definition edge_le (p q : edge) : Prop := p.1 < q.1 ∨ p.1 = q.1 ∧ p.2 ≤ q.2.
#[export] Instance edge_le_dec : RelDecision edge_le.
Proof. intros p q. unfold edge_le. apply _. Defined.
#[export] Instance edge_le_total : Total edge_le.
Proof. intros [a b] [c d]. unfold edge_le. simpl. lia. Qed.
#[export] Instance edge_le_trans : Transitive edge_le.
Proof. intros [a b] [c d] [e f]. unfold edge_le. simpl. lia. Qed.
#[export] Instance edge_le_antisym : AntiSymm (=) edge_le.
Proof. intros [a b] [c d]. unfold edge_le. simpl. intros ??. f_equal; lia. Qed.

Record csr_graph := CsrGraph { index : list Z; dest : list Z }.

(** The state of the loop over the edges. *)
Record csr_state := CsrState {
  cs_idx : list Z;
  cs_dest : list Z;
  prev_vertex_from : Z;
  count : Z;
  vertex_from : Z;
}.

Definition edge_step (p : edge) (st : csr_state) : result csr_state :=
  let from := p.1 in
  '(idx, prev) ← (if bool_decide (from ≠ prev_vertex_from st) then
      idx ← for_u32 (u32 (prev_vertex_from st + 1)) (from + 1)
              (λ row idx, aset idx row (count st)) (cs_idx st);
      Ok (idx, from)
    else Ok (cs_idx st, prev_vertex_from st));
  dest ← aset (cs_dest st) (count st) p.2;
  Ok (CsrState idx dest prev (u64 (count st + 1)) from).

Definition edge_list_to_csr (v : list edge) (max_vert : Z) : result csr_graph :=
  let idx := replicate (Z.to_nat (u32 (max_vert + 1))) (u64 (zlen v - 1)) in
  let dest := replicate (length v) 0 in
  idx ← aset idx 0 0;
  st ← forM v edge_step (CsrState idx dest 0 0 0);
  idx ← for_u32 (u32 (vertex_from st + 1)) (max_vert + 1) (λ s idx, aset idx s (zlen v)) (cs_idx st);
  Ok (CsrGraph idx (cs_dest st)).

(** The bytes of the two files [encode_unweighted] writes. *)
Record csr_files := CsrFiles { idx_file : list Z; adj_file : list Z }.

Definition write_graph (g : csr_graph) : csr_files :=
  CsrFiles (le_words 8 (index g)) (le_words 4 (dest g)).

Definition encode (flip make_undirected sorted : bool) (s : list Z) : result csr_files :=
  '(v, max_vert) ← read_edges flip make_undirected s;
  let v := if sorted then v else merge_sort edge_le v in
  write_graph <$> edge_list_to_csr v max_vert.

(** The two converters differ in the swap only. *)
Definition encode_unweighted : bool → bool → list Z → result csr_files := encode false.
Definition decsr_encode_unweighted : bool → bool → list Z → result csr_files := encode true.

(** ** Sorted edge lists *)

(** The destinations of the edges of [u], in the order of the list. *)
Definition neighbours (v : list edge) (u : Z) : list Z := (filter (λ p, p.1 = u) v).*2.

Definition before (v : list edge) (u : Z) : Z := zcount (λ p, bool_decide (p.1 < u)) v.

Definition sources_sorted (v : list edge) : Prop := StronglySorted (λ p q, p.1 ≤ q.1) v.

Definition endpoints_in (v : list edge) (m : Z) : Prop :=
  ∀ p, p ∈ v → 0 ≤ p.1 ≤ m ∧ 0 ≤ p.2 ≤ m.

Lemma before_app v1 v2 u : before (v1 ++ v2) u = before v1 u + before v2 u.
Proof. apply zsum_app. Qed.

Lemma before_all v u : (∀ p, p ∈ v → p.1 < u) → before v u = zlen v.
Proof.
  intros H. unfold before. rewrite <- (Z.sub_0_r (zlen v)).
  rewrite <- (proj2 (zcount_zero (λ p : edge, bool_decide (u ≤ p.1)) v)).
  - rewrite <- zcount_negb. apply zsum_ext. intros p Hp. f_equal. specialize (H p Hp).
    rewrite bool_decide_eq_true_2, bool_decide_eq_false_2 by lia. done.
  - intros p Hp. apply bool_decide_eq_false. specialize (H p Hp). lia.
Qed.

Lemma before_none v u : (∀ p, p ∈ v → u ≤ p.1) → before v u = 0.
Proof. intros H. apply zcount_zero. intros p Hp. apply bool_decide_eq_false. specialize (H p Hp). lia. Qed.

Lemma sorted_split v1 p v2 q :
  sources_sorted (v1 ++ p :: v2) → (q ∈ v1 → q.1 ≤ p.1) ∧ (q ∈ v2 → p.1 ≤ q.1).
Proof.
  unfold sources_sorted. intros Hs. split; intros Hq.
  - induction v1 as [|x v1 IH]; [by apply not_elem_of_nil in Hq|]. simpl in Hs.
    apply StronglySorted_inv in Hs as [Hs Hx]. apply elem_of_cons in Hq as [->|Hq]; [|by apply IH].
    rewrite Forall_forall in Hx. apply Hx, elem_of_app. right. apply elem_of_cons. by left.
  - apply StronglySorted_app_1_r in Hs. apply StronglySorted_inv in Hs as [_ Hx].
    rewrite Forall_forall in Hx. by apply Hx.
Qed.

Lemma filter_sorted {A} (key : A → Z) v u :
  StronglySorted (λ p q, key p ≤ key q) v →
  v = filter (λ p, key p < u) v ++ filter (λ p, key p = u) v ++ filter (λ p, u < key p) v.
Proof.
  induction v as [|p v IH]; intros Hs; [done|].
  apply StronglySorted_inv in Hs as [Hs Hp]. specialize (IH Hs). rewrite Forall_forall in Hp.
  assert (Hnil : ∀ (P : A → Prop) `{∀ x, Decision (P x)}, (∀ q, q ∈ v → ¬ P q) → filter P v = []).
  { intros P ? H. destruct (filter P v) as [|q l] eqn:E; [done|].
    assert (q ∈ filter P v) as [Hq1 Hq2]%list_elem_of_filter by (rewrite E; apply elem_of_cons; by left).
    by destruct (H q Hq2). }
  rewrite !filter_cons. destruct (decide (key p < u)) as [Hlt|Hge].
  - rewrite (decide_False (P := key p = u)), (decide_False (P := u < key p)) by lia.
    simpl. by rewrite <- IH.
  - rewrite (Hnil (λ q, key q < u) _) in * by (intros q Hq; specialize (Hp q Hq); lia). simpl in *.
    destruct (decide (key p = u)) as [He|Hne].
    + rewrite (decide_False (P := u < key p)) by lia. simpl. by rewrite <- IH.
    + rewrite decide_True by lia.
      rewrite (Hnil (λ q, key q = u) _) in * by (intros q Hq; specialize (Hp q Hq); lia). simpl in *.
      by rewrite <- IH.
Qed.

(** In a list sorted by a key, the elements of a key are a slice. *)
Lemma slice_filter {A} (key : A → Z) v u :
  StronglySorted (λ p q, key p ≤ key q) v →
  slice (zlen (filter (λ p, key p < u) v)) (zlen (filter (λ p, key p = u) v)) v
  = filter (λ p, key p = u) v.
Proof. intros Hs. rewrite (filter_sorted key v u Hs) at 3. apply slice_middle. Qed.

Lemma before_filter v u : before v u = zlen (filter (λ p, p.1 < u) v).
Proof.
  unfold before, zcount, zsum, zlen. induction v as [|p v IH]; [done|]. simpl. rewrite IH, filter_cons.
  case_decide; case_bool_decide; try lia; simpl; lia.
Qed.

Lemma before_succ v u : before v (u + 1) = before v u + zlen (neighbours v u).
Proof.
  unfold before, neighbours, zcount, zsum, zlen. induction v as [|p v IH]; [done|].
  rewrite filter_cons, length_fmap in *. cbn [foldr]. rewrite IH.
  destruct (decide (p.1 = u)); repeat case_bool_decide; simpl; lia.
Qed.

Lemma slice_neighbours v u :
  sources_sorted v → slice (before v u) (zlen (neighbours v u)) v.*2 = neighbours v u.
Proof.
  intros Hs. rewrite slice_fmap, before_filter. unfold neighbours.
  replace (zlen (filter (λ p : edge, p.1 = u) v).*2) with (zlen (filter (λ p : edge, p.1 = u) v))
    by (unfold zlen; by rewrite length_fmap).
  by rewrite (slice_filter fst).
Qed.

(** ** The loop over the edges *)
Record csr_inv (v : list edge) (m : Z) (pre : list edge) (st : csr_state) : Prop := {
  ci_len : zlen (cs_idx st) = m + 1;
  ci_dest : cs_dest st = pre.*2 ++ replicate (length v - length pre) 0;
  ci_count : count st = zlen pre;
  ci_last : prev_vertex_from st = vertex_from st ∧ 0 ≤ vertex_from st ≤ m;
  ci_max p : p ∈ pre → p.1 ≤ vertex_from st;
  ci_from : vertex_from st = 0 ∨ ∃ p, p ∈ pre ∧ p.1 = vertex_from st;
  ci_idx u : 0 ≤ u ≤ vertex_from st → at_ (cs_idx st) u = before v u;
}.

Lemma csr_inv_init v m idx :
  zlen idx = m + 1 → at_ idx 0 = 0 → endpoints_in v m → 0 ≤ m →
  csr_inv v m [] (CsrState idx (replicate (length v) 0) 0 0 0).
Proof.
  intros Hl Hat Hin Hm. split; cbn [cs_idx cs_dest prev_vertex_from count vertex_from]; try done.
  - simpl. by rewrite Nat.sub_0_r.
  - by intros p Hp%not_elem_of_nil.
  - by left.
  - intros u Hu. replace u with 0 by lia. rewrite Hat. symmetry. apply before_none.
    intros p Hp. by apply Hin.
Qed.

(** Filling the rows from [lo] to [hi]. *)
Lemma fill_rows lo hi (x : Z) idx :
  0 ≤ lo → lo ≤ hi + 1 → hi < zlen idx →
  ∃ idx', for_u32 lo (hi + 1) (λ row idx, aset idx row x) idx = Ok idx' ∧ zlen idx' = zlen idx
    ∧ ∀ u, 0 ≤ u → at_ idx' u = if decide (lo ≤ u ≤ hi) then x else at_ idx u.
Proof.
  intros Hlo Hle Hhi.
  destruct (for_u32_inv (λ i l, zlen l = zlen idx ∧ ∀ u, 0 ≤ u →
      at_ l u = if decide (lo ≤ u < i) then x else at_ idx u) lo (hi + 1) (λ row l, aset l row x) idx)
    as (idx' & E & Hl & Hat); [done| | |].
  - split; [done|]. intros u Hu. by rewrite decide_False by lia.
  - intros i l Hi [Hl Hat]. rewrite aset_ok by lia. eexists; split; [done|]. rewrite zlen_insert.
    split; [done|]. intros u Hu. rewrite at_insert, Hat by lia.
    repeat case_decide; try done; lia.
  - exists idx'. split; [done|]. split; [done|]. intros u Hu. rewrite Hat by done.
    repeat case_decide; try done; lia.
Qed.

Lemma edge_step_ok v m pre p suf st :
  sources_sorted v → endpoints_in v m → m + 1 < 2 ^ 32 → zlen v < 2 ^ 64 →
  v = pre ++ p :: suf → csr_inv v m pre st →
  ∃ st', edge_step p st = Ok st' ∧ csr_inv v m (pre ++ [p]) st'.
Proof.
  intros Hs Hin Hm Hlen Hv [Hl Hd Hc [Hp Hf] Hmax Hfrom Hidx].
  assert (Hlv : zlen v = zlen pre + 1 + zlen suf) by (rewrite Hv, zlen_app; unfold zlen; simpl; lia).
  assert (Hpin : p ∈ v) by (rewrite Hv; set_solver). destruct (Hin p Hpin) as [Hp1 Hp2].
  assert (Hge : vertex_from st ≤ p.1).
  { destruct Hfrom as [->|(q & Hq & <-)]; [lia|]. rewrite Hv in Hs. by apply (sorted_split pre p suf q Hs). }
  pose proof (zlen_nonneg pre). pose proof (zlen_nonneg suf).
  assert (Hrows : ∃ idx, (if bool_decide (p.1 ≠ prev_vertex_from st) then
      idx ← for_u32 (u32 (prev_vertex_from st + 1)) (p.1 + 1) (λ row idx, aset idx row (count st)) (cs_idx st);
      Ok (idx, p.1) else Ok (cs_idx st, prev_vertex_from st)) = Ok (idx, p.1)
    ∧ zlen idx = m + 1 ∧ ∀ u, 0 ≤ u ≤ p.1 → at_ idx u = before v u).
  { rewrite Hp. case_bool_decide as Hne.
    - rewrite u32_id' by lia.
      destruct (fill_rows (vertex_from st + 1) p.1 (count st) (cs_idx st)) as (idx & -> & Hli & Hat); [lia..|].
      exists idx. rewrite bind_ok. split; [done|]. split; [lia|]. intros u Hu. rewrite Hat by lia.
      case_decide as Hr; [|apply Hidx; lia]. rewrite Hc, Hv, before_app, before_all, before_none; [lia| |].
      + intros q [->|Hq]%elem_of_cons; [lia|]. rewrite Hv in Hs. pose proof (sorted_split pre p suf q Hs) as [_ Hq'].
        specialize (Hq' Hq). lia.
      + intros q Hq. specialize (Hmax q Hq). lia.
    - exists (cs_idx st). replace p.1 with (vertex_from st) in * by (destruct (decide (p.1 = vertex_from st)); [done|by destruct Hne]).
      done. }
  destruct Hrows as (idx & Erows & Hli & Hat). unfold edge_step. cbv zeta. rewrite Erows, bind_ok. cbv beta iota.
  rewrite Hd, Hc. replace (length v - length pre)%nat with (S (length suf)) by (rewrite Hv, length_app; simpl; lia).
  cbn [replicate]. rewrite (aset_middle pre.*2 0 p.2) by (unfold zlen; by rewrite length_fmap).
  rewrite bind_ok, u64_id' by lia. eexists; split; [done|].
  split; cbn [cs_idx cs_dest prev_vertex_from count vertex_from]; try done.
  - rewrite fmap_app, <- app_assoc. f_equal. simpl. do 2 f_equal. rewrite Hv, !length_app. simpl. lia.
  - rewrite zlen_app. unfold zlen at 3. simpl. lia.
  - intros q [Hq| ->%list_elem_of_singleton]%elem_of_app; [specialize (Hmax q Hq); lia|lia].
  - right. exists p. split; [set_solver|done].
Qed.

Lemma list_at_ext (l l' : list Z) n :
  zlen l = n → zlen l' = n → (∀ u, 0 ≤ u < n → at_ l u = at_ l' u) → l = l'.
Proof. intros <- Hl Hat. apply list_eq_at; [done|]. done. Qed.

Lemma at_fmap_rng (f : Z → Z) n u : 0 ≤ u < n → at_ (f <$> rng 0 n) u = f u.
Proof.
  intros Hu. unfold at_. apply list_lookup_total_correct. rewrite list_lookup_fmap.
  unfold rng. rewrite lookup_seqZ_lt by lia. simpl. f_equal. f_equal. lia.
Qed.

(** The arrays [edge_list_to_csr] builds. *)
Lemma edge_list_to_csr_ok v m :
  sources_sorted v → endpoints_in v m → 0 ≤ m → m + 1 < 2 ^ 32 → zlen v < 2 ^ 64 →
  edge_list_to_csr v m = Ok (CsrGraph (before v <$> rng 0 (m + 1)) v.*2).
Proof.
  intros Hs Hin Hm0 Hm Hlen. unfold edge_list_to_csr. cbv zeta. rewrite u32_id' by lia.
  set (idx0 := replicate (Z.to_nat (m + 1)) (u64 (zlen v - 1))).
  assert (Hl0 : zlen idx0 = m + 1) by (unfold zlen, idx0; rewrite length_replicate; lia).
  rewrite aset_ok, bind_ok by lia.
  destruct (forM_prefix_inv (csr_inv v m) v edge_step
    (CsrState (<[Z.to_nat 0:=0]> idx0) (replicate (length v) 0) 0 0 0)) as (st & -> & Hst).
  { apply csr_inv_init; [by rewrite zlen_insert| |done|done]. apply at_insert_eq. lia. }
  { intros pre p suf st Hv Hst. by eapply edge_step_ok. }
  rewrite bind_ok. destruct Hst as [Hl Hd Hc [Hp Hf] Hmax Hfrom Hidx].
  rewrite u32_id' by lia.
  destruct (fill_rows (vertex_from st + 1) m (zlen v) (cs_idx st)) as (idx & -> & Hli & Hat); [lia..|].
  rewrite bind_ok. rewrite Hd, Nat.sub_diag, app_nil_r. do 2 f_equal.
  apply (list_at_ext _ _ (m + 1)); [lia|unfold zlen; rewrite length_fmap, length_rng; lia|].
  intros u Hu. rewrite at_fmap_rng, Hat by lia. case_decide; [|apply Hidx; lia].
  symmetry. apply before_all. intros p Hp'. specialize (Hmax p Hp'). lia.
Qed.

(** ** Reading the text *)
Lemma skip_ws_le s : (length (skip_ws s) ≤ length s)%nat.
Proof. induction s as [|c s IH]; [done|]. simpl. destruct (is_space c); simpl; lia. Qed.

Lemma read_sign_le s : (length (read_sign s).2 ≤ length s)%nat.
Proof. unfold read_sign. destruct s as [|c s]; [done|]. repeat case_match; simpl; lia. Qed.

Lemma read_digits_ok acc s :
  0 ≤ acc → 0 ≤ (read_digits acc s).1 ∧ (length (read_digits acc s).2 ≤ length s)%nat.
Proof.
  revert acc. induction s as [|c s IH]; intros acc Ha; [done|]. simpl. unfold is_digit.
  case_bool_decide; [|done]. destruct (IH (10 * acc + (c - 48))) as [H1 H2]; [lia|]. split; [done|lia].
Qed.

Lemma extract_u32_ok s a r :
  extract_u32 s = Some (a, r) → (length r < length s)%nat ∧ 0 ≤ a < 2 ^ 32.
Proof.
  unfold extract_u32. pose proof (skip_ws_le s) as H1. pose proof (read_sign_le (skip_ws s)) as H2.
  destruct (read_sign (skip_ws s)) as [neg [|c s']]; [done|]. cbn [snd] in H2.
  unfold is_digit. case_bool_decide as Hc; [|done]. cbn [read_digits]. unfold is_digit.
  rewrite bool_decide_eq_true_2 by done.
  pose proof (read_digits_ok (10 * 0 + (c - 48)) s' ltac:(lia)) as [H3 H4].
  destruct (read_digits _ s') as [m rest]. cbn [fst snd] in *. case_bool_decide; [|done].
  intros [= <- <-]. simpl in H2. split; [lia|]. destruct neg; [apply u32_range|lia].
Qed.

(** *** The grammar of the text

    What the edges of a text are, told from the text alone: numbers in decimal, each
    with white space and a sign before it, in pairs, until two more cannot be read. *)

(** The number that digits denote, by their places. *)
Fixpoint numeral (ds : list Z) : Z :=
  match ds with
  | [] => 0
  | d :: ds => (d - 48) * 10 ^ zlen ds + numeral ds
  end.

Inductive sign : list Z → bool → Prop :=
  | sign_none : sign [] false
  | sign_plus : sign [43] false
  | sign_minus : sign [45] true.

(** [number s x rest]: [s] starts with a number [x], before [rest].  It takes all the
    digits there are, fits 32 bits, and is reduced modulo [2^32] when negative. *)
Inductive number : list Z → Z → list Z → Prop :=
  | number_intro ws sg neg ds rest :
      Forall (λ c, c = 32 ∨ 9 ≤ c ≤ 13) ws → sign sg neg →
      ds ≠ [] → Forall (λ c, 48 ≤ c ≤ 57) ds → (∀ c s, rest = c :: s → ¬ 48 ≤ c ≤ 57) →
      numeral ds < 2 ^ 32 →
      number (ws ++ sg ++ ds ++ rest) ((if neg : bool then - numeral ds else numeral ds) mod 2 ^ 32) rest.

Inductive edges_of_text : list Z → list edge → Prop :=
  | text_end s : (∀ a s1 b s2, number s a s1 → ¬ number s1 b s2) → edges_of_text s []
  | text_edge s a s1 b s2 es :
      number s a s1 → number s1 b s2 → edges_of_text s2 es → edges_of_text s ((a, b) :: es).

Lemma numeral_nonneg ds : Forall (λ c, 48 ≤ c ≤ 57) ds → 0 ≤ numeral ds.
Proof. induction 1; simpl; [lia|]. pose proof (zlen_nonneg l). nia. Qed.

Lemma skip_ws_app ws s :
  Forall (λ c, c = 32 ∨ 9 ≤ c ≤ 13) ws → skip_ws (ws ++ s) = skip_ws s.
Proof. induction 1 as [|c ws Hc _ IH]; [done|]. simpl. unfold is_space. by rewrite bool_decide_eq_true_2. Qed.

Lemma skip_ws_split s :
  ∃ ws, s = ws ++ skip_ws s ∧ Forall (λ c, c = 32 ∨ 9 ≤ c ≤ 13) ws.
Proof.
  induction s as [|c s (ws & Hs & Hws)]; [by exists []|]. simpl. unfold is_space.
  case_bool_decide; [|by exists []]. exists (c :: ws). split; [by rewrite Hs at 1|by constructor].
Qed.

(** A sign and digits start with no white space, digits with no sign. *)
Lemma skip_ws_start sg neg d s : sign sg neg → 48 ≤ d ≤ 57 → skip_ws (sg ++ d :: s) = sg ++ d :: s.
Proof.
  intros Hsg Hd. destruct Hsg; [|done..]. simpl. unfold is_space. rewrite bool_decide_eq_false_2; [done|lia].
Qed.

Lemma read_sign_app sg neg d s : sign sg neg → 48 ≤ d ≤ 57 → read_sign (sg ++ d :: s) = (neg, d :: s).
Proof. intros Hsg Hd. destruct Hsg; [|done..]. cbn [app]. unfold read_sign. repeat case_match; (done || lia). Qed.

Lemma read_sign_split s : ∃ sg, s = sg ++ (read_sign s).2 ∧ sign sg (read_sign s).1.
Proof.
  unfold read_sign. destruct s as [|c s]; [exists []; by repeat constructor|].
  repeat case_match; first [by exists [45]; repeat constructor|by exists [43]; repeat constructor
    |by exists []; repeat constructor].
Qed.

Lemma read_digits_app acc ds rest :
  Forall (λ c, 48 ≤ c ≤ 57) ds → (∀ c s, rest = c :: s → ¬ 48 ≤ c ≤ 57) →
  read_digits acc (ds ++ rest) = (acc * 10 ^ zlen ds + numeral ds, rest).
Proof.
  intros Hds Hrest. revert acc. induction Hds as [|d ds Hd _ IH]; intros acc; simpl.
  - rewrite Z.mul_1_r, Z.add_0_r. destruct rest as [|c s]; [done|]. simpl. unfold is_digit.
    rewrite bool_decide_eq_false_2; [done|by apply (Hrest c s)].
  - unfold is_digit. rewrite bool_decide_eq_true_2, IH by done. f_equal.
    replace (zlen (d :: ds)) with (1 + zlen ds) by (unfold zlen; simpl; lia).
    rewrite Z.pow_add_r; [ring|lia|apply zlen_nonneg].
Qed.

Lemma read_digits_split acc s :
  ∃ ds, s = ds ++ (read_digits acc s).2 ∧ Forall (λ c, 48 ≤ c ≤ 57) ds
    ∧ ∀ c s', (read_digits acc s).2 = c :: s' → ¬ 48 ≤ c ≤ 57.
Proof.
  revert acc. induction s as [|c s IH]; intros acc; [by exists []|]. simpl. unfold is_digit.
  case_bool_decide; [|by exists []; repeat split; try done; intros ?? [= <- <-]].
  destruct (IH (10 * acc + (c - 48))) as (ds & Hs & Hds & Hr). exists (c :: ds).
  split; [by rewrite Hs at 1|]. split; [by constructor|done].
Qed.

(** [operator>>] reads what the grammar says. *)
Lemma extract_u32_number s x r : extract_u32 s = Some (x, r) ↔ number s x r.
Proof.
  split.
  - unfold extract_u32. destruct (skip_ws_split s) as (ws & Hs & Hws).
    destruct (read_sign_split (skip_ws s)) as (sg & Hk & Hsg).
    destruct (read_sign (skip_ws s)) as [neg k]. cbn [fst snd] in *. destruct k as [|c k]; [done|].
    unfold is_digit. case_bool_decide as Hc; [|done].
    destruct (read_digits_split 0 (c :: k)) as (ds & Hds & Hd & Hrest).
    assert (ds ≠ []) as Hne by (intros ->; simpl in Hds; by apply (Hrest c k)).
    pose proof (read_digits_app 0 ds _ Hd Hrest) as Hm. rewrite <- Hds in Hm.
    destruct (read_digits 0 (c :: k)) as [m rest]. cbn [fst snd] in *. injection Hm as ->.
    case_bool_decide as Hlt; [|done]. intros [= <- <-]. rewrite Hs, Hk, Hds.
    pose proof (numeral_nonneg ds Hd). rewrite Z.mul_0_l, Z.add_0_l in *.
    replace (if neg then _ else _) with ((if neg then - numeral ds else numeral ds) mod 2 ^ 32);
      [by constructor|]. destruct neg; [done|]. apply Z.mod_small. lia.
  - intros [ws sg neg ds rest Hws Hsg Hne Hds Hrest Hlt]. pose proof (numeral_nonneg ds Hds).
    destruct ds as [|d ds]; [done|]. pose proof (Forall_inv Hds) as Hd.
    unfold extract_u32. rewrite skip_ws_app by done. change ((d :: ds) ++ rest) with (d :: ds ++ rest).
    rewrite (skip_ws_start sg neg), (read_sign_app sg neg) by done. unfold is_digit at 1.
    rewrite bool_decide_eq_true_2 by done. change (d :: ds ++ rest) with ((d :: ds) ++ rest).
    rewrite read_digits_app, Z.mul_0_l, Z.add_0_l, bool_decide_eq_true_2 by done.
    destruct neg; [done|]. by rewrite Z.mod_small by lia.
Qed.

(** A text has one list of edges. *)
Lemma edges_of_text_unique s es es' : edges_of_text s es → edges_of_text s es' → es' = es.
Proof.
  intros H. revert es'. induction H as [s Hno|s a s1 b s2 es Ha Hb _ IH]; intros es' H'; inversion H'; subst.
  - done.
  - by edestruct Hno.
  - naive_solver.
  - rewrite <- !extract_u32_number in *. simplify_eq. f_equal. by apply IH.
Qed.

(** What the options do to the edges of the text. *)
Definition expand (flip make_undirected : bool) (p : edge) : list edge :=
  let q := if flip then (p.2, p.1) else p in
  if make_undirected then [q; (q.2, q.1)] else [q].

(** The loop reads the edges of the text, and their largest vertex. *)
Lemma read_edges_text s :
  ∃ v m, edges_of_text s v ∧ 0 ≤ m < 2 ^ 32 ∧ endpoints_in v m
    ∧ (v = [] ∧ m = 0 ∨ ∃ p, p ∈ v ∧ (p.1 = m ∨ p.2 = m))
    ∧ ∀ flip und, read_edges flip und s = Ok (v ≫= expand flip und, m).
Proof.
  unfold read_edges.
  assert (Hgen : ∀ fuel s v m, (length s < fuel)%nat → 0 ≤ m < 2 ^ 32 → endpoints_in v m →
    (v = [] ∧ m = 0 ∨ ∃ p, p ∈ v ∧ (p.1 = m ∨ p.2 = m)) →
    ∃ es v' m', edges_of_text s es ∧ v' = v ++ es ∧ 0 ≤ m' < 2 ^ 32 ∧ endpoints_in v' m'
      ∧ (v' = [] ∧ m' = 0 ∨ ∃ p, p ∈ v' ∧ (p.1 = m' ∨ p.2 = m'))
      ∧ ∀ flip und, loopM fuel (read_step flip und) (s, v ≫= expand flip und, m)
                    = Ok (v' ≫= expand flip und, m')).
  2:{ destruct (Hgen (S (length s)) s [] 0) as (es & v & m & H & -> & ?);
        [lia|lia|by intros p Hp%not_elem_of_nil|by left|]. by exists es, m. }
  clear s. induction fuel as [|fuel IH]; intros s v m Hfuel Hm Hin Hex; [lia|].
  destruct (extract_u32 s) as [[a s1]|] eqn:Ea.
  2:{ exists [], v, m. rewrite app_nil_r. split.
      { constructor. intros ???? Hn%extract_u32_number. congruence. }
      do 4 (split; [done|]). intros flip und. simpl. by rewrite Ea. }
  destruct (extract_u32 s1) as [[b s2]|] eqn:Eb.
  2:{ exists [], v, m. rewrite app_nil_r. split.
      { constructor. intros ???? Hn%extract_u32_number Hn'%extract_u32_number. congruence. }
      do 4 (split; [done|]). intros flip und. simpl. by rewrite Ea, Eb. }
  pose proof (extract_u32_ok _ _ _ Ea) as [? ?]. pose proof (extract_u32_ok _ _ _ Eb) as [? ?].
  destruct (IH s2 (v ++ [(a, b)]) (m `max` (a `max` b))) as (es & v' & m' & R0 & -> & R1 & R2 & R3 & R4); [lia|lia| | |].
  - intros p [Hp| ->%list_elem_of_singleton]%elem_of_app; [specialize (Hin p Hp)|simpl]; lia.
  - right. destruct (decide (m ≤ a `max` b)).
    + exists (a, b). split; [set_solver|]. simpl. lia.
    + destruct Hex as [[-> ->]|(p & Hp & He)]; [lia|]. exists p. split; [set_solver|]. lia.
  - exists ((a, b) :: es), ((v ++ [(a, b)]) ++ es), m'.
    split; [econstructor; [by apply extract_u32_number..|done]|]. split; [by rewrite <- app_assoc|].
    do 3 (split; [done|]). intros flip und. rewrite <- R4. simpl. rewrite Ea, Eb.
    rewrite bind_app, bind_singleton. unfold expand at 2. destruct flip, und; simpl;
      rewrite <- ?app_assoc; simpl; do 3 f_equal; lia.
Qed.

Lemma read_edges_ok s :
  ∃ v m, 0 ≤ m < 2 ^ 32 ∧ endpoints_in v m
    ∧ (v = [] ∧ m = 0 ∨ ∃ p, p ∈ v ∧ (p.1 = m ∨ p.2 = m))
    ∧ ∀ flip und, read_edges flip und s = Ok (v ≫= expand flip und, m).
Proof. destruct (read_edges_text s) as (v & m & _ & ?). by exists v, m. Qed.

Lemma expand_in v m flip und : endpoints_in v m → endpoints_in (v ≫= expand flip und) m.
Proof.
  intros Hin p (q & Hp & Hq)%list_elem_of_bind. specialize (Hin q Hq).
  destruct q as [x y]. simpl in Hin. unfold expand in Hp.
  destruct flip, und; rewrite !elem_of_cons, elem_of_nil in Hp; destruct_or?; subst; simpl; tauto.
Qed.

(** Multiplicities of edges. *)
Definition multiplicity (v : list edge) (a b : Z) : Z := zcount (λ p, bool_decide (p = (a, b))) v.

Lemma occ_neighbours v a b : occ b (neighbours v a) = multiplicity v a b.
Proof.
  unfold neighbours, multiplicity, occ, zcount. induction v as [|[x y] v IH]; [done|].
  rewrite filter_cons, zsum_cons. cbn [fst snd].
  case_decide; [rewrite fmap_cons, zsum_cons|]; rewrite IH; repeat case_bool_decide; simpl; naive_solver.
Qed.

Lemma multiplicity_expand v a b flip und :
  multiplicity (v ≫= expand flip und) a b
  = (if flip then multiplicity v b a else multiplicity v a b)
    + (if und then (if flip then multiplicity v a b else multiplicity v b a) else 0).
Proof.
  unfold multiplicity, zcount. induction v as [|[x y] v IH]; [by destruct flip, und|].
  rewrite bind_cons, zsum_app, IH. unfold expand. destruct flip, und; cbn [fst snd];
    rewrite !zsum_cons; unfold zsum at 1; simpl foldr; repeat case_bool_decide; simpl; naive_solver lia.
Qed.

(** ** Sorting *)
Lemma neighbours_perm v v' u : v ≡ₚ v' → neighbours v u ≡ₚ neighbours v' u.
Proof. intros Hp. unfold neighbours. by rewrite Hp. Qed.

Lemma edge_le_sources v : StronglySorted edge_le v → sources_sorted v.
Proof.
  unfold sources_sorted. induction 1 as [|p v _ IH Hp]; constructor; [done|].
  eapply Forall_impl; [exact Hp|]. unfold edge_le. intros q. lia.
Qed.

Lemma neighbours_sorted v u : StronglySorted edge_le v → StronglySorted Z.le (neighbours v u).
Proof.
  unfold neighbours. induction 1 as [|p v _ IH Hp]; [constructor|]. rewrite filter_cons.
  case_decide as Hu; [|done]. rewrite fmap_cons. constructor; [done|].
  rewrite Forall_fmap, Forall_forall. intros q [Hq Hin]%list_elem_of_filter.
  rewrite Forall_forall in Hp. specialize (Hp q Hin). unfold edge_le in Hp. simpl. lia.
Qed.

Lemma neighbours_of_sorted v u :
  neighbours (merge_sort edge_le v) u = merge_sort Z.le (neighbours v u).
Proof.
  apply (StronglySorted_unique Z.le).
  - apply neighbours_sorted, (StronglySorted_merge_sort edge_le).
  - apply (StronglySorted_merge_sort Z.le).
  - rewrite (merge_sort_Permutation Z.le). apply neighbours_perm, merge_sort_Permutation.
Qed.

(** ** Loading the written files *)
Section loading.
  Context {BU : BuildOptions} {BO : Boost} {OS : Os}.
  Context {V : Type} (sizeof_V : Z) (V_init : V) (use_HP : bool) (flag : Z).

(** The client reads the index file as a well-formed index of [n] vertices, and
    with the words of the adjacency file it describes the graph [adj]. *)
Definition loads_as (files : csr_files) (n : Z) (adj : Z → list Z) : Prop :=
  get_num_verts (Regular (idx_file files)) = Ok n ∧
  ∃ table vt words,
    get_vertex_table sizeof_V V_init (Regular (idx_file files)) n use_HP flag = Ok (table, vt)
    ∧ adj_file files = le_words 4 words ∧ Forall (λ w, 0 ≤ w < n) words
    ∧ csr_ok table n (zlen words)
    ∧ ∀ u, 0 ≤ u < n → adj_of table (zlen words) words u = adj u.

Lemma before_bounds v u : 0 ≤ before v u ≤ zlen v.
Proof. apply zcount_bounds. Qed.

Lemma off_before v m u :
  endpoints_in v m → 0 ≤ u ≤ m + 1 →
  off (Vertex <$> (before v <$> rng 0 (m + 1))) (zlen v) u = before v u.
Proof.
  intros Hin Hu. unfold off.
  assert (Hl : zlen (Vertex <$> (before v <$> rng 0 (m + 1))) = m + 1).
  { unfold zlen. rewrite !length_fmap, length_rng. lia. }
  rewrite Hl. case_decide as Hlt.
  - rewrite <- list_fmap_compose. unfold at_.
    rewrite (list_lookup_total_correct _ _ (Vertex (before v u))); [done|]. rewrite list_lookup_fmap.
    unfold rng. rewrite lookup_seqZ_lt by lia. simpl. do 2 f_equal. f_equal. lia.
  - replace u with (m + 1) by lia. symmetry. apply before_all. intros p Hp. specialize (Hin p Hp). lia.
Qed.

Lemma csr_loads v m :
  sources_sorted v → endpoints_in v m → 0 ≤ m → m + 1 < 2 ^ 32 → zlen v < 2 ^ 64 →
  (∀ u, 0 ≤ u ≤ m → zlen (neighbours v u) < 2 ^ 32) → tables_mapped sizeof_V use_HP (m + 1) →
  loads_as (write_graph (CsrGraph (before v <$> rng 0 (m + 1)) v.*2)) (m + 1) (neighbours v).
Proof.
  intros Hs Hin Hm0 Hm Hlen Hdeg Htab. set (offs := before v <$> rng 0 (m + 1)).
  assert (Hlo : zlen offs = m + 1) by (unfold zlen, offs; rewrite length_fmap, length_rng; lia).
  assert (Hwords : zlen v.*2 = zlen v) by (unfold zlen; by rewrite length_fmap).
  assert (Hoff : ∀ u, 0 ≤ u ≤ m + 1 → off (Vertex <$> offs) (zlen v) u = before v u)
    by (intros; by apply off_before).
  split.
  - unfold get_num_verts, fs_file_size, fs_content. simpl. unfold zlen in *.
    rewrite length_le_words, Nat2Z.inj_mul, Hlo. change (Z.of_nat 8) with 8.
    rewrite Z.mul_comm, Z.div_mul by lia. apply numeric_cast_u32_ok. unfold in_u32. lia.
  - destruct (read_loop_ok offs [] (replicate (Z.to_nat (m + 1)) (Vertex 0))) as (a & Eread).
    { unfold offs. rewrite Forall_fmap, Forall_forall. intros u _. unfold in_u64.
      pose proof (before_bounds v u). simpl. lia. }
    { rewrite Hlo. unfold zlen. rewrite length_replicate. lia. }
    exists (Vertex <$> offs), (replicate (Z.to_nat (m + 1)) V_init), v.*2.
    split; [|split; [done|split; [|split]]].
    + rewrite (get_vertex_table_content sizeof_V V_init use_HP flag) by (done || lia).
      rewrite app_nil_r, Hlo in Eread. simpl. by rewrite Eread.
    + rewrite Forall_fmap, Forall_forall. intros p Hp. specialize (Hin p Hp). simpl. lia.
    + rewrite Hwords. split; [unfold zlen in *; by rewrite length_fmap|done|done| |].
      * rewrite Hoff by lia. apply before_bounds.
      * intros u Hu. unfold deg. rewrite !Hoff, before_succ by lia.
        pose proof (zlen_nonneg (neighbours v u)). specialize (Hdeg u). lia.
    + intros u Hu. rewrite Hwords. unfold adj_of, deg. rewrite !Hoff, before_succ by lia.
      rewrite Z.add_simpl_l. by apply slice_neighbours.
Qed.

(** The graph of a list of edges, with sorted adjacency lists. *)
Definition adjacency (v : list edge) (u : Z) : list Z := merge_sort Z.le (neighbours v u).

Lemma encode_loads flip und s v m :
  read_edges flip und s = Ok (v, m) → 0 ≤ m → endpoints_in v m →
  m + 1 < 2 ^ 32 → zlen v < 2 ^ 64 →
  (∀ u, 0 ≤ u ≤ m → zlen (neighbours v u) < 2 ^ 32) → tables_mapped sizeof_V use_HP (m + 1) →
  ∃ files, encode flip und false s = Ok files ∧ zlen (adj_file files) = 4 * zlen v
    ∧ loads_as files (m + 1) (adjacency v).
Proof.
  intros Hread Hm Hin Hm32 Hlen Hdeg Htab.
  assert (Hperm : merge_sort edge_le v ≡ₚ v) by apply merge_sort_Permutation.
  assert (Hss : StronglySorted edge_le (merge_sort edge_le v)) by apply (StronglySorted_merge_sort edge_le).
  assert (Hins : endpoints_in (merge_sort edge_le v) m) by (intros p Hp; apply Hin; by rewrite <- Hperm).
  assert (Hzl : zlen (merge_sort edge_le v) = zlen v) by (unfold zlen; by rewrite Hperm).
  exists (write_graph (CsrGraph (before (merge_sort edge_le v) <$> rng 0 (m + 1)) (merge_sort edge_le v).*2)).
  split; [|split].
  - unfold encode. rewrite Hread, bind_ok. cbv beta iota zeta.
    rewrite (edge_list_to_csr_ok (merge_sort edge_le v) m); [done|by apply edge_le_sources|done|lia|lia|lia].
  - cbn [write_graph adj_file dest]. unfold zlen in *. rewrite length_le_words, length_fmap. lia.
  - destruct (csr_loads (merge_sort edge_le v) m) as [Hn (table & vt & words & H1 & H2 & H3 & H4 & H5)];
      [by apply edge_le_sources|done|lia|lia|lia| |done|].
    { intros u Hu. unfold zlen. rewrite (neighbours_perm _ v) by done. by apply Hdeg. }
    split; [done|]. exists table, vt, words. do 4 (split; [done|]). intros u Hu.
    rewrite H5 by done. apply neighbours_of_sorted.
Qed.

(** C31: a graph survives its conversion.  A text has exactly one list of edges by
    the grammar [edges_of_text]: pairs of decimal numbers, until two more cannot be
    read.  Both converters, with and without [make-undirected], read these edges in
    this order - each reversed by [edge_list_to_decsr], and followed by its reverse with
    [make-undirected] - and their largest vertex.  If no vertex is numbered
    [2^32 - 1], the counts fit their types and the client's tables can be mapped, then
    the converter (when it is to sort the edges itself) writes two files which the
    client loads as a well-formed index on [max_vert + 1] vertices, and the adjacency
    list of each vertex is the sorted list of the destinations of its edges. *)
Theorem encode_roundtrip (flip und : bool) s :
  ∃ es v m, edges_of_text s es ∧ (∀ es', edges_of_text s es' → es' = es) ∧
    v = (es ≫= λ p : edge, let q := if flip then (p.2, p.1) else p in
                   if und then [q; (q.2, q.1)] else [q]) ∧
    (∀ p, p ∈ es → 0 ≤ p.1 ≤ m ∧ 0 ≤ p.2 ≤ m) ∧ (es = [] ∧ m = 0 ∨ ∃ p, p ∈ es ∧ (p.1 = m ∨ p.2 = m)) ∧
    read_edges flip und s = Ok (v, m) ∧ endpoints_in v m ∧
    (m + 1 < 2 ^ 32 → zlen v < 2 ^ 64 →
     (∀ u, 0 ≤ u ≤ m → zlen (neighbours v u) < 2 ^ 32) → tables_mapped sizeof_V use_HP (m + 1) →
     ∃ files, encode flip und false s = Ok files ∧ loads_as files (m + 1) (adjacency v)).
Proof.
  destruct (read_edges_text s) as (es & m & Hes & Hm & Hin & Hex & Hread).
  exists es, (es ≫= expand flip und), m. split; [done|]. split; [intros es'; by apply edges_of_text_unique|].
  pose proof (expand_in _ _ flip und Hin) as Hin'. do 5 (split; [done|]). intros Hm32 Hlen Hdeg Htab.
  destruct (encode_loads flip und s _ m (Hread flip und)) as (files & E & _ & Hf); [lia|done..|].
  by exists files.
Qed.
End loading.

(** C33: the two converters read the same file as transposed graphs: with
    the same option [make-undirected], a vertex has as many edges to another in
    the one as the other has to it in the other. *)
Theorem decsr_transposes und s :
  ∃ v v' m, read_edges false und s = Ok (v, m) ∧ read_edges true und s = Ok (v', m)
    ∧ ∀ a b, occ b (neighbours v' a) = occ a (neighbours v b).
Proof.
  destruct (read_edges_ok s) as (v0 & m & _ & _ & _ & Hread).
  exists (v0 ≫= expand false und), (v0 ≫= expand true und), m. split; [done|]. split; [done|].
  intros a b. rewrite !occ_neighbours, !multiplicity_expand. destruct und; lia.
Qed.

(** with [make-undirected] the graph read is symmetric, as the k-core
    and MIS kernels expect. *)
Theorem make_undirected_symmetric flip s :
  ∃ v m, read_edges flip true s = Ok (v, m)
    ∧ ∀ a b, occ b (neighbours v a) = occ a (neighbours v b).
Proof.
  destruct (read_edges_ok s) as (v0 & m & _ & _ & _ & Hread).
  exists (v0 ≫= expand flip true), m. split; [done|].
  intros a b. rewrite !occ_neighbours, !multiplicity_expand. destruct flip; lia.
Qed.

(** A vertex numbered [2^32 - 1] makes [max_vert + 1] wrap to zero; the
    index vector is then empty and the first write to it is out of bounds. *)
Theorem max_vertex_out_of_bounds v : edge_list_to_csr v (2 ^ 32 - 1) = Fault OutOfBounds.
Proof. done. Qed.
