(* ===== verification/CsrWeighted.v ===== *)
(** * CsrWeighted: graph files with edge weights ([encode_weighted] in
    [util/edge_list_to_csr.cpp] and [util/edge_list_to_decsr.cpp])

    The weighted variant of the converter of Csr.  Its lines have a third number,
    a [float]; the index file is that of the unweighted graph, and every entry of
    the adjacency file is a destination followed by the bits of its weight. *)

From Stdlib Require Import SpecFloat.
From stdpp Require Import sorting.
From S2P Require Import Prelude Platform VertexTable StdLib Csr.

(** [ifs >> c] for a [float]: a sign, digits with at most one point among them and
    an exponent; a number that is too large sets the fail bit. *)
Definition read_mantissa (s : list Z) : option (Z * Z * list Z) :=
  let '(m, s1) := read_digits 0 s in
  let '(m, k, s2) :=
    match s1 with
    | 46 :: s' => let '(m, s2) := read_digits m s' in (m, zlen s' - zlen s2, s2)
    | _ => (m, 0, s1)
    end in
  if bool_decide (zlen s = zlen s1 ∧ k = 0) then None else Some (m, k, s2).

Definition read_exponent (s : list Z) : option (Z * list Z) :=
  match s with
  | c :: s' =>
      if bool_decide (c = 101 ∨ c = 69) then
        let '(neg, s1) := read_sign s' in
        let '(e, s2) := read_digits 0 s1 in
        if bool_decide (zlen s2 = zlen s1) then None else Some (if neg : bool then - e else e, s2)
      else Some (0, s)
  | [] => Some (0, s)
  end.

Definition extract_f32 (s : list Z) : option (f32 * list Z) :=
  let '(neg, s) := read_sign (skip_ws s) in
  '(m, k, s) ← read_mantissa s;
  '(e, s) ← read_exponent s;
  match f32_of_decimal neg m (e - k) with
  | S754_infinity _ | S754_nan => None
  | x => Some (x, s)
  end.

(** [std::tuple<uint32_t, uint32_t, float>] and its [operator<]. *)
Abbreviation wedge := (Z * Z * f32)%type.
Definition lex (lt gt : bool) (rest : bool) : bool := lt || negb gt && rest.
Definition wedge_lt (p q : wedge) : bool :=
  lex (bool_decide (p.1.1 < q.1.1)) (bool_decide (q.1.1 < p.1.1))
    (lex (bool_decide (p.1.2 < q.1.2)) (bool_decide (q.1.2 < p.1.2)) (SFltb p.2 q.2)).

Definition read_w_step (flip make_undirected : bool) (st : list Z * list wedge * Z)
    : result (list Z * list wedge * Z + list wedge * Z) :=
  let '(s, v, max_vert) := st in
  match ('(a, s) ← extract_u32 s; '(b, s) ← extract_u32 s; '(c, s) ← extract_f32 s; Some (a, b, c, s)) with
  | None => Ok (inr (v, max_vert))
  | Some (a, b, c, s) =>
      let '(a, b) := if flip then (b, a) else (a, b) in
      let v := v ++ [(a, b, c)] in
      let v := if make_undirected then v ++ [(b, a, c)] else v in
      Ok (inl (s, v, max_vert `max` (a `max` b)))
  end.

Definition read_w_edges (flip make_undirected : bool) (s : list Z) : result (list wedge * Z) :=
  loopM (S (length s)) (read_w_step flip make_undirected) (s, [], 0).

Record w_csr_graph := WCsrGraph { w_index : list Z; w_dest : list Z; val : list f32 }.

Record w_csr_state := WCsrState {
  ws_idx : list Z;
  ws_dest : list Z;
  ws_w : list f32;
  ws_prev_vertex_from : Z;
  ws_count : Z;
  ws_vertex_from : Z;
}.

Definition w_edge_step (p : wedge) (st : w_csr_state) : result w_csr_state :=
  let from := p.1.1 in
  '(idx, prev) ← (if bool_decide (from ≠ ws_prev_vertex_from st) then
      idx ← for_u32 (u32 (ws_prev_vertex_from st + 1)) (from + 1)
              (λ row idx, aset idx row (ws_count st)) (ws_idx st);
      Ok (idx, from)
    else Ok (ws_idx st, ws_prev_vertex_from st));
  dest ← aset (ws_dest st) (ws_count st) p.1.2;
  w ← aset (ws_w st) (ws_count st) p.2;
  Ok (WCsrState idx dest w prev (u64 (ws_count st + 1)) from).

Definition edge_list_to_w_csr (v : list wedge) (max_vert : Z) : result w_csr_graph :=
  let idx := replicate (Z.to_nat (u32 (max_vert + 1))) (zlen v) in
  let dest := replicate (length v) 0 in
  let w := replicate (length v) f32_zero in
  idx ← aset idx 0 0;
  st ← forM v w_edge_step (WCsrState idx dest w 0 0 0);
  idx ← for_u32 (u32 (ws_vertex_from st + 1)) (max_vert + 1)
          (λ s idx, aset idx s (ws_count st)) (ws_idx st);
  Ok (WCsrGraph idx (ws_dest st) (ws_w st)).

(** The loops that write the two files. *)
Definition write_w_entry (g : w_csr_graph) (i : Z) (adj_ostream : list Z) : result (list Z) :=
  d ← aget (w_dest g) i;
  w ← aget (val g) i;
  Ok (adj_ostream ++ le_encode 4 d ++ le_encode 4 (f32_bits w)).

Definition write_w_graph (g : w_csr_graph) : result csr_files :=
  adj ← forM (rng 0 (zlen (w_dest g))) (write_w_entry g) [];
  Ok (CsrFiles (le_words 8 (w_index g)) adj).

(** The parallel sort of oneDPL, which need not be stable. *)
Class DplSort := {
  dpl_sort : list wedge → list wedge;
  dpl_sort_perm v : dpl_sort v ≡ₚ v;
  dpl_sort_sorted v : Forall (λ p, not_nan p.2) v → sorted_by wedge_lt (dpl_sort v);
}.

Section converters.
  Context {DS : DplSort}.

Definition w_encode (flip make_undirected sorted : bool) (s : list Z) : result csr_files :=
  '(v, max_vert) ← read_w_edges flip make_undirected s;
  let v := if sorted then v else dpl_sort v in
  g ← edge_list_to_w_csr v max_vert;
  write_w_graph g.

Definition encode_weighted : bool → bool → list Z → result csr_files := w_encode false.
Definition decsr_encode_weighted : bool → bool → list Z → result csr_files := w_encode true.

(** The choice the two [main]s make.  What they throw when there is no input file is a
    string literal, which their handler of [std::exception] does not catch. *)
Definition choose_encoder (weighted_encoder unweighted_encoder : bool → bool → list Z → result csr_files)
    (weighted make_undirected sorted : bool) (infile : fs_node) : result csr_files :=
  if fs_exists infile && fs_is_regular_file infile then
    (if weighted then weighted_encoder else unweighted_encoder) make_undirected sorted (fs_content infile)
  else Fault (Terminated "Input file not found").

Definition main := choose_encoder encode_weighted encode_unweighted.
Definition decsr_main := choose_encoder decsr_encode_weighted decsr_encode_unweighted.
End converters.

(** ** Reading *)
Lemma read_mantissa_ok s m k r :
  read_mantissa s = Some (m, k, r) → (length r ≤ length s)%nat.
Proof.
  unfold read_mantissa. pose proof (read_digits_ok 0 s ltac:(lia)) as [Hm Hs].
  destruct (read_digits 0 s) as [m1 s1]. cbn [fst snd] in *.
  assert (Hr : ∀ m' k' s2, match s1 with
      | 46 :: s' => let '(m, s2) := read_digits m1 s' in (m, zlen s' - zlen s2, s2)
      | _ => (m1, 0, s1) end = (m', k', s2) → (length s2 ≤ length s1)%nat).
  { intros m' k' s2 E. repeat case_match; simplify_eq; try done.
    match goal with H : read_digits m1 ?l = _ |- _ =>
      pose proof (read_digits_ok m1 l Hm) as [_ Hl]; rewrite H in Hl end. cbn [length snd] in *. lia. }
  destruct (match s1 with 46 :: _ => _ | _ => _ end) as [[m' k'] s2].
  specialize (Hr _ _ _ eq_refl). case_bool_decide; [done|]. intros [= <- <- <-]. lia.
Qed.

Lemma read_exponent_ok s e r : read_exponent s = Some (e, r) → (length r ≤ length s)%nat.
Proof.
  unfold read_exponent. destruct s as [|c s]; [by intros [= <- <-]|].
  case_bool_decide; [|by intros [= <- <-]].
  pose proof (read_sign_le s) as H1. destruct (read_sign s) as [neg s1]. cbn [snd] in H1.
  pose proof (read_digits_ok 0 s1 ltac:(lia)) as [_ H2]. destruct (read_digits 0 s1) as [n s2].
  cbn [snd] in H2. case_bool_decide; [done|]. intros [= <- <-]. cbn [length]. lia.
Qed.

Lemma extract_f32_ok s x r : extract_f32 s = Some (x, r) → (length r ≤ length s)%nat ∧ not_nan x.
Proof.
  unfold extract_f32. pose proof (skip_ws_le s) as H1. pose proof (read_sign_le (skip_ws s)) as H2.
  destruct (read_sign (skip_ws s)) as [neg s1]. cbn [snd] in H2.
  intros ([[m k] s2] & Hm%read_mantissa_ok & H)%bind_Some. cbn [mret] in H.
  apply bind_Some in H as ([e s3] & He%read_exponent_ok & H).
  destruct (f32_of_decimal neg m (e - k)); simplify_eq; (split; [lia|done]).
Qed.

(** What the option does to the edges of the text. *)
Definition w_expand (flip make_undirected : bool) (p : wedge) : list wedge :=
  (λ q, (q, p.2)) <$> expand flip make_undirected p.1.

Lemma w_expand_fst flip und v : (v ≫= w_expand flip und).*1 = v.*1 ≫= expand flip und.
Proof.
  induction v as [|p v IH]; [done|]. rewrite fmap_cons, !bind_cons, fmap_app, IH. f_equal.
  unfold w_expand. rewrite <- list_fmap_compose. apply list_fmap_id.
Qed.

(** The end points are those of the first two columns, in a type that fits. *)
Record w_edges_ok (v : list wedge) (m : Z) : Prop := {
  we_max : 0 ≤ m < 2 ^ 32;
  we_in : endpoints_in v.*1 m;
  we_num : Forall (λ p, not_nan p.2) v;
}.

Lemma w_edges_snoc v m a b c :
  w_edges_ok v m → 0 ≤ a < 2 ^ 32 → 0 ≤ b < 2 ^ 32 → not_nan c →
  w_edges_ok (v ++ [(a, b, c)]) (m `max` (a `max` b)).
Proof.
  intros [Hm Hin Hnum] Ha Hb Hc. split; [lia| |].
  - intros p. rewrite fmap_app, elem_of_app. cbn [fmap list_fmap fst].
    rewrite list_elem_of_singleton. intros [Hp| ->]; [specialize (Hin p Hp); lia|cbn; lia].
  - apply Forall_app_2, Forall_singleton; done.
Qed.

Lemma read_w_edges_ok s :
  ∃ v m, w_edges_ok v m ∧ ∀ flip und, read_w_edges flip und s = Ok (v ≫= w_expand flip und, m).
Proof.
  unfold read_w_edges.
  assert (Hgen : ∀ fuel s v m, (length s < fuel)%nat → w_edges_ok v m →
    ∃ v' m', w_edges_ok v' m' ∧ ∀ flip und,
      loopM fuel (read_w_step flip und) (s, v ≫= w_expand flip und, m) = Ok (v' ≫= w_expand flip und, m')).
  2:{ apply (Hgen _ s [] 0); [lia|]. split; [lia|by intros p Hp%not_elem_of_nil|constructor]. }
  clear s. induction fuel as [|fuel IH]; intros s v m Hfuel Hok; [lia|].
  destruct (extract_u32 s) as [[a s1]|] eqn:Ea.
  2:{ exists v, m. split; [done|]. intros flip und. simpl. by rewrite Ea. }
  destruct (extract_u32 s1) as [[b s2]|] eqn:Eb.
  2:{ exists v, m. split; [done|]. intros flip und. simpl. rewrite Ea. simpl. by rewrite Eb. }
  destruct (extract_f32 s2) as [[c s3]|] eqn:Ec.
  2:{ exists v, m. split; [done|]. intros flip und. simpl. rewrite Ea. simpl. rewrite Eb. simpl. by rewrite Ec. }
  pose proof (extract_u32_ok _ _ _ Ea) as [? ?]. pose proof (extract_u32_ok _ _ _ Eb) as [? ?].
  pose proof (extract_f32_ok _ _ _ Ec) as [? ?].
  destruct (IH s3 (v ++ [(a, b, c)]) (m `max` (a `max` b))) as (v' & m' & Hok' & Hrun);
    [lia|by apply w_edges_snoc|].
  exists v', m'. split; [done|]. intros flip und. rewrite <- Hrun. simpl.
  rewrite Ea. simpl. rewrite Eb. simpl. rewrite Ec. simpl.
  rewrite bind_app, bind_singleton. unfold w_expand at 2. destruct flip, und; simpl;
    rewrite <- ?app_assoc; simpl; do 3 f_equal; lia.
Qed.

Lemma w_expand_ok v m flip und : w_edges_ok v m → w_edges_ok (v ≫= w_expand flip und) m.
Proof.
  intros [Hm Hin Hnum]. split; [done|rewrite w_expand_fst; by apply expand_in|].
  rewrite Forall_forall in *. intros p (q & Hp & Hq)%list_elem_of_bind.
  unfold w_expand in Hp. apply list_elem_of_fmap in Hp as (e & -> & _). cbn. by apply Hnum.
Qed.

(** ** Building *)
Definition plain (st : w_csr_state) : csr_state :=
  CsrState (ws_idx st) (ws_dest st) (ws_prev_vertex_from st) (ws_count st) (ws_vertex_from st).

(** The loop does what the one without weights does, and stores the weight. *)
Lemma w_edge_step_plain p st st' w :
  edge_step p.1 (plain st) = Ok st' → aset (ws_w st) (ws_count st) p.2 = Ok w →
  w_edge_step p st = Ok (WCsrState (cs_idx st') (cs_dest st') w (prev_vertex_from st') (count st')
                           (vertex_from st')).
Proof.
  unfold edge_step, w_edge_step. cbn [plain cs_idx cs_dest prev_vertex_from count]. intros E Hw.
  apply bind_ok_inv in E as ([idx prev] & -> & E). apply bind_ok_inv in E as (dest & Hd & [= <-]).
  rewrite bind_ok. by rewrite Hd, bind_ok, Hw, bind_ok.
Qed.

Lemma edge_list_to_w_csr_ok (v : list wedge) m :
  sources_sorted v.*1 → endpoints_in v.*1 m → 0 ≤ m → m + 1 < 2 ^ 32 → zlen v < 2 ^ 64 →
  edge_list_to_w_csr v m = Ok (WCsrGraph (before v.*1 <$> rng 0 (m + 1)) v.*1.*2 v.*2).
Proof.
  intros Hs Hin Hm0 Hm Hlen. unfold edge_list_to_w_csr. cbv zeta. rewrite u32_id' by lia.
  assert (Hlv : zlen v.*1 = zlen v) by (unfold zlen; by rewrite length_fmap).
  set (idx0 := replicate (Z.to_nat (m + 1)) (zlen v)).
  assert (Hl0 : zlen idx0 = m + 1) by (unfold zlen, idx0; rewrite length_replicate; lia).
  rewrite aset_ok, bind_ok by lia.
  destruct (forM_prefix_inv (λ pre st, csr_inv v.*1 m pre.*1 (plain st)
      ∧ ws_w st = pre.*2 ++ replicate (length v - length pre) f32_zero) v w_edge_step
    (WCsrState (<[Z.to_nat 0:=0]> idx0) (replicate (length v) 0) (replicate (length v) f32_zero) 0 0 0))
    as (st & -> & Hst & Hw).
  { split; [|cbn; by rewrite Nat.sub_0_r].
    unfold plain. cbn [ws_idx ws_dest ws_prev_vertex_from ws_count ws_vertex_from].
    rewrite <- (length_fmap fst v).
    apply csr_inv_init; [by rewrite zlen_insert| |done|done].
    apply at_insert_eq. lia. }
  { intros pre p suf st Hv [Hst Hw].
    destruct (edge_step_ok v.*1 m pre.*1 p.1 suf.*1 (plain st)) as (st' & E & Hst');
      [done|done|done|lia|by rewrite Hv, fmap_app|done|].
    eexists; split; [eapply w_edge_step_plain; [done|]|].
    - rewrite Hw, (ci_count _ _ _ _ Hst : ws_count st = _).
      replace (length v - length pre)%nat with (S (length suf)) by (rewrite Hv, length_app; simpl; lia).
      cbn [replicate]. rewrite aset_middle; [done|]. unfold zlen. by rewrite !length_fmap.
    - rewrite fmap_app. split; [by destruct st'|]. cbn [ws_w]. rewrite fmap_app, <- app_assoc. do 2 f_equal.
      cbn. f_equal. rewrite Hv, !length_app. simpl. lia. }
  rewrite bind_ok. destruct Hst as [Hl Hd Hc [Hp Hf] Hmax Hfrom Hidx].
  cbn [plain cs_idx cs_dest prev_vertex_from count vertex_from] in *. rewrite u32_id' by lia.
  destruct (fill_rows (ws_vertex_from st + 1) m (ws_count st) (ws_idx st)) as (idx & -> & Hli & Hat); [lia..|].
  rewrite bind_ok. rewrite Hd, Hw, !Nat.sub_diag, !app_nil_r. do 2 f_equal.
  apply (list_at_ext _ _ (m + 1)); [lia|unfold zlen; rewrite length_fmap, length_rng; lia|].
  intros u Hu. rewrite at_fmap_rng, Hat by lia. case_decide; [|apply Hidx; lia].
  rewrite Hc. symmetry. apply before_all. intros p Hp'. specialize (Hmax p Hp'). lia.
Qed.

(** What an edge adds to the adjacency file. *)
Definition w_target (p : wedge) : Z * f32 := (p.1.2, p.2).
Definition w_entry (t : Z * f32) : list Z := [t.1; f32_bits t.2].

Lemma write_w_graph_ok idx (out : list wedge) :
  write_w_graph (WCsrGraph idx out.*1.*2 out.*2)
  = Ok (CsrFiles (le_words 8 idx) (le_words 4 ((w_target <$> out) ≫= w_entry))).
Proof.
  unfold write_w_graph. cbn [w_dest w_index].
  assert (Hl : zlen out.*1.*2 = zlen out) by (unfold zlen; by rewrite !length_fmap).
  destruct (for_u32_inv (λ i adj, adj = le_words 4 ((w_target <$> take (Z.to_nat i) out) ≫= w_entry)) 0 (zlen out.*1.*2)
    (write_w_entry (WCsrGraph idx out.*1.*2 out.*2)) []) as (adj & E & ->).
  - apply zlen_nonneg.
  - done.
  - intros i adj Hi ->. unfold write_w_entry. cbn [w_dest val].
    destruct (lookup_lt_is_Some_2 out (Z.to_nat i)) as [p Hp]; [unfold zlen in *; lia|].
    assert (Hget : ∀ A (f : wedge → A), aget (f <$> out) i = Ok (f p)).
    { intros A f. unfold aget. by rewrite decide_True, list_lookup_fmap, Hp by lia. }
    rewrite <- list_fmap_compose, !Hget, !bind_ok. eexists; split; [done|].
    replace (Z.to_nat (i + 1)) with (S (Z.to_nat i)) by lia.
    rewrite (take_S_r _ _ _ Hp), fmap_app, bind_app. cbn [fmap list_fmap]. rewrite bind_singleton. unfold le_words. by rewrite bind_app.
  - unfold for_u32 in E. rewrite E, bind_ok. rewrite take_ge; [done|]. unfold zlen in *. lia.
Qed.

(** ** Sorting *)

(** The edges of [u] with their weights. *)
Definition w_neighbours (v : list wedge) (u : Z) : list (Z * f32) :=
  w_target <$> filter (λ p, p.1.1 = u) v.

Lemma w_neighbours_fst v u : (w_neighbours v u).*1 = neighbours v.*1 u.
Proof.
  unfold w_neighbours, neighbours. rewrite <- list_fmap_compose. induction v as [|p v IH]; [done|].
  rewrite fmap_cons, !filter_cons. case_decide; [|done]. by rewrite !fmap_cons, IH.
Qed.

Lemma w_neighbours_perm v v' u : v ≡ₚ v' → w_neighbours v u ≡ₚ w_neighbours v' u.
Proof. intros Hp. unfold w_neighbours. by rewrite Hp. Qed.

Lemma wedge_lt_le p q : wedge_lt q p = false → edge_le p.1 q.1.
Proof.
  unfold wedge_lt, lex, edge_le. destruct p as [[a b] x], q as [[c d] y]. cbn.
  repeat case_bool_decide; cbn; try done; lia.
Qed.

Lemma sorted_by_edges v : sorted_by wedge_lt v → StronglySorted edge_le v.*1.
Proof.
  induction 1 as [|p v _ IH Hp]; [constructor|]. rewrite fmap_cons. constructor; [done|].
  apply Forall_fmap. eapply Forall_impl; [exact Hp|]. intros q. apply wedge_lt_le.
Qed.

(** The order is total on tuples of numbers, so that equal keys are equal up to
    the sign of a zero weight. *)
Lemma wedge_lt_asym p q : not_nan p.2 → not_nan q.2 → wedge_lt p q = true → wedge_lt q p = false.
Proof.
  intros Hp Hq. unfold wedge_lt, lex. pose proof (f32_lt_asym p.2 q.2 Hp Hq).
  repeat case_bool_decide; cbn; try done; lia.
Qed.

Lemma lex_nlt_trans (a b c : Z) x y z :
  (x = false → y = false → z = false) →
  lex (bool_decide (a < b)) (bool_decide (b < a)) x = false →
  lex (bool_decide (b < c)) (bool_decide (c < b)) y = false →
  lex (bool_decide (a < c)) (bool_decide (c < a)) z = false.
Proof. intros Hr. unfold lex. repeat case_bool_decide; cbn; try done; lia || auto. Qed.

Lemma wedge_nlt_trans p q r : not_nan p.2 → not_nan q.2 → not_nan r.2 →
  wedge_lt p q = false → wedge_lt q r = false → wedge_lt p r = false.
Proof.
  intros Hp Hq Hr. do 2 apply lex_nlt_trans. by apply f32_nlt_trans.
Qed.

Lemma before_perm v v' u : v ≡ₚ v' → before v u = before v' u.
Proof. intros Hp. rewrite !before_filter. unfold zlen. by rewrite Hp. Qed.

(** The entries of [u] in a sorted list. *)
Lemma slice_w_neighbours v u :
  sources_sorted v.*1 →
  slice (before v.*1 u) (zlen (w_neighbours v u)) (w_target <$> v) = w_neighbours v u.
Proof.
  intros Hs. rewrite slice_fmap. unfold w_neighbours. f_equal.
  replace (zlen (w_target <$> filter (λ p : wedge, p.1.1 = u) v))
    with (zlen (filter (λ p : wedge, p.1.1 = u) v)) by (unfold zlen; by rewrite length_fmap).
  replace (before v.*1 u) with (zlen (filter (λ p : wedge, p.1.1 < u) v)).
  - apply (slice_filter (λ p : wedge, p.1.1)). clear u. unfold sources_sorted in Hs.
    induction v as [|p v IH]; [constructor|]. rewrite fmap_cons in Hs.
    apply StronglySorted_inv in Hs as [Hs Hp]. constructor; [by apply IH|].
    by rewrite Forall_fmap in Hp.
  - rewrite before_filter. clear Hs. unfold zlen. induction v as [|p v IH]; [done|].
    rewrite fmap_cons, !filter_cons. case_decide; cbn; lia.
Qed.

Section roundtrip.
  Context {DS : DplSort}.

(** C32: a weighted graph survives its conversion.  For every text, [make-undirected]
    option and converter, no end point of an edge exceeds [max_vert]; if no vertex
    is numbered [2^32 - 1] and the count fits its type, the index file holds for
    every vertex the number of edges of smaller ones, the adjacency file holds one
    destination and one weight for each edge, and from a vertex's offset on stand
    the destinations and weights of its own edges, sorted by destination. *)
Theorem weighted_encode_correct flip und s :
  ∃ v m, read_w_edges flip und s = Ok (v, m) ∧ endpoints_in v.*1 m ∧
    (m + 1 < 2 ^ 32 → zlen v < 2 ^ 64 →
     ∃ targets,
       w_encode flip und false s
         = Ok (CsrFiles (le_words 8 (before v.*1 <$> rng 0 (m + 1))) (le_words 4 (targets ≫= w_entry)))
       ∧ zlen targets = zlen v
       ∧ ∀ u, 0 ≤ u ≤ m →
           let ts := slice (before v.*1 u) (zlen (w_neighbours v u)) targets in
           ts ≡ₚ w_neighbours v u ∧ StronglySorted Z.le ts.*1).
Proof.
  destruct (read_w_edges_ok s) as (v0 & m & Hok & Hread).
  exists (v0 ≫= w_expand flip und), m. split; [done|].
  pose proof (w_expand_ok _ _ flip und Hok) as [Hm Hin Hnum].
  set (v := v0 ≫= w_expand flip und) in *. split; [done|]. intros Hm32 Hlen.
  set (out := dpl_sort v). assert (Hperm : out ≡ₚ v) by apply dpl_sort_perm.
  assert (Hs : StronglySorted edge_le out.*1) by (apply sorted_by_edges, dpl_sort_sorted; done).
  assert (Hzl : zlen out = zlen v) by (unfold zlen; by rewrite Hperm).
  assert (Hb : ∀ u, before out.*1 u = before v.*1 u) by (intros u; apply before_perm; by rewrite Hperm).
  exists (w_target <$> out). split; [|split].
  - unfold w_encode. rewrite Hread, bind_ok. fold v. fold out. cbv beta iota zeta.
    rewrite (edge_list_to_w_csr_ok out m), bind_ok, write_w_graph_ok; [|by apply edge_le_sources| |lia..].
    + do 3 f_equal. by apply list_fmap_ext.
    + intros p Hp. apply Hin. by rewrite <- Hperm.
  - unfold zlen in *. by rewrite length_fmap.
  - intros u Hu. cbv zeta.
    replace (zlen (w_neighbours v u)) with (zlen (w_neighbours out u))
      by (unfold zlen; by rewrite (w_neighbours_perm out v)).
    rewrite <- Hb, slice_w_neighbours by (by apply edge_le_sources).
    split; [by apply w_neighbours_perm|]. rewrite w_neighbours_fst. by apply neighbours_sorted.
Qed.
End roundtrip.
