(* ===== verification/GrTools.v ===== *)
(** * GrTools: the tools on graph files ([util/fg2gr.cpp], [util/compare_gr.cpp],
    [util/maxd.cpp], [util/memusage.cpp])

    [fg2gr] turns an [.idx]/[.adj] pair into a [.gr] file; [compare_gr] reports the
    differences of two [.gr] files; [maxd] and [memusage] compute the largest
    degree of an index.  Progress output is not modelled, except for the division
    it makes [maxd] perform. *)

From S2P Require Import Prelude Platform VertexTable.

(** [read_one<T>] with [sizeof(T) = k]: the value and the rest of the stream. *)
Definition read_one (k : nat) (s : list Z) : result (Z * list Z) :=
  if bool_decide (length (take k s) = k) then Ok (le_decode (take k s), drop k s)
  else Fault (Thrown "can't read index data").

Definition write_one (k : nat) (x : Z) (o : list Z) : list Z := o ++ le_encode k x.

Definition validate_file (p : fs_node) : result () :=
  if fs_exists p && fs_is_regular_file p then Ok () else Fault (Thrown "file not found").

Definition num_elements (k : Z) (p : fs_node) : Z := fs_file_size p / k.

Definition write_as (k : nat) (n : Z) (st : list Z * list Z) : result (list Z * list Z) :=
  for_u32 0 n (λ _ '(input, o), '(x, input) ← read_one k input; Ok (input, write_one k x o)) st.

Definition write_header (n_v n_e : Z) (o : list Z) : list Z :=
  write_one 8 n_e (write_one 8 n_v (write_one 8 0 (write_one 8 1 o))).

(** [main] of [fg2gr.cpp], after the options: the bytes of the output file. *)
Definition fg2gr (index adj : fs_node) : result (list Z) :=
  _ ← validate_file index;
  _ ← validate_file adj;
  let verts := num_elements 8 index in
  let edges := num_elements 4 adj in
  let os := write_header verts edges [] in
  '(_, idxstream) ← read_one 8 (fs_content index);
  '(_, os) ← write_as 8 (u64 (verts - 1)) (idxstream, os);
  let os := write_one 8 edges os in
  '(_, os) ← write_as 4 edges (fs_content adj, os);
  Ok (if bool_decide (Z.land edges 1 ≠ 0) then write_one 4 0 os else os).

(** ** [compare_gr.cpp] *)
Definition compare_step (k : nat) (i : Z) (st : list Z * list Z * list (Z * Z * Z))
    : result (list Z * list Z * list (Z * Z * Z)) :=
  let '(streamA, streamB, out) := st in
  '(a, streamA) ← read_one k streamA;
  '(b, streamB) ← read_one k streamB;
  Ok (streamA, streamB, if bool_decide (a ≠ b) then out ++ [(i, a, b)] else out).

(** The reported differences: (index, value in A, value in B). *)
Definition compare_for (k : nat) (n : Z) (streamA streamB : list Z)
    : result (list Z * list Z * list (Z * Z * Z)) :=
  for_u32 0 n (compare_step k) (streamA, streamB, []).

Record header := Header { h_version : Z; h_weight : Z; h_verts : Z; h_edges : Z }.

Definition read_header (s : list Z) : result (header * list Z) :=
  '(v, s) ← read_one 8 s;
  '(weight, s) ← read_one 8 s;
  '(verts, s) ← read_one 8 s;
  '(edges, s) ← read_one 8 s;
  Ok (Header v weight verts edges, s).

Definition compare_headers (streamA streamB : list Z)
    : result (bool * Z * Z * list Z * list Z) :=
  '(a, streamA) ← read_header streamA;
  '(b, streamB) ← read_header streamB;
  let matched := bool_decide (h_version a = h_version b) || bool_decide (h_weight a = h_weight b)
                 || bool_decide (h_verts a = h_verts b) || bool_decide (h_edges a = h_edges b) in
  Ok (matched, h_verts a, h_edges a, streamA, streamB).

(** [main] of [compare_gr.cpp]: [None] when it says that the headers do not
    match, else the differences reported in the index and in the edges. *)
Definition compare_gr (f1 f2 : fs_node) : result (option (list (Z * Z * Z) * list (Z * Z * Z))) :=
  _ ← validate_file f1;
  _ ← validate_file f2;
  '(m, V, E, inputA, inputB) ← compare_headers (fs_content f1) (fs_content f2);
  if negb m then Ok None
  else
    '(inputA, inputB, dindex) ← compare_for 8 V inputA inputB;
    '(_, _, dadj) ← compare_for 4 E inputA inputB;
    Ok (Some (dindex, dadj)).

(** ** [maxd.cpp] and [memusage.cpp] *)

(** [max_degree]; [progress] is the extra work of [maxd.cpp] in every iteration. *)
Definition max_degree_step (progress : Z → result ()) (i : Z) (st : list Z * Z * Z)
    : result (list Z * Z * Z) :=
  let '(input, prev_off, mx) := st in
  '(off, input) ← read_one 8 input;
  let edges := u64 (off - prev_off) in
  _ ← progress i;
  Ok (input, off, edges `max` mx).

Definition max_degree_with (progress : Z → Z → result ()) (p : fs_node) : result Z :=
  let num_vertices := num_elements 8 p in
  '(_, _, mx) ← for_u32 0 num_vertices (max_degree_step (progress num_vertices))
                  (fs_content p, 0, 0);
  Ok mx.

(** [if (i % (num_vertices / 100) == 0) std::cout << i / (num_vertices / 100)] *)
Definition print_percent (num_vertices i : Z) : result () :=
  if bool_decide (num_vertices / 100 = 0) then Fault DivByZero else Ok ().

Definition maxd_max_degree : fs_node → result Z := max_degree_with print_percent.
Definition memusage_max_degree : fs_node → result Z := max_degree_with (λ _ _, Ok ()).

Definition maxd (index : fs_node) : result Z :=
  if fs_exists index && fs_is_regular_file index then maxd_max_degree index
  else Fault (Thrown "Input file not found").

(** [main] of [memusage.cpp]: the total number of bytes it reports. *)
Definition memusage (index : fs_node) (threads B ew : Z) : result Z :=
  if fs_exists index && fs_is_regular_file index then
    let verts := num_elements 8 index in
    max ← memusage_max_degree index;
    Ok (u64 ((8 + B) * verts + 4 * max * threads * ew))
  else Fault (Thrown "Input file not found").

(** ** Reading and writing words *)
Lemma read_one_word k x s :
  0 ≤ x < 256 ^ Z.of_nat k → read_one k (le_encode k x ++ s) = Ok (x, s).
Proof.
  intros Hx. unfold read_one.
  rewrite take_app_length', drop_app_length' by (by rewrite length_le_encode).
  rewrite bool_decide_eq_true_2 by apply length_le_encode. by rewrite le_decode_encode.
Qed.

Lemma le_words_cons k x xs : le_words k (x :: xs) = le_encode k x ++ le_words k xs.
Proof. done. Qed.

Lemma le_words_nil k : le_words k [] = [].
Proof. done. Qed.

Lemma le_words_app k xs ys : le_words k (xs ++ ys) = le_words k xs ++ le_words k ys.
Proof. unfold le_words. apply bind_app. Qed.

Definition fits (k : nat) (xs : list Z) : Prop := Forall (λ x, 0 ≤ x < 256 ^ Z.of_nat k) xs.

Lemma write_as_ok k xs rest o :
  fits k xs → write_as k (zlen xs) (le_words k xs ++ rest, o) = Ok (rest, o ++ le_words k xs).
Proof.
  intros Hx. unfold write_as.
  assert (Hgen : ∀ lo, 0 ≤ lo → for_u32 lo (lo + zlen xs)
    (λ _ '(input, o), '(x, input) ← read_one k input; Ok (input, write_one k x o))
    (le_words k xs ++ rest, o) = Ok (rest, o ++ le_words k xs)).
  { unfold for_u32. revert o. induction Hx as [|x xs Hx Hxs IH]; intros o lo Hlo.
    - rewrite rng_nil by (unfold zlen; simpl; lia). simpl. by rewrite app_nil_r.
    - assert (zlen (x :: xs) = 1 + zlen xs) as -> by (unfold zlen; simpl; lia).
      pose proof (zlen_nonneg xs). rewrite rng_cons by lia. cbn [forM].
      rewrite le_words_cons, <- app_assoc, read_one_word, bind_ok by done. cbv beta iota.
      rewrite bind_ok. replace (lo + (1 + zlen xs)) with (lo + 1 + zlen xs) by lia.
      rewrite IH by lia. unfold write_one. by rewrite <- app_assoc. }
  by rewrite <- (Hgen 0) by lia.
Qed.

(** ** [fg2gr] *)

(** The words of a [.gr] file: the header, for every vertex the end of its edges,
    the destinations, and a padding word when their number is odd. *)
Definition gr_bytes (ends words : list Z) : list Z :=
  le_words 8 ([1; 0; zlen ends; zlen words] ++ ends)
  ++ le_words 4 words ++ (if bool_decide (Z.land (zlen words) 1 ≠ 0) then le_words 4 [0] else []).

Lemma file_elements k xs : (0 < k)%nat → num_elements (Z.of_nat k) (Regular (le_words k xs)) = zlen xs.
Proof.
  intros Hk. unfold num_elements, fs_file_size, fs_content, zlen. rewrite length_le_words.
  rewrite Nat2Z.inj_mul, Z.mul_comm, Z.div_mul by lia. done.
Qed.

Lemma gr_layout (o : Z) offs m :
  write_header (zlen (o :: offs)) m [] ++ le_words 8 offs ++ le_encode 8 m
  = le_words 8 ([1; 0; zlen (offs ++ [m]); m] ++ offs ++ [m]).
Proof.
  unfold write_header, write_one.
  assert (zlen (offs ++ [m]) = zlen (o :: offs)) as -> by (rewrite zlen_app; unfold zlen; simpl; lia).
  rewrite (le_words_app 8), (le_words_app 8 offs), app_nil_l, !le_words_cons, !le_words_nil, !app_nil_r.
  by rewrite <- !app_assoc.
Qed.

(** [fg2gr] writes the graph in the [.gr] layout.  From the index of a
    graph with at least one vertex and its edges, the output is the header, the
    end offset of every vertex (the start of the next one, the number of edges
    for the last), the edges, and padding to a multiple of eight bytes. *)
Theorem fg2gr_correct o offs words :
  fits 8 (o :: offs) → fits 4 words → zlen (o :: offs) < 2 ^ 64 → zlen words < 2 ^ 64 →
  ∃ gr, fg2gr (Regular (le_words 8 (o :: offs))) (Regular (le_words 4 words)) = Ok gr
    ∧ gr = gr_bytes (offs ++ [zlen words]) words ∧ (8 | zlen gr).
Proof.
  intros Hi Hw Hn Hm. apply Forall_cons in Hi as [Ho Hi]. eexists. split; [|split; [reflexivity|]].
  - unfold fg2gr. cbn [validate_file fs_exists fs_is_regular_file andb]. rewrite !bind_ok.
    pose proof (file_elements 8 (o :: offs) ltac:(lia)) as E8. pose proof (file_elements 4 words ltac:(lia)) as E4.
    change (Z.of_nat 8) with 8 in E8. change (Z.of_nat 4) with 4 in E4. rewrite E8, E4.
    cbv zeta. cbn [fs_content].
    rewrite le_words_cons, read_one_word, bind_ok by done. cbv beta iota.
    assert (zlen (o :: offs) = 1 + zlen offs) as Hl by (unfold zlen; simpl; lia).
    pose proof (zlen_nonneg offs).
    replace (u64 (zlen (o :: offs) - 1)) with (zlen offs) by (rewrite Hl, u64_id'; lia).
    rewrite <- (app_nil_r (le_words 8 offs)), write_as_ok, bind_ok by done. cbv beta iota.
    rewrite <- (app_nil_r (le_words 4 words)), write_as_ok, bind_ok by done. cbv beta iota.
    unfold gr_bytes, write_one. rewrite <- (gr_layout o), !le_words_cons, !le_words_nil, !app_nil_r.
    case_bool_decide; rewrite <- ?app_assoc, ?app_nil_r; done.
  - unfold gr_bytes. rewrite !zlen_app. unfold zlen at 1 2. rewrite !length_le_words.
    pose proof (Z.bit0_mod (zlen words)) as Hb. pose proof (Z.div_mod (zlen words) 2).
    change 1 with (Z.ones 1). rewrite Z.land_ones by lia. change (2 ^ 1) with 2.
    case_bool_decide as Hodd; unfold zlen in *; cbn [le_words length]; rewrite ?length_le_words.
    + pose proof (Z.mod_pos_bound (Z.of_nat (length words)) 2).
      exists (Z.of_nat (length ([1; 0; Z.of_nat (length (offs ++ [Z.of_nat (length words)])); Z.of_nat (length words)]
        ++ offs ++ [Z.of_nat (length words)])) + Z.of_nat (length words) / 2 + 1). simpl length. lia.
    + exists (Z.of_nat (length ([1; 0; Z.of_nat (length (offs ++ [Z.of_nat (length words)])); Z.of_nat (length words)]
        ++ offs ++ [Z.of_nat (length words)])) + Z.of_nat (length words) / 2). simpl length. lia.
Qed.

(** ** [compare_gr] *)
Fixpoint diffs (i : Z) (xs ys : list Z) : list (Z * Z * Z) :=
  match xs, ys with
  | x :: xs, y :: ys => (if bool_decide (x ≠ y) then [(i, x, y)] else []) ++ diffs (i + 1) xs ys
  | _, _ => []
  end.

Lemma diffs_nil i xs ys : length xs = length ys → diffs i xs ys = [] ↔ xs = ys.
Proof.
  revert i ys. induction xs as [|x xs IH]; intros i [|y ys] Hl; try done. simpl in Hl.
  cbn [diffs]. case_bool_decide as Hxy; simpl.
  - split; [done|]. intros [= ? ?]. done.
  - destruct (decide (x = y)) as [->|]; [|done]. rewrite IH by lia. naive_solver.
Qed.

Lemma compare_step_ok k i x y sA sB out :
  0 ≤ x < 256 ^ Z.of_nat k → 0 ≤ y < 256 ^ Z.of_nat k →
  compare_step k i (le_encode k x ++ sA, le_encode k y ++ sB, out)
  = Ok (sA, sB, if bool_decide (x ≠ y) then out ++ [(i, x, y)] else out).
Proof.
  intros Hx Hy. unfold compare_step. by rewrite !read_one_word by done.
Qed.

Lemma compare_for_ok k xs ys rA rB :
  fits k xs → fits k ys → length xs = length ys →
  compare_for k (zlen xs) (le_words k xs ++ rA) (le_words k ys ++ rB) = Ok (rA, rB, diffs 0 xs ys).
Proof.
  intros Hx Hy Hl. unfold compare_for, for_u32.
  assert (Hgen : ∀ lo out, 0 ≤ lo → forM (rng lo (lo + zlen xs)) (compare_step k)
    (le_words k xs ++ rA, le_words k ys ++ rB, out) = Ok (rA, rB, out ++ diffs lo xs ys)).
  { revert ys Hy Hl. induction Hx as [|x xs Hx Hxs IH]; intros [|y ys] Hy Hl lo out Hlo; try done.
    - rewrite rng_nil by (unfold zlen; simpl; lia). simpl. by rewrite app_nil_r.
    - apply Forall_cons in Hy as [Hy Hys]. simpl in Hl.
      assert (zlen (x :: xs) = 1 + zlen xs) as -> by (unfold zlen; simpl; lia).
      pose proof (zlen_nonneg xs). rewrite rng_cons by lia. cbn [forM].
      rewrite !le_words_cons, <- !app_assoc, compare_step_ok, bind_ok by done. replace (lo + (1 + zlen xs)) with (lo + 1 + zlen xs) by lia.
      rewrite IH by (done || lia). cbn [diffs]. case_bool_decide; [|done]. by rewrite <- app_assoc. }
  by rewrite <- (Z.add_0_l (zlen xs)), (Hgen 0 []) by lia.
Qed.

Lemma read_header_ok ends (words : list Z) rest :
  zlen ends < 2 ^ 64 → zlen words < 2 ^ 64 →
  read_header (le_words 8 ([1; 0; zlen ends; zlen words] ++ ends) ++ rest)
  = Ok (Header 1 0 (zlen ends) (zlen words), le_words 8 ends ++ rest).
Proof.
  intros Hn Hm. pose proof (zlen_nonneg ends). pose proof (zlen_nonneg words).
  assert (∀ x : Z, 0 ≤ x < 2 ^ 64 → 0 ≤ x < 256 ^ Z.of_nat 8) as H8 by (intros; done).
  unfold read_header. rewrite le_words_app, !le_words_cons, le_words_nil, app_nil_r, <- !app_assoc.
  rewrite read_one_word, bind_ok by (apply H8; lia). cbv beta iota.
  rewrite read_one_word, bind_ok by (apply H8; lia). cbv beta iota.
  rewrite read_one_word, bind_ok by (apply H8; lia). cbv beta iota.
  rewrite read_one_word, bind_ok by (apply H8; lia). done.
Qed.

(** [compare_gr] finds every difference.  On two [.gr] files of graphs
    with the same numbers of vertices and edges it reports exactly the positions
    at which the indices and the edges differ, so that it reports nothing if and
    only if the two graphs are equal. *)
Theorem compare_gr_correct e1 w1 e2 w2 :
  fits 8 e1 → fits 8 e2 → fits 4 w1 → fits 4 w2 →
  length e1 = length e2 → length w1 = length w2 → zlen e1 < 2 ^ 64 → zlen w1 < 2 ^ 64 →
  compare_gr (Regular (gr_bytes e1 w1)) (Regular (gr_bytes e2 w2))
  = Ok (Some (diffs 0 e1 e2, diffs 0 w1 w2))
  ∧ (diffs 0 e1 e2 = [] ∧ diffs 0 w1 w2 = [] ↔ e1 = e2 ∧ w1 = w2).
Proof.
  intros He1 He2 Hw1 Hw2 Hle Hlw Hn Hm. split; [|by rewrite !diffs_nil].
  assert (zlen e2 = zlen e1 ∧ zlen w2 = zlen w1) as [El Ew] by (unfold zlen; lia).
  unfold compare_gr. cbn [validate_file fs_exists fs_is_regular_file andb fs_content]. rewrite !bind_ok.
  unfold gr_bytes, compare_headers. rewrite (read_header_ok e1 w1), (read_header_ok e2 w2), !bind_ok by lia.
  cbv beta iota zeta.
  cbn [h_version]. rewrite bool_decide_eq_true_2 by done. cbn [orb negb h_verts h_edges].
  rewrite (compare_for_ok 8 e1 e2), bind_ok by done. cbv beta iota.
  rewrite (compare_for_ok 4 w1 w2), bind_ok by done. done.
Qed.

(** the header check of [compare_gr] accepts any two [.gr] files.  The
    four fields are joined by [||], and every file has version 1: files with
    different numbers of vertices and edges pass the check, and the comparison
    goes on with the counts of the first one. *)
Theorem compare_headers_accepts e1 w1 e2 w2 :
  zlen e1 < 2 ^ 64 → zlen w1 < 2 ^ 64 → zlen e2 < 2 ^ 64 → zlen w2 < 2 ^ 64 →
  ∃ sA sB, compare_headers (gr_bytes e1 w1) (gr_bytes e2 w2) = Ok (true, zlen e1, zlen w1, sA, sB).
Proof.
  intros. unfold gr_bytes, compare_headers. rewrite (read_header_ok e1 w1), (read_header_ok e2 w2), !bind_ok by done.
  cbv beta iota zeta. eexists _, _. reflexivity.
Qed.

(** ** [max_degree] *)

(** The out-degrees of all vertices but the last, for an index starting at 0. *)
Definition gaps (prev : Z) (offs : list Z) : list Z := zip_with Z.sub offs (prev :: offs).

Definition ascending (prev : Z) (offs : list Z) : Prop :=
  0 ≤ prev ∧ Forall (λ d, 0 ≤ d) (gaps prev offs) ∧ Forall (λ x, x < 2 ^ 64) (prev :: offs).

Lemma ascending_cons prev o offs :
  ascending prev (o :: offs) → prev ≤ o < 2 ^ 64 ∧ ascending o offs.
Proof.
  intros (Hp & Hg & Hb). unfold gaps in Hg. cbn [zip_with] in Hg.
  apply Forall_cons in Hg as [Hd Hg]. apply Forall_cons in Hb as [_ Hb].
  pose proof (Forall_inv Hb) as Ho. cbv beta in Hd, Ho. split; [lia|]. split; [lia|]. done.
Qed.

Lemma max_degree_step_ok progress i o s prev mx :
  0 ≤ prev ≤ o → o < 2 ^ 64 →
  max_degree_step progress i (le_encode 8 o ++ s, prev, mx)
  = _ ← progress i; Ok (s, o, (o - prev) `max` mx).
Proof.
  intros Hp Ho. unfold max_degree_step.
  rewrite read_one_word by (split; [lia|]; change (256 ^ Z.of_nat 8) with (2 ^ 64); lia).
  rewrite bind_ok. cbv beta iota zeta. by rewrite u64_id' by lia.
Qed.

Lemma max_degree_loop progress offs :
  ascending 0 offs → (∀ i, 0 ≤ i < zlen offs → progress i = Ok ()) →
  ∃ input off, for_u32 0 (zlen offs) (max_degree_step progress) (le_words 8 offs, 0, 0)
    = Ok (input, off, foldl Z.max 0 (gaps 0 offs)).
Proof.
  intros Ha Hpr. unfold for_u32.
  assert (Hgen : ∀ lo prev mx, 0 ≤ lo → ascending prev offs → 0 ≤ mx →
    (∀ i, lo ≤ i < lo + zlen offs → progress i = Ok ()) →
    ∃ input off, forM (rng lo (lo + zlen offs)) (max_degree_step progress) (le_words 8 offs, prev, mx)
      = Ok (input, off, foldl Z.max mx (gaps prev offs))).
  2:{ destruct (Hgen 0 0 0) as (i & off & E); [done|done|done|intros; apply Hpr; lia|]. eexists _, _. by rewrite Z.add_0_l in E. }
  clear Ha Hpr. induction offs as [|o offs IH]; intros lo prev mx Hlo Ha Hmx Hpr.
  - rewrite rng_nil by (unfold zlen; simpl; lia). by eexists _, _.
  - pose proof Ha as (Hprev & _). apply ascending_cons in Ha as [Ho Ha].
    assert (zlen (o :: offs) = 1 + zlen offs) as El by (unfold zlen; simpl; lia).
    rewrite El in *. pose proof (zlen_nonneg offs). rewrite rng_cons by lia. cbn [forM].
    rewrite le_words_cons, max_degree_step_ok, Hpr, !bind_ok by lia. replace (lo + (1 + zlen offs)) with (lo + 1 + zlen offs) by lia.
    destruct (IH (lo + 1) o ((o - prev) `max` mx)) as (i & off & E); [lia|done|lia|intros; apply Hpr; lia|].
    exists i, off. rewrite E. unfold gaps. cbn [zip_with foldl]. by rewrite Z.max_comm.
Qed.

Lemma foldl_max_le (l : list Z) x a : x ∈ l → x ≤ foldl Z.max a l.
Proof.
  assert (Hge : ∀ l a, a ≤ foldl Z.max a l).
  { clear. induction l as [|y l IH]; intros a; simpl; [lia|]. specialize (IH (a `max` y)). lia. }
  intros Hx. revert a. induction Hx as [|x y l Hx IH]; intros a; simpl; [|apply IH].
  specialize (Hge l (a `max` x)). lia.
Qed.

Lemma memusage_max_degree_ok offs :
  ascending 0 offs →
  memusage_max_degree (Regular (le_words 8 offs)) = Ok (foldl Z.max 0 (gaps 0 offs)).
Proof.
  intros Ha. unfold memusage_max_degree, max_degree_with. cbv zeta.
  pose proof (file_elements 8 offs ltac:(lia)) as E8. change (Z.of_nat 8) with 8 in E8. rewrite E8.
  destruct (max_degree_loop (λ _, Ok ()) offs Ha) as (i & off & E); [done|]. cbn [fs_content].
  by rewrite E.
Qed.

(** [maxd] prints its progress and divides by a hundredth of the vertices. *)
Lemma maxd_max_degree_ok offs :
  ascending 0 offs → offs ≠ [] →
  maxd_max_degree (Regular (le_words 8 offs))
  = if bool_decide (zlen offs < 100) then Fault DivByZero else Ok (foldl Z.max 0 (gaps 0 offs)).
Proof.
  intros Ha Hne. unfold maxd_max_degree, max_degree_with. cbv zeta.
  pose proof (file_elements 8 offs ltac:(lia)) as E8. change (Z.of_nat 8) with 8 in E8. rewrite E8.
  cbn [fs_content]. pose proof (zlen_nonneg offs). case_bool_decide as Hs.
  - destruct offs as [|o offs]; [done|]. apply ascending_cons in Ha as [Ho _].
    assert (0 < zlen (o :: offs)) by (unfold zlen; simpl; lia).
    unfold for_u32. rewrite rng_cons by lia. cbn [forM].
    rewrite le_words_cons, max_degree_step_ok by lia.
    assert (print_percent (zlen (o :: offs)) 0 = Fault DivByZero) as ->; [|done].
    unfold print_percent. by rewrite bool_decide_eq_true_2 by (apply Z.div_small; lia).
  - destruct (max_degree_loop (print_percent (zlen offs)) offs Ha) as (i & off & E).
    + intros i _. unfold print_percent. rewrite bool_decide_eq_false_2; [done|].
      pose proof (Z.div_str_pos (zlen offs) 100). lia.
    + by rewrite E.
Qed.

(** the two tools that report a largest out-degree.  [memusage] returns
    the largest difference of consecutive offsets: it covers every vertex except
    the last one, whose edges end at the end of the edge file, which the tool does
    not look at.  [maxd] returns the same on an index of at least 100 vertices and
    divides by zero on every smaller one. *)
Theorem max_degree_tools_correct offs m :
  ascending 0 offs → offs ≠ [] →
  memusage_max_degree (Regular (le_words 8 offs)) = Ok (foldl Z.max 0 (gaps 0 offs))
  ∧ maxd_max_degree (Regular (le_words 8 offs))
    = (if bool_decide (zlen offs < 100) then Fault DivByZero else Ok (foldl Z.max 0 (gaps 0 offs)))
  ∧ ∀ v, 0 ≤ v < zlen offs - 1 → deg (Vertex <$> offs) m v ≤ foldl Z.max 0 (gaps 0 offs).
Proof.
  intros Ha Hne. split; [by apply memusage_max_degree_ok|]. split; [by apply maxd_max_degree_ok|].
  intros v Hv. apply foldl_max_le. unfold deg, off.
  assert (Hz : zlen (Vertex <$> offs) = zlen offs) by (unfold zlen; by rewrite length_fmap).
  rewrite Hz, !decide_True by lia. unfold at_, zlen in *.
  destruct (lookup_lt_is_Some_2 offs (Z.to_nat v)) as [x Hx]; [lia|].
  destruct (lookup_lt_is_Some_2 offs (S (Z.to_nat v))) as [y Hy]; [lia|].
  replace (Z.to_nat (v + 1)) with (S (Z.to_nat v)) by lia.
  rewrite !list_lookup_total_alt, !list_lookup_fmap, Hx, Hy. simpl.
  apply list_elem_of_lookup. exists (S (Z.to_nat v)). unfold gaps.
  rewrite lookup_zip_with, Hy. simpl. by rewrite Hx.
Qed.
