(* ===== verification/ServerFile.v ===== *)
(** * ServerFile: the server's copy of the edges ([file_mapper],
    [num_elements] and [get_edge_list] of [FAMServer.cpp])

    The server maps the [.adj] file chunk by chunk and copies it into a region
    registered for RDMA. *)

From S2P Require Import Prelude Platform MmapUtil.

(** ** [mmap] of a file: the [length] bytes at [offset] of its content; [None] is
    [MAP_FAILED].  Mapping pages inside the file without huge pages succeeds. *)
Class FileMapping := {
  mmap_file : list Z → Z → Z → bool → option (list Z);
  mmap_file_spec content offset length :
    0 ≤ offset → (4096 | offset) → 0 < length → offset + length ≤ zlen content →
    mmap_file content offset length false = Some (slice offset length content);
}.

Section server_file.
  Context {BO : Boost} {OS : Os} {FM : FileMapping}.

Definition num_elements_u32 (p : fs_node) : Z := fs_file_size p / 4.

Definition default_chunk : Z := 30 * Z.shiftl 1 30.

(** [file_mapper]; the descriptor is the content of the file. *)
Record file_mapper := FileMapper {
  chunk_size : Z;
  fm_offset : Z;
  fm_filesize : Z;
  fm_fd : list Z;
  fm_use_HP : bool;
}.

Definition new_file_mapper (file : fs_node) (t_fsize : Z) (huge_page : bool) : result file_mapper :=
  match file with
  | Missing => Fault (Thrown "open() failed on .adj file")
  | _ => Ok (FileMapper default_chunk 0 t_fsize (fs_content file) huge_page)
  end.

Definition has_next (m : file_mapper) : bool := bool_decide (fm_offset m < fm_filesize m).

(** [operator()]: the mapped chunk, its length, and the mapper moved on. *)
Definition next_chunk (m : file_mapper) : option (list Z) * Z * file_mapper :=
  let length := chunk_size m `min` (fm_filesize m - fm_offset m) in
  let length := if fm_use_HP m then align_up length HP_align else length in
  (mmap_file (fm_fd m) (fm_offset m) length (fm_use_HP m), length,
   FileMapper (chunk_size m) (u64 (fm_offset m + length)) (fm_filesize m) (fm_fd m) (fm_use_HP m)).

(** [memcpy(array + pos, fptr, len)] between byte arrays. *)
Definition memcpy (array : list Z) (pos : Z) (src : list Z) (len : Z) : result (list Z) :=
  if decide (0 ≤ pos ∧ pos + len ≤ zlen array ∧ len ≤ zlen src)
  then Ok (slice 0 pos array ++ slice 0 len src ++ slice (pos + len) (zlen array - (pos + len)) array)
  else Fault OutOfBounds.

(** The copying loop: the mapper, the region's bytes and the position of [array]. *)
Definition copy_step (st : file_mapper * list Z * Z)
    : result (file_mapper * list Z * Z + list Z) :=
  let '(m, array, pos) := st in
  if has_next m then
    let '(fptr, len, m) := next_chunk m in
    match fptr with
    | None => Fault OutOfBounds
    | Some src => array ← memcpy array pos src len; Ok (inl (m, array, pos + len))
    end
  else Ok (inr array).

(** The region seen as 32-bit words. *)
Definition to_words (bs : list Z) : list Z :=
  (λ i, le_decode (slice (4 * i) 4 bs)) <$> rng 0 (zlen bs / 4).

Definition get_edge_list (fuel : nat) (adj_file : fs_node) (use_HP : bool) (fam_thp_flag : Z)
    : result (RDMA_region * ibv_mr * Z) :=
  if fs_exists adj_file && fs_is_regular_file adj_file then
    let edges_count := num_elements_u32 adj_file in
    ptr ← RDMA_mmap_unique edges_count use_HP fam_thp_flag;
    let array := le_words 4 (region_words ptr) in
    let filesize := u64 (edges_count * 4) in
    m ← new_file_mapper adj_file filesize use_HP;
    array ← loopM fuel copy_step (m, array, 0);
    let mr := region_mr ptr in
    Ok ({| region_words := to_words array; region_m_size := region_m_size ptr; region_mr := mr;
           region_advice := region_advice ptr |}, mr, edges_count)
  else Fault (Thrown ".adj file not found").

(** ** Correctness *)
Lemma to_words_le ws rest :
  Forall (λ w, 0 ≤ w < 2 ^ 32) ws → zlen rest < 4 →
  to_words (le_words 4 ws ++ rest) = ws.
Proof.
  intros Hw Hr. unfold to_words.
  assert (Hl : zlen (le_words 4 ws ++ rest) / 4 = zlen ws).
  { pose proof (zlen_nonneg rest). rewrite zlen_app. unfold zlen in *. rewrite length_le_words, Nat2Z.inj_mul.
    change (Z.of_nat 4) with 4. rewrite (Z.mul_comm 4), Z.div_add_l, (Z.div_small (Z.of_nat (length rest))) by lia. lia. }
  rewrite Hl. clear Hl Hr.
  assert (Hgen : ∀ pre, (λ i, le_decode (slice (4 * i) 4 (le_words 4 (pre ++ ws) ++ rest)))
    <$> rng (zlen pre) (zlen pre + zlen ws) = ws).
  { induction Hw as [|w ws Hw Hws IH]; intros pre.
    - rewrite rng_nil by (unfold zlen; simpl; lia). done.
    - assert (zlen (w :: ws) = 1 + zlen ws) as -> by (unfold zlen; simpl; lia).
      pose proof (zlen_nonneg ws). rewrite rng_cons by lia. rewrite fmap_cons. f_equal.
      + unfold le_words. rewrite bind_app, bind_cons, <- !app_assoc.
        replace (4 * zlen pre) with (zlen (pre ≫= le_encode 4)).
        2:{ unfold zlen. fold (le_words 4 pre). rewrite length_le_words. lia. }
        pose proof (slice_middle (pre ≫= le_encode 4) (le_encode 4 w) ((ws ≫= le_encode 4) ++ rest)) as Hm.
        assert (zlen (le_encode 4 w) = 4) as E4 by (unfold zlen; by rewrite length_le_encode).
        rewrite E4 in Hm. rewrite Hm. by apply le_decode_encode.
      + specialize (IH (pre ++ [w])). rewrite <- app_assoc in IH. simpl in IH.
        rewrite zlen_app in IH. unfold zlen at 2 in IH. simpl in IH.
        replace (zlen pre + 1) with (zlen pre + Z.of_nat 1) by lia.
        replace (zlen pre + (1 + zlen ws)) with (zlen pre + Z.of_nat 1 + zlen ws) by lia. exact IH. }
  apply (Hgen []).
Qed.

(** The copying loop, once [o] bytes have been copied. *)
Record copied (content : list Z) (size len o : Z) (m : file_mapper) (array : list Z) : Prop := {
  cp_mapper : m = FileMapper default_chunk o size content false;
  cp_offset : 0 ≤ o ≤ size ∧ (4096 | o) ∨ o = size;
  cp_len : zlen array = len;
  cp_at i : 0 ≤ i < o → at_ array i = at_ content i;
}.

Lemma memcpy_ok array pos src len :
  0 ≤ pos → 0 ≤ len → pos + len ≤ zlen array → len ≤ zlen src →
  ∃ array', memcpy array pos src len = Ok array' ∧ zlen array' = zlen array
    ∧ (∀ i, 0 ≤ i < pos → at_ array' i = at_ array i)
    ∧ ∀ i, pos ≤ i < pos + len → at_ array' i = at_ src (i - pos).
Proof.
  intros Hp Hl Ha Hs. unfold memcpy. rewrite decide_True by done. eexists; split; [done|].
  assert (H1 : zlen (slice 0 pos array) = pos) by (apply zlen_slice; lia).
  assert (H2 : zlen (slice 0 len src) = len) by (apply zlen_slice; lia).
  split; [|split].
  - rewrite !zlen_app, H1, H2, zlen_slice by lia. lia.
  - intros i Hi. unfold at_ at 1. rewrite lookup_total_app_l by (unfold zlen in H1; lia).
    fold (at_ (slice 0 pos array) i). by rewrite at_slice, Z.add_0_l by lia.
  - intros i Hi. unfold at_ at 1.
    rewrite lookup_total_app_r, lookup_total_app_l by (unfold zlen in *; lia).
    replace (Z.to_nat i - length (slice 0 pos array))%nat with (Z.to_nat (i - pos)) by (unfold zlen in *; lia).
    fold (at_ (slice 0 len src) (i - pos)). by rewrite at_slice, Z.add_0_l by lia.
Qed.

Lemma copy_loop content size len fuel array :
  0 ≤ size ≤ zlen content → size ≤ len → size < 2 ^ 63 → zlen array = len →
  (Z.to_nat (size / default_chunk) + 2 ≤ fuel)%nat →
  ∃ array', loopM fuel copy_step (FileMapper default_chunk 0 size content false, array, 0) = Ok array'
    ∧ zlen array' = len ∧ ∀ i, 0 ≤ i < size → at_ array' i = at_ content i.
Proof.
  intros Hsz Hlen H63 Hl Hfuel. change default_chunk with 32212254720 in *.
  destruct (loopM_total (λ '(m, array, pos), copied content size len pos m array)
    (λ array', zlen array' = len ∧ ∀ i, 0 ≤ i < size → at_ array' i = at_ content i)
    (λ '(m, array, pos), Z.to_nat ((size - pos + 32212254719) / 32212254720)) copy_step fuel
    (FileMapper 32212254720 0 size content false, array, 0)) as (array' & E & H1 & H2).
  - split; [done|left; split; [lia|by exists 0]|done|lia].
  - rewrite Z.sub_0_r. pose proof (Z.div_mod size 32212254720). pose proof (Z.mod_pos_bound size 32212254720).
    pose proof (Z.div_mod (size + 32212254719) 32212254720).
    pose proof (Z.mod_pos_bound (size + 32212254719) 32212254720). lia.
  - intros [[m a] pos] [-> Ho Hla Hat]. unfold copy_step, has_next. cbn [fm_offset fm_filesize].
    case_bool_decide as Hlt.
    + destruct Ho as [[Ho Hdiv]|]; [|lia]. unfold next_chunk. cbn [chunk_size fm_offset fm_filesize fm_use_HP fm_fd].
      change default_chunk with 32212254720. set (l := 32212254720 `min` (size - pos)).
      rewrite mmap_file_spec by (done || lia).
      destruct (memcpy_ok a pos (slice pos l content) l) as (a' & -> & Hl' & Hb & Hc);
        [lia|lia|lia|rewrite zlen_slice; lia|]. rewrite bind_ok. eexists; split; [done|].
      rewrite u64_id' by lia. split.
      * split; [done| |lia|].
        -- destruct (decide (size - pos ≤ 32212254720)); [right; lia|left]. split; [lia|].
           replace l with 32212254720 by lia. apply Z.divide_add_r; [done|]. by exists 7864320.
        -- intros i Hi. destruct (decide (i < pos)); [rewrite Hb by lia; apply Hat; lia|].
           rewrite Hc, at_slice by lia. f_equal. lia.
      * destruct (decide (size - pos ≤ 32212254720)).
        -- replace (size - (pos + l)) with 0 by lia. change (Z.to_nat ((0 + 32212254719) / 32212254720)) with 0%nat.
           pose proof (Z.div_str_pos (size - pos + 32212254719) 32212254720 ltac:(lia)). lia.
        -- replace (size - pos + 32212254719) with (size - (pos + l) + 32212254719 + 1 * 32212254720) by lia.
           rewrite Z.div_add by lia. pose proof (Z.div_pos (size - (pos + l) + 32212254719) 32212254720 ltac:(lia) ltac:(lia)). lia.
    + exists (inr a). split; [done|]. split; [done|].
      intros i Hi. apply Hat. destruct Ho as [[? _]|]; lia.
  - exists array'. done.
Qed.

Lemma region_bytes bytes : (4096 | bytes) → 0 ≤ bytes →
  zlen (le_words 4 (replicate (Z.to_nat (bytes / 4)) 0)) = bytes.
Proof.
  intros [q ->] Hb. unfold zlen. rewrite length_le_words, length_replicate.
  replace (q * 4096) with (q * 1024 * 4) by lia. rewrite Z.div_mul by lia. lia.
Qed.

(** The server serves exactly the edges of its file. *)
Lemma get_edge_list_ok fuel words rest flag bytes mr :
  Forall (λ w, 0 ≤ w < 2 ^ 32) words → zlen rest < 4 → words ≠ [] → 4 * zlen words < 2 ^ 63 →
  mmap_anon (4 * zlen words) false = Some bytes → ibv_reg_mr map_base (4 * zlen words) = Some mr →
  (Z.to_nat (4 * zlen words / default_chunk) + 2 ≤ fuel)%nat →
  ∃ region, get_edge_list fuel (Regular (le_words 4 words ++ rest)) false flag = Ok (region, mr, zlen words)
    ∧ region_mr region = mr ∧ slice 0 (zlen words) (region_words region) = words.
Proof.
  intros Hw Hr Hne H63 Hmm Hmr Hfuel. pose proof (zlen_nonneg words) as H0. pose proof (zlen_nonneg rest) as Hr0.
  assert (Hsize : num_elements_u32 (Regular (le_words 4 words ++ rest)) = zlen words).
  { unfold num_elements_u32, fs_file_size, fs_content. rewrite zlen_app. unfold zlen in *.
    rewrite length_le_words, Nat2Z.inj_mul. change (Z.of_nat 4) with 4.
    rewrite (Z.mul_comm 4), Z.div_add_l, (Z.div_small (Z.of_nat (length rest))) by lia. lia. }
  pose proof (mmap_anon_pages _ _ _ Hmm) as [Hb Hdiv].
  unfold get_edge_list. cbn [fs_exists fs_is_regular_file andb]. rewrite Hsize. cbv zeta.
  unfold RDMA_mmap_unique. cbv zeta. unfold aligned_size. cbv iota. rewrite (u64_id' (4 * zlen words)) by lia. rewrite Hmm, Hmr, bind_ok.
  cbn [region_words new_file_mapper fs_content region_mr region_m_size region_advice]. rewrite bind_ok.
  rewrite u64_id' by lia. replace (zlen words * 4) with (4 * zlen words) by lia.
  assert (Hwl : zlen (le_words 4 words) = 4 * zlen words) by (unfold zlen; rewrite length_le_words; lia).
  destruct (copy_loop (le_words 4 words ++ rest) (4 * zlen words) bytes fuel
    (le_words 4 (replicate (Z.to_nat (bytes / 4)) 0))) as (array & -> & Hla & Hat);
    [rewrite zlen_app; lia|done|done|apply region_bytes; [done|lia]|done|].
  rewrite bind_ok. eexists. split; [done|]. cbn [region_mr region_words]. split; [done|].
  assert (Harr : array = le_words 4 words ++ slice (4 * zlen words) (bytes - 4 * zlen words) array).
  { assert (slice 0 (4 * zlen words) array = le_words 4 words) as <-.
    { apply list_eq_at; [rewrite zlen_slice; lia|]. rewrite zlen_slice by lia. intros i Hi.
      rewrite at_slice, Hat by lia. unfold at_. rewrite lookup_total_app_l by (unfold zlen in *; lia). done. }
    rewrite <- (slice_app 0) by lia. replace (4 * zlen words + (bytes - 4 * zlen words)) with (zlen array) by lia.
    by rewrite slice_full. }
  clear - Hw Hla Hb Harr H0. unfold to_words. rewrite Hla.
  assert (zlen words ≤ bytes / 4) by (apply Z.div_le_lower_bound; lia).
  rewrite (rng_app 0 (zlen words)) by lia. rewrite fmap_app.
  assert (Hl1 : zlen ((λ i, le_decode (slice (4 * i) 4 array)) <$> rng 0 (zlen words)) = zlen words)
    by (unfold zlen; rewrite length_fmap, length_rng; lia).
  assert (E1 : (λ i, le_decode (slice (4 * i) 4 array)) <$> rng 0 (zlen words) = words).
  { rewrite <- (to_words_le words []) at 2 by (done || (unfold zlen; simpl; lia)). rewrite app_nil_r. unfold to_words.
    assert (Hwl : zlen (le_words 4 words) = 4 * zlen words) by (unfold zlen; rewrite length_le_words; lia).
    rewrite Hwl, Z.mul_comm, Z.div_mul by lia. apply list_fmap_ext. intros j i Hi.
    assert (0 ≤ i < zlen words) by (unfold rng in Hi; apply lookup_seqZ in Hi; lia). f_equal.
    apply list_eq_at; rewrite !zlen_slice by lia; [done|]. intros x Hx. rewrite !at_slice by lia.
    rewrite Harr. unfold at_. rewrite lookup_total_app_l by (unfold zlen in *; lia). done. }
  rewrite E1. unfold slice. rewrite drop_0. apply take_app_length'. unfold zlen. lia.
Qed.

(** C30: the server serves exactly the edges of its file.  When memory can be
    mapped and registered, [get_edge_list] copies the file in chunks of 30 GB,
    ends, and returns a registered region whose first words are the 32-bit
    little-endian words of the file, with their number; up to three trailing
    bytes are ignored, and a missing file is refused. *)
Theorem get_edge_list_correct fuel words rest flag :
  Forall (λ w, 0 ≤ w < 2 ^ 32) words → zlen rest < 4 → words ≠ [] → 4 * zlen words < 2 ^ 63 →
  is_Some (mmap_anon (4 * zlen words) false) → is_Some (ibv_reg_mr map_base (4 * zlen words)) →
  (Z.to_nat (4 * zlen words / default_chunk) + 2 ≤ fuel)%nat →
  (∃ region mr, get_edge_list fuel (Regular (le_words 4 words ++ rest)) false flag
                = Ok (region, mr, zlen words)
     ∧ mr_addr mr = map_base ∧ mr_length mr = 4 * zlen words ∧ region_mr region = mr
     ∧ slice 0 (zlen words) (region_words region) = words)
  ∧ get_edge_list fuel Missing false flag = Fault (Thrown ".adj file not found").
Proof.
  intros Hw Hr Hne H63 [bytes Hmm] [mr Hmr] Hf. split; [|done].
  destruct (get_edge_list_ok fuel words rest flag bytes mr) as (region & E & Hmr' & Hs); [done..|].
  destruct (ibv_reg_mr_length _ _ _ Hmr) as [Hlen Haddr]. by exists region, mr.
Qed.
End server_file.
