(* ===== verification/Options.v ===== *)
(** * Options: the command line ([main.cpp]) and the client's choices
    ([validate_params], [endsWith], [run_client] and the set-up part of
    [on_completion] in [client_runtime.cpp]) *)

From Stdlib Require Import SpecFloat.
From S2P Require Import Prelude Platform.

Local Open Scope string_scope.

(** The options [main] declares. *)
Definition declared : list string :=
  ["help"; "verbose"; "mode"; "server-addr"; "port"; "indexfile"; "edgefile"; "kernel"; "ofile";
   "threads"; "cache_ratio"; "cache_file_path"; "print-table"; "kcore-k"; "delta"; "start-vertex";
   "hp"; "double-buffer"; "edgewindow"; "no-numa-bind"; "madvise_thp"].

(** The parsed command line: the options that are present (given or defaulted)
    and their values; [o_mode], [o_cache_file_path], [o_indexfile] and
    [o_edgefile] have no default. *)
Record variables_map := VariablesMap {
  present : list string;
  o_mode : string;
  o_kernel : string;
  o_cache_file_path : string;
  o_indexfile : string;
  o_edgefile : string;
  o_threads : Z;
  o_cache_ratio : spec_float;
  o_kcore_k : Z;
  o_delta : Z;
  o_start_vertex : Z;
  o_edgewindow : Z;
  o_madvise_thp : Z;
}.

Definition count (vm : variables_map) (o : string) : Z :=
  if bool_decide (o ∈ present vm) then 1 else 0.

(** [po::store] rejects options that are not declared. *)
Definition stored (vm : variables_map) : Prop := ∀ o, o ∈ present vm → o ∈ declared.

(** [vm[o].as<T>()]: an option that is not present holds no value of type T. *)
Definition as_value {A} (vm : variables_map) (o : string) (x : variables_map → A) : result A :=
  if bool_decide (o ∈ present vm) then Ok (x vm) else Fault (Thrown "bad_any_cast").

(** Defaults of the options that have one. *)
Definition default_kernel : string := "print_graph".
Definition default_threads : Z := 0.
Definition default_kcore_k : Z := 100.
Definition default_delta : Z := 25.
Definition default_start_vertex : Z := 1.
Definition default_edgewindow : Z := 1.
Definition default_madvise_thp : Z := 0.

(** [0.000001] is the nearest multiple of [2^-72]. *)
Definition cache_ratio_min : spec_float := binary_normalize 53 1024 4722366482869645 (-72) false.

Inductive program := Help | RunClient | RunServer.

Definition main (vm : variables_map) : result program :=
  if bool_decide (count vm "help" ≠ 0) then Ok Help
  else
    bad_mode ← (if bool_decide (count vm "mode" = 0) then
                  m ← as_value vm "mode" o_mode;
                  Ok (negb (bool_decide (m = "client") || bool_decide (m = "server")))
                else Ok false);
    if bad_mode : bool then Fault (Thrown "mode")
    else
      ratio ← as_value vm "cache_ratio" o_cache_ratio;
      if SFltb cache_ratio_min ratio && bool_decide (count vm "cache_file_path" = 0)
      then Fault (Thrown "cache_file_path")
      else
        mode ← as_value vm "mode" o_mode;
        if bool_decide (mode = "client") then Ok RunClient else Ok RunServer.

(** ** The client *)
Definition client_validate_params (vm : variables_map) : result () :=
  if bool_decide (count vm "server-addr" = 0) then Fault (Thrown "server-addr")
  else if bool_decide (count vm "port" = 0) then Fault (Thrown "port")
  else if bool_decide (count vm "indexfile" = 0) then Fault (Thrown "index file")
  else Ok ().

Definition server_validate_params (vm : variables_map) : result () :=
  if bool_decide (count vm "server-addr" = 0) then Fault (Thrown "server-addr")
  else if bool_decide (count vm "port" = 0) then Fault (Thrown "port")
  else if bool_decide (count vm "edgefile" = 0) then Fault (Thrown "edgefile")
  else Ok ().

(** The number of connections [run_client] opens. *)
Definition num_connections (threads max_cores : Z) : Z :=
  if bool_decide (threads = 0) || bool_decide (max_cores < threads) then max_cores else threads.

Definition endsWith (s sfx : string) : bool :=
  if bool_decide (String.length s < String.length sfx)%nat then false
  else bool_decide (String.substring (String.length s - String.length sfx) (String.length sfx) s = sfx).

(** What [on_completion] stores in [cacheMap] and [cacheManager]: [Unset] are the
    indeterminate values of members that no constructor initialises. *)
Inductive cache_pointers := NoCache | BinCache | OriginalCache | Unset.

Definition choose_cache (vm : variables_map) : result cache_pointers :=
  ratio ← as_value vm "cache_ratio" o_cache_ratio;
  if negb (SFeqb ratio (S754_zero false)) then
    if bool_decide (count vm "cache_file_path" = 0)
    then Fault (Thrown "Not providing cache file path!")
    else
      path ← as_value vm "cache_file_path" o_cache_file_path;
      if endsWith path ".bin_cache" then Ok BinCache
      else if endsWith path ".cache" then Ok OriginalCache
      else Ok Unset
  else Ok NoCache.

Inductive kernel := BFS | PageRankDelta | CC | KCore | MIS.

Definition choose_kernel (vm : variables_map) : result kernel :=
  if bool_decide (count vm "double-buffer" ≠ 0) then Fault (Thrown "double buffering deprecated")
  else
    k ← as_value vm "kernel" o_kernel;
    if bool_decide (k = "bfs") then Ok BFS
    else if bool_decide (k = "pagerank_delta") then Ok PageRankDelta
    else if bool_decide (k = "CC") then Ok CC
    else if bool_decide (k = "kcore") then Ok KCore
    else if bool_decide (k = "MIS") then Ok MIS
    else Fault (Thrown "Unrecognized Kernel").

(** ** Facts *)
Lemma count_zero vm o : count vm o = 0 ↔ o ∉ present vm.
Proof. unfold count. case_bool_decide; split; done. Qed.

Lemma count_undeclared vm o : stored vm → o ∉ declared → count vm o = 0.
Proof. intros Hs Hd. apply count_zero. intros Hp. by apply Hd, Hs. Qed.

Lemma append_length s t : String.length (s ++ t) = (String.length s + String.length t)%nat.
Proof. induction s as [|c s IH]; [done|]. simpl. by rewrite IH. Qed.

Lemma substring_all t : String.substring 0 (String.length t) t = t.
Proof. induction t as [|c t IH]; [done|]. simpl. by rewrite IH. Qed.

Lemma substring_app s t : String.substring (String.length s) (String.length t) (s ++ t) = t.
Proof. induction s as [|c s IH]; [apply substring_all|]. simpl. apply IH. Qed.

Lemma substring_suffix n s :
  (n ≤ String.length s)%nat → ∃ p, s = p ++ String.substring n (String.length s - n) s.
Proof.
  revert n. induction s as [|c s IH]; intros [|n] Hn; simpl in *.
  - by exists "".
  - lia.
  - exists "". by rewrite substring_all.
  - destruct (IH n ltac:(lia)) as [p Hp]. exists (String c p). simpl String.substring.
    transitivity (String c (p ++ String.substring n (String.length s - n) s)); [by f_equal|done].
Qed.

Lemma suffix_inj p q x y : p ++ x = q ++ y → String.length x = String.length y → x = y.
Proof.
  revert q. induction p as [|c p IH]; intros [|d q] E Hl; simpl in E.
  - done.
  - assert (Hx := f_equal String.length E). rewrite ?append_length in Hx; simpl in Hx; rewrite ?append_length in Hx; lia.
  - assert (Hx := f_equal String.length E). rewrite ?append_length in Hx; simpl in Hx; rewrite ?append_length in Hx; lia.
  - injection E as -> E. by apply (IH q).
Qed.

Lemma bin_cache_split p : p ++ ".bin_cache" = (p ++ ".bin") ++ "_cache".
Proof. induction p as [|c p IH]; [done|]. exact (f_equal (String c) IH). Qed.

(** [endsWith] decides whether a string ends with a suffix. *)
Lemma endsWith_iff s sfx : endsWith s sfx = true ↔ ∃ p, s = p ++ sfx.
Proof.
  unfold endsWith. case_bool_decide as Hl.
  - split; [done|]. intros [p ->]. rewrite append_length in Hl. lia.
  - rewrite bool_decide_eq_true. split.
    + intros E. destruct (substring_suffix (String.length s - String.length sfx) s) as [p Hp]; [lia|].
      exists p. rewrite Hp at 1. f_equal.
      by replace (String.length s - (String.length s - String.length sfx))%nat with (String.length sfx) by lia.
    + intros [p ->]. rewrite append_length.
      replace (String.length p + String.length sfx - String.length sfx)%nat with (String.length p) by lia.
      apply substring_app.
Qed.

(** [main] runs as a server for every mode that is not "client".  A mode
    that is given is never rejected, because the test for an invalid mode is only
    made when no mode is given; then it throws for lack of a value.  A cache ratio
    above the threshold needs a cache file. *)
Theorem main_mode vm :
  "help" ∉ present vm → "cache_ratio" ∈ present vm →
  main vm = if bool_decide ("mode" ∈ present vm)
            then if SFltb cache_ratio_min (o_cache_ratio vm) && bool_decide ("cache_file_path" ∉ present vm)
                 then Fault (Thrown "cache_file_path")
                 else Ok (if bool_decide (o_mode vm = "client") then RunClient else RunServer)
            else Fault (Thrown "bad_any_cast").
Proof.
  intros Hh Hr. unfold main, as_value, count.
  rewrite (bool_decide_eq_false_2 ("help" ∈ present vm)) by done.
  rewrite (bool_decide_eq_false_2 (0 ≠ 0)) by lia.
  rewrite (bool_decide_eq_true_2 ("cache_ratio" ∈ present vm)) by done.
  destruct (bool_decide ("mode" ∈ present vm)); [|done].
  rewrite (bool_decide_eq_false_2 (1 = 0)) by lia. cbn.
  destruct (SFltb _ _); cbn; [|by case_bool_decide].
  destruct (decide ("cache_file_path" ∈ present vm)) as [Hc|Hc].
  - rewrite (bool_decide_eq_true_2 ("cache_file_path" ∈ present vm)),
      (bool_decide_eq_false_2 ("cache_file_path" ∉ present vm)) by (done || by intros Hn; apply Hn).
    rewrite (bool_decide_eq_false_2 (1 = 0)) by lia. cbn. by case_bool_decide.
  - rewrite (bool_decide_eq_false_2 ("cache_file_path" ∈ present vm)), (bool_decide_eq_true_2 ("cache_file_path" ∉ present vm)) by done.
    done.
Qed.

(** which cache the client sets up.  With a ratio other than zero and a
    path, a ".bin_cache" file selects the bin cache and a ".cache" file the
    original one; any other path leaves both cache pointers uninitialised. *)
Theorem choose_cache_correct vm :
  "cache_ratio" ∈ present vm → "cache_file_path" ∈ present vm →
  SFeqb (o_cache_ratio vm) (S754_zero false) = false →
  (choose_cache vm = Ok BinCache ↔ ∃ p, o_cache_file_path vm = p ++ ".bin_cache")
  ∧ (choose_cache vm = Ok OriginalCache ↔ ∃ p, o_cache_file_path vm = p ++ ".cache")
  ∧ (choose_cache vm = Ok Unset ↔ ∀ p, o_cache_file_path vm ≠ p ++ ".bin_cache"
                                       ∧ o_cache_file_path vm ≠ p ++ ".cache").
Proof.
  intros Hr Hp Hz. unfold choose_cache, as_value, count.
  rewrite (bool_decide_eq_true_2 ("cache_ratio" ∈ present vm)) by done.
  rewrite (bool_decide_eq_true_2 ("cache_file_path" ∈ present vm)) by done.
  rewrite (bool_decide_eq_false_2 (1 = 0)) by lia. rewrite !bind_ok, Hz. cbn [negb].
  set (path := o_cache_file_path vm).
  assert (Hdis : endsWith path ".bin_cache" = true → endsWith path ".cache" = true → False).
  { rewrite !endsWith_iff. intros [p ->] [q Hq]. rewrite bin_cache_split in Hq.
    apply suffix_inj in Hq; done. }
  assert (Hno : (∀ p, path ≠ p ++ ".bin_cache" ∧ path ≠ p ++ ".cache")
      ↔ endsWith path ".bin_cache" ≠ true ∧ endsWith path ".cache" ≠ true).
  { rewrite !endsWith_iff. split; [intros H; split; intros [p Hp']; by destruct (H p)|].
    intros [H1 H2] p. split; intros E; [apply H1|apply H2]; by exists p. }
  rewrite Hno, <- !endsWith_iff. clear Hno.
  destruct (endsWith path ".bin_cache"), (endsWith path ".cache"); [by destruct Hdis|..];
    intuition congruence.
Qed.
