(* ===== verification/CommandLine.v ===== *)
(** * CommandLine: the options [main] declares and their types ([main.cpp])

    [desc] is the description given to boost::program_options, [any_cast] what
    [vm[o].as<T>()] does with a parsed option, and [main_argv] the program from its
    arguments.  [options_typed] shows that every option is read at the type it is
    declared with, so that the reads of [Options] are those of the program. *)

From Stdlib Require Import SpecFloat.
From S2P Require Import Prelude Platform Options.

Local Open Scope string_scope.

(** ** Values *)
Inductive value_type := std_string | uint32 | unsigned_long | double.
#[export] Instance value_type_eq_dec : EqDecision value_type.
Proof. solve_decision. Defined.

Inductive value :=
  | StringValue (s : string)
  | U32Value (z : Z)
  | ULongValue (z : Z)
  | DoubleValue (d : spec_float).

Definition type_of (v : value) : value_type :=
  match v with
  | StringValue _ => std_string | U32Value _ => uint32
  | ULongValue _ => unsigned_long | DoubleValue _ => double
  end.

(** An option takes no value, or a value of a type, or one with a default. *)
Inductive semantic := Switch | Takes (t : value_type) | Defaults (v : value).

Record option_description := Option { long_name : string; short_name : string; takes : semantic }.

(** The stored options; the value of a switch is the empty string. *)
Abbreviation parsed := (gmap string value).

Definition value_ok (s : semantic) (x : value) : Prop :=
  match s with
  | Switch => x = StringValue ""
  | Takes t => type_of x = t
  | Defaults d => type_of x = type_of d
  end.

(** [po::store(po::parse_command_line(argc, argv, desc), vm)]: only declared options
    are stored, with values of their types, and those with a default always. *)
Class ProgramOptions := {
  parse_command_line : list option_description → list string → result parsed;
  parse_declared ds argv m o x :
    parse_command_line ds argv = Ok m → m !! o = Some x →
    ∃ d, d ∈ ds ∧ long_name d = o ∧ value_ok (takes d) x;
  parse_defaults ds argv m d v :
    parse_command_line ds argv = Ok m → d ∈ ds → takes d = Defaults v →
    is_Some (m !! long_name d);
}.

Definition desc : list option_description := [
  Option "help" "h" Switch;
  Option "verbose" "v" Switch;
  Option "mode" "m" (Takes std_string);
  Option "server-addr" "a" (Defaults (StringValue "192.168.12.2"));
  Option "port" "p" (Defaults (StringValue "12345"));
  Option "indexfile" "i" (Takes std_string);
  Option "edgefile" "e" (Takes std_string);
  Option "kernel" "k" (Defaults (StringValue default_kernel));
  Option "ofile" "o" (Defaults (StringValue "/home/username/graphs/kernel-out.txt"));
  Option "threads" "t" (Defaults (ULongValue default_threads));
  Option "cache_ratio" "c" (Defaults (DoubleValue (S754_zero false)));
  Option "cache_file_path" "f" (Takes std_string);
  Option "print-table" "" Switch;
  Option "kcore-k" "" (Defaults (U32Value default_kcore_k));
  Option "delta" "" (Defaults (U32Value default_delta));
  Option "start-vertex" "" (Defaults (U32Value default_start_vertex));
  Option "hp" "" Switch;
  Option "double-buffer" "" Switch;
  Option "edgewindow" "" (Defaults (U32Value default_edgewindow));
  Option "no-numa-bind" "" Switch;
  Option "madvise_thp" "" (Defaults (U32Value default_madvise_thp))].

(** [vm[o].as<T>()]: an exception when the option is absent or has a value of
    another type. *)
Definition any_cast (m : parsed) (o : string) (t : value_type) : result value :=
  match m !! o with
  | Some v => if bool_decide (type_of v = t) then Ok v else Fault (Thrown "bad_any_cast")
  | None => Fault (Thrown "bad_any_cast")
  end.

Definition as_string (m : parsed) (o : string) : result string :=
  v ← any_cast m o std_string;
  match v with StringValue s => Ok s | _ => Fault (Thrown "bad_any_cast") end.
Definition as_u32 (m : parsed) (o : string) : result Z :=
  v ← any_cast m o uint32;
  match v with U32Value z => Ok z | _ => Fault (Thrown "bad_any_cast") end.
Definition as_ulong (m : parsed) (o : string) : result Z :=
  v ← any_cast m o unsigned_long;
  match v with ULongValue z => Ok z | _ => Fault (Thrown "bad_any_cast") end.
Definition as_double (m : parsed) (o : string) : result spec_float :=
  v ← any_cast m o double;
  match v with DoubleValue d => Ok d | _ => Fault (Thrown "bad_any_cast") end.

(** The parsed options as the record the other components read. *)
Definition or_else {A} (r : result A) (x : A) : A := match r with Ok a => a | Fault _ => x end.

Definition view (m : parsed) : variables_map := {|
  present := (map_to_list m).*1;
  o_mode := or_else (as_string m "mode") "";
  o_kernel := or_else (as_string m "kernel") "";
  o_cache_file_path := or_else (as_string m "cache_file_path") "";
  o_indexfile := or_else (as_string m "indexfile") "";
  o_edgefile := or_else (as_string m "edgefile") "";
  o_threads := or_else (as_ulong m "threads") 0;
  o_cache_ratio := or_else (as_double m "cache_ratio") S754_nan;
  o_kcore_k := or_else (as_u32 m "kcore-k") 0;
  o_delta := or_else (as_u32 m "delta") 0;
  o_start_vertex := or_else (as_u32 m "start-vertex") 0;
  o_edgewindow := or_else (as_u32 m "edgewindow") 0;
  o_madvise_thp := or_else (as_u32 m "madvise_thp") 0;
|}.

(** ** Reads *)

(** Every [vm[o].as<T>()] of the program: those of [main], of [run_client] and
    [on_completion] (client_runtime.cpp), [FAMServer::run], [Generic_ctx] and the
    constructors of the kernels. *)
Definition reads : list (string * value_type) := [
  ("mode", std_string); ("server-addr", std_string); ("port", std_string);
  ("indexfile", std_string); ("edgefile", std_string); ("kernel", std_string);
  ("ofile", std_string); ("cache_file_path", std_string); ("threads", unsigned_long);
  ("cache_ratio", double); ("kcore-k", uint32); ("delta", uint32); ("start-vertex", uint32);
  ("edgewindow", uint32); ("madvise_thp", uint32)].

Definition no_default : list string := ["mode"; "indexfile"; "edgefile"; "cache_file_path"].

(** The name determines the description. *)
Lemma desc_names d1 d2 : d1 ∈ desc → d2 ∈ desc → long_name d1 = long_name d2 → d1 = d2.
Proof.
  intros H1 H2 Hn. assert (Hnd : NoDup (long_name <$> desc)) by (by apply (bool_decide_unpack _)).
  apply list_elem_of_lookup in H1 as [i Hi], H2 as [j Hj].
  assert (i = j) as <-; [|congruence].
  eapply (NoDup_lookup _ _ _ (long_name d1) Hnd); rewrite list_lookup_fmap.
  - by rewrite Hi.
  - by rewrite Hj, Hn.
Qed.

Lemma declared_desc : declared = long_name <$> desc.
Proof. done. Qed.

(** The description of an option. *)
Definition describe (o : string) : option option_description :=
  List.find (λ d, bool_decide (long_name d = o)) desc.

Lemma describe_spec o d : describe o = Some d → d ∈ desc ∧ long_name d = o.
Proof.
  intros [Hd Ho%bool_decide_eq_true]%List.find_some. split; [by apply list_elem_of_In|done].
Qed.

(** What is declared for an option that is read. *)
Definition read_ok (o : string) (t : value_type) : Prop :=
  match describe o with
  | Some d =>
      if bool_decide (o ∈ no_default) then takes d = Takes t
      else ∃ v, takes d = Defaults v ∧ type_of v = t
  | None => False
  end.

Lemma reads_declared o t : (o, t) ∈ reads → read_ok o t.
Proof.
  intros Hr. unfold reads in Hr.
  repeat (apply elem_of_cons in Hr as [Hr|Hr];
    [injection Hr as -> ->; vm_compute; first [reflexivity|eexists; split; reflexivity]|]).
  by apply not_elem_of_nil in Hr.
Qed.

Section command_line.
  Context {PO : ProgramOptions}.

(** The program from its arguments, up to [run_client] and [server.run]. *)
Definition main_argv (argv : list string) : result program :=
  m ← parse_command_line desc argv;
  main (view m).

(** The [catch] clause: an exception is reported and makes [main] return 1; [rc_die]
    ends the process with 1 as well. *)
Definition exit_status {A} (r : result A) : option Z :=
  match r with Ok _ => Some 0 | Fault (Thrown _) | Fault (Died _) => Some 1 | Fault _ => None end.

Section parsed.
  Context (argv : list string) (m : parsed) (Hm : parse_command_line desc argv = Ok m).

Lemma any_cast_read o t :
  (o, t) ∈ reads →
  match any_cast m o t with
  | Ok v => type_of v = t ∧ is_Some (m !! o)
  | Fault f => f = Thrown "bad_any_cast" ∧ m !! o = None ∧ o ∈ no_default
  end.
Proof using Hm.
  intros Hr%reads_declared. unfold read_ok in Hr. destruct (describe o) as [d|] eqn:Ed; [|done].
  apply describe_spec in Ed as [Hd Ho]. unfold any_cast. destruct (m !! o) as [x|] eqn:Ex.
  - destruct (parse_declared desc argv m o x Hm Ex) as (d' & Hd' & Ho' & Hx).
    assert (d' = d) as -> by (apply desc_names; congruence).
    case_bool_decide.
    + rewrite Hr in Hx. cbn in Hx. rewrite bool_decide_eq_true_2 by done. by split.
    + destruct Hr as (v0 & Ht & Hv0). rewrite Ht in Hx. cbn in Hx.
      rewrite bool_decide_eq_true_2 by congruence. split; [congruence|done].
  - case_bool_decide as Hn; [done|]. destruct Hr as (v0 & Ht & _).
    destruct (parse_defaults desc argv m d v0 Hm Hd Ht) as [x Hx]. congruence.
Qed.

Lemma present_view o : o ∈ present (view m) ↔ is_Some (m !! o).
Proof using Type.
  cbn. rewrite list_elem_of_fmap. split.
  - intros ([o' x] & -> & Hx%elem_of_map_to_list). by exists x.
  - intros [x Hx]. exists (o, x). by rewrite elem_of_map_to_list.
Qed.

(** A read through the record is the typed read. *)
Lemma as_value_view {A} (o : string) t (x : variables_map → A) (get : parsed → string → result A) :
  (o, t) ∈ reads → (∀ v, any_cast m o t = Ok v → type_of v = t → get m o = Ok (x (view m))) →
  (∀ f, any_cast m o t = Fault f → get m o = Fault f) →
  as_value (view m) o x = get m o.
Proof using Hm.
  intros Hr Hok Hf. pose proof (any_cast_read o t Hr) as Hc. unfold as_value.
  destruct (any_cast m o t) as [v|f] eqn:E.
  - destruct Hc as [Ht Hp]. rewrite bool_decide_eq_true_2 by (by apply present_view).
    by rewrite (Hok v).
  - destruct Hc as (-> & Hn & _). rewrite bool_decide_eq_false_2.
    + by rewrite (Hf _ eq_refl).
    + rewrite present_view, Hn. by intros [].
Qed.

Lemma as_value_string o (x : variables_map → string) :
  (o, std_string) ∈ reads → x (view m) = or_else (as_string m o) "" →
  as_value (view m) o x = as_string m o.
Proof using Hm.
  intros Hr Hx. apply (as_value_view o std_string); [done| |].
  - intros v E Ht. rewrite Hx. unfold as_string. rewrite E. by destruct v.
  - intros f E. unfold as_string. by rewrite E.
Qed.

Lemma as_value_u32 o (x : variables_map → Z) :
  (o, uint32) ∈ reads → x (view m) = or_else (as_u32 m o) 0 →
  as_value (view m) o x = as_u32 m o.
Proof using Hm.
  intros Hr Hx. apply (as_value_view o uint32); [done| |].
  - intros v E Ht. rewrite Hx. unfold as_u32. rewrite E. by destruct v.
  - intros f E. unfold as_u32. by rewrite E.
Qed.

Lemma as_value_ulong o (x : variables_map → Z) :
  (o, unsigned_long) ∈ reads → x (view m) = or_else (as_ulong m o) 0 →
  as_value (view m) o x = as_ulong m o.
Proof using Hm.
  intros Hr Hx. apply (as_value_view o unsigned_long); [done| |].
  - intros v E Ht. rewrite Hx. unfold as_ulong. rewrite E. by destruct v.
  - intros f E. unfold as_ulong. by rewrite E.
Qed.

Lemma as_value_double o (x : variables_map → spec_float) :
  (o, double) ∈ reads → x (view m) = or_else (as_double m o) S754_nan →
  as_value (view m) o x = as_double m o.
Proof using Hm.
  intros Hr Hx. apply (as_value_view o double); [done| |].
  - intros v E Ht. rewrite Hx. unfold as_double. rewrite E. by destruct v.
  - intros f E. unfold as_double. by rewrite E.
Qed.
End parsed.

(** C35: every option is read at the type it is declared with.  For every command
    line the parser accepts, each [vm[o].as<T>()] of the program either gives a value
    of type [T], or throws because the option was not given and has no default; and
    the fields of the record that the other components read are these values. *)
Theorem options_typed argv m :
  parse_command_line desc argv = Ok m →
  (∀ o t, (o, t) ∈ reads →
     match any_cast m o t with
     | Ok v => type_of v = t
     | Fault f => f = Thrown "bad_any_cast" ∧ m !! o = None ∧ o ∈ no_default
     end)
  ∧ stored (view m)
  ∧ (as_value (view m) "mode" o_mode = as_string m "mode"
     ∧ as_value (view m) "kernel" o_kernel = as_string m "kernel"
     ∧ as_value (view m) "cache_file_path" o_cache_file_path = as_string m "cache_file_path"
     ∧ as_value (view m) "indexfile" o_indexfile = as_string m "indexfile"
     ∧ as_value (view m) "edgefile" o_edgefile = as_string m "edgefile")
  ∧ as_value (view m) "threads" o_threads = as_ulong m "threads"
  ∧ as_value (view m) "cache_ratio" o_cache_ratio = as_double m "cache_ratio"
  ∧ Forall (λ '(o, x), as_value (view m) o x = as_u32 m o ∧ as_u32 m o = Ok (x (view m)))
      [("kcore-k", o_kcore_k); ("delta", o_delta); ("start-vertex", o_start_vertex);
       ("edgewindow", o_edgewindow); ("madvise_thp", o_madvise_thp)].
Proof.
  intros Hm. split.
  { intros o t Hr. pose proof (any_cast_read argv m Hm o t Hr) as Hc.
    destruct (any_cast m o t); [by destruct Hc|done]. }
  split.
  { intros o Ho. apply present_view in Ho as [x Hx].
    destruct (parse_declared desc argv m o x Hm Hx) as (d & Hd & <- & _).
    rewrite declared_desc. by apply list_elem_of_fmap_2. }
  split.
  { repeat split; apply (as_value_string argv m Hm); first [reflexivity|by apply (bool_decide_unpack _)]. }
  split; [apply (as_value_ulong argv m Hm); [by apply (bool_decide_unpack _)|done]|].
  split; [apply (as_value_double argv m Hm); [by apply (bool_decide_unpack _)|done]|].
  assert (Hu : ∀ o x, (o, uint32) ∈ reads → o ∉ no_default → x (view m) = or_else (as_u32 m o) 0 →
    as_value (view m) o x = as_u32 m o ∧ as_u32 m o = Ok (x (view m))).
  { intros o x Hr Hn Hx. split; [by apply (as_value_u32 argv m Hm)|]. rewrite Hx.
    pose proof (any_cast_read argv m Hm o _ Hr) as Hc. unfold as_u32 in *.
    destruct (any_cast m o uint32) as [v|f]; [|by destruct Hc as (_ & _ & ?)].
    destruct Hc as [Ht _]. by destruct v. }
  repeat (apply Forall_cons; split; [apply Hu; first [reflexivity|by apply (bool_decide_unpack _)]|]).
  by apply Forall_nil.
Qed.

(** C36: what [main] runs.  Arguments the parser rejects make it return 1.  Otherwise it
    prints the help when asked to; it returns 1 when no mode is given, or a cache ratio
    above the threshold without a cache file; it runs the client in mode "client" and
    the server in every other mode. *)
Theorem main_argv_correct argv :
  (∀ e, parse_command_line desc argv = Fault (Thrown e) → exit_status (main_argv argv) = Some 1)
  ∧ ∀ m, parse_command_line desc argv = Ok m →
      main_argv argv
      = (if bool_decide (is_Some (m !! "help")) then Ok Help
         else
           mode ← as_string m "mode";
           ratio ← as_double m "cache_ratio";
           if SFltb cache_ratio_min ratio && bool_decide (m !! "cache_file_path" = None)
           then Fault (Thrown "cache_file_path")
           else Ok (if bool_decide (mode = "client") then RunClient else RunServer))
      ∧ is_Some (exit_status (main_argv argv)).
Proof.
  split; [intros e E; unfold main_argv; by rewrite E|]. intros m Hm. unfold main_argv. rewrite Hm, bind_ok.
  assert (Hmode : as_value (view m) "mode" o_mode = as_string m "mode").
  { by apply (as_value_string argv m Hm); [apply (bool_decide_unpack _)|]. }
  assert (Hratio : as_value (view m) "cache_ratio" o_cache_ratio = as_double m "cache_ratio").
  { by apply (as_value_double argv m Hm); [apply (bool_decide_unpack _)|]. }
  assert (Hcount : ∀ o, count (view m) o = if bool_decide (is_Some (m !! o)) then 1 else 0).
  { intros o. unfold count. by rewrite (bool_decide_ext _ _ (present_view m o)). }
  pose proof (any_cast_read argv m Hm "cache_ratio" double ltac:(by apply (bool_decide_unpack _))) as Hcr.
  unfold as_double in *. destruct (any_cast m "cache_ratio" double) as [v|f]; cycle 1.
  { destruct Hcr as (_ & _ & Hno). by apply (bool_decide_eq_true_2 _) in Hno. }
  destruct Hcr as [Hcr _]. destruct v as [x|x|x|ratio]; try done.
  pose proof (any_cast_read argv m Hm "mode" std_string ltac:(by apply (bool_decide_unpack _))) as Hcm.
  unfold main. rewrite !Hcount. destruct (m !! "help"); [done|].
  rewrite (bool_decide_eq_false_2 (is_Some None)) by (by intros []).
  rewrite (bool_decide_eq_false_2 (0 ≠ 0)) by lia. rewrite Hmode, Hratio, bind_ok.
  unfold as_string. destruct (any_cast m "mode" std_string) as [v|f]; destruct Hcm as [Hv Hm0].
  - destruct v as [mode|z|z|x]; try done. destruct (m !! "mode"); [|by destruct Hm0].
    rewrite (bool_decide_eq_true_2 (is_Some (Some _))) by done.
    rewrite (bool_decide_eq_false_2 (1 = 0)), !bind_ok by lia.
    destruct (m !! "cache_file_path").
    + rewrite (bool_decide_eq_true_2 (is_Some (Some _))), (bool_decide_eq_false_2 (1 = 0)),
        (bool_decide_eq_false_2 (Some _ = None)), andb_false_r by first [done|lia]. by case_bool_decide.
    + rewrite (bool_decide_eq_false_2 (is_Some None)) by (by intros []).
      rewrite (bool_decide_eq_true_2 (0 = 0)), (bool_decide_eq_true_2 (None = None)), andb_true_r by done.
      destruct (SFltb _ _); [done|]. by case_bool_decide.
  - destruct Hm0 as [-> _]. subst f.
    by rewrite (bool_decide_eq_false_2 (is_Some None)) by (by intros []).
Qed.
End command_line.
