(* ===== verification/ToolMains.v ===== *)
(** * ToolMains: the programs of [util/] from their command lines

    The [main] functions of the converters ([edge_list_to_csr.cpp],
    [edge_list_to_decsr.cpp]) and of [fg2gr], [compare_gr], [maxd] and [memusage]: a
    program reads and writes the files of a [world], prints, and exits with a status
    or is ended by an exception nobody catches.  [converter_main_correct] and
    [text_to_gr] say what is on the disk afterwards. *)

From Stdlib Require Import Ascii.
From stdpp Require Import sorting.
From S2P Require Import Prelude Platform VertexTable Csr CsrWeighted GrTools CommandLine.

(** ** Paths and permissions *)

(** What the tools use of [boost::filesystem::path]: the new extension follows what is
    left of the path, and an extension is what follows the last dot of a file name;
    [plain] strings have neither dots nor slashes. *)
Fixpoint plain (s : string) : bool :=
  match s with
  | EmptyString => true
  | String c s => negb (bool_decide (c = "."%char ∨ c = "/"%char)) && plain s
  end.

Class Paths := {
  replace_extension : string → string → string;
  replace_extension_base p : ∃ base, ∀ e, replace_extension p ("." +:+ e) = base +:+ "." +:+ e;
  replace_extension_known base e e' :
    base ≠ ""%string → (∀ d, base ≠ d +:+ "/") → plain e = true →
    replace_extension (base +:+ "." +:+ e) ("." +:+ e') = base +:+ "." +:+ e';
  can_read : string → bool;
  can_write : string → bool;
}.

(** ** The world of a tool *)
Inductive line :=
  | HelpScreen
  | Caught (what : string)
  | HeadersDoNotMatch
  | Counts (V E : Z)
  | ComparingIndex
  | ComparingAdj
  | Differ (index a b : Z)
  | MaxOutDegree (d : Z)
  | MemoryUsage (bytes : Z).

Record world := World { files : gmap string fs_node; printed : list line }.

#[export] Instance fs_node_eq_dec : EqDecision fs_node.
Proof. solve_decision. Defined.

Definition node_of (d : gmap string fs_node) (p : string) : fs_node := default Missing (d !! p).
Definition set_files (d : gmap string fs_node) (w : world) : world := World d (printed w).
Definition print (l : line) (w : world) : world := World (files w) (printed w ++ [l]).

Definition tool (A : Type) : Type := world → world * result A.
#[export] Instance tool_ret : MRet tool := λ A a w, (w, Ok a).
#[export] Instance tool_bind : MBind tool := λ A B k t w,
  match t w with (w', Ok a) => k a w' | (w', Fault f) => (w', Fault f) end.

Definition pure {A} (r : result A) : tool A := λ w, (w, r).
Definition tell (l : line) : tool () := λ w, (print l w, Ok ()).
Definition node_at (p : string) : tool fs_node := λ w, (w, Ok (node_of (files w) p)).

(** [for (uint64_t i = 0; i < n; ++i)] *)
Fixpoint each_of {A S} (l : list A) (body : A → S → tool S) (s : S) : tool S :=
  match l with [] => mret s | x :: l => s ← body x s; each_of l body s end.

Section tools.
  Context {PA : Paths} {PO : ProgramOptions} {DS : DplSort}.

(** The bytes of an opened file, and the path an output stream writes to. *)
Definition ifstream (p : string) : tool (option (list Z)) :=
  nd ← node_at p;
  mret (if can_read p && fs_is_regular_file nd then Some (fs_content nd) else None).

Definition ofstream (p : string) : tool (option string) := λ w,
  if can_write p && negb (bool_decide (node_of (files w) p = NotRegular))
  then (set_files (<[p := Regular []]> (files w)) w, Ok (Some p))
  else (w, Ok None).

Definition write (o : option string) (bytes : list Z) : tool () := λ w,
  match o with
  | Some p => (set_files (<[p := Regular (fs_content (node_of (files w) p) ++ bytes)]> (files w)) w, Ok ())
  | None => (w, Ok ())
  end.

(** [try { ... } catch (const std::exception &ex)] around the body of every [main]. *)
Definition catch (t : tool Z) : tool Z := λ w,
  match t w with
  | (w', Fault (Thrown what)) => (print (Caught what) w', Ok 1)
  | r => r
  end.

Definition count (m : parsed) (o : string) : bool := bool_decide (is_Some (m !! o)).

(** ** The converters *)
Definition converter_desc : list option_description := [
  Option "help" "h" Switch;
  Option "infile" "i" (Takes std_string);
  Option "outdir" "o" (Takes std_string);
  Option "sorted" "s" Switch;
  Option "weighted" "w" Switch;
  Option "make-undirected" "" Switch].

(** What distinguishes the two programs. *)
Record converter := Converter {
  suffix : string;
  weighted_encoder : bool → bool → list Z → result csr_files;
  unweighted_encoder : bool → bool → list Z → result csr_files;
}.
Definition csr : converter := Converter "csr" encode_weighted encode_unweighted.
Definition decsr : converter := Converter "decsr" decsr_encode_weighted decsr_encode_unweighted.

(** [encode_weighted] and [encode_unweighted] with their files. *)
Definition encode_to (encoder : bool → bool → list Z → result csr_files)
    (p index adj : string) (vm : parsed) : tool () :=
  ifs ← ifstream p;
  f ← pure (encoder (count vm "make-undirected") (count vm "sorted") (default [] ifs));
  index_ostream ← ofstream index;
  adj_ostream ← ofstream adj;
  _ ← write index_ostream (idx_file f);
  write adj_ostream (adj_file f).

Definition converter_main (c : converter) (argv : list string) : tool Z := catch (
  vm ← pure (parse_command_line converter_desc argv);
  _ ← (if count vm "help" then tell HelpScreen else mret ());
  file ← pure (as_string vm "infile");
  outdir ← pure (as_string vm "outdir");
  outdir2 ← pure (as_string vm "outdir");
  let index := replace_extension (outdir +:+ suffix c) ".idx" in
  let adj := replace_extension (outdir2 +:+ suffix c) ".adj" in
  nd ← node_at file;
  if fs_exists nd && fs_is_regular_file nd then
    _ ← encode_to (if count vm "weighted" then weighted_encoder c else unweighted_encoder c) file index adj vm;
    mret 0
  else pure (Fault (Terminated "Input file not found"))).

(** ** [fg2gr] *)
Definition fg2gr_desc : list option_description := [
  Option "help" "h" Switch;
  Option "idx" "i" (Takes std_string);
  Option "adj" "a" (Takes std_string);
  Option "symmetric" "s" Switch].

Definition write_as_to (k : nat) (n : Z) (input : list Z) (os : option string) : tool (list Z) :=
  each_of (rng 0 n) (λ _ input,
    '(x, input) ← pure (read_one k input);
    _ ← write os (le_encode k x);
    mret input) input.

Definition fg2gr_main (argv : list string) : tool Z := catch (
  vm ← pure (parse_command_line fg2gr_desc argv);
  if count vm "help" then _ ← tell HelpScreen; mret 0
  else
    index ← pure (as_string vm "idx");
    adj ← pure (as_string vm "adj");
    let out := replace_extension index (if count vm "symmetric" then ".sgr" else ".gr") in
    nd ← node_at index; _ ← pure (validate_file nd);
    nd ← node_at adj; _ ← pure (validate_file nd);
    os ← ofstream out;
    nd ← node_at index; let verts := num_elements 8 nd in
    nd ← node_at adj; let edges := num_elements 4 nd in
    idxstream ← ifstream index;
    idxstream ← pure (from_option Ok (Fault (Thrown "Couldn't open file!")) idxstream);
    adjstream ← ifstream adj;
    adjstream ← pure (from_option Ok (Fault (Thrown "Couldn't open file!")) adjstream);
    _ ← write os (write_header verts edges []);
    '(_, idxstream) ← pure (read_one 8 idxstream);
    _ ← write_as_to 8 (u64 (verts - 1)) idxstream os;
    _ ← write os (le_encode 8 edges);
    _ ← write_as_to 4 edges adjstream os;
    _ ← (if bool_decide (Z.land edges 1 ≠ 0) then write os (le_encode 4 0) else mret ());
    mret 0).

(** ** [compare_gr] *)
Definition compare_desc : list option_description := [
  Option "help" "h" Switch;
  Option "A" "a" (Takes std_string);
  Option "B" "b" (Takes std_string)].

Definition compare_to (k : nat) (n : Z) (streams : list Z * list Z) : tool (list Z * list Z) :=
  each_of (rng 0 n) (λ i '(streamA, streamB),
    '(a, streamA) ← pure (read_one k streamA);
    '(b, streamB) ← pure (read_one k streamB);
    _ ← (if bool_decide (a ≠ b) then tell (Differ i a b) else mret ());
    mret (streamA, streamB)) streams.

Definition compare_gr_main (argv : list string) : tool Z := catch (
  vm ← pure (parse_command_line compare_desc argv);
  if count vm "help" then _ ← tell HelpScreen; mret 0
  else
    f1 ← pure (as_string vm "A");
    f2 ← pure (as_string vm "B");
    nd ← node_at f1; _ ← pure (validate_file nd);
    nd ← node_at f2; _ ← pure (validate_file nd);
    inputA ← ifstream f1;
    inputA ← pure (from_option Ok (Fault (Thrown "Couldn't open file!")) inputA);
    inputB ← ifstream f2;
    inputB ← pure (from_option Ok (Fault (Thrown "Couldn't open file!")) inputB);
    '(m, V, E, inputA, inputB) ← pure (compare_headers inputA inputB);
    if negb m then _ ← tell HeadersDoNotMatch; mret 0
    else
      _ ← tell (Counts V E);
      _ ← tell ComparingIndex;
      inputs ← compare_to 8 V (inputA, inputB);
      _ ← tell ComparingAdj;
      _ ← compare_to 4 E inputs;
      mret 0).

(** ** [maxd] and [memusage] *)
Definition maxd_desc : list option_description := [
  Option "help" "h" Switch; Option "infile" "i" (Takes std_string)].

(** [max_degree] opens the file once more and throws when it cannot. *)
Definition max_degree_of (max_degree : fs_node → result Z) (index : string) : tool Z :=
  nd ← node_at index;
  input ← ifstream index;
  _ ← pure (from_option Ok (Fault (Thrown "Couldn't open .idx file")) input);
  pure (max_degree nd).

Definition maxd_main (argv : list string) : tool Z := catch (
  vm ← pure (parse_command_line maxd_desc argv);
  _ ← (if count vm "help" then tell HelpScreen else mret ());
  index ← pure (as_string vm "infile");
  nd ← node_at index;
  if fs_exists nd && fs_is_regular_file nd then
    max ← max_degree_of maxd_max_degree index;
    _ ← tell (MaxOutDegree max);
    mret 0
  else pure (Fault (Thrown "Input file not found"))).

Definition memusage_desc : list option_description := [
  Option "help" "h" Switch; Option "infile" "i" (Takes std_string);
  Option "threads" "t" (Defaults (ULongValue 40));
  Option "vertsize" "" (Defaults (ULongValue 4));
  Option "edgewindow" "" (Defaults (ULongValue 1))].

Definition memusage_main (argv : list string) : tool Z := catch (
  vm ← pure (parse_command_line memusage_desc argv);
  if count vm "help" then _ ← tell HelpScreen; mret 0
  else
    index ← pure (as_string vm "infile");
    nd ← node_at index;
    if fs_exists nd && fs_is_regular_file nd then
      threads ← pure (as_ulong vm "threads");
      B ← pure (as_ulong vm "vertsize");
      let verts := num_elements 8 nd in
      max ← max_degree_of memusage_max_degree index;
      ew ← pure (as_ulong vm "edgewindow");
      _ ← tell (MaxOutDegree max);
      _ ← tell (MemoryUsage (u64 ((8 + B) * verts + 4 * max * threads * ew)));
      mret 0
    else pure (Fault (Thrown "Input file not found"))).
End tools.

(** ** Running a tool *)
Lemma tool_bind_ok {A B} (t : tool A) (k : A → tool B) w w' a :
  t w = (w', Ok a) → (t ≫= k) w = k a w'.
Proof. intros E. unfold mbind, tool_bind. by rewrite E. Qed.

Lemma tool_bind_fault {A B} (t : tool A) (k : A → tool B) w w' f :
  t w = (w', Fault f) → (t ≫= k) w = (w', Fault f).
Proof. intros E. unfold mbind, tool_bind. by rewrite E. Qed.

Lemma each_of_cons {A S} (x : A) l (body : A → S → tool S) s w w' s' :
  body x s w = (w', Ok s') → each_of (x :: l) body s w = each_of l body s' w'.
Proof. intros E. cbn [each_of]. by apply tool_bind_ok. Qed.

Lemma each_of_nil {A S} (body : A → S → tool S) s w : each_of [] body s w = (w, Ok s).
Proof. done. Qed.

Lemma node_of_insert d p nd : node_of (<[p := nd]> d) p = nd.
Proof. unfold node_of. by rewrite lookup_insert_eq. Qed.
Lemma node_of_insert_ne d p p' nd : p ≠ p' → node_of (<[p := nd]> d) p' = node_of d p'.
Proof. intros Hne. unfold node_of. by rewrite lookup_insert_ne. Qed.

Lemma if_tell (b : bool) w :
  (if b then tell HelpScreen else mret ()) w = ((if b then print HelpScreen w else w), Ok ()).
Proof. by destruct b. Qed.

Section proofs.
  Context {PA : Paths} {PO : ProgramOptions} {DS : DplSort}.

(** A file that is opened, written and closed; nothing happens when it cannot be
    opened, and nobody notices. *)
Definition writable (d : gmap string fs_node) (p : string) : bool :=
  can_write p && negb (bool_decide (node_of d p = NotRegular)).
Definition put (p : string) (bytes : list Z) (d : gmap string fs_node) : gmap string fs_node :=
  if writable d p then <[p := Regular bytes]> d else d.

Lemma ofstream_ok p w :
  ofstream p w = (set_files (put p [] (files w)) w, Ok (if writable (files w) p then Some p else None)).
Proof. unfold ofstream, put. fold (writable (files w) p). destruct w as [d l]. by case_match. Qed.

Lemma write_put p d l o bytes :
  write (if writable d p then Some p else None) bytes (World (put p o d) l) = (World (put p (o ++ bytes) d) l, Ok ()).
Proof.
  unfold put. destruct (writable d p); [|done]. cbn. rewrite node_of_insert. cbn.
  unfold set_files. cbn. by rewrite insert_insert_eq.
Qed.

Lemma writable_put_ne p x d p' : p ≠ p' → writable (put p x d) p' = writable d p'.
Proof. intros Hne. unfold put. destruct (writable d p); [|done]. unfold writable. by rewrite node_of_insert_ne. Qed.

(** Two streams that are open at the same time. *)
Lemma write_put_two p p' d l b b' :
  p ≠ p' →
  write (if writable d p then Some p else None) b (World (put p' b' (put p [] d)) l)
  = (World (put p' b' (put p b d)) l, Ok ()).
Proof.
  intros Hne. unfold put at 1 3. rewrite !writable_put_ne by done. unfold put. destruct (writable d p) eqn:Ep; [|by destruct (writable d p')].
  cbn. unfold set_files. cbn. destruct (writable d p').
  - rewrite node_of_insert_ne, node_of_insert by done. cbn.
    by rewrite (insert_insert_ne _ p p'), insert_insert_eq by done.
  - rewrite node_of_insert. cbn. by rewrite insert_insert_eq.
Qed.

(** ** The converters *)
Fixpoint last_char (s : string) : option Ascii.ascii :=
  match s with
  | EmptyString => None
  | String c s => match last_char s with Some d => Some d | None => Some c end
  end.

Lemma last_char_app a b d : last_char b = Some d → last_char (a +:+ b) = Some d.
Proof. intros Hb. induction a as [|c a IH]; [done|].
  change (match last_char (a +:+ b) with Some d => Some d | None => Some c end = Some d). by rewrite IH. Qed.

Lemma extension_last p e d :
  last_char e = Some d → last_char (replace_extension p ("." +:+ e)) = Some d.
Proof.
  intros He. destruct (replace_extension_base p) as [base ->]. apply last_char_app. by apply (last_char_app ".").
Qed.

(** Extensions with different last letters make different paths. *)
Lemma extensions_differ p q e e' c c' :
  last_char e = Some c → last_char e' = Some c' → c ≠ c' →
  replace_extension p ("." +:+ e) ≠ replace_extension q ("." +:+ e').
Proof. intros He He' Hne E. pose proof (extension_last p e c He) as H. rewrite E, (extension_last q e' c') in H; congruence. Qed.

Lemma encode_to_ok encoder p index adj vm w f :
  index ≠ adj →
  encoder (count vm "make-undirected") (count vm "sorted")
    (if can_read p then fs_content (node_of (files w) p) else []) = Ok f →
  encode_to encoder p index adj vm w
  = (World (put adj (adj_file f) (put index (idx_file f) (files w))) (printed w), Ok ()).
Proof.
  intros Hne Ef. destruct w as [d l]. unfold encode_to. cbn [files printed] in *.
  rewrite (tool_bind_ok _ _ _ (World d l)
    (if can_read p && fs_is_regular_file (node_of d p) then Some (fs_content (node_of d p)) else None)) by done.
  rewrite (tool_bind_ok _ _ _ (World d l) f).
  2:{ unfold pure. rewrite <- Ef. do 3 f_equal. destruct (can_read p); [|done]. by destruct (node_of d p). }
  erewrite tool_bind_ok by apply ofstream_ok. erewrite tool_bind_ok by apply ofstream_ok. cbn [files set_files printed].
  erewrite tool_bind_ok by (by apply write_put_two).
  rewrite writable_put_ne, <- (writable_put_ne index (idx_file f) d) by done.
  exact (write_put adj (put index (idx_file f) d) l [] (adj_file f)).
Qed.

Definition on_help (vm : parsed) (w : world) : world := if count vm "help" then print HelpScreen w else w.

Definition encoder_of (c : converter) (vm : parsed) : bool → bool → list Z → result csr_files :=
  if count vm "weighted" then weighted_encoder c else unweighted_encoder c.

(** What a converter leaves behind.  Without a path for the input or the output it
    returns 1; when there is no such input file, what it throws ends the process;
    otherwise it writes the index and the adjacency file next to each other, as far as
    they can be opened for writing, and nothing else. *)
Theorem converter_main_correct c argv w :
  (∀ e, parse_command_line converter_desc argv = Fault (Thrown e) →
     converter_main c argv w = (print (Caught e) w, Ok 1))
  ∧ ∀ vm, parse_command_line converter_desc argv = Ok vm →
      match as_string vm "infile", as_string vm "outdir" with
      | Ok file, Ok outdir =>
          let index := replace_extension (outdir +:+ suffix c) ".idx" in
          let adj := replace_extension (outdir +:+ suffix c) ".adj" in
          index ≠ adj ∧
          match node_of (files w) file with
          | Regular text => ∀ f,
              encoder_of c vm (count vm "make-undirected") (count vm "sorted")
                (if can_read file then text else []) = Ok f →
              converter_main c argv w
              = (set_files (put adj (adj_file f) (put index (idx_file f) (files w))) (on_help vm w), Ok 0)
          | _ => converter_main c argv w = (on_help vm w, Fault (Terminated "Input file not found"))
          end
      | _, _ => converter_main c argv w = (print (Caught "bad_any_cast") (on_help vm w), Ok 1)
      end.
Proof.
  split. { intros e E. unfold converter_main, catch. rewrite E. by rewrite (tool_bind_fault (pure _) _ w w (Thrown e)). }
  intros vm Hvm. unfold converter_main, catch. rewrite Hvm. rewrite (tool_bind_ok (pure (Ok vm)) _ w w vm) by done.
  erewrite tool_bind_ok by apply if_tell. fold (on_help vm w).
  assert (Hs : ∀ o, match as_string vm o with Ok _ => True | Fault f => f = Thrown "bad_any_cast" end).
  { intros o. unfold as_string, any_cast. destruct (vm !! o) as [[]|]; try case_bool_decide; done. }
  pose proof (Hs "infile") as H1. pose proof (Hs "outdir") as H2.
  destruct (as_string vm "infile") as [file|]; [|subst; done].
  rewrite (tool_bind_ok (pure (Ok file)) _ _ (on_help vm w) file) by done.
  destruct (as_string vm "outdir") as [outdir|]; [|subst; done].
  rewrite !(tool_bind_ok (pure (Ok outdir)) _ _ (on_help vm w) outdir) by done. cbv zeta.
  assert (Hne : replace_extension (outdir +:+ suffix c) ".idx" ≠ replace_extension (outdir +:+ suffix c) ".adj")
    by exact (extensions_differ _ _ "idx" "adj" "x" "j" eq_refl eq_refl ltac:(done)). split; [done|].
  assert (Hfiles : files (on_help vm w) = files w) by (unfold on_help; by case_match).
  rewrite (tool_bind_ok (node_at file) _ _ (on_help vm w) (node_of (files w) file)) by (unfold node_at; by rewrite Hfiles).
  destruct (node_of (files w) file) as [| |text] eqn:En; [done..|]. intros f Ef. cbn [fs_exists fs_is_regular_file andb].
  erewrite tool_bind_ok; [|apply encode_to_ok; [done|]; rewrite Hfiles, En; exact Ef]. by rewrite Hfiles.
Qed.

(** ** [fg2gr] *)
Lemma write_as_to_ok k xs rest p d o l :
  fits k xs →
  write_as_to k (zlen xs) (le_words k xs ++ rest) (if writable d p then Some p else None) (World (put p o d) l)
  = (World (put p (o ++ le_words k xs) d) l, Ok rest).
Proof.
  intros Hx. unfold write_as_to. rewrite <- (Z.add_0_l (zlen xs)). generalize 0 as lo. revert o.
  induction Hx as [|x xs Hx _ IH]; intros o lo.
  - rewrite rng_nil by (unfold zlen; simpl; lia). cbn. by rewrite app_nil_r.
  - assert (zlen (x :: xs) = 1 + zlen xs) as -> by (unfold zlen; simpl; lia).
    pose proof (zlen_nonneg xs). rewrite rng_cons by lia. rewrite le_words_cons, <- app_assoc.
    erewrite each_of_cons; [replace (lo + (1 + zlen xs)) with (lo + 1 + zlen xs) by lia; rewrite IH, <- app_assoc; done|].
    rewrite read_one_word by done. rewrite (tool_bind_ok (pure _) _ _ (World (put p o d) l) (x, le_words k xs ++ rest)) by done.
    cbv beta iota. by erewrite tool_bind_ok by apply write_put.
Qed.

Lemma ifstream_ok p w bytes :
  can_read p = true → node_of (files w) p = Regular bytes → ifstream p w = (w, Ok (Some bytes)).
Proof. intros Hr Hn. unfold ifstream, node_at, mbind, tool_bind. by rewrite Hn, Hr. Qed.

(** An input that is there and can be read, opened. *)
Lemma open_input {A} p w bytes (k : list Z → tool A) :
  can_read p = true → node_of (files w) p = Regular bytes →
  (s ← ifstream p; s ← pure (from_option Ok (Fault (Thrown "Couldn't open file!")) s); k s) w = k bytes w.
Proof. intros Hr Hn. erewrite tool_bind_ok by (by apply ifstream_ok). by apply tool_bind_ok. Qed.

Lemma valid_input {A} p w bytes (k : tool A) :
  node_of (files w) p = Regular bytes → (nd ← node_at p; _ ← pure (validate_file nd); k) w = k w.
Proof. intros Hn. unfold node_at, pure, mbind, tool_bind. by rewrite Hn. Qed.

Lemma node_of_put_ne p x d p' : p ≠ p' → node_of (put p x d) p' = node_of d p'.
Proof. intros Hne. unfold put. destruct (writable d p); [|done]. by apply node_of_insert_ne. Qed.

Lemma node_of_put p x d : writable d p = true → node_of (put p x d) p = Regular x.
Proof. intros Hw. unfold put. by rewrite Hw, node_of_insert. Qed.

(** Two files written one after the other. *)
Lemma put_two p q out x y d :
  p ≠ q → out ≠ p → out ≠ q → writable d p = true → writable d q = true →
  let d1 := put q y (put p x d) in
  node_of d1 p = Regular x ∧ node_of d1 q = Regular y
  ∧ (∀ p', p' ≠ p → p' ≠ q → node_of d1 p' = node_of d p') ∧ writable d1 out = writable d out.
Proof.
  intros Hpq Hp Hq Hwp Hwq d1. subst d1. split; [|split; [|split]].
  - rewrite node_of_put_ne by done. by apply node_of_put.
  - apply node_of_put. by rewrite writable_put_ne.
  - intros p' ??. by rewrite !node_of_put_ne.
  - by rewrite !writable_put_ne.
Qed.

(** [fg2gr] on the index and the words of a graph with at least one vertex, when its
    output is neither of its inputs. *)
Theorem fg2gr_main_correct argv vm index adj o offs words w :
  parse_command_line fg2gr_desc argv = Ok vm → count vm "help" = false →
  as_string vm "idx" = Ok index → as_string vm "adj" = Ok adj →
  let out := replace_extension index (if count vm "symmetric" then ".sgr" else ".gr") in
  out ≠ index → out ≠ adj → can_read index = true → can_read adj = true →
  node_of (files w) index = Regular (le_words 8 (o :: offs)) →
  node_of (files w) adj = Regular (le_words 4 words) →
  fits 8 (o :: offs) → fits 4 words → zlen (o :: offs) < 2 ^ 64 →
  fg2gr_main argv w = (set_files (put out (gr_bytes (offs ++ [zlen words]) words) (files w)) w, Ok 0).
Proof.
  intros Hvm Hh Hi Ha out Hoi Hoa Hri Hra Hni Hna Hfi Hfw Hlen. destruct w as [d l]. cbn [files] in *.
  apply Forall_cons in Hfi as [Ho Hfo]. unfold fg2gr_main, catch.
  rewrite Hvm, (tool_bind_ok (pure (Ok vm)) _ _ (World d l) vm), Hh by done.
  rewrite Hi, (tool_bind_ok (pure (Ok index)) _ _ (World d l) index) by done.
  rewrite Ha, (tool_bind_ok (pure (Ok adj)) _ _ (World d l) adj) by done. cbv zeta. fold out.
  erewrite valid_input by exact Hni. erewrite valid_input by exact Hna.
  erewrite tool_bind_ok by apply ofstream_ok. cbn [files set_files printed].
  rewrite (tool_bind_ok (node_at index) _ _ (World (put out [] d) l) (Regular (le_words 8 (o :: offs))))
    by (unfold node_at; cbn; by rewrite node_of_put_ne, Hni).
  rewrite (tool_bind_ok (node_at adj) _ _ (World (put out [] d) l) (Regular (le_words 4 words)))
    by (unfold node_at; cbn; by rewrite node_of_put_ne, Hna).
  pose proof (file_elements 8 (o :: offs) ltac:(lia)) as E8. pose proof (file_elements 4 words ltac:(lia)) as E4.
  change (Z.of_nat 8) with 8 in E8. change (Z.of_nat 4) with 4 in E4. rewrite E8, E4.
  erewrite open_input; [|done|by cbn; rewrite node_of_put_ne].
  erewrite open_input; [|done|by cbn; rewrite node_of_put_ne].
  erewrite tool_bind_ok by apply write_put.
  rewrite le_words_cons, read_one_word by done.
  rewrite (tool_bind_ok (pure _) _ _ _ (o, le_words 8 offs)) by done. cbv beta iota.
  assert (zlen (o :: offs) = 1 + zlen offs) as Hl by (unfold zlen; simpl; lia). pose proof (zlen_nonneg offs).
  replace (u64 (zlen (o :: offs) - 1)) with (zlen offs) by (rewrite Hl, u64_id'; lia).
  rewrite <- (app_nil_r (le_words 8 offs)). erewrite tool_bind_ok by (by apply write_as_to_ok).
  erewrite tool_bind_ok by apply write_put.
  rewrite <- (app_nil_r (le_words 4 words)). erewrite tool_bind_ok by (by apply write_as_to_ok).
  unfold gr_bytes. rewrite <- (gr_layout o). case_bool_decide.
  - erewrite tool_bind_ok by apply write_put. rewrite (le_words_cons 4 0 []), le_words_nil, !app_nil_r.
    by rewrite app_nil_l, <- !app_assoc.
  - rewrite (tool_bind_ok _ _ _ _ () eq_refl). by rewrite app_nil_l, app_nil_r, <- !app_assoc.
Qed.

(** ** [compare_gr] *)
Definition differ (l : list (Z * Z * Z)) : list line := (λ '(i, a, b), Differ i a b) <$> l.

Lemma compare_to_ok k xs ys rA rB d l :
  fits k xs → fits k ys → length xs = length ys →
  compare_to k (zlen xs) (le_words k xs ++ rA, le_words k ys ++ rB) (World d l)
  = (World d (l ++ differ (diffs 0 xs ys)), Ok (rA, rB)).
Proof.
  intros Hx Hy Hl. unfold compare_to. rewrite <- (Z.add_0_l (zlen xs)). generalize 0 at 1 2 3 as lo.
  revert ys Hy Hl l. induction Hx as [|x xs Hx _ IH]; intros [|y ys] Hy Hl l lo; try done.
  - rewrite rng_nil by (unfold zlen; simpl; lia). cbn. by rewrite app_nil_r.
  - apply Forall_cons in Hy as [Hy Hys]. simpl in Hl.
    assert (zlen (x :: xs) = 1 + zlen xs) as -> by (unfold zlen; simpl; lia).
    pose proof (zlen_nonneg xs). rewrite rng_cons by lia. rewrite !le_words_cons, <- !app_assoc.
    erewrite each_of_cons; [replace (lo + (1 + zlen xs)) with (lo + 1 + zlen xs) by lia; rewrite IH by (done || lia)|].
    2:{ rewrite !read_one_word by done. rewrite (tool_bind_ok (pure _) _ _ (World d l) (x, le_words k xs ++ rA)) by done.
        cbv beta iota. rewrite (tool_bind_ok (pure _) _ _ (World d l) (y, le_words k ys ++ rB)) by done. cbv beta iota.
        rewrite (tool_bind_ok _ _ _ (World d (l ++ differ (if bool_decide (x ≠ y) then [(lo, x, y)] else []))) ()); [done|].
        case_bool_decide; [done|]. cbn. by rewrite app_nil_r. }
    cbn [diffs]. unfold differ. by rewrite fmap_app, app_assoc.
Qed.

(** C40: [compare_gr] from its command line finds every difference.  On two readable
    [.gr] files of graphs with the same numbers of vertices and edges it returns 0,
    changes no file and prints, in their order, exactly the positions at which the
    indices and then the edges differ with the values of both files: it prints none if
    and only if the two graphs are equal. *)
Theorem compare_gr_main_correct argv vm f1 f2 e1 w1 e2 w2 w :
  parse_command_line compare_desc argv = Ok vm → count vm "help" = false →
  as_string vm "A" = Ok f1 → as_string vm "B" = Ok f2 → can_read f1 = true → can_read f2 = true →
  node_of (files w) f1 = Regular (gr_bytes e1 w1) → node_of (files w) f2 = Regular (gr_bytes e2 w2) →
  fits 8 e1 → fits 8 e2 → fits 4 w1 → fits 4 w2 →
  length e1 = length e2 → length w1 = length w2 → zlen e1 < 2 ^ 64 → zlen w1 < 2 ^ 64 →
  compare_gr_main argv w
  = (World (files w) (printed w ++ [Counts (zlen e1) (zlen w1); ComparingIndex] ++ differ (diffs 0 e1 e2)
       ++ [ComparingAdj] ++ differ (diffs 0 w1 w2)), Ok 0)
  ∧ (diffs 0 e1 e2 = [] ∧ diffs 0 w1 w2 = [] ↔ e1 = e2 ∧ w1 = w2).
Proof.
  intros Hvm Hh HA HB Hr1 Hr2 Hn1 Hn2 He1 He2 Hw1 Hw2 Hle Hlw Hn Hm.
  split; [|by rewrite !diffs_nil]. destruct w as [d l]. cbn [files printed] in *.
  assert (zlen e2 = zlen e1 ∧ zlen w2 = zlen w1) as [El Ew] by (unfold zlen; lia).
  unfold compare_gr_main, catch. rewrite Hvm, (tool_bind_ok (pure (Ok vm)) _ _ (World d l) vm), Hh by done.
  rewrite HA, (tool_bind_ok (pure (Ok f1)) _ _ (World d l) f1) by done.
  rewrite HB, (tool_bind_ok (pure (Ok f2)) _ _ (World d l) f2) by done.
  erewrite valid_input by exact Hn1. erewrite valid_input by exact Hn2.
  erewrite open_input by done. erewrite open_input by done.
  unfold gr_bytes, compare_headers. rewrite (read_header_ok e1 w1), (read_header_ok e2 w2), !bind_ok by lia.
  cbv beta iota zeta. cbn [h_version]. rewrite bool_decide_eq_true_2 by done. cbn [orb h_verts h_edges].
  rewrite (tool_bind_ok (pure _) _ _ _ _ eq_refl). cbv beta iota. cbn [negb].
  rewrite (tool_bind_ok (tell _) _ _ _ _ eq_refl), (tool_bind_ok (tell _) _ _ _ _ eq_refl).
  unfold print. cbn [printed files]. erewrite tool_bind_ok by (by apply compare_to_ok).
  rewrite (tool_bind_ok (tell _) _ _ _ _ eq_refl). unfold print. cbn [printed files].
  erewrite tool_bind_ok by (by apply compare_to_ok).
  unfold mret, tool_ret. cbn. by rewrite <- !app_assoc.
Qed.

(** ** From the text to the [.gr] file *)
Lemma encode_ok flip und text v m :
  read_edges flip und text = Ok (v, m) → 0 ≤ m → endpoints_in v m → m + 1 < 2 ^ 32 → zlen v < 2 ^ 64 →
  encode flip und false text
  = Ok (CsrFiles (le_words 8 (before v <$> rng 0 (m + 1))) (le_words 4 (merge_sort edge_le v).*2)).
Proof.
  intros Hread Hm Hin Hm32 Hlen. assert (Hperm : merge_sort edge_le v ≡ₚ v) by apply merge_sort_Permutation.
  unfold encode. rewrite Hread, bind_ok. cbv beta iota zeta. rewrite (edge_list_to_csr_ok _ m).
  - cbn. unfold write_graph. cbn. do 3 f_equal. apply list_fmap_ext. intros i u _.
    by apply before_perm.
  - apply edge_le_sources, (StronglySorted_merge_sort edge_le).
  - intros p Hp. apply Hin. by rewrite <- Hperm.
  - done.
  - done.
  - unfold zlen in *. by rewrite Hperm.
Qed.

(** With [make-undirected] both converters write the same graph. *)
Theorem undirected_converters_agree text :
  encode_unweighted true false text = decsr_encode_unweighted true false text.
Proof.
  unfold encode_unweighted, decsr_encode_unweighted, encode.
  destruct (read_edges_ok text) as (v0 & m & _ & _ & _ & Hread). rewrite !Hread, !bind_ok.
  cbv beta iota zeta. do 2 f_equal. apply (StronglySorted_unique edge_le).
  - apply (StronglySorted_merge_sort edge_le).
  - apply (StronglySorted_merge_sort edge_le).
  - rewrite !merge_sort_Permutation. clear Hread. induction v0 as [|[a b] v0 IH]; [done|].
    rewrite !bind_cons, IH. apply perm_swap.
Qed.

Lemma encoded_fits v m :
  endpoints_in v m → m + 1 < 2 ^ 32 → zlen v < 2 ^ 64 →
  fits 8 (before v <$> rng 0 (m + 1)) ∧ fits 4 (merge_sort edge_le v).*2.
Proof.
  intros Hin Hm Hlen. split; apply Forall_fmap, Forall_forall.
  - intros u _. cbn. pose proof (before_bounds v u). lia.
  - intros p Hp. cbn. rewrite merge_sort_Permutation in Hp. apply Hin in Hp. lia.
Qed.

(** The destinations of a sorted list, vertex by vertex. *)
Lemma sorted_bind v m :
  sources_sorted v → endpoints_in v m → 0 ≤ m → v.*2 = rng 0 (m + 1) ≫= neighbours v.
Proof.
  intros Hs Hin Hm.
  assert (Hk : ∀ k : nat, take (Z.to_nat (before v (Z.of_nat k))) v.*2 = rng 0 (Z.of_nat k) ≫= neighbours v).
  { induction k as [|k IH].
    - rewrite rng_nil, before_none; [done| |done]. intros p Hp. apply Hin in Hp. lia.
    - replace (Z.of_nat (S k)) with (Z.of_nat k + 1) by lia. rewrite before_succ, rng_snoc, bind_app, <- IH by lia.
      pose proof (before_bounds v (Z.of_nat k)). pose proof (zlen_nonneg (neighbours v (Z.of_nat k))).
      rewrite Z2Nat.inj_add, <- take_take_drop by lia. f_equal. cbn. rewrite app_nil_r. by apply slice_neighbours. }
  specialize (Hk (Z.to_nat (m + 1))). rewrite Z2Nat.id in Hk by lia. rewrite <- Hk, before_all.
  - rewrite take_ge; [done|]. rewrite length_fmap. unfold zlen. lia.
  - intros p Hp. apply Hin in Hp. lia.
Qed.

(** The offsets of an index, as [fg2gr] needs them. *)
Lemma offsets_cons v m : 0 ≤ m → endpoints_in v m →
  ∃ o, before v <$> rng 0 (m + 1) = o :: (before v <$> rng 1 (m + 1))
    ∧ (before v <$> rng 1 (m + 1)) ++ [zlen v] = (λ u, before v (u + 1)) <$> rng 0 (m + 1).
Proof.
  intros Hm Hin. eexists. split; [by rewrite rng_cons by lia|].
  assert (Hsh : rng 1 (m + 1) = Z.add 1 <$> rng 0 m).
  { unfold rng. rewrite fmap_add_seqZ. f_equal. lia. }
  rewrite Hsh, (rng_snoc 0 m), fmap_app, <- list_fmap_compose by lia. f_equal.
  - apply list_fmap_ext. intros i u _. cbn. f_equal. lia.
  - cbn. rewrite before_all; [done|]. intros p Hp. apply Hin in Hp. lia.
Qed.

(** C25: A text of edges becomes a [.gr] file.  Convert a text with either converter
    ([flip] is the second), with or without [make-undirected], and give the two files
    to [fg2gr]: both return 0, write these three files and nothing else, and the [.gr]
    file holds for every vertex the end of its list and, in the order of the vertices,
    the sorted lists of the destinations of its edges.  This needs files that can be
    read and written, no vertex [2^32 - 1], and fewer than [2^64] edges. *)
Theorem text_to_gr (flip : bool) argv1 argv2 vm1 vm2 file outdir text w :
  let c := if flip then decsr else csr in
  let und := count vm1 "make-undirected" in
  let index := replace_extension (outdir +:+ suffix c) ".idx" in
  let adj := replace_extension (outdir +:+ suffix c) ".adj" in
  let out := replace_extension index (if count vm2 "symmetric" then ".sgr" else ".gr") in
  parse_command_line converter_desc argv1 = Ok vm1 →
  count vm1 "weighted" = false → count vm1 "sorted" = false →
  as_string vm1 "infile" = Ok file → as_string vm1 "outdir" = Ok outdir →
  parse_command_line fg2gr_desc argv2 = Ok vm2 → count vm2 "help" = false →
  as_string vm2 "idx" = Ok index → as_string vm2 "adj" = Ok adj →
  node_of (files w) file = Regular text → can_read file && can_read index && can_read adj = true →
  writable (files w) index && writable (files w) adj = true →
  ∃ v m, read_edges flip und text = Ok (v, m) ∧ endpoints_in v m ∧
    (m + 1 < 2 ^ 32 → zlen v < 2 ^ 64 →
     ∃ w1 w2 words,
       converter_main c argv1 w = (w1, Ok 0) ∧ fg2gr_main argv2 w1 = (w2, Ok 0)
       ∧ (∀ p, p ∉ [index; adj; out] → node_of (files w2) p = node_of (files w) p)
       ∧ (writable (files w) out = true →
          node_of (files w2) out = Regular (gr_bytes ((λ u, before v (u + 1)) <$> rng 0 (m + 1)) words))
       ∧ words = rng 0 (m + 1) ≫= adjacency v).
Proof.
  intros c und index adj out Hvm1 Hwt Hst Hf Ho Hvm2 Hh Hi Ha Hn Hr Hw.
  apply andb_true_iff in Hr as [[Hrf Hri]%andb_true_iff Hra]. apply andb_true_iff in Hw as [Hwi Hwa].
  destruct (read_edges_ok text) as (v0 & m & Hm & Hin0 & _ & Hread).
  exists (v0 ≫= expand flip und), m. split; [done|].
  pose proof (expand_in _ _ flip und Hin0) as Hin. split; [done|]. intros Hm32 Hlen.
  set (v := v0 ≫= expand flip und) in *.
  pose proof (encode_ok flip und text v m (Hread flip und) ltac:(lia) Hin Hm32 Hlen) as Henc.
  destruct (encoded_fits v m Hin Hm32 Hlen) as [Hf8 Hf4].
  destruct (converter_main_correct c argv1 w) as [_ Hconv]. specialize (Hconv vm1 Hvm1). rewrite Hf, Ho in Hconv.
  cbv zeta in Hconv. fold index adj in Hconv. rewrite Hn, Hrf in Hconv. destruct Hconv as [Hne Hconv].
  unfold encoder_of in Hconv. rewrite Hwt, Hst in Hconv.
  eassert (Hc : converter_main c argv1 w = _) by (apply Hconv; subst c; destruct flip; exact Henc).
  cbn [idx_file adj_file] in Hc. clear Hconv.
  destruct (offsets_cons v m ltac:(lia) Hin) as (o & Ecs & Esn).
  assert (Hoi : out ≠ index ∧ out ≠ adj).
  { subst out. split; case_match.
    - exact (extensions_differ _ _ "sgr" "idx" "r" "x" eq_refl eq_refl ltac:(done)).
    - exact (extensions_differ _ _ "gr" "idx" "r" "x" eq_refl eq_refl ltac:(done)).
    - exact (extensions_differ _ _ "sgr" "adj" "r" "j" eq_refl eq_refl ltac:(done)).
    - exact (extensions_differ _ _ "gr" "adj" "r" "j" eq_refl eq_refl ltac:(done)). }
  destruct Hoi as [Hoi Hoa].
  destruct (put_two index adj out (le_words 8 (before v <$> rng 0 (m + 1))) (le_words 4 (merge_sort edge_le v).*2)
    (files w) Hne Hoi Hoa Hwi Hwa) as (Hni & Hna & Hnp & Hwo).
  set (d1 := put adj _ (put index _ _)) in *. rewrite Ecs in Hni, Hf8.
  eexists _, _, (merge_sort edge_le v).*2. split; [exact Hc|]. split.
  { apply (fg2gr_main_correct argv2 vm2 index adj o (before v <$> rng 1 (m + 1)) (merge_sort edge_le v).*2); try done.
    rewrite <- Ecs. unfold zlen. rewrite length_fmap, length_rng. lia. }
  cbn [set_files files]. split; [|split].
  - intros p Hp. rewrite !not_elem_of_cons in Hp. destruct Hp as (? & ? & ? & _).
    rewrite node_of_put_ne by done. by apply Hnp.
  - intros Hwr. rewrite node_of_put by (by rewrite <- Hwr). do 2 f_equal. rewrite <- Esn. do 2 f_equal.
    unfold zlen. by rewrite length_fmap, merge_sort_Permutation.
  - rewrite (sorted_bind (merge_sort edge_le v) m).
    + apply list_bind_ext; [|done]. intros u. apply neighbours_of_sorted.
    + apply edge_le_sources, (StronglySorted_merge_sort edge_le).
    + intros p Hp. rewrite merge_sort_Permutation in Hp. by apply Hin.
    + lia.
Qed.

(** When the name given as outdir has an extension, it is replaced together with what
    the converter appends to it: both converters write the same two files. *)
Lemma plain_app a b : plain (a +:+ b) = plain a && plain b.
Proof.
  induction a as [|c a IH]; [done|]. change (plain (String c a +:+ b)) with (negb (bool_decide (c = "."%char ∨ c = "/"%char)) && plain (a +:+ b)).
  by rewrite IH, andb_assoc.
Qed.

Lemma string_app_assoc (a b c : string) : (a +:+ b) +:+ c = a +:+ (b +:+ c).
Proof. induction a as [|x a IH]; [done|]. change (String x ((a +:+ b) +:+ c) = String x (a +:+ (b +:+ c))). by rewrite IH. Qed.

Theorem outdir_extension_lost base e c :
  base ≠ ""%string → (∀ d, base ≠ d +:+ "/") → plain e = true → c ∈ [csr; decsr] →
  replace_extension ((base +:+ "." +:+ e) +:+ suffix c) ".idx" = base +:+ ".idx"
  ∧ replace_extension ((base +:+ "." +:+ e) +:+ suffix c) ".adj" = base +:+ ".adj".
Proof.
  intros Hb Hd He Hc. assert (Hs : plain (suffix c) = true).
  { apply elem_of_cons in Hc as [-> | ->%list_elem_of_singleton]; done. }
  rewrite !string_app_assoc. split; apply replace_extension_known; (try done);
    by rewrite plain_app, He, Hs.
Qed.
End proofs.
