(* ===== verification/KernelCtx.v ===== *)
(** * KernelCtx: the context of a kernel ([graph_kernel.hpp])

    [Generic_ctx] loads the index, sizes the workers' edge buffers by the largest
    out-degree and allocates them together with the two frontiers.
    [generic_ctx_ok] shows that it establishes what the engine assumes of a run;
    [default_threads_fail] that it cannot with the default number of threads. *)

From S2P Require Import Prelude Platform MmapUtil VertexTable Bitmap Stats PackWindow.
From S2P Require Import Engine EdgeEngine Options.

Inductive Buffering := SINGLE | DOUBLE.
Definition buffering_value (b : Buffering) : Z := match b with SINGLE => 1 | DOUBLE => 2 end.

Record Generic_ctx {CB : Combinable} (V : Type) := GenericCtx {
  gc_num_vertices : Z;
  gc_num_edges : Z;
  gc_index : list vertex;
  gc_table : list V;
  num_workers : Z;
  max_out_degree : Z;
  gc_edge_buf_size : Z;
  RDMA_window : RDMA_region;
  frontierA : Bitmap;
  frontierB : Bitmap;
}.
Arguments GenericCtx {CB V}.
Arguments gc_num_vertices {CB V}. Arguments gc_num_edges {CB V}. Arguments gc_index {CB V}.
Arguments gc_table {CB V}. Arguments num_workers {CB V}. Arguments max_out_degree {CB V}.
Arguments gc_edge_buf_size {CB V}. Arguments RDMA_window {CB V}. Arguments frontierA {CB V}.
Arguments frontierB {CB V}.

Section kernel_ctx.
  Context {BU : BuildOptions} {BO : Boost} {OS : Os} {CB : Combinable}.

Definition flag_set (vm : variables_map) (o : string) : bool := bool_decide (count vm o ≠ 0).

(** The constructor; [ctx_num_edges] is the number of edges the server announced. *)
Definition new_Generic_ctx {V} (sizeof_V : Z) (V_init : V) (vm : variables_map) (index_file : fs_node)
    (ctx_num_edges : Z) (b : Buffering) : result (Generic_ctx V) :=
  num_vertices ← get_num_verts index_file;
  let num_edges := ctx_num_edges in
  '(index, table) ← get_vertex_table sizeof_V V_init index_file num_vertices (flag_set vm "hp"%string)
                      (o_madvise_thp vm);
  let workers := o_threads vm in
  max_deg ← get_max_out_degree index num_vertices num_edges;
  let ebs := u32 (o_edgewindow vm * max_deg) in
  window ← RDMA_mmap_unique (u64 (u64 (ebs * workers) * buffering_value b)) (flag_set vm "HP"%string)
             (o_madvise_thp vm);
  let fA := Bitmap_new num_vertices (flag_set vm "hp"%string) (o_madvise_thp vm) in
  let fB := Bitmap_new num_vertices (flag_set vm "hp"%string) (o_madvise_thp vm) in
  Ok (GenericCtx num_vertices num_edges index table workers max_deg ebs window fA fB).

(** The client context as the workers see it, after [ctx.heap_mr = ...]. *)
Definition worker_context {V} (g : Generic_ctx V) (addr rkey : Z) (ids : list Z)
    (cm : option CacheMap) (mgr : option CacheManager) : client_context :=
  ClientContext (new_application (gc_num_vertices g) (gc_num_edges g)) addr rkey
    (region_mr (RDMA_window g)) ids cm mgr.

(** What the platform must grant: the mappings and the registration succeed. *)
Record allocations_succeed (sizeof_V n words : Z) (use_HP : bool) : Prop := {
  as_tables : tables_mapped sizeof_V use_HP n;
  as_bitmap : is_Some (mmap_anon (aligned_size n use_HP) use_HP);
  as_window : is_Some (mmap_anon (4 * words) false) ∧ is_Some (ibv_reg_mr map_base (4 * words));
}.

(** A region that can be allocated is allocated, zero-filled. *)
Lemma RDMA_mmap_unique_ok words flag :
  0 ≤ words < 2 ^ 62 → is_Some (mmap_anon (4 * words) false) → is_Some (ibv_reg_mr map_base (4 * words)) →
  ∃ r, RDMA_mmap_unique words false flag = Ok r ∧ words ≤ zlen (region_words r)
    ∧ ibv_reg_mr map_base (4 * words) = Some (region_mr r).
Proof.
  intros Hw [bytes Hb] [mr Hm]. unfold RDMA_mmap_unique. cbv zeta. unfold aligned_size. cbv iota.
  rewrite u64_id', Hb, Hm by lia. eexists; split; [done|]. cbn [region_words region_mr].
  split; [|done]. apply mmap_anon_pages in Hb as [Hb _]. unfold zlen. rewrite length_replicate.
  assert (words ≤ bytes / 4) by (apply Z.div_le_lower_bound; lia). lia.
Qed.

(** The file describes a graph: the client reads it as a well-formed index. *)
Definition index_loads {V} (sizeof_V : Z) (V_init : V) (vm : variables_map) (index_file : fs_node)
    (n m : Z) (table : list vertex) : Prop :=
  get_num_verts index_file = Ok n
  ∧ get_vertex_table sizeof_V V_init index_file n (flag_set vm "hp"%string) (o_madvise_thp vm)
    = Ok (table, replicate (Z.to_nat n) V_init)
  ∧ csr_ok table n m.

Definition max_degree (table : list vertex) (n m d : Z) : Prop :=
  (∀ v, 0 ≤ v < n → deg table m v ≤ d) ∧ ∃ v, 0 ≤ v < n ∧ deg table m v = d.

Lemma get_max_out_degree_max table n m d :
  csr_ok table n m → 0 < n → max_degree table n m d → get_max_out_degree table n m = Ok d.
Proof.
  intros Hcsr Hn [Hle (v & Hv & Hd)].
  destruct (get_max_out_degree_spec table n m Hcsr ltac:(lia)) as (d' & -> & Hle' & _ & Hex).
  f_equal. specialize (Hle' v Hv). destruct Hex as [[-> _]|(v' & Hv' & <-)]; [lia|].
  specialize (Hle v' Hv'). lia.
Qed.

(** The edge buffers are not mapped with huge pages: [HP] is not an option. *)
Lemma window_never_huge vm : stored vm → flag_set vm "HP"%string = false.
Proof.
  intros Hs. unfold flag_set. rewrite (count_undeclared vm "HP"%string Hs).
  - by rewrite bool_decide_eq_false_2 by lia.
  - by apply (bool_decide_eq_false_1 ("HP"%string ∈ declared)).
Qed.

Context {ETS : EnumerableThreadSpecific} {SC : Scheduler}.
Context {V : Type} (sizeof_V : Z) (V_init : V) (vm : variables_map) (index_file : fs_node).
Context (table : list vertex) (n m d : Z).
Context (Hvm : stored vm) (Hload : index_loads sizeof_V V_init vm index_file n m table).
Context (Hn : 0 < n) (Hmax : max_degree table n m d).

(** The constructed context satisfies the assumptions of the engine. *)
Lemma generic_ctx_ok garbage addr rkey ids cm mgr :
  let ebs := o_edgewindow vm * d in
  0 < o_edgewindow vm → 0 < d → ebs < 2 ^ 30 → 0 < o_threads vm < 2 ^ 30 →
  Z.of_nat n_workers ≤ o_threads vm → Z.of_nat n_workers ≤ zlen ids →
  allocations_succeed sizeof_V n (ebs * o_threads vm) (flag_set vm "hp"%string) →
  0 < WR_WINDOW_SIZE < 2 ^ 32 → m < 2 ^ 62 → 0 ≤ addr → addr + 4 * m < 2 ^ 64 →
  window_shaped garbage →
  ∃ g, new_Generic_ctx sizeof_V V_init vm index_file m SINGLE = Ok g
    ∧ gc_num_vertices g = n ∧ gc_index g = table ∧ gc_num_edges g = m
    ∧ gc_table g = replicate (Z.to_nat n) V_init ∧ gc_edge_buf_size g = ebs
    ∧ engine_ok (worker_context g addr rkey ids cm mgr) table ebs garbage (zlen (region_words (RDMA_window g)))
    ∧ (bm_wf (frontierA g) ∧ size (frontierA g) = n ∧ frontier_size (frontierA g) = comb_new
       ∧ ∀ v, 0 ≤ v < n → bm_get (frontierA g) v = false)
    ∧ (bm_wf (frontierB g) ∧ size (frontierB g) = n ∧ ∀ v, 0 ≤ v < n → bm_get (frontierB g) v = false).
Proof.
  intros ebs Hew Hd Hebs Hthr Hwork Hids [Htab Hbit [Hmm Hreg]] Hwin Hm Ha0 Ha Hg.
  destruct Hload as (Hnv & Htable & Hcsr). pose proof (csr_n _ _ _ Hcsr) as Hn32.
  assert (0 < ebs) by (unfold ebs; nia).
  assert (He32 : u32 (o_edgewindow vm * d) = ebs) by (apply u32_id'; fold ebs; lia).
  assert (Hwords : 0 ≤ ebs * o_threads vm < 2 ^ 60) by nia.
  destruct (RDMA_mmap_unique_ok (ebs * o_threads vm) (o_madvise_thp vm)) as (r & Er & Hrw & Hrm); [lia|done|done|].
  destruct (Bitmap_new_spec n (flag_set vm "hp"%string) (o_madvise_thp vm)) as (B1 & B2 & B3 & B4); [lia|done|].
  eexists; split.
  { unfold new_Generic_ctx. rewrite Hnv, bind_ok. cbv zeta. rewrite Htable, bind_ok. cbv beta iota.
    rewrite (get_max_out_degree_max _ _ _ d), bind_ok by done. rewrite He32, (window_never_huge vm Hvm).
    cbn [buffering_value]. rewrite Z.mul_1_r, u64_u64, (u64_id' (ebs * o_threads vm)), Er, bind_ok by lia. done. }
  cbn [gc_num_vertices gc_index gc_num_edges gc_table gc_edge_buf_size RDMA_window frontierA frontierB].
  do 5 (split; [done|]). split; [|split; [done|]].
  - split; cbn [worker_context app new_application num_vertices num_edges peer_addr cm_ids
      gc_num_vertices gc_num_edges];
      try done; try lia.
    + intros v Hv. destruct Hmax as [Hle _]. specialize (Hle v Hv). unfold ebs. nia.
    + nia.
  - done.
Qed.

(** With no threads, or a graph without edges, the edge buffers are empty and
    cannot be mapped; the failure surfaces as a failing registration. *)
Lemma empty_window_fails b :
  u32 (o_edgewindow vm * d) * o_threads vm = 0 →
  new_Generic_ctx sizeof_V V_init vm index_file m b = Fault (Thrown "ibv_reg_mr failed").
Proof.
  intros Hz. destruct Hload as (Hnv & Htable & Hcsr). unfold new_Generic_ctx.
  rewrite Hnv, bind_ok. cbv zeta. rewrite Htable, bind_ok. cbv beta iota.
  rewrite (get_max_out_degree_max _ _ _ d), bind_ok by done. rewrite Hz.
  change (u64 (u64 0 * buffering_value b)) with (u64 (0 * buffering_value b)). rewrite Z.mul_0_l.
  rewrite (window_never_huge vm Hvm). unfold RDMA_mmap_unique. cbv zeta.
  change (aligned_size (u64 (4 * u64 0)) false) with 0. by rewrite mmap_anon_zero.
Qed.

(** C28: the constructor of a kernel establishes what the engine relies on, or throws.
    The index file describes a graph of at least one vertex, in which the longest
    adjacency list has [d] edges.  If the edge window is 0 or the graph has no edges
    ([d = 0]), then there is nothing to map for the edge buffers and the constructor
    throws, whatever the buffering and the number of threads.  Otherwise, if the size of a
    worker's buffer, [edgewindow * d], and the number of threads are below [2^30], there is
    a thread, there are no more workers than threads and than connections, the mappings of the tables,
    the frontiers and the buffers and the registration of the buffers succeed, a
    send window has a positive 32-bit size and the server's region lies within 64-bit
    addresses, then [Generic_ctx] loads the graph, gives every worker a buffer that
    holds the longest adjacency list, and starts with two empty frontiers. *)
Theorem generic_ctx_correct garbage addr rkey ids cm mgr :
  let ebs := o_edgewindow vm * d in
  (o_edgewindow vm = 0 ∨ d = 0 →
   ∀ b, new_Generic_ctx sizeof_V V_init vm index_file m b = Fault (Thrown "ibv_reg_mr failed"))
  ∧ (0 < o_edgewindow vm → 0 < d → ebs < 2 ^ 30 → 0 < o_threads vm < 2 ^ 30 →
  Z.of_nat n_workers ≤ o_threads vm → Z.of_nat n_workers ≤ zlen ids →
  allocations_succeed sizeof_V n (ebs * o_threads vm) (flag_set vm "hp"%string) →
  0 < WR_WINDOW_SIZE < 2 ^ 32 → m < 2 ^ 62 → 0 ≤ addr → addr + 4 * m < 2 ^ 64 →
  window_shaped garbage →
  ∃ g, new_Generic_ctx sizeof_V V_init vm index_file m SINGLE = Ok g
    ∧ gc_num_vertices g = n ∧ gc_index g = table ∧ gc_num_edges g = m
    ∧ gc_table g = replicate (Z.to_nat n) V_init ∧ gc_edge_buf_size g = ebs
    ∧ engine_ok (worker_context g addr rkey ids cm mgr) table ebs garbage (zlen (region_words (RDMA_window g)))
    ∧ (bm_wf (frontierA g) ∧ size (frontierA g) = n ∧ is_empty (frontierA g) = true)
    ∧ (bm_wf (frontierB g) ∧ size (frontierB g) = n ∧ is_empty (frontierB g) = true)).
Proof.
  split.
  { intros Hz b. apply empty_window_fails. destruct Hz as [-> | ->]; by rewrite ?Z.mul_0_r. }
  intros H1 H2 H3 H4 H5 H6 H7 H8 H9 H10 H11 H12.
  destruct (generic_ctx_ok garbage addr rkey ids cm mgr H1 H2 H3 H4 H5 H6 H7 H8 H9 H10 H11 H12)
    as (g & E & Gn & Gi & Gm & Gt & Ge & He & (A1 & A2 & _ & A3) & (B1 & B2 & B3)).
  exists g. repeat (split; [done|]).
  split; (repeat (split; [done|])); apply is_empty_spec; [done|by rewrite A2|done|by rewrite B2].
Qed.

(** C37: the default number of threads does not work.  The option
    [threads] is documented as "0 for all available cores" and 0 is its default;
    the number of connections honours that, but the constructor multiplies the
    buffer size by the option itself, asks for an empty mapping, does not notice
    that it failed, and throws when the registration does, whatever the graph. *)
Theorem default_threads_fail b :
  o_threads vm = default_threads →
  new_Generic_ctx sizeof_V V_init vm index_file m b = Fault (Thrown "ibv_reg_mr failed")
  ∧ ∀ cores, num_connections (o_threads vm) cores = cores.
Proof.
  intros E. split; [apply empty_window_fails; rewrite E; unfold default_threads; lia|].
  intros cores. by rewrite E.
Qed.
End kernel_ctx.
