(* ===== verification/EndToEnd.v ===== *)
(** * EndToEnd: from an edge list to the result of a kernel

    The converter writes the graph files, the server loads the edges and
    announces its region, the client builds the context of a kernel and runs it
    over RDMA.  [bfs_end_to_end] and [kcore_end_to_end] state the results in
    terms of the edges of the text the converter read. *)

From stdpp Require Import sorting.
From S2P Require Import Prelude Platform MmapUtil VertexTable Bitmap Stats PackWindow.
From S2P Require Import Engine EdgeEngine Options KernelCtx ServerFile Csr Bfs.
From S2P Require Import Kcore.

Section end_to_end.
  Context {BU : BuildOptions} {BO : Boost} {OS : Os} {FM : FileMapping} {CB : Combinable}.
  Context {ETS : EnumerableThreadSpecific} {CK : Clock} {SC : Scheduler} {NI : Nic}.

(** ** The server announces its region ([FAMServer::on_connection]): the address,
    key and number of edges of the message, and the edges they refer to. *)
Definition announce (fuel : nat) (adj_file : fs_node) (flag : Z) : result (remote_region * Z) :=
  '(region, mr, edges) ← get_edge_list fuel adj_file false flag;
  Ok (Remote (mr_addr mr) (mr_rkey mr) (slice 0 edges (region_words region)), edges).

(** ** The client runs a kernel on the announced region ([run_kernel]) *)
Section client.
  Context (vm : variables_map) (index_file : fs_node) (ids : list Z) (garbage : window).
  Context (tm : timing) (post_fuel kernel_fuel : nat) (remote : remote_region) (edges : Z).

Definition client_ctx {V} (g : Generic_ctx V) : client_context :=
  worker_context g (rr_addr remote) (rr_rkey remote) ids None None.

Definition client_ops {V} (g : Generic_ctx V) : EngineOps :=
  rdma_ops remote (client_ctx g) (gc_index g) (gc_edge_buf_size g) garbage post_fuel.

Definition first_state {V} (g : Generic_ctx V) : eng_cell :=
  EngCell (region_words (RDMA_window g)) tm 0 0.

Definition run_bfs : result (list bfs_vertex) :=
  g ← new_Generic_ctx 8 (BfsVertex NULLVERT false) vm index_file edges SINGLE;
  st ← bfs_kernel (EO := client_ops g) kernel_fuel (o_start_vertex vm) (frontierA g) (frontierB g)
         (gc_table g) (first_state g);
  Ok (vtable st).

Definition run_kcore : result (list Z) :=
  g ← new_Generic_ctx 4 0 vm index_file edges SINGLE;
  st ← kcore_kernel (EO := client_ops g) kernel_fuel (o_kcore_k vm) (gc_index g) edges
         (frontierA g) (frontierB g) (gc_table g) (first_state g);
  Ok (degree st).
End client.

(** ** The conditions of a run: enough memory, sane options, a working card *)
Record deployment (sizeof_V : Z) (vm : variables_map) (ids : list Z) (garbage : window)
    (post_fuel server_fuel : nat) (n m d : Z) : Prop := {
  dp_vm : stored vm;
  dp_edgewindow : 0 < o_edgewindow vm ∧ o_edgewindow vm * d < 2 ^ 30;
  dp_threads : 0 < o_threads vm < 2 ^ 30 ∧ Z.of_nat n_workers ≤ o_threads vm
               ∧ Z.of_nat n_workers ≤ zlen ids;
  dp_client : allocations_succeed sizeof_V n (o_edgewindow vm * d * o_threads vm) (flag_set vm "hp");
  dp_server : is_Some (mmap_anon (4 * m) false) ∧ is_Some (ibv_reg_mr map_base (4 * m))
              ∧ 0 ≤ map_base ∧ map_base + 4 * m < 2 ^ 62;
  dp_fuel : (Z.to_nat (4 * m / default_chunk) + 2 ≤ server_fuel)%nat ∧ (0 < post_fuel)%nat;
  dp_window : 0 < WR_WINDOW_SIZE < 2 ^ 32 ∧ window_shaped garbage;
  dp_card k : post_ret k = 0;
}.

Section deployed.
  Context {V : Type} (sizeof_V : Z) (V_init : V) (vm : variables_map) (ids : list Z).
  Context (garbage : window) (post_fuel server_fuel : nat) (n d : Z) (files : csr_files).
  Context (adj : Z → list Z).

(** What the client ends up with: a context whose engine may be used. *)
Record deployed (remote : remote_region) (m : Z) (g : Generic_ctx V) : Prop := {
  dd_run : run_ok remote (client_ctx ids remote g) (gc_index g) (gc_edge_buf_size g) garbage
             (zlen (region_words (RDMA_window g))) post_fuel;
  dd_n : gc_num_vertices g = n;
  dd_m : gc_num_edges g = m;
  dd_csr : csr_ok (gc_index g) n m;
  dd_adj u : 0 ≤ u < n → adj_of (gc_index g) m (rr_words remote) u = adj u;
  dd_table : gc_table g = replicate (Z.to_nat n) V_init;
  dd_A : bm_wf (frontierA g) ∧ size (frontierA g) = n ∧ frontier_size (frontierA g) = comb_new
         ∧ ∀ v, 0 ≤ v < n → bm_get (frontierA g) v = false;
  dd_B : bm_wf (frontierB g) ∧ size (frontierB g) = n ∧ ∀ v, 0 ≤ v < n → bm_get (frontierB g) v = false;
}.

Lemma deploy m :
  loads_as sizeof_V V_init (flag_set vm "hp") (o_madvise_thp vm) files n adj →
  zlen (adj_file files) = 4 * m → 0 < n →
  (∀ u, 0 ≤ u < n → zlen (adj u) ≤ d) → (∃ u, 0 ≤ u < n ∧ zlen (adj u) = d) → 0 < d →
  deployment sizeof_V vm ids garbage post_fuel server_fuel n m d →
  ∃ remote g, announce server_fuel (Regular (adj_file files)) (o_madvise_thp vm) = Ok (remote, m)
    ∧ new_Generic_ctx sizeof_V V_init vm (Regular (idx_file files)) m SINGLE = Ok g
    ∧ deployed remote m g.
Proof.
  intros (Hnv & table & vt & words & Htab & Hadj & Hwords & Hcsr & Hat) Hlen Hn Hle Hex Hd.
  intros [Hvm [Hew Hew30] (Hth & Hw & Hids) Hcl (Hsm & [mr Hmr] & Hb0 & Hb62) [Hsf Hpf] [Hwin Hg] Hcard].
  assert (Hm : zlen words = m).
  { rewrite Hadj in Hlen. unfold zlen in *. rewrite length_le_words in Hlen. lia. }
  rewrite Hm in *. pose proof (csr_n _ _ _ Hcsr) as Hn32.
  assert (Hdegs : ∀ u, 0 ≤ u < n → deg table m u = zlen (adj u)).
  { intros u Hu. rewrite <- Hat by done. symmetry. by apply (zlen_adj _ n). }
  assert (Hm0 : 0 < m).
  { destruct Hex as (u & Hu & Hzu). rewrite <- Hdegs in Hzu by done.
    pose proof (off_bounds _ _ _ Hcsr u). pose proof (off_bounds _ _ _ Hcsr (u + 1)). unfold deg in Hzu. lia. }
  destruct Hsm as [bytes Hsm].
  destruct (get_edge_list_ok server_fuel words [] (o_madvise_thp vm) bytes mr) as (region & Ereg & Hrmr & Hslice);
    [eapply Forall_impl; [exact Hwords|]; simpl; lia|unfold zlen; simpl; lia
    |intros ->; unfold zlen in Hm; simpl in Hm; lia|rewrite Hm; lia|by rewrite Hm..|].
  rewrite app_nil_r, <- Hadj, Hm in Ereg. rewrite Hm in Hslice.
  destruct (ibv_reg_mr_length _ _ _ Hmr) as [_ Hmaddr].
  set (remote := Remote (mr_addr mr) (mr_rkey mr) words).
  assert (Hvt : vt = replicate (Z.to_nat n) V_init).
  { rewrite (get_vertex_table_content sizeof_V V_init) in Htab by (lia || apply Hcl).
    destruct (for_u32 _ _ _ _) as [[[? ?] ?]|]; [by injection Htab|done]. }
  destruct (generic_ctx_ok sizeof_V V_init vm (Regular (idx_file files)) table n m d Hvm) with
    (garbage := garbage) (addr := rr_addr remote) (rkey := rr_rkey remote) (ids := ids)
    (cm := @None CacheMap) (mgr := @None CacheManager)
    as (g & Eg & Gn & Gi & Gm & Gt & Ge & Heng & HA & HB); try done; try (simpl; lia).
  { split; [done|]. rewrite <- Hvt. by split. }
  { split; [intros v Hv; rewrite Hdegs by done; by apply Hle|].
    destruct Hex as (u & Hu & <-). exists u. split; [done|by apply Hdegs]. }
  exists remote, g. split; [|split; [done|]].
  { unfold announce. rewrite Ereg, bind_ok. cbv beta iota. by rewrite Hslice. }
  split; try done.
  - split; try done.
    + split; cbn [client_ctx worker_context peer_addr peer_rkey app new_application num_edges rr_words remote];
        [done|done|by rewrite Gm|].
      eapply Forall_impl; [exact Hwords|]. unfold NULL_VERT. simpl. lia.
    + by rewrite Gi, Ge.
    + cbn [client_ctx worker_context app new_application num_vertices rr_words remote]. by rewrite Gn.
    + cbn [client_ctx worker_context app new_application num_vertices]. rewrite Gn. lia.
  - by rewrite Gi.
  - intros u Hu. rewrite Gi. by apply Hat.
Qed.
End deployed.

(** ** Edges and adjacency lists *)
Lemma elem_of_adjacency v u w : w ∈ adjacency v u ↔ (u, w) ∈ v.
Proof.
  unfold adjacency. rewrite merge_sort_Permutation. unfold neighbours.
  rewrite list_elem_of_fmap. setoid_rewrite list_elem_of_filter. split.
  - intros ([x y] & -> & Hx & Hin). simpl in *. by subst.
  - intros Hin. by exists (u, w).
Qed.

Lemma zlen_adjacency v u : zlen (adjacency v u) = zlen (neighbours v u).
Proof. unfold zlen, adjacency. by rewrite merge_sort_Permutation. Qed.

Lemma occ_adjacency v u w : occ w (adjacency v u) = occ w (neighbours v u).
Proof. unfold occ, zcount, adjacency. by rewrite merge_sort_Permutation. Qed.

(** Paths of [k] edges in a list of edges. *)
Inductive path (v : list edge) (s : Z) : nat → Z → Prop :=
  | path_nil : path v s 0 s
  | path_snoc k u w : path v s k u → (u, w) ∈ v → path v s (S k) w.

Definition shortest (v : list edge) (s : Z) (k : nat) (u : Z) : Prop :=
  path v s k u ∧ ∀ j, path v s j u → (k ≤ j)%nat.

Section path.
  Context {EO : EngineOps} (v : list edge) (m s : Z).
  Context (Hin : endpoints_in v m) (Hn : g_n eng_graph = m + 1) (Hs : 0 ≤ s ≤ m).
  Context (Hadj : ∀ u, 0 ≤ u < m + 1 → g_adj eng_graph u = adjacency v u).

Lemma walk_path k u : walk k s u ↔ path v s k u.
Proof.
  assert (Hr : ∀ k u, path v s k u → 0 ≤ u < m + 1).
  { intros k' u'. induction 1 as [|k' x w _ IH He]; [lia|]. specialize (Hin _ He). simpl in Hin. lia. }
  split.
  - intros Hw. remember s as s' eqn:Es. induction Hw as [x|k x u w _ IH Hw]; [constructor|].
    specialize (IH Es Hs Hr). econstructor; [exact IH|]. rewrite <- elem_of_adjacency, <- Hadj; [done|].
    by eapply Hr.
  - induction 1 as [|k x w Hp IH He]; [constructor|]. econstructor; [exact IH|].
    rewrite Hadj by (by eapply Hr). by apply elem_of_adjacency.
Qed.

(** A table of distances, in terms of the text. *)
Definition text_distances (table : list bfs_vertex) : Prop :=
  ∀ u, 0 ≤ u ≤ m →
    (parent (at_ table u) = NULLVERT ∧ ∀ k, ¬ path v s k u)
    ∨ ∃ k, parent (at_ table u) = Z.of_nat k ∧ shortest v s k u.

Lemma distances_text table : distances s table → text_distances table.
Proof.
  intros Hres u Hu. destruct (Hres u) as [[Hp Hno]|(k & Hp & Hk & Hmin)]; [rewrite Hn; lia| |].
  - left. split; [done|]. intros k Hk. by apply (Hno k), walk_path.
  - right. exists k. split; [done|]. split; [by apply walk_path|]. intros j Hj. by apply Hmin, walk_path.
Qed.
End path.

(** The numbers of a text that a deployment depends on. *)
Record sizes (v : list edge) (m d : Z) : Prop := {
  sz_m : 0 ≤ m ∧ m + 1 < 2 ^ 32;
  sz_edges : zlen v < 2 ^ 60;
  sz_degrees u : 0 ≤ u ≤ m → zlen (neighbours v u) ≤ d;
  sz_max : (∃ u, 0 ≤ u ≤ m ∧ zlen (neighbours v u) = d) ∧ 0 < d < 2 ^ 32;
}.

Lemma deploy_text {V} sizeof_V (V_init : V) flip und s v m d vm ids garbage post_fuel server_fuel :
  read_edges flip und s = Ok (v, m) → endpoints_in v m → sizes v m d →
  deployment sizeof_V vm ids garbage post_fuel server_fuel (m + 1) (zlen v) d →
  ∃ files remote g, encode flip und false s = Ok files
    ∧ announce server_fuel (Regular (adj_file files)) (o_madvise_thp vm) = Ok (remote, zlen v)
    ∧ new_Generic_ctx sizeof_V V_init vm (Regular (idx_file files)) (zlen v) SINGLE = Ok g
    ∧ deployed V_init ids garbage post_fuel (m + 1) (adjacency v) remote (zlen v) g.
Proof.
  intros Hread Hin [[Hm Hm32] Hlen Hdeg [(x & Hx & Hxd) Hd]] Hdep.
  destruct (encode_loads sizeof_V V_init (flag_set vm "hp"%string) (o_madvise_thp vm) flip und s v m Hread)
    as (files & E & Hf & Hload); [done..|lia| |apply (dp_client _ _ _ _ _ _ _ _ _ Hdep)|].
  { intros u Hu. specialize (Hdeg u Hu). lia. }
  destruct (deploy sizeof_V V_init vm ids garbage post_fuel server_fuel (m + 1) d files (adjacency v) (zlen v))
    as (remote & g & Ea & Eg & Hg); [done..|lia| | |lia|done|].
  - intros u Hu. rewrite zlen_adjacency. apply Hdeg. lia.
  - exists x. rewrite zlen_adjacency. split; [lia|done].
  - by exists files, remote, g.
Qed.

(** The graph of the engine is the one of the text, and the degrees the kernels
    compute from the index are its degrees. *)
Record engine_graph {V} (v : list edge) (m : Z) (ids : list Z) (garbage : window)
    (post_fuel : nat) (remote : remote_region) (g : Generic_ctx V)
    (ops := client_ops ids garbage post_fuel remote g) : Prop := {
  eg_n : g_n (@eng_graph _ _ ops) = m + 1;
  eg_adj u : 0 ≤ u < m + 1 → g_adj (@eng_graph _ _ ops) u = adjacency v u;
  eg_deg u : 0 ≤ u < m + 1 →
    get_num_edges u (gc_index g) (m + 1) (zlen v) = Ok (g_deg (@eng_graph _ _ ops) u)
    ∧ g_deg (@eng_graph _ _ ops) u < 2 ^ 32;
}.

Lemma deployed_graph {V} (V_init : V) v m ids garbage post_fuel remote g :
  deployed V_init ids garbage post_fuel (m + 1) (adjacency v) remote (zlen v) g →
  engine_graph v m ids garbage post_fuel remote g.
Proof.
  intros [Hrun Gn Gm Hcsr Hadj _ _ _]. split.
  - simpl. by rewrite Gn.
  - intros u Hu. simpl. rewrite Gm. by apply Hadj.
  - intros u Hu. pose proof (csr_deg _ _ _ Hcsr u Hu). unfold g_deg. simpl. rewrite Gm.
    rewrite (zlen_adj _ (m + 1)); [split; [by apply get_num_edges_deg|lia]|done| |done].
    destruct Hrun as [[_ _ Hl _] _ _ _ _ _ _]. rewrite Hl. exact Gm.
Qed.

Lemma initial_table {V} `{Inhabited V} (x : V) n l :
  0 ≤ n → l = replicate (Z.to_nat n) x → zlen l = n ∧ ∀ u, 0 ≤ u < n → at_ l u = x.
Proof.
  intros Hn ->. split; [unfold zlen; rewrite length_replicate; lia|].
  intros u Hu. unfold at_. by rewrite lookup_total_replicate_2 by lia.
Qed.

(** What [make-undirected] adds makes every edge an edge in both directions. *)
Lemma expand_symmetric flip v a b (v' := v ≫= expand flip true) :
  occ b (adjacency v' a) = occ a (adjacency v' b).
Proof.
  unfold v'. rewrite !occ_adjacency, !occ_neighbours, !multiplicity_expand. destruct flip; lia.
Qed.

Lemma expand_edge_symmetric flip v a b (v' := v ≫= expand flip true) : (a, b) ∈ v' → (b, a) ∈ v'.
Proof. unfold v'. rewrite <- !elem_of_adjacency, <- !occ_pos. by rewrite expand_symmetric. Qed.

(** C1: breadth-first search, from the text to the distances.  For every
    text of edges, converter and option, when the sizes fit and the platform
    grants the resources, the converter's files can be served and loaded, and the
    kernel run over RDMA ends with, for every vertex, the length of a shortest
    path from the start vertex along the edges of the text, or the mark
    [NULLVERT] if there is none. *)
Theorem bfs_end_to_end flip und s vm ids garbage tm post_fuel server_fuel kernel_fuel :
  ∃ v m, read_edges flip und s = Ok (v, m) ∧ ∀ d,
    sizes v m d → deployment 8 vm ids garbage post_fuel server_fuel (m + 1) (zlen v) d →
    0 ≤ o_start_vertex vm ≤ m → (Z.to_nat (m + 1) < kernel_fuel)%nat →
    ∃ files remote table, encode flip und false s = Ok files
      ∧ announce server_fuel (Regular (adj_file files)) (o_madvise_thp vm) = Ok (remote, zlen v)
      ∧ run_bfs vm (Regular (idx_file files)) ids garbage tm post_fuel kernel_fuel remote (zlen v) = Ok table
      ∧ text_distances v m (o_start_vertex vm) table.
Proof.
  destruct (read_edges_ok s) as (v0 & m & Hm & Hin0 & _ & Hread).
  exists (v0 ≫= expand flip und), m. split; [done|]. intros d Hsz Hdep Hst Hfuel.
  pose proof (expand_in _ _ flip und Hin0) as Hin. set (v := v0 ≫= expand flip und) in *.
  destruct (deploy_text 8 (BfsVertex NULLVERT false) flip und s v m d vm ids garbage post_fuel server_fuel)
    as (files & remote & g & Ef & Ea & Eg & [Hrun Gn Gm Hcsr Hadj Ht (HAw & HAs & HAc & HAb) (HBw & HBs & HBb)]); [done..|].
  pose proof (deployed_graph (BfsVertex NULLVERT false) v m ids garbage post_fuel remote g ltac:(by split)) as [En Eadj _].
  destruct (initial_table (BfsVertex NULLVERT false) (m + 1) (gc_table g)) as [Hlt Hat]; [lia|done|].
  destruct (bfs_kernel_ok (EO := client_ops ids garbage post_fuel remote g)
    (EE := rdma_engine _ _ _ _ _ _ _ Hrun) kernel_fuel (o_start_vertex vm) (frontierA g) (frontierB g)
    (gc_table g) (first_state tm g)) as (st & Ek & Hres); [by rewrite En| |].
  { split; rewrite ?En; try done; [lia|split; [apply HAw|done]|].
    split; [done|]. intros u Hu. by rewrite Hat. }
  exists files, remote, (vtable st). split; [done|]. split; [done|]. split.
  { unfold run_bfs. rewrite Eg, bind_ok, Ek. done. }
  by apply (distances_text (EO := client_ops ids garbage post_fuel remote g) v m).
Qed.

(** A set of vertices in which every vertex keeps [k] of its edges. *)
Definition dense (v : list edge) (m k : Z) (T : Z → bool) : Prop :=
  ∀ u, 0 ≤ u ≤ m → T u = true → k ≤ zcount T (neighbours v u).

(** The counters tell the largest of these sets. *)
Definition text_core (v : list edge) (m k : Z) (table : list Z) : Prop :=
  dense v m k (λ u, bool_decide (k ≤ at_ table u))
  ∧ ∀ T, dense v m k T → ∀ u, 0 ≤ u ≤ m → T u = true → k ≤ at_ table u.

Lemma core_text {EO : EngineOps} v m k table :
  g_n eng_graph = m + 1 → (∀ u, 0 ≤ u < m + 1 → g_adj eng_graph u = adjacency v u) →
  is_core k table → text_core v m k table.
Proof.
  intros En Eadj [Hd Hmax]. assert (Hdense : ∀ T, k_dense k T ↔ dense v m k T).
  { intros T. unfold k_dense, dense. rewrite En. split; intros HT u Hu HTu.
    - specialize (HT u ltac:(lia) HTu). unfold edges_into in HT. rewrite Eadj in HT by lia.
      unfold zcount, adjacency in *. by rewrite merge_sort_Permutation in HT.
    - specialize (HT u ltac:(lia) HTu). unfold edges_into. rewrite Eadj by lia.
      unfold zcount, adjacency in *. by rewrite merge_sort_Permutation. }
  split; [exact (proj1 (Hdense _) Hd)|]. intros T HT u Hu. apply Hmax; [exact (proj2 (Hdense T) HT)|].
  rewrite En. lia.
Qed.

(** C2: k-core decomposition, from the text to the core.  For every text
    read with [make-undirected], when the sizes fit and the platform grants the
    resources, the converter's files can be served and loaded, and the kernel run
    over RDMA ends with a table whose vertices with a counter of at least [k] form
    the largest set in which every vertex keeps [k] of its edges. *)
Theorem kcore_end_to_end flip s vm ids garbage tm post_fuel server_fuel kernel_fuel :
  ∃ v m, read_edges flip true s = Ok (v, m) ∧ ∀ d,
    sizes v m d → deployment 4 vm ids garbage post_fuel server_fuel (m + 1) (zlen v) d →
    (Z.to_nat (m + 1) < kernel_fuel)%nat →
    let k := o_kcore_k vm in
    ∃ files remote table, encode flip true false s = Ok files
      ∧ announce server_fuel (Regular (adj_file files)) (o_madvise_thp vm) = Ok (remote, zlen v)
      ∧ run_kcore vm (Regular (idx_file files)) ids garbage tm post_fuel kernel_fuel remote (zlen v) = Ok table
      ∧ text_core v m k table.
Proof.
  destruct (read_edges_ok s) as (v0 & m & Hm & Hin0 & _ & Hread).
  exists (v0 ≫= expand flip true), m. split; [done|]. intros d Hsz Hdep Hfuel k.
  pose proof (expand_in _ _ flip true Hin0) as Hin.
  pose proof (expand_symmetric flip v0) as Hsym. set (v := v0 ≫= expand flip true) in *.
  destruct (deploy_text 4 0 flip true s v m d vm ids garbage post_fuel server_fuel)
    as (files & remote & g & Ef & Ea & Eg & [Hrun Gn Gm Hcsr Hadj Ht (HAw & HAs & HAc & HAb) (HBw & HBs & HBb)]); [done..|].
  set (ops := client_ops ids garbage post_fuel remote g).
  pose proof (deployed_graph 0 v m ids garbage post_fuel remote g ltac:(by split)) as [En Eadj Edeg].
  fold ops in En, Eadj, Edeg.
  destruct (kcore_kernel_ok (EO := ops) (EE := rdma_engine _ _ _ _ _ _ _ Hrun) kernel_fuel k (gc_index g)
    (zlen v) (frontierA g) (frontierB g) (gc_table g) (first_state tm g)) as (st & Ek & Hcore); rewrite ?En; try done.
  { intros a b Ha Hb. rewrite !Eadj by (rewrite <- En; done). apply Hsym. }
  { split; rewrite ?En; try done. rewrite Ht. unfold zlen. rewrite length_replicate. lia. }
  exists files, remote, (degree st). split; [done|]. split; [done|]. split.
  { unfold run_kcore. rewrite Eg, bind_ok. fold k. fold ops. by rewrite Ek. }
  by apply (core_text (EO := ops)).
Qed.
End end_to_end.
