(* ===== verification/Analyses.v ===== *)
(** * Analyses: connected components and independent sets of an edge list

    As [EndToEnd] does for BFS and k-core: the text of the edges is converted,
    served, loaded and analysed over RDMA, and the result is stated in terms of
    the edges of the text. *)

From S2P Require Import Prelude Platform MmapUtil VertexTable Bitmap Stats PackWindow.
From S2P Require Import Engine EdgeEngine Options KernelCtx ServerFile Csr EndToEnd.
From S2P Require Import ConnectedComponents Mis.

Section analyses.
  Context {BU : BuildOptions} {BO : Boost} {OS : Os} {FM : FileMapping} {CB : Combinable}.
  Context {ETS : EnumerableThreadSpecific} {CK : Clock} {SC : Scheduler} {NI : Nic}.

Section client.
  Context (vm : variables_map) (index_file : fs_node) (ids : list Z) (garbage : window).
  Context (tm : timing) (post_fuel kernel_fuel : nat) (remote : remote_region) (edges : Z).

Definition run_cc : result (list Z) :=
  g ← new_Generic_ctx 4 0 vm index_file edges SINGLE;
  st ← cc_kernel (EO := client_ops ids garbage post_fuel remote g) kernel_fuel (frontierA g)
         (frontierB g) (gc_table g) (first_state tm g);
  Ok (labels st).

Definition run_mis : result (list MatchFlag) :=
  g ← new_Generic_ctx 1 UNDECIDED vm index_file edges SINGLE;
  st ← mis_kernel (EO := client_ops ids garbage post_fuel remote g) kernel_fuel (o_delta vm)
         (gc_index g) edges (frontierA g) (frontierB g) (gc_table g) (first_state tm g);
  Ok (ms_flags st).
End client.

Definition connected (v : list Csr.edge) (u w : Z) : Prop := ∃ k, path v u k w.

Section reachability.
  Context {EO : EngineOps} (v : list Csr.edge) (m : Z).
  Context (Hin : endpoints_in v m) (Hn : g_n eng_graph = m + 1).
  Context (Hadj : ∀ u, 0 ≤ u < m + 1 → g_adj eng_graph u = adjacency v u).

Lemma graph_edge u w : ConnectedComponents.edge u w ↔ (u, w) ∈ v.
Proof using Hin Hn Hadj.
  unfold ConnectedComponents.edge. rewrite Hn. split.
  - intros [Hu Hw]. rewrite Hadj in Hw by done. by apply elem_of_adjacency.
  - intros He. pose proof (Hin _ He) as [Hu _]. cbn in Hu. split; [lia|].
    rewrite Hadj by lia. by apply elem_of_adjacency.
Qed.

Lemma reaches_connected u w : rtc ConnectedComponents.edge u w ↔ connected v u w.
Proof using Hin Hn Hadj.
  split.
  - revert w. apply rtc_ind_r; [by exists 0%nat; constructor|].
    intros x y _ He [k Hk]. exists (S k). econstructor; [done|]. by apply graph_edge.
  - intros [k Hk]. induction Hk as [|k x y _ IH He]; [done|].
    eapply rtc_r; [done|]. by apply graph_edge.
Qed.

(** Labels, in terms of the text. *)
Definition text_components (und : bool) (table : list Z) : Prop :=
  (∀ u, 0 ≤ u ≤ m → 0 ≤ at_ table u ≤ m ∧ connected v (at_ table u) u
     ∧ ∀ x, 0 ≤ x ≤ m → connected v x u → at_ table u ≤ x)
  ∧ (und = true → ∀ u w, 0 ≤ u ≤ m → 0 ≤ w ≤ m →
       at_ table u = at_ table w ↔ connected v u w).

Lemma components_text und table :
  (und = true → ∀ a b, (a, b) ∈ v → (b, a) ∈ v) → components table → text_components und table.
Proof using Hin Hn Hadj.
  intros Hsym [Hlab Hconn]. split.
  - intros u Hu. rewrite Hn in Hlab. destruct (Hlab u) as (Hl & Hru & Hmin); [lia|].
    split; [lia|]. split; [by apply reaches_connected|].
    intros x Hx Hxu. apply Hmin; [lia|by apply reaches_connected].
  - intros Hund u w Hu Hw. rewrite <- reaches_connected. apply Hconn; [|rewrite Hn; lia..].
    intros x y. rewrite !graph_edge. by apply Hsym.
Qed.

(** An independent set, in terms of the text. *)
Definition text_independent (table : list MatchFlag) : Prop :=
  (∀ u, 0 ≤ u ≤ m → at_ table u = IN ↔ ∀ w, (u, w) ∈ v → w < u → at_ table w ≠ IN)
  ∧ (∀ u w, (u, w) ∈ v → u ≠ w → ¬ (at_ table u = IN ∧ at_ table w = IN))
  ∧ ∀ u, 0 ≤ u ≤ m → at_ table u = IN
      ∨ at_ table u = OUT ∧ ∃ w, (u, w) ∈ v ∧ at_ table w = IN.

Lemma independent_text table :
  (∀ a b, (a, b) ∈ v → (b, a) ∈ v) → maximal_independent table → text_independent table.
Proof using Hin Hn Hadj.
  intros Hsym [Hg Hund]. unfold greedy in Hg. rewrite Hn in Hg, Hund.
  assert (Hadjw : ∀ u w, 0 ≤ u ≤ m → w ∈ g_adj eng_graph u ↔ (u, w) ∈ v).
  { intros u w Hu. rewrite Hadj by lia. apply elem_of_adjacency. }
  assert (Hends : ∀ u w, (u, w) ∈ v → (0 ≤ u ≤ m) ∧ 0 ≤ w ≤ m) by (intros u w He; apply (Hin _ He)).
  destruct Hund as [Hindep Hmax].
  { intros u w Hu Hw. rewrite !Hn in *. rewrite !Hadjw by lia. split; apply Hsym. }
  split; [|split].
  - intros u Hu. destruct (Hg u) as [_ ->]; [lia|]. by setoid_rewrite Hadjw.
  - intros u w He Hne. destruct (Hends u w He). apply Hindep; [lia|by apply Hadjw|done].
  - intros u Hu. destruct (Hg u) as [Hdec _]; [lia|]. specialize (Hmax u ltac:(lia)).
    destruct (at_ table u); [done|by left|right]. split; [done|].
    destruct Hmax as (w & Hw & Hi); [done|]. exists w. by rewrite <- Hadjw.
Qed.
End reachability.

(** C3: connected components, from the text to the labels.  For every text of
    edges, converter and option, when the sizes fit and the platform grants the
    resources, the converter's files can be served and loaded, and the kernel run
    over RDMA labels every vertex with the smallest vertex from which a path leads
    to it along the edges of the text; with [make-undirected], two vertices have
    the same label exactly when a path connects them. *)
Theorem cc_end_to_end flip und s vm ids garbage tm post_fuel server_fuel kernel_fuel :
  ∃ v m, read_edges flip und s = Ok (v, m) ∧ ∀ d,
    sizes v m d → deployment 4 vm ids garbage post_fuel server_fuel (m + 1) (zlen v) d →
    (Z.to_nat ((m + 1) * (m + 1) + 1) < kernel_fuel)%nat →
    ∃ files remote table, encode flip und false s = Ok files
      ∧ announce server_fuel (Regular (adj_file files)) (o_madvise_thp vm) = Ok (remote, zlen v)
      ∧ run_cc vm (Regular (idx_file files)) ids garbage tm post_fuel kernel_fuel remote (zlen v) = Ok table
      ∧ text_components v m und table.
Proof.
  destruct (read_edges_ok s) as (v0 & m & Hm & Hin0 & _ & Hread).
  exists (v0 ≫= expand flip und), m. split; [done|]. intros d Hsz Hdep Hfuel.
  pose proof (expand_in _ _ flip und Hin0) as Hin.
  pose proof (expand_edge_symmetric flip v0) as Hsym. set (v := v0 ≫= expand flip und) in *.
  destruct (deploy_text 4 0 flip und s v m d vm ids garbage post_fuel server_fuel)
    as (files & remote & g & Ef & Ea & Eg & [Hrun Gn Gm Hcsr Hadj Ht (HAw & HAs & HAc & HAb) (HBw & HBs & HBb)]); [done..|].
  pose proof (deployed_graph 0 v m ids garbage post_fuel remote g ltac:(by split)) as [En Eadj _].
  destruct (initial_table 0 (m + 1) (gc_table g)) as [Hlt _]; [lia|done|].
  set (ops := client_ops ids garbage post_fuel remote g) in *.
  destruct (cc_kernel_ok (EO := ops) (EE := rdma_engine _ _ _ _ _ _ _ Hrun) kernel_fuel
    (frontierA g) (frontierB g) (gc_table g) (first_state tm g)) as (st & Ek & Hcomp); rewrite ?En; try done.
  { split; rewrite ?En; try done. split; [apply HAw|done]. }
  exists files, remote, (labels st). split; [done|]. split; [done|]. split.
  - unfold run_cc. rewrite Eg, bind_ok. fold ops. by rewrite Ek.
  - apply (components_text (EO := ops)); [done..| |exact Hcomp]. intros ->. exact Hsym.
Qed.

(** C4: the maximal independent set, from the text to the set.  For every text
    read with [make-undirected], when the sizes fit, the platform grants the
    resources and the option [delta] is a divisor the kernel can use, the
    converter's files can be served and loaded, and the kernel run over RDMA takes
    a vertex into the set exactly when none of its smaller neighbours is in it; no
    edge of the text joins two members, and every vertex outside the set has a
    neighbour in it. *)
Theorem mis_end_to_end flip s vm ids garbage tm post_fuel server_fuel kernel_fuel :
  ∃ v m, read_edges flip true s = Ok (v, m) ∧ ∀ d,
    sizes v m d → deployment 1 vm ids garbage post_fuel server_fuel (m + 1) (zlen v) d →
    0 < o_delta vm ≤ m + 1 → m + 1 + (m + 1) / o_delta vm < 2 ^ 32 →
    (2 * Z.to_nat (m + 1) < kernel_fuel)%nat →
    ∃ files remote table, encode flip true false s = Ok files
      ∧ announce server_fuel (Regular (adj_file files)) (o_madvise_thp vm) = Ok (remote, zlen v)
      ∧ run_mis vm (Regular (idx_file files)) ids garbage tm post_fuel kernel_fuel remote (zlen v) = Ok table
      ∧ text_independent v m table.
Proof.
  destruct (read_edges_ok s) as (v0 & m & Hm & Hin0 & _ & Hread).
  exists (v0 ≫= expand flip true), m. split; [done|]. intros d Hsz Hdep Hdelta H32 Hfuel.
  pose proof (expand_in _ _ flip true Hin0) as Hin.
  pose proof (expand_edge_symmetric flip v0) as Hsym. set (v := v0 ≫= expand flip true) in *.
  destruct (deploy_text 1 UNDECIDED flip true s v m d vm ids garbage post_fuel server_fuel)
    as (files & remote & g & Ef & Ea & Eg & [Hrun Gn Gm Hcsr Hadj Ht (HAw & HAs & HAc & HAb) (HBw & HBs & HBb)]); [done..|].
  pose proof (deployed_graph UNDECIDED v m ids garbage post_fuel remote g ltac:(by split)) as [En Eadj Edeg].
  destruct (initial_table UNDECIDED (m + 1) (gc_table g)) as [Hlt Hat]; [lia|done|].
  set (ops := client_ops ids garbage post_fuel remote g) in *.
  destruct (mis_kernel_ok (EO := ops) (EE := rdma_engine _ _ _ _ _ _ _ Hrun) kernel_fuel (o_delta vm)
    (gc_index g) (zlen v) (frontierA g) (frontierB g) (gc_table g) (first_state tm g))
    as (st & Ek & Hmi); rewrite ?En; try done.
  { split; rewrite ?En; try done. intros u Hu. by apply Edeg. }
  exists files, remote, (ms_flags st). split; [done|]. split; [done|]. split.
  - unfold run_mis. rewrite Eg, bind_ok. fold ops. by rewrite Ek.
  - by apply (independent_text (EO := ops)).
Qed.
End analyses.
