(* ===== verification/Ranks.v ===== *)
(** * Ranks: PageRank of an edge list

    As [EndToEnd] and [Analyses] do for the other kernels: the text of the edges is
    converted, served, loaded and ranked over RDMA, and the iteration and the list
    of the twenty largest ranks are stated in terms of the edges of the text.  No
    rank is ever negative or a NaN, so the order the ranks are sorted by is one. *)

From Stdlib Require Import SpecFloat.
From stdpp Require Import sorting.
From S2P Require Import Prelude Platform StdLib Float32 MmapUtil VertexTable Bitmap Stats PackWindow.
From S2P Require Import Engine EdgeEngine.
From S2P Require Import Options KernelCtx ServerFile Csr EndToEnd PagerankDelta.

Section ranks.
  Context {BU : BuildOptions} {BO : Boost} {OS : Os} {FM : FileMapping} {CB : Combinable}.
  Context {ETS : EnumerableThreadSpecific} {CK : Clock} {SC : Scheduler} {NI : Nic}.
  Abbreviation table := (list pagerank_delta_vertex).

(** ** The client ([run_kernel]): the table, and the pairs it prints *)
Section client.
  Context (vm : variables_map) (index_file : fs_node) (ids : list Z) (garbage : window).
  Context (tm : timing) (post_fuel kernel_fuel : nat) (remote : remote_region) (edges : Z).

Definition run_pagerank : result (table * list (f32 * Z)) :=
  g ← new_Generic_ctx 12 (PrVertex f32_zero f32_zero f32_zero) vm index_file edges SINGLE;
  st ← pagerank_kernel (EO := client_ops ids garbage post_fuel remote g) kernel_fuel
         (frontierA g) (frontierB g) (gc_table g) (first_state tm g);
  ranks ← print_top_20 (vtab st) (gc_num_vertices g);
  Ok (vtab st, ranks).
End client.

(** ** The iteration on the edges of the text *)
Section text.
  Context (v : list Csr.edge) (m : Z).

Definition out_degree (u : Z) : Z := zlen (neighbours v u).

(** What [u] gives along each of its edges. *)
Definition edge_share (vt : table) (u : Z) : f32 :=
  f32_div (f32_mul (delta (at_ vt u)) alpha) (f32_of_u32 (out_degree u)).

(** What [w] receives from the vertices [l], in this order: a share for every edge. *)
Definition incoming (vt : table) (l : list Z) (w : Z) : list f32 :=
  l ≫= λ u, replicate (Z.to_nat (multiplicity v u w)) (edge_share vt u).

(** One round: the active vertices that have edges give their deltas away, in some
    order; then every vertex examines its residual ([vertex_map]). *)
Definition rank_round (vt : table) (act : Z → bool) (vt' : table) (act' : Z → bool) : Prop :=
  ∃ l, NoDup l ∧ (∀ u, u ∈ l ↔ 0 ≤ u ≤ m ∧ act u = true ∧ 0 < out_degree u) ∧
    ∀ w, 0 ≤ w ≤ m →
      vertex_map (PrVertex (value (at_ vt w))
        (if bool_decide (w ∈ l) then f32_zero else delta (at_ vt w))
        (fold_left f32_add (incoming vt l w) (residual (at_ vt w))))
      = (act' w, at_ vt' w).

(** The same when every vertex adds what it receives in an order of its own. *)
Definition free_rank_round (vt : table) (act : Z → bool) (vt' : table) (act' : Z → bool) : Prop :=
  ∃ l, NoDup l ∧ (∀ u, u ∈ l ↔ 0 ≤ u ≤ m ∧ act u = true ∧ 0 < out_degree u) ∧
    ∀ w, 0 ≤ w ≤ m → ∃ shares, shares ≡ₚ incoming vt l w ∧
      vertex_map (PrVertex (value (at_ vt w))
        (if bool_decide (w ∈ l) then f32_zero else delta (at_ vt w))
        (fold_left f32_add shares (residual (at_ vt w))))
      = (act' w, at_ vt' w).

Lemma rounds_of_mono (R R' : table → (Z → bool) → table → (Z → bool) → Prop) k vt act vt' act' :
  (∀ vt act vt' act', R vt act vt' act' → R' vt act vt' act') →
  rounds_of R k vt act vt' act' → rounds_of R' k vt act vt' act'.
Proof. intros HR. induction 1; econstructor; eauto. Qed.

Lemma rank_round_free vt act vt' act' : rank_round vt act vt' act' → free_rank_round vt act vt' act'.
Proof. intros (l & Hnd & Hl & Hat). exists l. split; [done|]. split; [done|]. intros w Hw. eexists; split; [done|by apply Hat]. Qed.

(** ** No rank is negative or a NaN *)
Record vertex_nonneg (x : pagerank_delta_vertex) : Prop := {
  vn_value : f32_nonneg (value x);
  vn_delta : f32_nonneg (delta x);
  vn_residual : f32_nonneg (residual x);
}.

Lemma vertex_map_nonneg x : vertex_nonneg x → vertex_nonneg (vertex_map x).2.
Proof.
  intros [Hv Hd Hr]. unfold vertex_map. case_match; [|by split].
  split; cbn; [by apply f32_add_nonneg|done|done].
Qed.

Section numbers.
  Context (Hdeg : ∀ u, 0 ≤ u ≤ m → out_degree u < 2 ^ 32).

Lemma incoming_nonneg vt l w :
  (∀ u, u ∈ l → 0 ≤ u ≤ m ∧ 0 < out_degree u) → (∀ u, 0 ≤ u ≤ m → vertex_nonneg (at_ vt u)) →
  Forall f32_nonneg (incoming vt l w).
Proof using Hdeg.
  intros Hl Hvt. apply Forall_forall. intros x (u & Hx & Hu)%list_elem_of_bind.
  apply elem_of_replicate in Hx as [-> _]. destruct (Hl u Hu) as [Hum Hd].
  apply f32_div_nonneg; [|apply f32_of_u32_positive; auto].
  apply f32_mul_nonneg; [by apply Hvt|by vm_compute].
Qed.

Lemma rank_round_nonneg vt act vt' act' :
  free_rank_round vt act vt' act' → (∀ u, 0 ≤ u ≤ m → vertex_nonneg (at_ vt u)) →
  ∀ u, 0 ≤ u ≤ m → vertex_nonneg (at_ vt' u).
Proof using Hdeg.
  intros (l & _ & Hl & Hall) Hvt w Hw. destruct (Hall w Hw) as (shares & Hp & Hat).
  apply (f_equal snd) in Hat. cbn [snd] in Hat. rewrite <- Hat. apply vertex_map_nonneg.
  destruct (Hvt w Hw) as [Hv Hd Hr]. split; cbn; [done|by case_bool_decide|].
  apply fold_add_nonneg; [done|]. rewrite Hp. apply incoming_nonneg; [|done]. intros u Hu. by apply Hl in Hu as (? & _ & ?).
Qed.

Lemma rank_rounds_nonneg k vt act vt' act' :
  rounds_of free_rank_round k vt act vt' act' → (∀ u, 0 ≤ u ≤ m → vertex_nonneg (at_ vt u)) →
  ∀ u, 0 ≤ u ≤ m → vertex_nonneg (at_ vt' u).
Proof using Hdeg.
  induction 1 as [|k vt1 act1 vt2 act2 vt3 act3 _ IH Hr]; [done|]. intros H. eapply rank_round_nonneg; [done|]. by apply IH.
Qed.
End numbers.

(** ** The rounds of the kernel are rounds on the text *)
Section graph.
  Context {EO : EngineOps} (Hn : g_n eng_graph = m + 1).
  Context (Hadj : ∀ u, 0 ≤ u < m + 1 → g_adj eng_graph u = adjacency v u).

Lemma graph_out_degree u : 0 ≤ u ≤ m → g_deg eng_graph u = out_degree u.
Proof using Hadj. intros Hu. unfold g_deg, out_degree. rewrite Hadj by lia. apply zlen_adjacency. Qed.

(** The vertices that push, in the order of the text's rounds. *)
Definition pushers (l : list Z) : list Z := filter (λ u, 0 < out_degree u) (reverse l).

Lemma pushers_ok act l :
  covers act (g_deg eng_graph) (rng 0 (g_n eng_graph)) l →
  NoDup (pushers l) ∧ (∀ u, u ∈ pushers l ↔ 0 ≤ u ≤ m ∧ act u = true ∧ 0 < out_degree u)
  ∧ ∀ vt w, 0 ≤ w ≤ m →
      bool_decide (w ∈ l ∧ 0 < g_deg eng_graph w) = bool_decide (w ∈ pushers l)
      ∧ received vt l w = incoming vt (pushers l) w.
Proof using Hn Hadj.
  intros (Hnd & Hin & Hall). rewrite Hn in *. unfold pushers.
  assert (Hmem : ∀ u, u ∈ filter (λ u, 0 < out_degree u) (reverse l) ↔ u ∈ l ∧ 0 < out_degree u).
  { intros u. rewrite list_elem_of_filter, elem_of_reverse. tauto. }
  assert (Hr : ∀ u, u ∈ l → 0 ≤ u ≤ m) by (intros u [Hu%elem_of_rng _]%Hin; lia).
  split; [by apply NoDup_filter; rewrite reverse_Permutation|]. split.
  - intros u. rewrite Hmem. split.
    + intros [Hu Hd]. split; [by apply Hr|]. split; [by apply Hin|done].
    + intros (Hu & Ha & Hd). split; [|done]. apply Hall; [apply elem_of_rng; lia|done|].
      by rewrite graph_out_degree by done.
  - intros vt w Hw. split.
    + apply bool_decide_ext. by rewrite Hmem, graph_out_degree by done.
    + symmetry. unfold incoming, received. clear - Hadj Hr.
      assert (Hr' : ∀ u, u ∈ reverse l → 0 ≤ u ≤ m) by (intros u; rewrite elem_of_reverse; apply Hr).
      induction (reverse l) as [|u l' IH]; [done|]. rewrite bind_cons, filter_cons.
      assert (Hu : 0 ≤ u ≤ m) by (apply Hr'; set_solver). rewrite <- IH by (intros; apply Hr'; set_solver).
      rewrite Hadj, occ_adjacency, occ_neighbours by lia. unfold share. rewrite graph_out_degree by done.
      case_decide as Hd; [by rewrite bind_cons|].
      assert (multiplicity v u w = 0) as ->; [|done].
      rewrite <- occ_neighbours. unfold out_degree in Hd. unfold zlen in Hd.
      destruct (neighbours v u); [done|cbn in Hd; lia].
Qed.

Lemma pr_round_text vt act vt' act' : pr_round vt act vt' act' → rank_round vt act vt' act'.
Proof using Hn Hadj.
  intros (l & Hl & _ & Hat). destruct (pushers_ok act l Hl) as (Hnd & Hmem & Heq).
  exists (pushers l). split; [done|]. split; [done|]. intros w Hw. destruct (Heq vt w Hw) as [<- <-].
  rewrite <- Hat by lia. done.
Qed.

Lemma pr_rounds_text k vt act vt' act' :
  pr_rounds k vt act vt' act' → rounds_of rank_round k vt act vt' act'.
Proof using Hn Hadj. induction 1; econstructor; [done|by apply pr_round_text]. Qed.
End graph.
End text.

(** The ranks of a table that are printed. *)
Record text_ranks (m : Z) (vt : table) (ranks : list (f32 * Z)) : Prop := {
  tr_nonneg u : 0 ≤ u ≤ m → vertex_nonneg (at_ vt u);
  tr_length : zlen ranks = (m + 1) `min` 20;
  tr_once : NoDup ranks.*2;
  tr_ranks p : p ∈ ranks → 0 ≤ p.2 ≤ m ∧ p.1 = value (at_ vt p.2);
  tr_sorted : StronglySorted (λ p q, SFltb p.1 q.1 = false) ranks;
  tr_largest p u : p ∈ ranks → 0 ≤ u ≤ m → u ∉ ranks.*2 → SFltb p.1 (value (at_ vt u)) = false;
}.

(** After rounds of either kind no rank is negative or a NaN, and the largest are
    printed. *)
Lemma ranks_text v m d k init act vt act' :
  sizes v m d → (∀ u, 0 ≤ u ≤ m → at_ init u = PrVertex f32_zero INIT_RESIDUAL f32_zero) →
  rounds_of (free_rank_round v m) k init act vt act' → zlen vt = m + 1 →
  ∃ ranks, print_top_20 vt (m + 1) = Ok ranks ∧ text_ranks m vt ranks.
Proof.
  intros Hsz Hinit Hrounds Hlen. assert (Hgood : ∀ u, 0 ≤ u ≤ m → vertex_nonneg (at_ vt u)).
  { apply (rank_rounds_nonneg v m) with (k := k) (vt := init) (act := act) (act' := act').
    - intros u Hu. pose proof (sz_degrees _ _ _ Hsz u Hu). destruct (sz_max _ _ _ Hsz). unfold out_degree. lia.
    - done.
    - intros u Hu. rewrite Hinit by lia. by split. }
  destruct (print_top_20_ok vt) with (num_verts := m + 1) as (ranks & Ep & Hl & Hnd & Hr & Hs & Hrest).
  { intros u Hu. apply f32_nonneg_number, Hgood. lia. }
  { done. }
  { apply Hsz. }
  exists ranks. split; [done|]. split; try done.
  - intros p Hp. rewrite Forall_forall in Hr. destruct (Hr p Hp) as [? ?]. split; [lia|done].
  - clear - Hs. induction Hs as [|p l _ IH Hp]; constructor; [done|].
    eapply Forall_impl; [exact Hp|]. intros q. by apply ranked_lt_value.
  - intros p u Hp Hu Hn. apply Hrest; [done|lia|done].
Qed.

(** C5: PageRank, from the text to the ranks that are printed.  For every text of
    edges, converter and option, when the sizes fit and the platform grants the
    resources, the converter's files can be served and loaded, and the kernel run
    over RDMA makes four rounds of [rank_round] on the edges of the text, or fewer
    when no vertex is active any more, from the initial table with every vertex
    active.  No value, delta or residual of the result is negative or a NaN, and the
    list that is printed has the largest ranks, at most twenty, each of another
    vertex, in descending order. *)
Theorem pagerank_end_to_end flip und s vm ids garbage tm post_fuel server_fuel kernel_fuel :
  ∃ v m, read_edges flip und s = Ok (v, m) ∧ ∀ d,
    sizes v m d → deployment 12 vm ids garbage post_fuel server_fuel (m + 1) (zlen v) d →
    (4 < kernel_fuel)%nat →
    ∃ files remote table ranks, encode flip und false s = Ok files
      ∧ announce server_fuel (Regular (adj_file files)) (o_madvise_thp vm) = Ok (remote, zlen v)
      ∧ run_pagerank vm (Regular (idx_file files)) ids garbage tm post_fuel kernel_fuel remote (zlen v)
        = Ok (table, ranks)
      ∧ (∃ k init act act', (k ≤ 4)%nat
           ∧ (∀ u, 0 ≤ u ≤ m → at_ init u = PrVertex f32_zero INIT_RESIDUAL f32_zero ∧ act u = true)
           ∧ rounds_of (rank_round v m) k init act table act'
           ∧ (k = 4%nat ∨ ∀ u, 0 ≤ u ≤ m → act' u = false))
      ∧ text_ranks m table ranks.
Proof.
  destruct (read_edges_ok s) as (v0 & m & Hm & Hin0 & _ & Hread).
  exists (v0 ≫= expand flip und), m. split; [done|]. intros d Hsz Hdep Hfuel.
  pose proof (expand_in _ _ flip und Hin0) as Hin. set (v := v0 ≫= expand flip und) in *.
  destruct (deploy_text 12 (PrVertex f32_zero f32_zero f32_zero) flip und s v m d vm ids garbage post_fuel server_fuel)
    as (files & remote & g & Ef & Ea & Eg & [Hrun Gn Gm Hcsr Hadj Ht (HAw & HAs & HAc & HAb) (HBw & HBs & HBb)]); [done..|].
  pose proof (deployed_graph (PrVertex f32_zero f32_zero f32_zero) v m ids garbage post_fuel remote g
    ltac:(by split)) as [En Eadj _].
  destruct (initial_table (PrVertex f32_zero f32_zero f32_zero) (m + 1) (gc_table g)) as [Hlt _]; [lia|done|].
  set (ops := client_ops ids garbage post_fuel remote g) in *.
  destruct (pagerank_kernel_ok (EO := ops) (EE := rdma_engine _ _ _ _ _ _ _ Hrun) kernel_fuel
    (frontierA g) (frontierB g) (gc_table g) (first_state tm g))
    as (st & k & init & act & Ek & Hk & Hinit & Hrounds & Hend & Hlen); rewrite ?En in *; try done.
  { split; rewrite ?En; try done. split; [apply HAw|done]. }
  assert (Htext : rounds_of (rank_round v m) k init act (vtab st) (bm_get (frontier st)))
    by by apply (pr_rounds_text v m (EO := ops)).
  destruct (ranks_text v m d k init act (vtab st) (bm_get (frontier st))) as (ranks & Ep & Hranks); [done| | |done|].
  { intros u Hu. apply Hinit. lia. }
  { eapply rounds_of_mono; [|exact Htext]. apply rank_round_free. }
  exists files, remote, (vtab st), ranks. split; [done|]. split; [done|]. split.
  { unfold run_pagerank. rewrite Eg, bind_ok. fold ops. rewrite Ek, bind_ok, Gn, Ep. done. }
  split; [|done]. exists k, init, act, (bm_get (frontier st)). split; [done|]. split; [intros u Hu; apply Hinit; lia|].
  split; [done|]. destruct Hend as [?|Hend]; [by left|right]. intros u Hu. apply Hend. lia.
Qed.
End ranks.
