(* ===== verification/RacingEndToEnd.v ===== *)
(** * RacingEndToEnd: from an edge list to the result, with everything racing

    As [EndToEnd], [Analyses] and [Ranks] do, the text of the edges is converted,
    served and loaded; here the kernels run on the racing engine: the workers
    interleave with each other and with the card operation by operation.  The results
    are those of the text, in every execution. *)

From Stdlib Require Import SpecFloat.
From S2P Require Import Prelude Platform StdLib MmapUtil VertexTable Bitmap Stats PackWindow.
From S2P Require Import Engine EdgeEngine Interleaving Hiding EngineConcurrent EngineKernels.
From S2P Require Import Options KernelCtx ServerFile Csr EndToEnd Analyses Ranks.
From S2P Require Bfs BfsConcurrent Kcore KcoreConcurrent ConnectedComponents CcConcurrent.
From S2P Require Mis MisConcurrent PagerankDelta PagerankConcurrent.

#[local] Existing Instances Bfs.bfs_vertex_inhabited PagerankDelta.pr_vertex_inhabited.
#[local] Existing Instances Mis.MatchFlag_inhabited Mis.MatchFlag_eq_dec.

(** ** Facts of the text *)
Lemma symmetric_edges v :
  (∀ a b, occ b (adjacency v a) = occ a (adjacency v b)) → ∀ a b, (a, b) ∈ v → (b, a) ∈ v.
Proof. intros Hsym a b. by rewrite <- !elem_of_adjacency, <- !occ_pos, Hsym. Qed.

(** The degrees add up to the number of edges. *)
Lemma degrees_sum v m : endpoints_in v m → zsum (out_degree v) (rng 0 (m + 1)) = zlen v.
Proof.
  induction v as [|p v IH]; intros Hin.
  - rewrite (zsum_ext _ (λ _, 0)) by done. rewrite zsum_const. done.
  - assert (Hp : p.1 ∈ rng 0 (m + 1)) by (apply elem_of_rng; destruct (Hin p); [by left|lia]).
    rewrite (zsum_update (out_degree v) _ _ p.1), IH;
      [|by intros q Hq; apply Hin; right|by apply NoDup_rng|done|].
    + unfold out_degree, neighbours. rewrite filter_cons_True by done. unfold zlen. cbn. lia.
    + intros u _ Hu. unfold out_degree, neighbours. by rewrite filter_cons_False.
Qed.

Section rounds.
  Context {BU : BuildOptions} {CB : Combinable} {EO : EngineOps} (v : list Csr.edge) (m : Z).
  Context (Hn : g_n eng_graph = m + 1) (Hadj : ∀ u, 0 ≤ u < m + 1 → g_adj eng_graph u = adjacency v u).

(** The asynchronous rounds of PageRank are rounds on the edges of the text. *)
Lemma async_round_text vt act vt' act' :
  PagerankConcurrent.async_round vt act vt' act' → free_rank_round v m vt act vt' act' ∧ zlen vt' = m + 1.
Proof using Hn Hadj.
  intros (l & Hl & Hlen & Hat). destruct (pushers_ok v m Hn Hadj act l Hl) as (Hnd & Hmem & Heq).
  split; [|by rewrite Hlen]. exists (pushers v l). split; [done|]. split; [done|]. intros w Hw.
  destruct (Heq vt w Hw) as [<- <-]. destruct (Hat w) as (shares & Hsh & E); [rewrite Hn; lia|]. by exists shares.
Qed.

Lemma async_rounds_text k vt act vt' act' :
  PagerankDelta.rounds_of PagerankConcurrent.async_round k vt act vt' act' →
  PagerankDelta.rounds_of (free_rank_round v m) k vt act vt' act'
  ∧ (k = 0%nat ∧ act' = act ∨ zlen vt' = m + 1).
Proof using Hn Hadj.
  induction 1 as [|k vt1 act1 vt2 act2 vt3 act3 _ [IH _] Hr]; [split; [constructor|by left]|].
  destruct (async_round_text _ _ _ _ Hr) as [Hf Hlen]. split; [by econstructor|by right].
Qed.
End rounds.

(** ** The kernels *)
Section racing.
  Context {BU : BuildOptions} {BO : Boost} {OS : Os} {FM : FileMapping} {CB : Combinable}.
  Context {ETS : EnumerableThreadSpecific} {CK : Clock} {SC : Scheduler} {NI : Nic}.

(** The text, the client's options and resources, what the queue pairs answer, and
    what happens to the statistics between the rounds. *)
  Context (s : list Z) (flip : bool) (vm : variables_map) (ids : list Z) (garbage : window) (tm : timing).
  Context (post_fuel server_fuel : nat) (qp_ret : nat → nat → Z) (between : timing → timing).
  Context (Hqp : ∀ t, (t < n_workers)%nat → qp_drains qp_ret t post_fuel).

(** The engine before its first call: the client's RDMA window, empty queues. *)
Definition first_nic {V} (g : Generic_ctx V) : nic_state :=
  NicState (region_words (RDMA_window g)) (replicate n_workers []) tm 0 (replicate n_workers 0%nat).

Lemma first_nic_ready {V} (g : Generic_ctx V) : nic_ready (zlen (region_words (RDMA_window g))) (first_nic g).
Proof. split; [done|done|]. apply length_replicate. Qed.

(** All executions of a kernel from [st] on the racing engine of the client end, with
    nothing in flight and a result in [Q]. *)
Definition racing_ends {V K U} (g : Generic_ctx V) (stop : K → bool)
    (round : K → list (prog (nic_state * U) unit) → Prop) (open : K → U) (close : K → U → result K)
    (Q : K → Prop) (st : K) : Prop :=
  ends (stop_e stop) (round_e round) (open_e open) (close_e close (nic_after between))
    (λ e, nic_ready (zlen (region_words (RDMA_window g))) e.1 ∧ Q e.2) (Head (first_nic g, st)).

(** The engine as the client's context sets it up. *)
Abbreviation on_client remote g round :=
  (round remote (client_ctx ids remote g) (gc_index g) (gc_edge_buf_size g) garbage post_fuel qp_ret).

(** The converter's files, the announced region and the client's context. *)
Record prepared {V} (und : bool) (sizeof_V : Z) (V_init : V) (v : list Csr.edge) (files : csr_files)
    (remote : remote_region) (g : Generic_ctx V) : Prop := {
  pp_files : encode flip und false s = Ok files;
  pp_region : announce server_fuel (Regular (adj_file files)) (o_madvise_thp vm) = Ok (remote, zlen v);
  pp_context : new_Generic_ctx sizeof_V V_init vm (Regular (idx_file files)) (zlen v) SINGLE = Ok g;
}.

Lemma prepare {V} `{Inhabited V} und sizeof_V (V_init : V) :
  ∃ v m, read_edges flip und s = Ok (v, m) ∧ 0 ≤ m ∧ endpoints_in v m
    ∧ (und = true → ∀ a b, occ b (adjacency v a) = occ a (adjacency v b))
    ∧ ∀ d, sizes v m d → deployment sizeof_V vm ids garbage post_fuel server_fuel (m + 1) (zlen v) d →
    ∃ files remote g, prepared und sizeof_V V_init v files remote g
      ∧ deployed V_init ids garbage post_fuel (m + 1) (adjacency v) remote (zlen v) g
      ∧ engine_graph v m ids garbage post_fuel remote g
      ∧ zlen (gc_table g) = m + 1 ∧ ∀ u, 0 ≤ u < m + 1 → at_ (gc_table g) u = V_init.
Proof using Type.
  destruct (read_edges_ok s) as (v0 & m & Hm & Hin0 & _ & Hread).
  pose proof (expand_in _ _ flip und Hin0) as Hin. exists (v0 ≫= expand flip und), m.
  split; [done|]. split; [lia|]. split; [done|]. split; [intros ->; apply expand_symmetric|].
  intros d Hsz Hdep. destruct (deploy_text sizeof_V V_init flip und s _ m d vm ids garbage post_fuel server_fuel
    (Hread flip und) Hin Hsz Hdep) as (files & remote & g & Ef & Ea & Eg & Hd).
  exists files, remote, g. split; [done|]. split; [done|]. split; [by eapply deployed_graph|].
  apply initial_table; [lia|apply Hd].
Qed.

(** C8: Breadth-first search, from the text to the distances, on the racing engine.  For
    every text of edges, converter and option, when the sizes fit and the platform
    grants the resources, the converter's files can be served and loaded; and however
    the workers' posts, looks at the edge buffers, reads of edges and updates of
    vertices and the deliveries of the card interleave, the kernel ends without a
    fault, with nothing in flight and, for every vertex, the length of a shortest path
    from the start vertex along the edges of the text, or the mark [NULLVERT] if there
    is none. *)
Theorem bfs_racing_end_to_end und :
  ∃ v m, read_edges flip und s = Ok (v, m) ∧ ∀ d,
    sizes v m d → deployment 8 vm ids garbage post_fuel server_fuel (m + 1) (zlen v) d →
    0 ≤ o_start_vertex vm ≤ m →
    ∃ files remote g st, prepared und 8 (Bfs.BfsVertex Bfs.NULLVERT false) v files remote g
      ∧ Bfs.bfs_enter (EO := client_ops ids garbage post_fuel remote g) (o_start_vertex vm)
          (frontierA g) (frontierB g) (gc_table g) (first_state tm g) = Ok st
      ∧ racing_ends g BfsConcurrent.bfs_stop (on_client remote g bfs_round) BfsConcurrent.bfs_open BfsConcurrent.bfs_close
          (λ st', text_distances v m (o_start_vertex vm) (Bfs.vtable st')) st.
Proof using Hqp.
  destruct (prepare und 8 (Bfs.BfsVertex Bfs.NULLVERT false)) as (v & m & Hread & Hm & Hin & Hsym & Hprep).
  exists v, m. split; [done|]. intros d Hsz Hdep Hst.
  destruct (Hprep d Hsz Hdep) as (files & remote & g & Hp
    & [Hrun Gn Gm Hcsr Hadj Ht (HAw & HAs & HAc & HAb) (HBw & HBs & HBb)]
    & [En Eadj _] & Hlt & Hat).
  assert (Hready : Bfs.bfs_ready (EO := client_ops ids garbage post_fuel remote g)
    (EE := rdma_engine _ _ _ _ _ _ _ Hrun) (o_start_vertex vm)
    (frontierA g) (frontierB g) (gc_table g) (first_state tm g)).
  { split; rewrite ?En; try done; [lia|split; [apply HAw|done]|]. split; [done|]. intros u Hu. by rewrite Hat. }
  destruct (bfs_on_engine _ _ _ _ _ _ _ Hrun qp_ret Hqp between _ _ _ _ _ _ Hready (first_nic_ready g))
    as (st & E & Hends).
  exists files, remote, g, st. split; [done|]. split; [done|].
  eapply ends_in_impl; [|exact Hends]. intros e [He Hd]. split; [done|].
  by apply (distances_text (EO := client_ops ids garbage post_fuel remote g) v m).
Qed.

(** C12: k-core decomposition, from the text to the core, on the racing engine.  For every
    text read with [make-undirected], when the sizes fit and the platform grants the
    resources, however posts, looks, reads of edges, subtractions, bits of
    the next frontier and deliveries of the card interleave, the kernel ends without a
    fault and with nothing in flight, and the vertices with a counter of at least [k] are
    the largest set in which every vertex keeps [k] of its edges. *)
Theorem kcore_racing_end_to_end :
  ∃ v m, read_edges flip true s = Ok (v, m) ∧ ∀ d,
    sizes v m d → deployment 4 vm ids garbage post_fuel server_fuel (m + 1) (zlen v) d →
    let k := o_kcore_k vm in
    ∃ files remote g st, prepared true 4 0 v files remote g
      ∧ Kcore.kcore_enter (EO := client_ops ids garbage post_fuel remote g) k (gc_index g) (zlen v)
          (frontierA g) (frontierB g) (gc_table g) (first_state tm g) = Ok st
      ∧ racing_ends g KcoreConcurrent.kcore_stop (on_client remote g kcore_round k)
          KcoreConcurrent.kcore_open KcoreConcurrent.kcore_close
          (λ st', text_core v m k (Kcore.degree st')) st.
Proof using Hqp.
  destruct (prepare true 4 0) as (v & m & Hread & Hm & Hin & Hsym & Hprep).
  exists v, m. split; [done|]. intros d Hsz Hdep k.
  destruct (Hprep d Hsz Hdep) as (files & remote & g & Hp
    & [Hrun Gn Gm Hcsr Hadj Ht (HAw & HAs & HAc & HAb) (HBw & HBs & HBb)]
    & [En Eadj Edeg] & Hlt & Hat).
  assert (Hready : Kcore.kcore_ready (EO := client_ops ids garbage post_fuel remote g)
    (EE := rdma_engine _ _ _ _ _ _ _ Hrun) (gc_index g) (zlen v)
    (frontierA g) (frontierB g) (gc_table g) (first_state tm g)) by by split; rewrite ?En.
  assert (Hs : Kcore.symmetric (EO := client_ops ids garbage post_fuel remote g)).
  { intros a b Ha Hb. rewrite En in Ha, Hb. rewrite !Eadj by done. by apply Hsym. }
  destruct (kcore_on_engine _ _ _ _ _ _ _ Hrun qp_ret Hqp between k _ _ _ _ _ _ Hs Hready (first_nic_ready g))
    as (st & E & Hends).
  exists files, remote, g, st. split; [done|]. split; [done|].
  eapply ends_in_impl; [|exact Hends]. intros e [He Hd]. split; [done|].
  by apply (core_text (EO := client_ops ids garbage post_fuel remote g)).
Qed.

(** C9: Connected components, from the text to the labels, on the racing engine.  For every
    text of edges, converter and option, when the sizes fit and the platform grants the
    resources, however posts, looks, reads of edges, loads and exchanges of labels
    and deliveries of the card interleave, and whichever finite sequence of exchanges
    fails spuriously, every compare-and-swap loop ends, and so does the kernel, without
    a fault and with nothing in flight; every vertex is labelled with the smallest vertex from which a path of
    the text leads to it. *)
Theorem cc_racing_end_to_end und fuel failures :
  ∃ v m, read_edges flip und s = Ok (v, m) ∧ ∀ d,
    sizes v m d → deployment 4 vm ids garbage post_fuel server_fuel (m + 1) (zlen v) d →
    (Z.to_nat (m + 1) + length failures ≤ fuel)%nat →
    ∃ files remote g st, prepared und 4 0 v files remote g
      ∧ ConnectedComponents.cc_enter (EO := client_ops ids garbage post_fuel remote g)
          (frontierA g) (frontierB g) (gc_table g) (first_state tm g) = Ok st
      ∧ racing_ends g CcConcurrent.cc_stop (on_client remote g cc_round fuel)
          CcConcurrent.cc_open CcConcurrent.cc_close
          (λ x, text_components v m und (ConnectedComponents.labels x.1)) (st, failures).
Proof using Hqp.
  destruct (prepare und 4 0) as (v & m & Hread & Hm & Hin & Hsym & Hprep).
  exists v, m. split; [done|]. intros d Hsz Hdep Hfuel.
  destruct (Hprep d Hsz Hdep) as (files & remote & g & Hp
    & [Hrun Gn Gm Hcsr Hadj Ht (HAw & HAs & HAc & HAb) (HBw & HBs & HBb)]
    & [En Eadj _] & Hlt & Hat).
  assert (Hready : ConnectedComponents.cc_ready (EO := client_ops ids garbage post_fuel remote g)
    (EE := rdma_engine _ _ _ _ _ _ _ Hrun) (frontierA g) (frontierB g) (gc_table g) (first_state tm g)).
  { split; rewrite ?En; try done. split; [apply HAw|done]. }
  rewrite <- Gn in Hfuel.
  destruct (cc_on_engine _ _ _ _ _ _ _ Hrun qp_ret Hqp between fuel failures _ _ _ _ _ Hready Hfuel (first_nic_ready g))
    as (st & E & Hends).
  exists files, remote, g, st. split; [done|]. split; [done|].
  eapply ends_in_impl; [|exact Hends]. intros e [He Hd]. split; [done|].
  apply (components_text (EO := client_ops ids garbage post_fuel remote g)); [done..| |done].
  intros Hund. by apply symmetric_edges, Hsym.
Qed.

(** C10: The maximal independent set, from the text to the set, on the racing engine.  For
    every text read with [make-undirected], when the sizes fit, the platform grants the
    resources, [delta] is a divisor the kernel can use and the queues of the card are
    never full, however posts, looks, reads of edges, reads and writes of flags and
    deliveries of the card interleave, the kernel ends without a fault and with nothing
    in flight, with the greedy set of the text, which is independent
    and maximal. *)
Theorem mis_racing_end_to_end :
  (∀ t k, (t < n_workers)%nat → qp_ret t k = 0) →
  ∃ v m, read_edges flip true s = Ok (v, m) ∧ ∀ d,
    sizes v m d → deployment 1 vm ids garbage post_fuel server_fuel (m + 1) (zlen v) d →
    0 < o_delta vm ≤ m + 1 → m + 1 + (m + 1) / o_delta vm < 2 ^ 32 →
    ∃ files remote g delta st, prepared true 1 Mis.UNDECIDED v files remote g
      ∧ Mis.mis_enter (EO := client_ops ids garbage post_fuel remote g) (o_delta vm) (gc_index g) (zlen v)
          (frontierA g) (frontierB g) (gc_table g) (first_state tm g) = Ok (delta, st)
      ∧ racing_ends g MisConcurrent.mis_stop (on_client remote g mis_round)
          MisConcurrent.mis_open (MisConcurrent.mis_close delta)
          (λ p, ∃ st', p = MisConcurrent.At_test st' ∧ text_independent v m (Mis.ms_flags st'))
          (MisConcurrent.At_test st).
Proof using Hqp.
  intros Hfree. destruct (prepare true 1 Mis.UNDECIDED) as (v & m & Hread & Hm & Hin & Hsym & Hprep).
  exists v, m. split; [done|]. intros d Hsz Hdep Hdelta H32.
  destruct (Hprep d Hsz Hdep) as (files & remote & g & Hp
    & [Hrun Gn Gm Hcsr Hadj Ht (HAw & HAs & HAc & HAb) (HBw & HBs & HBb)]
    & [En Eadj Edeg] & Hlt & Hat).
  assert (Hready : Mis.mis_ready (EO := client_ops ids garbage post_fuel remote g)
    (EE := rdma_engine _ _ _ _ _ _ _ Hrun) (o_delta vm) (gc_index g) (zlen v)
    (frontierA g) (frontierB g) (gc_table g) (first_state tm g)).
  { split; rewrite ?En; try done. intros u Hu. by apply Edeg. }
  destruct (mis_on_engine _ _ _ _ _ _ _ Hrun qp_ret Hqp between _ _ _ _ _ _ _ Hfree Hready (first_nic_ready g))
    as (delta & st & E & Hends).
  exists files, remote, g, delta, st. split; [done|]. split; [done|].
  eapply ends_in_impl; [|exact Hends]. intros e (He & st' & Hst & Hd). split; [done|]. exists st'. split; [done|].
  apply (independent_text (EO := client_ops ids garbage post_fuel remote g)); [done..|by apply symmetric_edges, Hsym|done].
Qed.

(** C11: PageRank, from the text to the ranks that are printed, on the racing engine.  For
    every text of edges, converter and option, when the sizes fit and the platform
    grants the resources, however posts, looks, reads of edges, exchanges of residuals and
    deliveries of the card interleave, and whichever finite sequence of exchanges fails
    spuriously, no share is lost or added twice, and the kernel ends without a fault
    and with nothing in flight, after at most four rounds on the edges of the text in which every vertex adds what
    it receives in an order of its own; no value is negative or a NaN, and the largest
    ranks are printed in descending order. *)
Theorem pagerank_racing_end_to_end und fuel failures :
  ∃ v m, read_edges flip und s = Ok (v, m) ∧ ∀ d,
    sizes v m d → deployment 12 vm ids garbage post_fuel server_fuel (m + 1) (zlen v) d →
    (length v + length failures < fuel)%nat →
    ∃ files remote g st, prepared und 12 (PagerankDelta.PrVertex f32_zero f32_zero f32_zero) v files remote g
      ∧ PagerankDelta.pagerank_enter (EO := client_ops ids garbage post_fuel remote g)
          (frontierA g) (frontierB g) (gc_table g) (first_state tm g) = Ok st
      ∧ racing_ends g PagerankConcurrent.pagerank_stop (on_client remote g pagerank_round fuel)
          PagerankConcurrent.pagerank_open PagerankConcurrent.pagerank_close
          (λ p, ∃ st' o k init act ranks, p = PagerankConcurrent.At_test st' o ∧ (k ≤ 4)%nat
             ∧ (∀ u, 0 ≤ u ≤ m → at_ init u = PagerankDelta.PrVertex f32_zero PagerankDelta.INIT_RESIDUAL f32_zero
                  ∧ act u = true)
             ∧ PagerankDelta.rounds_of (free_rank_round v m) k init act
                 (PagerankDelta.vtab st') (bm_get (PagerankDelta.frontier st'))
             ∧ (k = 4%nat ∨ ∀ u, 0 ≤ u ≤ m → bm_get (PagerankDelta.frontier st') u = false)
             ∧ PagerankDelta.print_top_20 (PagerankDelta.vtab st') (gc_num_vertices g) = Ok ranks
             ∧ text_ranks m (PagerankDelta.vtab st') ranks)
          (PagerankConcurrent.At_test st failures).
Proof using Hqp.
  destruct (prepare und 12 (PagerankDelta.PrVertex f32_zero f32_zero f32_zero)) as (v & m & Hread & Hm & Hin & Hsym & Hprep).
  exists v, m. split; [done|]. intros d Hsz Hdep Hfuel.
  destruct (Hprep d Hsz Hdep) as (files & remote & g & Hp
    & [Hrun Gn Gm Hcsr Hadj Ht (HAw & HAs & HAc & HAb) (HBw & HBs & HBb)]
    & [En Eadj Edeg] & Hlt & Hat).
  assert (Hready : PagerankDelta.pagerank_ready (EO := client_ops ids garbage post_fuel remote g)
    (EE := rdma_engine _ _ _ _ _ _ _ Hrun) (frontierA g) (frontierB g) (gc_table g) (first_state tm g)).
  { split; rewrite ?En; try done. split; [apply HAw|done]. }
  assert (Hsum : zsum (g_deg (eng_graph (EngineOps := client_ops ids garbage post_fuel remote g)))
    (rng 0 (gc_num_vertices g)) = zlen v).
  { rewrite Gn, (zsum_ext _ (out_degree v)); [by apply degrees_sum|]. intros u Hu%elem_of_rng.
    apply (graph_out_degree v m (EO := client_ops ids garbage post_fuel remote g)); [done|lia]. }
  assert (Hf : (Z.to_nat (zsum (g_deg (eng_graph (EngineOps := client_ops ids garbage post_fuel remote g)))
    (rng 0 (gc_num_vertices g))) + length failures < fuel)%nat) by (rewrite Hsum; unfold zlen; lia).
  destruct (pagerank_on_engine _ _ _ _ _ _ _ Hrun qp_ret Hqp between fuel failures _ _ _ _ _ Hready
    Hf (first_nic_ready g)) as (st & E & Hinit & Hends).
  exists files, remote, g, st. split; [done|]. split; [done|].
  eapply ends_in_impl; [|exact Hends]. intros e (He & st' & o & k & Hst & Hk & Hrs & Hend). split; [done|].
  assert (Hinit' : ∀ u, 0 ≤ u ≤ m → at_ (PagerankDelta.vtab st) u
      = PagerankDelta.PrVertex f32_zero PagerankDelta.INIT_RESIDUAL f32_zero
      ∧ bm_get (PagerankDelta.frontier st) u = true).
  { intros u Hu. apply Hinit. change (0 ≤ u < gc_num_vertices g). rewrite Gn. lia. }
  change (g_n eng_graph) with (gc_num_vertices g) in *.
  destruct (async_rounds_text (EO := client_ops ids garbage post_fuel remote g) v m En Eadj _ _ _ _ _ Hrs)
    as [Htext Hlen].
  assert (Hend' : k = 4%nat ∨ ∀ u, 0 ≤ u ≤ m → bm_get (PagerankDelta.frontier st') u = false).
  { destruct Hend as [?|Hend]; [by left|right]. intros u Hu. apply Hend. change (0 ≤ u < gc_num_vertices g).
    rewrite Gn. lia. }
  destruct (ranks_text v m d k (PagerankDelta.vtab st) (bm_get (PagerankDelta.frontier st))
    (PagerankDelta.vtab st') (bm_get (PagerankDelta.frontier st'))) as (ranks & Ep & Hranks);
    [done|intros u Hu; by apply Hinit'|done| |].
  { destruct Hlen as [[-> Hact]|]; [|done]. destruct Hend' as [|Hend']; [done|].
    specialize (Hend' 0 ltac:(lia)). rewrite Hact in Hend'. destruct (Hinit' 0) as [_ ?]; [lia|congruence]. }
  exists st', o, k, (PagerankDelta.vtab st), (bm_get (PagerankDelta.frontier st)), ranks.
  rewrite Gn. do 6 (split; [done|]). done.
Qed.
End racing.
