(* ===== verification/Rdma.v ===== *)
(** * Rdma: connections, messages and the calls of librdmacm and libibverbs

    The data that the two connection managers ([connection_utils.cpp] on the
    client, [AbstractServer.cpp] on the server) share.  A function of the program
    yields the calls it makes in order; what they cause is the business of the
    network of [Session]. *)

From S2P Require Import Prelude Platform.

(** ** Events of the connection manager *)
Inductive rdma_cm_event_type :=
  | RDMA_CM_EVENT_ADDR_RESOLVED
  | RDMA_CM_EVENT_ADDR_ERROR
  | RDMA_CM_EVENT_ROUTE_RESOLVED
  | RDMA_CM_EVENT_ROUTE_ERROR
  | RDMA_CM_EVENT_CONNECT_REQUEST
  | RDMA_CM_EVENT_CONNECT_RESPONSE
  | RDMA_CM_EVENT_CONNECT_ERROR
  | RDMA_CM_EVENT_UNREACHABLE
  | RDMA_CM_EVENT_REJECTED
  | RDMA_CM_EVENT_ESTABLISHED
  | RDMA_CM_EVENT_DISCONNECTED
  | RDMA_CM_EVENT_DEVICE_REMOVAL
  | RDMA_CM_EVENT_MULTICAST_JOIN
  | RDMA_CM_EVENT_MULTICAST_ERROR
  | RDMA_CM_EVENT_ADDR_CHANGE
  | RDMA_CM_EVENT_TIMEWAIT_EXIT.

#[export] Instance event_type_eq_dec : EqDecision rdma_cm_event_type.
Proof. solve_decision. Defined.

(** Connections ([rdma_cm_id]) are numbered; the two ends of a connection carry
    the same number. *)
Record rdma_cm_event := CmEvent { event : rdma_cm_event_type; ev_id : Z }.

#[export] Instance cm_event_eq_dec : EqDecision rdma_cm_event.
Proof. solve_decision. Defined.

Definition event_code (e : rdma_cm_event_type) : nat :=
  match e with
  | RDMA_CM_EVENT_ADDR_RESOLVED => 0
  | RDMA_CM_EVENT_ADDR_ERROR => 1
  | RDMA_CM_EVENT_ROUTE_RESOLVED => 2
  | RDMA_CM_EVENT_ROUTE_ERROR => 3
  | RDMA_CM_EVENT_CONNECT_REQUEST => 4
  | RDMA_CM_EVENT_CONNECT_RESPONSE => 5
  | RDMA_CM_EVENT_CONNECT_ERROR => 6
  | RDMA_CM_EVENT_UNREACHABLE => 7
  | RDMA_CM_EVENT_REJECTED => 8
  | RDMA_CM_EVENT_ESTABLISHED => 9
  | RDMA_CM_EVENT_DISCONNECTED => 10
  | RDMA_CM_EVENT_DEVICE_REMOVAL => 11
  | RDMA_CM_EVENT_MULTICAST_JOIN => 12
  | RDMA_CM_EVENT_MULTICAST_ERROR => 13
  | RDMA_CM_EVENT_ADDR_CHANGE => 14
  | RDMA_CM_EVENT_TIMEWAIT_EXIT => 15
  end.

#[export] Instance event_type_countable : Countable rdma_cm_event_type.
Proof.
  refine (inj_countable event_code (λ n, find (λ e, bool_decide (event_code e = n))
    [RDMA_CM_EVENT_ADDR_RESOLVED; RDMA_CM_EVENT_ADDR_ERROR; RDMA_CM_EVENT_ROUTE_RESOLVED;
     RDMA_CM_EVENT_ROUTE_ERROR; RDMA_CM_EVENT_CONNECT_REQUEST; RDMA_CM_EVENT_CONNECT_RESPONSE;
     RDMA_CM_EVENT_CONNECT_ERROR; RDMA_CM_EVENT_UNREACHABLE; RDMA_CM_EVENT_REJECTED;
     RDMA_CM_EVENT_ESTABLISHED; RDMA_CM_EVENT_DISCONNECTED; RDMA_CM_EVENT_DEVICE_REMOVAL;
     RDMA_CM_EVENT_MULTICAST_JOIN; RDMA_CM_EVENT_MULTICAST_ERROR; RDMA_CM_EVENT_ADDR_CHANGE;
     RDMA_CM_EVENT_TIMEWAIT_EXIT]) _).
  by intros [].
Defined.
#[export] Instance cm_event_countable : Countable rdma_cm_event.
Proof.
  refine (inj_countable' (λ e, (event e, ev_id e)) (λ p, CmEvent p.1 p.2) _). by intros [].
Defined.

(** ** Messages ([messages.hpp]) and their buffers *)
Definition MSG_INVALID : Z := 0.
Definition MSG_MR : Z := 1.
Definition MSG_READY : Z := 2.
Definition MSG_DONE : Z := 3.

Record message := Message { msg_id : Z; msg_addr : Z; msg_rkey : Z; msg_total_edges : Z }.

#[export] Instance message_eq_dec : EqDecision message.
Proof. solve_decision. Defined.

Definition set_msg_id (i : Z) (m : message) : message :=
  Message i (msg_addr m) (msg_rkey m) (msg_total_edges m).

(** An [int], padding, and the three members of [data.mr]. *)
Definition sizeof_message : Z := 32.

(** A registered buffer of one message: [tx_msg] with [tx_msg_mr], or [rx_msg]
    with [rx_msg_mr]. *)
Record msg_buffer := MsgBuffer { buf_addr : Z; buf_lkey : Z; buf_msg : message }.

Definition fill (m : message) (b : msg_buffer) : msg_buffer :=
  MsgBuffer (buf_addr b) (buf_lkey b) m.

(** Work requests of the control plane, with their only scatter/gather entry. *)
Record msg_wr := MsgWr {
  mw_wr_id : Z;
  mw_signaled : bool;
  mw_addr : Z;
  mw_length : Z;
  mw_lkey : Z;
}.

#[export] Instance msg_wr_eq_dec : EqDecision msg_wr.
Proof. solve_decision. Defined.

(** Work completions *)
Definition IBV_WC_SUCCESS : Z := 0.
Definition IBV_WC_SEND : Z := 0.
Definition IBV_WC_RECV : Z := Z.shiftl 1 7.

Record ibv_wc := Wc { wc_wr_id : Z; wc_opcode : Z; wc_status : Z }.

#[export] Instance wc_eq_dec : EqDecision ibv_wc.
Proof. solve_decision. Defined.

(** ** Attributes of connections and queue pairs *)
Definition IBV_QPT_RC : Z := 2.

(** [None] is the null completion queue. *)
Record ibv_qp_init_attr := QpAttr {
  send_cq : option Z;
  recv_cq : option Z;
  qp_type : Z;
  max_send_wr : Z;
  max_recv_wr : Z;
  max_send_sge : Z;
  max_recv_sge : Z;
  sq_sig_all : Z;
}.

Record rdma_conn_param := ConnParam {
  initiator_depth : Z;
  responder_resources : Z;
  rnr_retry_count : Z;
}.

(** [fam_ib_context] of the server, [struct context] of the client. *)
Record fam_ib_context := IbContext {
  ib_ctx : Z;
  ib_pd : Z;
  ib_cq : Z;
  ib_comp_channel : Z;
  connections : Z;
}.

(** [connections++] *)
Definition count_connection (c : fam_ib_context) : fam_ib_context :=
  IbContext (ib_ctx c) (ib_pd c) (ib_cq c) (ib_comp_channel c) (u64 (connections c + 1)).

(** ** Calls.  [ret] is the value a call returns; functions that yield an object
    return 0 for the null pointer, [posix_memalign] the address and the
    indeterminate contents of a buffer ([None] when it fails), [new_id k] the
    [k]-th connection that [rdma_create_id] stores. *)
Inductive call :=
  | GetAddrInfo
  | CreateEventChannel
  | CreateId (id : Z)
  | BindAddr (id port : Z)
  | Listen (id backlog : Z)
  | DestroyEventChannel
  | ReqNotifyCq (cq : Z)
  | CreatePollerThread
  | CreateQp (id pd : Z) (attr : ibv_qp_init_attr)
  | ResolveAddr (id : Z)
  | ResolveRoute (id : Z)
  | Connect (id : Z) (p : rdma_conn_param)
  | Accept (id : Z) (p : rdma_conn_param)
  | Disconnect (id : Z)
  | DestroyQp (id : Z)
  | DestroyId (id : Z)
  | DeregMr (lkey : Z)
  | PostRecv (id : Z) (wr : msg_wr)
  | PostSend (id : Z) (wr : msg_wr).

Class Verbs := {
  id_verbs : Z → Z;
  ibv_alloc_pd : Z → Z;
  ibv_create_comp_channel : Z → Z;
  ibv_create_cq : Z → Z → Z;
  posix_memalign : bool → option (Z * message);
  reg_message : Z → Z → Z;
  ret : call → Z;
  event_channel : Z;
  new_id : nat → Z;
}.

(** ** Computations that may fail and issue calls *)
Definition io (A : Type) : Type := result (A * list call).
Definition io_ret {A} (a : A) : io A := Ok (a, []).
Definition io_lift {A} (m : result A) : io A :=
  match m with Ok a => io_ret a | Fault f => Fault f end.
Definition io_bind {A B} (m : io A) (k : A → io B) : io B :=
  match m with
  | Ok (a, c1) => match k a with Ok (b, c2) => Ok (b, c1 ++ c2) | Fault f => Fault f end
  | Fault f => Fault f
  end.

Declare Scope io_scope.
Notation "x ⇐ m ; k" := (io_bind m (λ x, k))
  (at level 20, m at level 100, k at level 200, right associativity) : io_scope.

Lemma io_bind_ok {A B} (a : A) c1 (k : A → io B) b c2 :
  k a = Ok (b, c2) → io_bind (Ok (a, c1)) k = Ok (b, c1 ++ c2).
Proof. intros E. unfold io_bind. simpl. by rewrite E. Qed.

Lemma io_bind_eq {A B} (a : A) c1 (k : A → io B) :
  io_bind (Ok (a, c1)) k
  = match k a with Ok (b, c2) => Ok (b, c1 ++ c2) | Fault f => Fault f end.
Proof. done. Qed.

Lemma io_bind_ret {A B} (a : A) (k : A → io B) : io_bind (io_ret a) k = k a.
Proof. unfold io_bind, io_ret. simpl. by destruct (k a) as [[? ?]|]. Qed.

Lemma io_bind_ext {A B} (m : io A) (k k' : A → io B) :
  (∀ a, k a = k' a) → io_bind m k = io_bind m k'.
Proof. intros E. unfold io_bind. destruct m as [[a c]|]; [|done]. simpl. by rewrite E. Qed.

(** A loop over a list, for its calls only. *)
Fixpoint io_each {A} (l : list A) (f : A → io ()) : io () :=
  match l with [] => io_ret () | x :: l => io_bind (f x) (λ _, io_each l f) end.

Section rdma.
  Context {VB : Verbs}.

(** [TEST_NZ(call)], and a call whose result is not looked at. *)
Definition issue (c : call) : io () :=
  match TEST_NZ "call" (ret c) with Ok _ => Ok ((), [c]) | Fault f => Fault f end.
Definition perform (c : call) : io () := Ok ((), [c]).

Lemma issue_ok c : ret c = 0 → issue c = Ok ((), [c]).
Proof. intros E. unfold issue, TEST_NZ. by rewrite E. Qed.

Lemma each_issue {A} (l : list A) (f : A → call) :
  Forall (λ x, ret (f x) = 0) l → io_each l (λ x, issue (f x)) = Ok ((), f <$> l).
Proof.
  induction 1 as [|x l Hx Hl IH]; [done|]. simpl. rewrite (issue_ok _ Hx).
  by erewrite io_bind_ok by exact IH.
Qed.

(** The two buffers of [on_pre_conn]: memory, registered in the domain. *)
Definition alloc_buffer (pd : Z) (is_tx : bool) : io msg_buffer :=
  match posix_memalign is_tx with
  | None => Fault (Thrown "posix memalign failed")
  | Some (a, m) =>
      io_lift (TEST_Z "ibv_reg_mr" (reg_message pd a) ≫= λ _, Ok (MsgBuffer a (reg_message pd a) m))
  end.
End rdma.
