(* ===== verification/QpTest.v ===== *)
(** * QpTest: trying every queue pair with a read of one word
    ([test_all_qp] and [temporary_test] of [client_runtime.cpp])

    Both functions read the first word of the server's region into a local variable and
    wait for the completion.  Their calls are commented out; [test_all_qp_correct] says
    what they do when the network works, and [no_completion_never_ends] and
    [failed_poll_passes] what they do when it does not. *)

From S2P Require Import Prelude Platform VertexTable PackWindow Engine Rdma.

(** A line of the log. *)
Inductive verdict :=
  | SendFailed (i : Z)
  | Successful (i target : Z)
  | UnmapFailed (i : Z).

(** The regions that are registered, and the log. *)
Record test_state := TestState { registered : list ibv_mr; verdicts : list verdict }.

Definition note (v : verdict) (st : test_state) : test_state :=
  TestState (registered st) (verdicts st ++ [v]).

Section qp_test.
  Context {OS : Os} {NI : Nic} (remote : remote_region).

(** What the library does in the [i]-th test: the results of [ibv_post_send] and
    [ibv_dereg_mr], number of completions and status of the [k]-th poll, and whether
    the word has landed when a poll fails. *)
Context (ibv_post_send ibv_dereg_mr : Z → Z) (ibv_poll_cq : Z → nat → Z * Z) (lands_early : Z → bool).

(** The address of the local variable [test_target_id] and what it holds before. *)
Context (target_addr uninitialised : Z).

(** [while (!is_done)]; [status] is the one [wc] holds before.  Whether the completion
    is real. *)
Fixpoint await_completion (fuel : nat) (i : Z) (k : nat) (status : Z) : result bool :=
  match fuel with
  | O => Fault OutOfFuel
  | S fuel =>
      let '(cq_received_num, polled) := ibv_poll_cq i k in
      if bool_decide (cq_received_num ≠ 0) then
        let status := if bool_decide (0 < cq_received_num) then polled else status in
        if bool_decide (status = IBV_WC_SUCCESS) then Ok (bool_decide (0 < cq_received_num))
        else Fault (Died "poll_cq: test status is not IBV_WC_SUCCESS")
      else await_completion fuel i (S k) status
  end.

(** The request and its scatter/gather entry. *)
Definition test_window (ctx : client_context) (mr : ibv_mr) : window :=
  Window [Wr None (Some 0) 1 IBV_WR_RDMA_READ IBV_SEND_SIGNALED (peer_addr ctx) (peer_rkey ctx)]
    [Sge target_addr 4 (mr_lkey mr)] [].

Definition with_heap (mr : ibv_mr) (ctx : client_context) : client_context :=
  ClientContext (app ctx) (peer_addr ctx) (peer_rkey ctx) mr (cm_ids ctx) (cacheMap ctx) (cacheManager ctx).

(** The variable when the completion has been seen. *)
Definition read_target (ctx : client_context) (mr : ibv_mr) (landed : bool) : result Z :=
  words ← posted_words remote (with_heap mr ctx) (test_window ctx mr);
  mem ← forM (if landed then words else []) (λ iw mem, aset mem iw.1 iw.2) [uninitialised];
  aget mem 0.

Definition test_qp (fuel : nat) (i : Z) (ctx : client_context) (status : Z) (st : test_state)
    : result test_state :=
  match ibv_reg_mr target_addr 4 with
  | None => Fault OutOfBounds
  | Some mr =>
      let st := TestState (mr :: registered st) (verdicts st) in
      let ret := ibv_post_send i in
      let st := if bool_decide (ret ≠ 0) then note (SendFailed i) st else st in
      completed ← await_completion fuel i 0 status;
      target ← read_target ctx mr (bool_decide (ret = 0) && (completed || lands_early i));
      let st := note (Successful i target) st in
      Ok (if bool_decide (ibv_dereg_mr i ≠ 0) then note (UnmapFailed i) st
          else TestState (tail (registered st)) (verdicts st))
  end.

(** [wc] is cleared before every test: status 0 is [IBV_WC_SUCCESS]. *)
Definition test_all_qp (fuel : nat) (contexts : list client_context) (st : test_state) : result test_state :=
  for_u32 0 (zlen contexts) (λ i st,
    match contexts !! Z.to_nat i with
    | Some ctx => test_qp fuel i ctx 0 st
    | None => Fault OutOfBounds
    end) st.

(** One test on the connection of a completion, whose status [wc] still holds. *)
Definition temporary_test (fuel : nat) (ctx : client_context) (wc_status : Z) (st : test_state)
    : result test_state := test_qp fuel 0 ctx wc_status st.

(** ** When the network works *)

(** The [d]-th poll of the test yields its completion. *)
Definition completes (fuel : nat) (i : Z) : Prop :=
  ∃ d, (d < fuel)%nat ∧ ibv_poll_cq i d = (1, IBV_WC_SUCCESS) ∧ ∀ k, (k < d)%nat → (ibv_poll_cq i k).1 = 0.

Lemma await_completes fuel i status : completes fuel i → await_completion fuel i 0 status = Ok true.
Proof.
  intros (d & Hd & Hc & Hk). cut (∀ j k fuel, (d = k + j)%nat → (j < fuel)%nat →
    await_completion fuel i k status = Ok true); [intros H; by apply (H d 0%nat fuel)|].
  induction j as [|j IH]; intros k [|f] Ed Hf; try lia; cbn [await_completion].
  - replace k with d by lia. by rewrite Hc.
  - pose proof (Hk k ltac:(lia)) as H0. destruct (ibv_poll_cq i k) as [n0 p]. cbn in H0. subst n0.
    rewrite bool_decide_eq_false_2 by (by intros []). apply IH; lia.
Qed.

Record test_ready (fuel : nat) (i : Z) (ctx : client_context) : Prop := {
  tr_post : ibv_post_send i = 0;
  tr_poll : completes fuel i;
  tr_dereg : ibv_dereg_mr i = 0;
  tr_addr : peer_addr ctx = rr_addr remote;
  tr_rkey : peer_rkey ctx = rr_rkey remote;
}.

Lemma read_target_ok ctx mr x words :
  ibv_reg_mr target_addr 4 = Some mr → rr_words remote = x :: words →
  peer_addr ctx = rr_addr remote → peer_rkey ctx = rr_rkey remote →
  ∀ landed : bool, read_target ctx mr landed = Ok (if landed then x else uninitialised).
Proof.
  intros Hmr Hw Ha Hr landed. destruct (ibv_reg_mr_length _ _ _ Hmr) as [_ Hma].
  assert (E : posted_words remote (with_heap mr ctx) (test_window ctx mr) = Ok [(0, x)]).
  { unfold posted_words. change (chain _ _ _) with (Ok (wr_window (test_window ctx mr))). rewrite bind_ok.
    cbn [test_window wr_window transfers]. unfold transfer. cbn [wr_sg_list test_window sge_window].
    change (aget _ 0) with (Ok (Sge target_addr 4 (mr_lkey mr))). rewrite bind_ok, decide_True by done.
    cbn [with_heap heap_mr wr_remote_addr sge_addr sge_length]. rewrite Hma, Ha. pose proof (rdma_read_spec (rr_addr remote) (rr_words remote) target_addr 0 0 1) as Hspec.
    rewrite !Z.mul_0_r, !Z.add_0_r, Z.mul_1_r, Hw in Hspec. rewrite Hw, Hspec; [done|lia..| |lia].
    unfold zlen. cbn. lia. }
  unfold read_target. rewrite E, bind_ok. by destruct landed.
Qed.

Lemma test_qp_ok fuel i ctx status st mr x words :
  ibv_reg_mr target_addr 4 = Some mr → rr_words remote = x :: words → test_ready fuel i ctx →
  test_qp fuel i ctx status st = Ok (note (Successful i x) st).
Proof.
  intros Hmr Hw [Hp Hc Hd Ha Hr]. unfold test_qp. rewrite Hmr, Hp, Hd.
  rewrite !bool_decide_eq_false_2, bool_decide_eq_true_2 by (done || by intros []).
  rewrite await_completes, bind_ok by done. cbn [andb orb].
  by rewrite (read_target_ok ctx mr x words Hmr Hw Ha Hr true).
Qed.

(** [test_all_qp] reads the first word of the region over every queue pair.  When
    the local variable can be registered, every post is accepted, every test's completion
    arrives within [fuel] polls and the contexts hold the region the server announced,
    it returns, logs the region's first word for every queue pair, and leaves
    nothing registered that was not before. *)
Theorem test_all_qp_correct fuel contexts st mr x words :
  ibv_reg_mr target_addr 4 = Some mr → rr_words remote = x :: words →
  (∀ i ctx, contexts !! i = Some ctx → test_ready fuel (Z.of_nat i) ctx) →
  test_all_qp fuel contexts st
  = Ok (TestState (registered st) (verdicts st ++ ((λ i, Successful i x) <$> rng 0 (zlen contexts)))).
Proof.
  intros Hmr Hw Hready. unfold test_all_qp, for_u32.
  assert (Hk : ∀ k : nat, (k <= length contexts)%nat → forM (rng 0 (Z.of_nat k)) (λ i st,
      match contexts !! Z.to_nat i with Some ctx => test_qp fuel i ctx 0 st | None => Fault OutOfBounds end) st
    = Ok (TestState (registered st) (verdicts st ++ ((λ i, Successful i x) <$> rng 0 (Z.of_nat k))))).
  { induction k as [|k IH]; intros Hk.
    - rewrite rng_nil by lia. cbn. rewrite app_nil_r. by destruct st.
    - replace (Z.of_nat (S k)) with (Z.of_nat k + 1) by lia. rewrite rng_snoc, forM_app, IH, bind_ok by lia.
      cbn [forM]. rewrite Nat2Z.id. destruct (lookup_lt_is_Some_2 contexts k) as [ctx Hctx]; [lia|].
      rewrite Hctx, (test_qp_ok _ _ _ _ _ mr x words) by auto. rewrite bind_ok, fmap_app, app_assoc. done. }
  apply (Hk (length contexts)). lia.
Qed.

(** ** When it does not *)

(** A test whose completion does not come never ends; this is so after every post that
    fails, which is reported and then waited for. *)
Theorem no_completion_never_ends i ctx status st mr :
  ibv_reg_mr target_addr 4 = Some mr → (∀ k, (ibv_poll_cq i k).1 = 0) →
  ∀ fuel, test_qp fuel i ctx status st = Fault OutOfFuel.
Proof.
  intros Hmr Hk fuel. unfold test_qp. rewrite Hmr.
  assert (H : ∀ f k, await_completion f i k status = Fault OutOfFuel).
  { clear Hmr. induction f as [|f IH]; intros k; [done|]. cbn. pose proof (Hk k) as H0.
    destruct (ibv_poll_cq i k) as [n0 p]. cbn in H0. subst n0. by rewrite bool_decide_eq_false_2 by (by intros []). }
  by rewrite H.
Qed.

(** A poll that fails (a negative number of completions) leaves the cleared [wc] alone,
    and its status 0 passes for success: the test reports whatever the variable
    holds. *)
Theorem failed_poll_passes fuel ctx st mr x words i :
  ibv_reg_mr target_addr 4 = Some mr → rr_words remote = x :: words → (ibv_poll_cq i 0).1 < 0 →
  ibv_post_send i = 0 → ibv_dereg_mr i = 0 → lands_early i = false →
  peer_addr ctx = rr_addr remote → peer_rkey ctx = rr_rkey remote →
  test_qp (S fuel) i ctx 0 st = Ok (note (Successful i uninitialised) st).
Proof.
  intros Hmr Hw Hneg Hp Hd Hl Ha Hr. unfold test_qp. rewrite Hmr, Hp, Hd, Hl.
  rewrite !(bool_decide_eq_false_2 (0 ≠ 0)), bool_decide_eq_true_2 by (done || by intros []). cbn [await_completion].
  destruct (ibv_poll_cq i 0) as [n0 p]. cbn in Hneg.
  rewrite (bool_decide_eq_true_2 (n0 ≠ 0)), !(bool_decide_eq_false_2 (0 < n0)) by lia.
  rewrite (bool_decide_eq_true_2 (0 = IBV_WC_SUCCESS)), bind_ok by done. cbn [andb orb].
  by rewrite (read_target_ok ctx mr x words Hmr Hw Ha Hr false).
Qed.
End qp_test.
