(* ===== verification/ConnectionUtils.v ===== *)
(** * ConnectionUtils: the client's connection manager ([connection_utils.cpp])

    [s_ctx] is the [fam_ib_ctx] of the state of the loop, the four static
    callbacks are a record with null pointers as [None]. *)

From S2P Require Import Prelude Platform Rdma.

Local Open Scope io_scope.

Section connection_utils.
  Context {VB : Verbs}.

Definition cm_event_to_string (e : rdma_cm_event_type) : string :=
  (match e with
   | RDMA_CM_EVENT_ADDR_RESOLVED => "RDMA_CM_EVENT_ADDR_RESOLVED"
   | RDMA_CM_EVENT_ADDR_ERROR => "RDMA_CM_EVENT_ADDR_ERROR"
   | RDMA_CM_EVENT_ROUTE_RESOLVED => "RDMA_CM_EVENT_ROUTE_RESOLVED"
   | RDMA_CM_EVENT_ROUTE_ERROR => "RDMA_CM_EVENT_ROUTE_ERROR"
   | RDMA_CM_EVENT_CONNECT_REQUEST => "RDMA_CM_EVENT_CONNECT_REQUEST"
   | RDMA_CM_EVENT_CONNECT_RESPONSE => "RDMA_CM_EVENT_CONNECT_RESPONSE"
   | RDMA_CM_EVENT_CONNECT_ERROR => "RDMA_CM_EVENT_CONNECT_ERROR"
   | RDMA_CM_EVENT_UNREACHABLE => "RDMA_CM_EVENT_UNREACHABLE"
   | RDMA_CM_EVENT_REJECTED => "RDMA_CM_EVENT_REJECTED"
   | RDMA_CM_EVENT_ESTABLISHED => "RDMA_CM_EVENT_ESTABLISHED"
   | RDMA_CM_EVENT_DISCONNECTED => "RDMA_CM_EVENT_DISCONNECTED"
   | RDMA_CM_EVENT_DEVICE_REMOVAL => "RDMA_CM_EVENT_DEVICE_REMOVAL"
   | RDMA_CM_EVENT_MULTICAST_JOIN => "RDMA_CM_EVENT_MULTICAST_JOIN"
   | RDMA_CM_EVENT_MULTICAST_ERROR => "RDMA_CM_EVENT_MULTICAST_ERROR"
   | RDMA_CM_EVENT_ADDR_CHANGE => "RDMA_CM_EVENT_ADDR_CHANGE"
   | RDMA_CM_EVENT_TIMEWAIT_EXIT => "RDMA_CM_EVENT_TIMEWAIT_EXIT"
   end)%string.

Definition build_params : rdma_conn_param := ConnParam 1 1 7.

Definition build_qp_attr (s_ctx : fam_ib_context) (is_qp0 : bool) : ibv_qp_init_attr :=
  let cq := if is_qp0 then Some (ib_cq s_ctx) else None in
  QpAttr cq cq IBV_QPT_RC 40 1600 1 1 0.

Definition build_context (verbs : Z) (s_ctx : option fam_ib_context) : io fam_ib_context :=
  match s_ctx with
  | Some c =>
      if bool_decide (ib_ctx c ≠ verbs)
      then Fault (Died "cannot handle events in more than one context.")
      else io_ret c
  | None =>
      let pd := ibv_alloc_pd verbs in
      _ ⇐ io_lift (TEST_Z "ibv_alloc_pd" pd);
      let chan := ibv_create_comp_channel verbs in
      _ ⇐ io_lift (TEST_Z "ibv_create_comp_channel" chan);
      let cq := ibv_create_cq verbs chan in
      _ ⇐ io_lift (TEST_Z "ibv_create_cq" cq);
      _ ⇐ issue (ReqNotifyCq cq);
      _ ⇐ issue CreatePollerThread;
      io_ret (IbContext verbs pd cq chan 0)
  end.

Definition build_connection (id : Z) (is_qp0 : bool) (s_ctx : option fam_ib_context)
    : io fam_ib_context :=
  c ⇐ build_context (id_verbs id) s_ctx;
  _ ⇐ issue (CreateQp id (ib_pd c) (build_qp_attr c is_qp0));
  io_ret c.

Section event_loop.
  Context {S : Type}.

(** The callbacks of [rc_init] that the event loop calls; [S] is the state of the
    client behind the contexts of the connections. *)
Record callbacks := RcInit {
  s_on_pre_conn_cb : option (Z → fam_ib_context → S → io S);
  s_on_connect_cb : option (Z → fam_ib_context → S → io S);
  s_on_disconnect_cb : option (Z → S → io S);
}.

(** The local variables of [event_loop], the static [s_ctx] and the state behind
    the callbacks. *)
Record loop_state := Loop {
  latch0 : bool;
  latch2 : bool;
  latch3 : bool;
  latch4 : bool;
  s_ctx : option fam_ib_context;
  user : S;
}.

Definition loop_start (s : S) : loop_state := Loop false false false false None s.

(** [if (cb && !latch) cb(...)] *)
Definition run_cb (cb : option (S → io S)) (latch : bool) (s : S) : io S :=
  match cb with
  | Some f => if negb latch then f s else io_ret s
  | None => io_ret s
  end.

(** One iteration of [while (rdma_get_cm_event(ec, &event) == 0)]; [inr] leaves
    the loop.  Counting a connection without a context is an access through a
    null pointer. *)
Definition event_step (cb : callbacks) (exit_on_disconnect : bool) (ev : rdma_cm_event)
    (st : loop_state) : io (loop_state + loop_state) :=
  let id := ev_id ev in
  match event ev with
  | RDMA_CM_EVENT_ADDR_RESOLVED =>
      c ⇐ build_connection id (negb (latch0 st)) (s_ctx st);
      s ⇐ run_cb ((λ f, f id c) <$> s_on_pre_conn_cb cb) (latch0 st) (user st);
      _ ⇐ issue (ResolveRoute id);
      io_ret (inl (Loop true (latch2 st) (latch3 st) (latch4 st) (Some c) s))
  | RDMA_CM_EVENT_ROUTE_RESOLVED =>
      _ ⇐ issue (Connect id build_params);
      io_ret (inl st)
  | RDMA_CM_EVENT_CONNECT_REQUEST =>
      c ⇐ build_connection id (negb (latch2 st)) (s_ctx st);
      s ⇐ run_cb ((λ f, f id c) <$> s_on_pre_conn_cb cb) (latch2 st) (user st);
      _ ⇐ issue (Accept id build_params);
      io_ret (inl (Loop (latch0 st) true (latch3 st) (latch4 st) (Some c) s))
  | RDMA_CM_EVENT_ESTABLISHED =>
      match s_ctx st with
      | None => Fault OutOfBounds
      | Some c =>
          s ⇐ run_cb ((λ f, f id c) <$> s_on_connect_cb cb) (latch3 st) (user st);
          io_ret (inl (Loop (latch0 st) (latch2 st) true (latch4 st)
                         (Some (count_connection c)) s))
      end
  | RDMA_CM_EVENT_DISCONNECTED =>
      _ ⇐ perform (DestroyQp id);
      s ⇐ run_cb ((λ f, f id) <$> s_on_disconnect_cb cb) (latch4 st) (user st);
      _ ⇐ perform (DestroyId id);
      if exit_on_disconnect
      then io_ret (inr (Loop (latch0 st) (latch2 st) (latch3 st) (latch4 st) (s_ctx st) s))
      else io_ret (inl (Loop (latch0 st) (latch2 st) (latch3 st) true (s_ctx st) s))
  | _ => Fault (Thrown "RDMA event not handled")
  end.

(** The loop on the events [rdma_get_cm_event] yields; it also ends, with the
    state it has, when the call fails. *)
Fixpoint event_loop (cb : callbacks) (exit_on_disconnect : bool) (evs : list rdma_cm_event)
    (st : loop_state) : io loop_state :=
  match evs with
  | [] => io_ret st
  | ev :: evs =>
      r ⇐ event_step cb exit_on_disconnect ev st;
      match r with
      | inl st => event_loop cb exit_on_disconnect evs st
      | inr st => io_ret st
      end
  end.
End event_loop.

(** [rc_get_num_connections] and [rc_get_pd] dereference [s_ctx]. *)
Definition rc_get_num_connections (s_ctx : option fam_ib_context) : result Z :=
  match s_ctx with None => Fault OutOfBounds | Some c => Ok (connections c) end.
Definition rc_get_pd (s_ctx : option fam_ib_context) : result Z :=
  match s_ctx with None => Fault OutOfBounds | Some c => Ok (ib_pd c) end.

Definition rc_disconnect (id : Z) : io () := perform (Disconnect id).

(** The body of the inner loop of [poll_cq]. *)
Definition poll_wc {R} (s_on_completion_cb : ibv_wc → io R) (wc : ibv_wc) : io R :=
  if bool_decide (wc_status wc = IBV_WC_SUCCESS) then s_on_completion_cb wc
  else Fault (Died "poll_cq: status is not IBV_WC_SUCCESS").
End connection_utils.
Arguments callbacks : clear implicits.
Arguments loop_state : clear implicits.
