(* ===== verification/AbstractServer.v ===== *)
(** * AbstractServer: the server's connection manager ([AbstractServer.cpp])

    The same operations as [ConnectionUtils] as members of a class whose virtual
    functions are the handlers; [event_loops_agree] shows that the two loops are
    one, as the comment "merge it" in the client's code wishes. *)

From S2P Require Import Prelude Platform Rdma ConnectionUtils.

Local Open Scope io_scope.

Section abstract_server.
  Context {VB : Verbs}.

Definition cm_event_to_string (e : rdma_cm_event_type) : string :=
  (match e with
   | RDMA_CM_EVENT_ADDR_RESOLVED => "RDMA_CM_EVENT_ADDR_RESOLVED"
   | RDMA_CM_EVENT_ADDR_ERROR => "RDMA_CM_EVENT_ADDR_ERROR"
   | RDMA_CM_EVENT_ROUTE_RESOLVED => "RDMA_CM_EVENT_ROUTE_RESOLVED"
   | RDMA_CM_EVENT_ROUTE_ERROR => "RDMA_CM_EVENT_ROUTE_ERROR"
   | RDMA_CM_EVENT_CONNECT_REQUEST => "RDMA_CM_EVENT_CONNECT_REQUEST"
   | RDMA_CM_EVENT_CONNECT_RESPONSE => "RDMA_CM_EVENT_CONNECT_RESPONSE"
   | RDMA_CM_EVENT_CONNECT_ERROR => "RDMA_CM_EVENT_CONNECT_ERROR"
   | RDMA_CM_EVENT_UNREACHABLE => "RDMA_CM_EVENT_UNREACHABLE"
   | RDMA_CM_EVENT_REJECTED => "RDMA_CM_EVENT_REJECTED"
   | RDMA_CM_EVENT_ESTABLISHED => "RDMA_CM_EVENT_ESTABLISHED"
   | RDMA_CM_EVENT_DISCONNECTED => "RDMA_CM_EVENT_DISCONNECTED"
   | RDMA_CM_EVENT_DEVICE_REMOVAL => "RDMA_CM_EVENT_DEVICE_REMOVAL"
   | RDMA_CM_EVENT_MULTICAST_JOIN => "RDMA_CM_EVENT_MULTICAST_JOIN"
   | RDMA_CM_EVENT_MULTICAST_ERROR => "RDMA_CM_EVENT_MULTICAST_ERROR"
   | RDMA_CM_EVENT_ADDR_CHANGE => "RDMA_CM_EVENT_ADDR_CHANGE"
   | RDMA_CM_EVENT_TIMEWAIT_EXIT => "RDMA_CM_EVENT_TIMEWAIT_EXIT"
   end)%string.

Definition build_params : rdma_conn_param :=
  {| initiator_depth := 1; responder_resources := 1; rnr_retry_count := 7 |}.

(** [memset] to zero; the queue of the context only for the first connection. *)
Definition build_qp_attr (fam_ib_ctx : fam_ib_context) (is_qp0 : bool) : ibv_qp_init_attr := {|
  send_cq := if is_qp0 then Some (ib_cq fam_ib_ctx) else None;
  recv_cq := if is_qp0 then Some (ib_cq fam_ib_ctx) else None;
  qp_type := IBV_QPT_RC;
  max_send_wr := 40;
  max_recv_wr := 1600;
  max_send_sge := 1;
  max_recv_sge := 1;
  sq_sig_all := 0;
|}.

Definition build_context (verbs : Z) (fam_ib_ctx : option fam_ib_context) : io fam_ib_context :=
  match fam_ib_ctx with
  | Some c =>
      if bool_decide (ib_ctx c ≠ verbs)
      then Fault (Died "cannot handle events in more than one context.")
      else io_ret c
  | None =>
      _ ⇐ io_lift (TEST_Z "ibv_alloc_pd" (ibv_alloc_pd verbs));
      _ ⇐ io_lift (TEST_Z "ibv_create_comp_channel" (ibv_create_comp_channel verbs));
      let cq := ibv_create_cq verbs (ibv_create_comp_channel verbs) in
      _ ⇐ io_lift (TEST_Z "ibv_create_cq" cq);
      _ ⇐ issue (ReqNotifyCq cq);
      _ ⇐ issue CreatePollerThread;
      io_ret {| ib_ctx := verbs; ib_pd := ibv_alloc_pd verbs; ib_cq := cq;
                ib_comp_channel := ibv_create_comp_channel verbs; connections := 0 |}
  end.

Definition build_connection (id : Z) (is_qp0 : bool) (fam_ib_ctx : option fam_ib_context)
    : io fam_ib_context :=
  c ⇐ build_context (id_verbs id) fam_ib_ctx;
  _ ⇐ issue (CreateQp id (ib_pd c) (build_qp_attr c is_qp0));
  io_ret c.

Section event_loop.
  Context {S : Type}.

(** The virtual functions; [S] is the state of the server behind them. *)
Record handlers := Handlers {
  on_pre_conn : Z → fam_ib_context → S → io S;
  on_connection : Z → fam_ib_context → S → io S;
  on_disconnect : Z → S → io S;
}.

Definition event_step (h : handlers) (exit_on_disconnect : bool) (ev : rdma_cm_event)
    (st : loop_state S) : io (loop_state S + loop_state S) :=
  let '(Loop latch0 latch2 latch3 latch4 fam_ib_ctx s) := st in
  let id := ev_id ev in
  match event ev with
  | RDMA_CM_EVENT_ADDR_RESOLVED =>
      c ⇐ build_connection id (negb latch0) fam_ib_ctx;
      s ⇐ (if negb latch0 then on_pre_conn h id c s else io_ret s);
      _ ⇐ issue (ResolveRoute id);
      io_ret (inl (Loop true latch2 latch3 latch4 (Some c) s))
  | RDMA_CM_EVENT_ROUTE_RESOLVED =>
      _ ⇐ issue (Connect id build_params);
      io_ret (inl st)
  | RDMA_CM_EVENT_CONNECT_REQUEST =>
      c ⇐ build_connection id (negb latch2) fam_ib_ctx;
      s ⇐ (if negb latch2 then on_pre_conn h id c s else io_ret s);
      _ ⇐ issue (Accept id build_params);
      io_ret (inl (Loop latch0 true latch3 latch4 (Some c) s))
  | RDMA_CM_EVENT_ESTABLISHED =>
      match fam_ib_ctx with
      | None => Fault OutOfBounds
      | Some c =>
          s ⇐ (if negb latch3 then on_connection h id c s else io_ret s);
          io_ret (inl (Loop latch0 latch2 true latch4 (Some (count_connection c)) s))
      end
  | RDMA_CM_EVENT_DISCONNECTED =>
      _ ⇐ perform (DestroyQp id);
      s ⇐ (if negb latch4 then on_disconnect h id s else io_ret s);
      _ ⇐ perform (DestroyId id);
      if exit_on_disconnect then io_ret (inr (Loop latch0 latch2 latch3 latch4 fam_ib_ctx s))
      else io_ret (inl (Loop latch0 latch2 latch3 true fam_ib_ctx s))
  | _ => Fault (Thrown "RDMA event not handled")
  end.

Fixpoint event_loop (h : handlers) (exit_on_disconnect : bool) (evs : list rdma_cm_event)
    (st : loop_state S) : io (loop_state S) :=
  match evs with
  | [] => io_ret st
  | ev :: evs =>
      r ⇐ event_step h exit_on_disconnect ev st;
      match r with
      | inl st => event_loop h exit_on_disconnect evs st
      | inr st => io_ret st
      end
  end.

(** ** The two managers agree *)
Lemma event_steps_agree h x ev st :
  ConnectionUtils.event_step
    (RcInit (Some (on_pre_conn h)) (Some (on_connection h)) (Some (on_disconnect h))) x ev st
  = event_step h x ev st.
Proof. by destruct st, ev as [[] id]. Qed.

(** C38: The client's event loop, with no callback missing, is the server's event
    loop: on every sequence of events, with either setting of exit_on_disconnect
    and from every state, they make the same calls and end in the same state or
    the same error. *)
Theorem event_loops_agree h x evs st :
  ConnectionUtils.event_loop
    (RcInit (Some (on_pre_conn h)) (Some (on_connection h)) (Some (on_disconnect h))) x evs st
  = event_loop h x evs st.
Proof.
  revert st. induction evs as [|ev evs IH]; intros st; [done|].
  simpl. rewrite event_steps_agree. apply io_bind_ext. intros [st'|st']; [apply IH|done].
Qed.
End event_loop.

(** ** [poll_cq]: one wake-up handles every completion that is there *)
Section poll.
  Context {S : Type}.

Definition poll_wc (on_completion : ibv_wc → S → io S) (wc : ibv_wc) (s : S) : io S :=
  if bool_decide (wc_status wc = IBV_WC_SUCCESS) then on_completion wc s
  else Fault (Died "poll_cq: status is not IBV_WC_SUCCESS").
End poll.
End abstract_server.
Arguments handlers : clear implicits.
