(* ===== verification/Numa.v ===== *)
(** * Numa: binding the client to memory nodes ([do_numa_map] of
    [client_runtime.cpp])

    [do_numa_map_correct] says which nodes the client is bound to, for machines
    whose processors are spread evenly over the nodes; [do_numa_map_uneven] that
    on others it asks for nodes that do not exist. *)

From S2P Require Import Prelude Platform.

(** ** libnuma.  A node mask is the list of its nodes, a mask of [mask_size] bits
    ignores the others; [set_mempolicy] returns 0 when it accepts a mask. *)
Class Numa := {
  numa_available : Z;
  numa_num_configured_cpus : Z;
  numa_num_configured_nodes : Z;
  mask_allocated : bool;
  mask_size : Z;
  set_mempolicy : list Z → Z;
}.

Section numa.
  Context {NU : Numa}.

(** [static_cast<int>] of an unsigned long. *)
Definition to_int (x : Z) : Z := (x + 2 ^ 31) mod 2 ^ 32 - 2 ^ 31.

Definition cdiv (a b : Z) : result Z :=
  if bool_decide (b = 0) then Fault DivByZero else Ok (Z.quot a b).

Definition numa_bitmask_setbit (mask : list Z) (i : Z) : list Z :=
  if bool_decide (i < mask_size) then mask ++ [i] else mask.

(** The nodes the process is bound to, [None] where NUMA is not supported. *)
Definition do_numa_map (threads : Z) : result (option (list Z)) :=
  if bool_decide (numa_available = -1) then Ok None
  else
    let requested_cpus := to_int threads in
    let available_cpus := numa_num_configured_cpus in
    let use_cpus := if bool_decide (available_cpus < requested_cpus)
                    then available_cpus else requested_cpus in
    let available_nodes := numa_num_configured_nodes in
    cpus_per_node ← cdiv available_cpus available_nodes;
    use_nodes ← cdiv (use_cpus + cpus_per_node - 1) cpus_per_node;
    if mask_allocated then
      nodemask ← for_u32 0 (u32 use_nodes) (λ i m, Ok (numa_bitmask_setbit m i)) [];
      if bool_decide (set_mempolicy nodemask ≠ 0)
      then Fault (Thrown "set_mempolicy() failed")
      else Ok (Some nodemask)
    else Fault (Thrown "numa alloc").

(** ** Facts *)
Lemma cdiv_div a b : 0 ≤ a → 0 < b → cdiv a b = Ok (a / b).
Proof.
  intros Ha Hb. unfold cdiv. rewrite bool_decide_false by lia. by rewrite Z.quot_div_nonneg by lia.
Qed.

Lemma to_int_small x : 0 ≤ x < 2 ^ 31 → to_int x = x.
Proof. intros Hx. unfold to_int. rewrite Z.mod_small by lia. lia. Qed.

Lemma set_bits n : 0 ≤ n ≤ mask_size →
  for_u32 0 n (λ i m, Ok (numa_bitmask_setbit m i)) [] = Ok (rng 0 n).
Proof.
  intros Hn.
  destruct (for_u32_inv (λ i m, m = rng 0 i) 0 n
    (λ i m, Ok (numa_bitmask_setbit m i)) []) as (m & E & ->); [lia|by rewrite rng_nil by lia| |done].
  intros i m Hi ->. eexists. split; [done|]. unfold numa_bitmask_setbit.
  rewrite bool_decide_true by lia. by rewrite <- rng_snoc by lia.
Qed.

(** The first ceiling(threads / (cpus / nodes)) nodes. *)
Definition nodes_for (threads : Z) : Z :=
  let per := numa_num_configured_cpus / numa_num_configured_nodes in
  (numa_num_configured_cpus `min` threads + per - 1) / per.

Lemma do_numa_map_ok threads :
  numa_available ≠ -1 → 0 ≤ threads < 2 ^ 31 →
  0 < numa_num_configured_nodes ≤ numa_num_configured_cpus → numa_num_configured_cpus < 2 ^ 30 →
  mask_allocated = true → nodes_for threads ≤ mask_size →
  set_mempolicy (rng 0 (nodes_for threads)) = 0 →
  do_numa_map threads = Ok (Some (rng 0 (nodes_for threads))).
Proof.
  intros Ha Ht Hn Hc Hm Hs Hp. unfold do_numa_map. rewrite bool_decide_false by done.
  rewrite to_int_small by done.
  assert (Hmin : (if bool_decide (numa_num_configured_cpus < threads)
    then numa_num_configured_cpus else threads) = numa_num_configured_cpus `min` threads)
    by (case_bool_decide; lia).
  rewrite Hmin, cdiv_div by lia. simpl.
  assert (Hper : 1 ≤ numa_num_configured_cpus / numa_num_configured_nodes)
    by (apply Z.div_le_lower_bound; lia).
  assert (Hle : numa_num_configured_cpus / numa_num_configured_nodes ≤ numa_num_configured_cpus)
    by (apply Z.div_le_upper_bound; nia).
  rewrite cdiv_div by lia. simpl. fold (nodes_for threads). rewrite Hm.
  assert (Hnf : 0 ≤ nodes_for threads < 2 ^ 32).
  { unfold nodes_for. split; [apply Z.div_pos; lia|]. apply Z.div_lt_upper_bound; nia. }
  rewrite (u32_id' (nodes_for threads)) by lia. rewrite set_bits by lia. simpl.
  by rewrite bool_decide_false by lia.
Qed.

(** C39: the client binds itself to the fewest memory nodes that hold its processors.
    On a machine whose processors are spread evenly over the nodes, and with a
    node mask that covers them, [do_numa_map] selects the first k nodes where k is
    the least number of nodes with at least min(threads, processors) processors,
    so never a node that does not exist. *)
Theorem do_numa_map_correct threads per :
  numa_available ≠ -1 → 0 < threads < 2 ^ 31 →
  0 < numa_num_configured_nodes → 0 < per →
  numa_num_configured_cpus = per * numa_num_configured_nodes → numa_num_configured_cpus < 2 ^ 30 →
  mask_allocated = true → numa_num_configured_nodes ≤ mask_size → (∀ m, set_mempolicy m = 0) →
  ∃ k, do_numa_map threads = Ok (Some (rng 0 k)) ∧ 0 < k ≤ numa_num_configured_nodes
    ∧ threads `min` numa_num_configured_cpus ≤ per * k
    ∧ ∀ k', threads `min` numa_num_configured_cpus ≤ per * k' → k ≤ k'.
Proof.
  intros Ha Ht Hn Hp Hc Hc30 Hm Hs Hpol.
  assert (Hdiv : numa_num_configured_cpus / numa_num_configured_nodes = per)
    by (rewrite Hc; apply Z.div_mul; lia).
  assert (Hk : nodes_for threads = (numa_num_configured_cpus `min` threads + per - 1) / per)
    by (unfold nodes_for; by rewrite Hdiv).
  set (c := numa_num_configured_cpus `min` threads) in *.
  assert (Hlo : per * nodes_for threads ≤ c + per - 1)
    by (rewrite Hk; apply Z.mul_div_le; lia).
  assert (Hhi : c + per - 1 < per * (nodes_for threads + 1))
    by (rewrite Hk; pose proof (Z.mul_succ_div_gt (c + per - 1) per ltac:(lia)); lia).
  assert (1 ≤ c ≤ per * numa_num_configured_nodes) by nia.
  assert (0 < nodes_for threads ≤ numa_num_configured_nodes) by nia.
  exists (nodes_for threads). split; [|split_and!; [lia|lia|lia|intros k' Hk'; nia]].
  apply do_numa_map_ok; try done; nia.
Qed.
End numa.

(** A machine with five processors on two nodes: for five threads the client asks
    for three nodes. *)
Definition uneven_machine : Numa := {|
  numa_available := 0; numa_num_configured_cpus := 5; numa_num_configured_nodes := 2;
  mask_allocated := true; mask_size := 64; set_mempolicy := λ _, 0;
|}.
Lemma do_numa_map_uneven : do_numa_map (NU := uneven_machine) 5 = Ok (Some [0; 1; 2]).
Proof. reflexivity. Qed.
