(* ===== verification/ClientRuntime.v ===== *)
(** * ClientRuntime: the client's handlers ([client_runtime.cpp]) and its
    completion thread ([communication_runtime.cpp])

    [on_completion] blocks in two places, while it waits for the connections
    and while it joins threads.  It is cut there: [client_poller] is the place
    where the polling thread stands, and [await_connections], [join_app] and
    [join_comm] are what it does next. *)

From S2P Require Import Prelude Platform MmapUtil VertexTable Options.
From S2P Require Import Rdma ConnectionUtils Numa.

Local Open Scope io_scope.

Inductive thread := NotStarted | Running | Returned | Joined.

#[export] Instance thread_eq_dec : EqDecision thread.
Proof. solve_decision. Defined.

(** The members of [client_context] that the control plane uses. *)
Record client_user := ClientUser {
  tx_msg : option msg_buffer;
  rx_msg : option msg_buffer;
  ctx_pd : Z;
  ctx_peer_addr : Z;
  ctx_peer_rkey : Z;
  ctx_num_edges : Z;
  ctx_app : option application;
  ctx_caches : cache_pointers;
  ctx_kernel : option kernel;
  app_thread : thread;
  comm_threads : list thread;
}.

Inductive client_poller :=
  | Idle
  | AwaitConnections (id : Z)
  | JoinApp (id : Z)
  | JoinComm (id : Z)
  | Summarise.

#[export] Instance client_poller_eq_dec : EqDecision client_poller.
Proof. solve_decision. Defined.

Section client.
  Context {BO : Boost} {OS : Os} {VB : Verbs} {NU : Numa}.

(** A pointer member that is null or freed cannot be followed. *)
Definition deref {A} (p : option A) : io A :=
  match p with Some a => io_ret a | None => Fault OutOfBounds end.

Definition set_bufs (tx rx : option msg_buffer) (u : client_user) : client_user :=
  ClientUser tx rx (ctx_pd u) (ctx_peer_addr u) (ctx_peer_rkey u) (ctx_num_edges u) (ctx_app u)
    (ctx_caches u) (ctx_kernel u) (app_thread u) (comm_threads u).
Definition set_server (addr rkey edges pd : Z) (app : application) (u : client_user) : client_user :=
  ClientUser (tx_msg u) (rx_msg u) pd addr rkey edges (Some app) (ctx_caches u) (ctx_kernel u)
    (app_thread u) (comm_threads u).
Definition set_threads (a : thread) (cs : list thread) (u : client_user) : client_user :=
  ClientUser (tx_msg u) (rx_msg u) (ctx_pd u) (ctx_peer_addr u) (ctx_peer_rkey u) (ctx_num_edges u)
    (ctx_app u) (ctx_caches u) (ctx_kernel u) a cs.
Definition set_app (app : option application) (u : client_user) : client_user :=
  ClientUser (tx_msg u) (rx_msg u) (ctx_pd u) (ctx_peer_addr u) (ctx_peer_rkey u) (ctx_num_edges u)
    app (ctx_caches u) (ctx_kernel u) (app_thread u) (comm_threads u).

(** ** Messages *)
Definition send_message (id : Z) (u : client_user) : io () :=
  b ⇐ deref (tx_msg u);
  issue (PostSend id (MsgWr id true (buf_addr b) sizeof_message (buf_lkey b))).

Definition post_receive (id : Z) (u : client_user) : io () :=
  b ⇐ deref (rx_msg u);
  issue (PostRecv id (MsgWr id false (buf_addr b) sizeof_message (buf_lkey b))).

(** ** Handlers *)
Definition on_pre_conn (id : Z) (c : fam_ib_context) (u : client_user) : io client_user :=
  tx ⇐ alloc_buffer (ib_pd c) true;
  rx ⇐ alloc_buffer (ib_pd c) false;
  let u := set_bufs (Some tx) (Some rx) u in
  _ ⇐ post_receive id u;
  io_ret u.

Definition on_completion (index_file : fs_node) (cm_ids : list Z) (s_ctx : option fam_ib_context)
    (wc : ibv_wc) (u : client_user) : io (client_user * client_poller) :=
  let id := wc_wr_id wc in
  if bool_decide (Z.land (wc_opcode wc) IBV_WC_RECV ≠ 0) then
    b ⇐ deref (rx_msg u);
    let m := buf_msg b in
    if bool_decide (msg_id m = MSG_MR) then
      _ ⇐ post_receive id u;
      pd ⇐ io_lift (rc_get_pd s_ctx);
      num_vertices ⇐ io_lift (get_num_verts index_file);
      let u := set_server (msg_addr m) (msg_rkey m) (msg_total_edges m) pd
                 (new_application num_vertices (msg_total_edges m)) u in
      _ ⇐ io_each cm_ids (λ i, issue (ResolveAddr i));
      io_ret (u, AwaitConnections id)
    else if bool_decide (msg_id m = MSG_READY) then
      _ ⇐ post_receive id u;
      io_ret (u, Idle)
    else if bool_decide (msg_id m = MSG_DONE) then io_ret (u, JoinApp id)
    else io_ret (u, Idle)
  else io_ret (u, Idle).

(** [while (rc_get_num_connections() < ctx->connections + 1) {}] *)
Definition all_connected (n_ids : Z) (s_ctx : option fam_ib_context) : bool :=
  match rc_get_num_connections s_ctx with
  | Ok c => bool_decide (u64 (n_ids + 1) ≤ c)
  | Fault _ => true
  end.

(** After the wait: the completion thread, the cache and the kernel's thread. *)
Definition await_connections (vm : variables_map) (s_ctx : option fam_ib_context)
    (u : client_user) : io (client_user * client_poller) :=
  _ ⇐ io_lift (rc_get_num_connections s_ctx);
  let comm := comm_threads u ++ [Running] in
  if bool_decide (count vm "double-buffer" ≠ 0)
  then Fault (Thrown "double buffering deprecated")
  else
    c ⇐ io_lift (choose_cache vm);
    k ⇐ io_lift (choose_kernel vm);
    io_ret (ClientUser (tx_msg u) (rx_msg u) (ctx_pd u) (ctx_peer_addr u) (ctx_peer_rkey u)
              (ctx_num_edges u) (ctx_app u) c (Some k) Running comm, Idle).

(** [ctx->app_thread.join()]: a thread that was never started or is joined
    already cannot be joined. *)
Definition join (t : thread) : option (result thread) :=
  match t with
  | NotStarted | Joined => Some (Fault (Thrown "Invalid argument"))
  | Running => None
  | Returned => Some (Ok Joined)
  end.

Definition join_app (id : Z) (u : client_user) : option (io (client_user * client_poller)) :=
  (λ r, t ⇐ io_lift r; io_ret (set_threads t (comm_threads u) u, JoinComm id)) <$> join (app_thread u).

Fixpoint join_all (ts : list thread) : option (result (list thread)) :=
  match ts with
  | [] => Some (Ok [])
  | t :: ts =>
      match join t with
      | None => None
      | Some (Fault f) => Some (Fault f)
      | Some (Ok t) => (λ r, ts ← r; Ok (t :: ts)) <$> join_all ts
      end
  end.

Definition join_comm (id : Z) (u : client_user) : option (io (client_user * client_poller)) :=
  (λ r, cs ⇐ io_lift r;
        _ ⇐ rc_disconnect id;
        io_ret (set_threads (app_thread u) cs u, Summarise)) <$> join_all (comm_threads u).

Definition on_disconnect (id : Z) (u : client_user) : io client_user :=
  rx ⇐ deref (rx_msg u);
  _ ⇐ perform (DeregMr (buf_lkey rx));
  tx ⇐ deref (tx_msg u);
  _ ⇐ perform (DeregMr (buf_lkey tx));
  io_ret (set_bufs None None u).

(** The kernel's thread ends with [finish_application]. *)
Definition finish_application (base_id : Z) (u : client_user) : io client_user :=
  a ⇐ deref (ctx_app u);
  let u := set_app (Some (Application (num_vertices a) (num_edges a) true)) u in
  b ⇐ deref (tx_msg u);
  let u := set_bufs (Some (fill (set_msg_id MSG_READY (buf_msg b)) b)) (rx_msg u) u in
  _ ⇐ send_message base_id u;
  io_ret u.

(** ** The completion thread.  [ibv_poll_cq k id] are the statuses of the
    completions that the [k]-th poll yields (at most [WC_POLL_WINDOW]),
    [should_stop k] is the flag as the thread reads it the [k]-th time. *)
Definition WC_POLL_WINDOW : Z := 100.
Definition comm_batch : nat := 2 ^ 12.

(** The completions of one poll: [inr] is the early return. *)
Definition count_wcs (n_comp : Z) (wcs : list Z) : Z + Z :=
  foldl (λ r s, match r with
                | inl c => let c := u64 (c + zlen wcs) in
                           if bool_decide (s ≠ IBV_WC_SUCCESS) then inr c else inl c
                | inr c => inr c
                end) (inl n_comp) wcs.

Fixpoint poll_ids (ibv_poll_cq : nat → Z → list Z) (cm_ids : list Z) (k : nat) (n_comp : Z)
    : nat * (Z + Z) :=
  match cm_ids with
  | [] => (k, inl n_comp)
  | id :: ids =>
      match count_wcs n_comp (ibv_poll_cq k id) with
      | inl c => poll_ids ibv_poll_cq ids (S k) c
      | inr c => (S k, inr c)
      end
  end.

Fixpoint poll_batch (ibv_poll_cq : nat → Z → list Z) (cm_ids : list Z) (iters : nat) (k : nat)
    (n_comp : Z) : nat * (Z + Z) :=
  match iters with
  | O => (k, inl n_comp)
  | S i =>
      match poll_ids ibv_poll_cq cm_ids k n_comp with
      | (k, inl c) => poll_batch ibv_poll_cq cm_ids i k c
      | r => r
      end
  end.

(** The worker returns the count it logs, [None] on the early return. *)
Definition comm_runtime_worker2 (fuel : nat) (ibv_poll_cq : nat → Z → list Z)
    (should_stop : nat → bool) (cm_ids : list Z) : result (option Z) :=
  loopM fuel (λ '(round, k, n_comp),
    if should_stop round then Ok (inr (Some n_comp))
    else match poll_batch ibv_poll_cq cm_ids comm_batch k n_comp with
         | (k, inl c) => Ok (inl (S round, k, c))
         | (_, inr _) => Ok (inr None)
         end) (O, O, 0).

(** ** What the completion thread counts *)
Definition all_good (wcs : list Z) : Prop := Forall (λ s, s = IBV_WC_SUCCESS) wcs.

Lemma count_wcs_good c wcs : all_good wcs → count_wcs (u64 c) wcs = inl (u64 (c + zlen wcs * zlen wcs)).
Proof.
  intros Hg. unfold count_wcs.
  assert (Hk : ∀ k c, foldl (λ r s, match r with
      | inl c => let c := u64 (c + k) in if bool_decide (s ≠ IBV_WC_SUCCESS) then inr c else inl c
      | inr c => inr c end) (inl (u64 c)) wcs = inl (u64 (c + k * zlen wcs))).
  { intros k. induction Hg as [|s wcs -> Hg IH]; intros c'; simpl.
    - f_equal. f_equal. unfold zlen. simpl. lia.
    - replace (u64 (u64 c' + k)) with (u64 (c' + k)) by (unfold u64; by rewrite Zplus_mod_idemp_l).
      rewrite IH. f_equal. f_equal. unfold zlen. simpl length. lia. }
  apply Hk.
Qed.

(** The sum of the squares of the numbers of completions of the polls [k], [k+1],
    ..., [k+n-1], and the thread's polls of a batch. *)
Definition squares (ibv_poll_cq : nat → list Z) (k n : nat) : Z :=
  zsum (λ i, zlen (ibv_poll_cq i) * zlen (ibv_poll_cq i)) (seq k n).

Section comm.
  Context (ibv_poll_cq : nat → Z → list Z) (cm_ids : list Z).
  Context (Hgood : ∀ k id, all_good (ibv_poll_cq k id)).

(** The queue that the [k]-th poll looks at. *)
Definition nth_poll (k : nat) : list Z :=
  match cm_ids !! (k mod length cm_ids)%nat with Some id => ibv_poll_cq k id | None => [] end.

Lemma squares_app k n m : squares nth_poll k (n + m) = squares nth_poll k n + squares nth_poll (k + n) m.
Proof. unfold squares. by rewrite seq_app, zsum_app. Qed.

Lemma poll_ids_good m pre ids c : cm_ids = pre ++ ids →
  poll_ids ibv_poll_cq ids (m * length cm_ids + length pre) (u64 c)
  = ((m * length cm_ids + length cm_ids)%nat,
     inl (u64 (c + squares nth_poll (m * length cm_ids + length pre) (length ids)))).
Proof.
  revert pre c. induction ids as [|id ids IH]; intros pre c E.
  - rewrite app_nil_r in E. subst pre. cbn. f_equal. f_equal. unfold squares. cbn. f_equal. lia.
  - cbn [poll_ids]. rewrite count_wcs_good by apply Hgood.
    replace (S (m * length cm_ids + length pre)) with (m * length cm_ids + length (pre ++ [id]))%nat
      by (rewrite length_app; simpl; lia).
    rewrite IH by (by rewrite <- app_assoc). f_equal. f_equal. f_equal.
    change (length (id :: ids)) with (1 + length ids)%nat. rewrite squares_app.
    replace (m * length cm_ids + length (pre ++ [id]))%nat with (m * length cm_ids + length pre + 1)%nat
      by (rewrite length_app; simpl; lia).
    assert (Hn : nth_poll (m * length cm_ids + length pre) = ibv_poll_cq (m * length cm_ids + length pre) id).
    { unfold nth_poll. rewrite Nat.add_comm, Nat.Div0.mod_add, Nat.mod_small
        by (rewrite E, length_app; simpl; lia).
      rewrite E at 1. by rewrite lookup_app_r, Nat.sub_diag by done. }
    unfold squares at 2. cbn [seq]. rewrite zsum_cons, Hn. cbn. lia.
Qed.

Lemma poll_batch_good iters m c :
  poll_batch ibv_poll_cq cm_ids iters (m * length cm_ids) (u64 c)
  = (((m + iters) * length cm_ids)%nat,
     inl (u64 (c + squares nth_poll (m * length cm_ids) (iters * length cm_ids)))).
Proof.
  revert m c. induction iters as [|i IH]; intros m c; cbn [poll_batch].
  - rewrite Nat.add_0_r, Nat.mul_0_l. unfold squares. cbn. by rewrite Z.add_0_r.
  - pose proof (poll_ids_good m [] cm_ids c eq_refl) as H. simpl in H. rewrite Nat.add_0_r in H. rewrite H.
    replace (m * length cm_ids + length cm_ids)%nat with (S m * length cm_ids)%nat by lia.
    rewrite IH. f_equal; [f_equal; lia|]. f_equal. f_equal.
    replace (S i * length cm_ids)%nat with (length cm_ids + i * length cm_ids)%nat by lia.
    rewrite squares_app, Z.add_assoc. do 2 f_equal. lia.
Qed.

(** the completion thread ends in the first round in which it reads the stop flag
    as set, and until then polls the queue of every connection in turn, 4096 times
    a round: when no completion reports an error, the count it logs is the sum of
    the squares of the numbers of completions that the polls of those rounds
    yielded. *)
Theorem comm_runtime_worker2_ends should_stop K fuel :
  should_stop K = true → (∀ k, (k < K)%nat → should_stop k = false) → (K < fuel)%nat →
  comm_runtime_worker2 fuel ibv_poll_cq should_stop cm_ids
  = Ok (Some (u64 (squares nth_poll 0 (K * comm_batch * length cm_ids)))).
Proof.
  intros Hstop Hgo Hfuel. unfold comm_runtime_worker2.
  assert (Hrun : ∀ d r, (r + d = K)%nat → ∀ fuel, (d < fuel)%nat →
    loopM fuel (λ '(round, k, n_comp),
      if should_stop round then Ok (inr (Some n_comp))
      else match poll_batch ibv_poll_cq cm_ids comm_batch k n_comp with
           | (k, inl c) => Ok (inl (S round, k, c))
           | (_, inr _) => Ok (inr None)
           end) (r, (r * comm_batch * length cm_ids)%nat,
                 u64 (squares nth_poll 0 (r * comm_batch * length cm_ids)))
    = Ok (Some (u64 (squares nth_poll 0 (K * comm_batch * length cm_ids))))).
  { induction d as [|d IH]; intros r Hr [|fl] Hfl; try lia; cbn [loopM].
    - replace K with r by lia. by replace (should_stop r) with true by (rewrite <- Hstop; f_equal; lia).
    - rewrite Hgo by lia. rewrite poll_batch_good. cbn [mbind result_bind].
      replace ((r * comm_batch + comm_batch) * length cm_ids)%nat with (S r * comm_batch * length cm_ids)%nat by lia.
      specialize (IH (S r) ltac:(lia) fl ltac:(lia)).
      replace (S r * comm_batch * length cm_ids)%nat
        with (r * comm_batch * length cm_ids + comm_batch * length cm_ids)%nat in IH at 2 by lia.
      rewrite squares_app in IH. exact IH. }
  by apply (Hrun K O).
Qed.
End comm.

(** ** Start ([run_client], [rc_client_loop]) *)
Definition fresh_user : client_user :=
  ClientUser None None 0 0 0 0 None Unset None NotStarted [].

(** The ids of the connections: the base connection is created first. *)
Definition base_id : Z := new_id 0.
Definition worker_ids (n : nat) : list Z := new_id <$> seq 1 n.

(** [rc_client_loop] up to the event loop. *)
Definition rc_client_open (cm_ids : list Z) : io () :=
  _ ⇐ issue GetAddrInfo;
  _ ⇐ io_lift (TEST_Z "rdma_create_event_channel" event_channel);
  _ ⇐ issue CreateEventChannel;
  _ ⇐ issue (CreateId base_id);
  _ ⇐ issue (ResolveAddr base_id);
  io_each cm_ids (λ i, issue (CreateId i)).

(** [run_client] up to the event loop: the connections of the workers and the
    state behind the contexts. *)
Definition run_client (vm : variables_map) (max_cores : Z) : io (list Z * client_user) :=
  _ ⇐ io_lift (client_validate_params vm);
  _ ⇐ io_lift (as_value vm "kernel" o_kernel);
  _ ⇐ io_lift (as_value vm "ofile" (λ _, ()));
  threads ⇐ io_lift (as_value vm "threads" o_threads);
  _ ⇐ io_lift (as_value vm "cache_ratio" o_cache_ratio);
  let n := num_connections threads max_cores in
  _ ⇐ (if bool_decide (count vm "no-numa-bind" ≠ 0) then io_ret ()
       else _ ⇐ io_lift (do_numa_map n); io_ret ());
  let cm_ids := worker_ids (Z.to_nat n) in
  _ ⇐ rc_client_open cm_ids;
  io_ret (cm_ids, fresh_user).

Definition client_callbacks : callbacks client_user :=
  RcInit (Some on_pre_conn) None (Some on_disconnect).
End client.
