(* ===== verification/FamServer.v ===== *)
(** * FamServer: the server's handlers ([FAMServer.cpp]) *)

From S2P Require Import Prelude Platform MmapUtil ServerFile Options.
From S2P Require Import Rdma AbstractServer ConnectionUtils ClientRuntime.

Local Open Scope io_scope.

(** [server_context]; [v] holds the regions it serves. *)
Record server_context := ServerContext {
  adj_filename : fs_node;
  v : list RDMA_region;
  srv_tx_msg : option msg_buffer;
  srv_rx_msg : option msg_buffer;
  use_hp : bool;
  fam_thp_flag : Z;
}.

Section server.
  Context {BO : Boost} {OS : Os} {FM : FileMapping} {VB : Verbs}.

Definition set_messages (tx rx : option msg_buffer) (s : server_context) : server_context :=
  ServerContext (adj_filename s) (v s) tx rx (use_hp s) (fam_thp_flag s).
Definition keep_region (r : RDMA_region) (s : server_context) : server_context :=
  ServerContext (adj_filename s) (v s ++ [r]) (srv_tx_msg s) (srv_rx_msg s) (use_hp s) (fam_thp_flag s).

Definition post_receive (id : Z) (s : server_context) : io () :=
  b ⇐ deref (srv_rx_msg s);
  issue (PostRecv id (MsgWr id false (buf_addr b) sizeof_message (buf_lkey b))).

Definition send_message (id : Z) (s : server_context) : io () :=
  b ⇐ deref (srv_tx_msg s);
  issue (PostSend id (MsgWr id true (buf_addr b) sizeof_message (buf_lkey b))).

Definition on_pre_conn (id : Z) (c : fam_ib_context) (s : server_context) : io server_context :=
  tx ⇐ alloc_buffer (ib_pd c) true;
  rx ⇐ alloc_buffer (ib_pd c) false;
  let s := set_messages (Some tx) (Some rx) s in
  _ ⇐ post_receive id s;
  io_ret s.

(** [fuel] bounds the chunks in which the file is copied. *)
Definition on_connection (fuel : nat) (id : Z) (c : fam_ib_context) (s : server_context)
    : io server_context :=
  r ⇐ io_lift (get_edge_list fuel (adj_filename s) (use_hp s) (fam_thp_flag s));
  let '(ptr, mr, edges) := r in
  let s := keep_region ptr s in
  b ⇐ deref (srv_tx_msg s);
  let s := set_messages (Some (fill (Message MSG_MR (mr_addr mr) (mr_rkey mr) edges) b))
             (srv_rx_msg s) s in
  _ ⇐ send_message id s;
  io_ret s.

(** [ctx->tx_msg->id = MSG_DONE; send_message(id)] *)
Definition send_done (id : Z) (s : server_context) : io server_context :=
  b ⇐ deref (srv_tx_msg s);
  let s := set_messages (Some (fill (set_msg_id MSG_DONE (buf_msg b)) b)) (srv_rx_msg s) s in
  _ ⇐ send_message id s;
  io_ret s.

Definition on_completion (wc : ibv_wc) (s : server_context) : io server_context :=
  let id := wc_wr_id wc in
  if bool_decide (Z.land (wc_opcode wc) IBV_WC_RECV ≠ 0) then
    b ⇐ deref (srv_rx_msg s);
    if bool_decide (msg_id (buf_msg b) = MSG_READY) then
      _ ⇐ post_receive id s;
      send_done id s
    else if bool_decide (msg_id (buf_msg b) = MSG_DONE) then
      _ ⇐ post_receive id s;
      send_done id s
    else io_ret s
  else io_ret s.

Definition on_disconnect (id : Z) (s : server_context) : io server_context :=
  rx ⇐ deref (srv_rx_msg s);
  _ ⇐ perform (DeregMr (buf_lkey rx));
  tx ⇐ deref (srv_tx_msg s);
  _ ⇐ perform (DeregMr (buf_lkey tx));
  io_ret (set_messages None None s).

Definition server_handlers (fuel : nat) : handlers server_context :=
  Handlers on_pre_conn (on_connection fuel) on_disconnect.

(** [FAMServer::run] up to the event loop. *)
Definition run (vm : variables_map) (adj_file : fs_node) (port listener : Z) : io server_context :=
  _ ⇐ io_lift (server_validate_params vm);
  flag ⇐ io_lift (as_value vm "madvise_thp" o_madvise_thp);
  let ctx := ServerContext adj_file [] None None (bool_decide (count vm "hp" ≠ 0)) flag in
  _ ⇐ io_lift (TEST_Z "rdma_create_event_channel" event_channel);
  _ ⇐ issue CreateEventChannel;
  _ ⇐ issue (CreateId listener);
  _ ⇐ issue (BindAddr listener port);
  _ ⇐ issue (Listen listener 10);
  io_ret ctx.
End server.
