(* ===== verification/Session.v ===== *)
(** * Session: a client and a server

    The world is a client process, a server process and the network between
    them.  A step is one event handled by an event loop, one message delivered,
    one completion handled by a polling thread, or one move of a thread of the
    client; the steps interleave in any order.  [raised] is what the connection
    manager makes of a call: the events it will report to either side. *)

From stdpp Require Import gmultiset.
From S2P Require Import Prelude Platform MmapUtil VertexTable ServerFile Options.
From S2P Require Import Rdma AbstractServer ConnectionUtils Numa ClientRuntime FamServer.

Inductive side := Client | Server.

#[export] Instance side_eq_dec : EqDecision side.
Proof. solve_decision. Defined.
#[export] Instance side_countable : Countable side.
Proof.
  refine (inj_countable' (λ s, match s with Client => true | Server => false end)
    (λ b : bool, if b then Client else Server) _). by intros [].
Defined.

(** Events that have been raised and not yet been delivered; they may be
    delivered in any order. *)
Abbreviation events := (gmultiset (side * rdma_cm_event)).

Class Network := { raised : side → call → list (side * rdma_cm_event) }.

(** ** One process: its event loop, the requests it posted on the base
    connection, its completion queue, and the connections it destroyed. *)
Record endpoint (S : Type) := Endpoint {
  ep_loop : loop_state S;
  ep_running : bool;
  ep_recvs : list msg_wr;
  ep_sends : list msg_wr;
  ep_cq : list ibv_wc;
  ep_destroyed : list Z;
}.
Arguments Endpoint {S}.
Arguments ep_loop {S}. Arguments ep_running {S}. Arguments ep_recvs {S}. Arguments ep_sends {S}.
Arguments ep_cq {S}. Arguments ep_destroyed {S}.

Definition ep_user {S} (e : endpoint S) : S := user (ep_loop e).

Definition with_user {S} (f : S → S) (e : endpoint S) : endpoint S :=
  let l := ep_loop e in
  Endpoint (Loop (latch0 l) (latch2 l) (latch3 l) (latch4 l) (s_ctx l) (f (user l)))
    (ep_running e) (ep_recvs e) (ep_sends e) (ep_cq e) (ep_destroyed e).

Definition with_loop {S} (l : loop_state S) (running : bool) (e : endpoint S) : endpoint S :=
  Endpoint l running (ep_recvs e) (ep_sends e) (ep_cq e) (ep_destroyed e).

Definition with_queues {S} (rs ss : list msg_wr) (cq : list ibv_wc) (e : endpoint S) : endpoint S :=
  Endpoint (ep_loop e) (ep_running e) rs ss cq (ep_destroyed e).

(** What a call does to the process that makes it. *)
Definition effect {S} (e : endpoint S) (c : call) : endpoint S :=
  match c with
  | PostRecv _ wr => with_queues (ep_recvs e ++ [wr]) (ep_sends e) (ep_cq e) e
  | PostSend _ wr => with_queues (ep_recvs e) (ep_sends e ++ [wr]) (ep_cq e) e
  | DestroyId id => Endpoint (ep_loop e) (ep_running e) (ep_recvs e) (ep_sends e) (ep_cq e)
                      (id :: ep_destroyed e)
  | _ => e
  end.

Record world := World {
  client : endpoint client_user;
  poller : client_poller;
  server : endpoint server_context;
  pool : events;
}.

(** The threads and the network, and what they do next. *)
Inductive actor :=
  | ClientEvent (ev : rdma_cm_event)
  | ServerEvent (ev : rdma_cm_event)
  | ToClient
  | ToServer
  | ClientCompletion
  | ServerCompletion
  | ClientPoller
  | KernelReturns
  | CommReturns.

Section session.
  Context {BO : Boost} {OS : Os} {FM : FileMapping} {VB : Verbs} {NU : Numa} {NW : Network}.
  Context (vm : variables_map) (index_file : fs_node) (cm_ids : list Z) (server_fuel : nat).

Definition raise (sd : side) (calls : list call) (p : events) : events :=
  p ⊎ list_to_set_disj (calls ≫= raised sd).

(** The world after a thread of a process ran code that yields a value and calls. *)
Definition client_ran {A} (w : world) (r : io A)
    (f : A → endpoint client_user → endpoint client_user) (g : A → client_poller)
    : result world :=
  match r with
  | Fault f => Fault f
  | Ok (a, calls) =>
      Ok (World (foldl effect (f a (client w)) calls) (g a) (server w) (raise Client calls (pool w)))
  end.

Definition server_ran {A} (w : world) (r : io A)
    (f : A → endpoint server_context → endpoint server_context) : result world :=
  match r with
  | Fault f => Fault f
  | Ok (a, calls) =>
      Ok (World (client w) (poller w) (foldl effect (f a (server w)) calls)
            (raise Server calls (pool w)))
  end.

Definition left_loop {S} (r : loop_state S + loop_state S) (e : endpoint S) : endpoint S :=
  match r with inl l => with_loop l true e | inr l => with_loop l false e end.

Definition take_event (x : side * rdma_cm_event) (w : world) : world :=
  World (client w) (poller w) (server w) (pool w ∖ {[+ x +]}).

(** [poll_cq] handles the completion at the head of the queue; following the
    connection of a completion that has been destroyed is a dangling pointer. *)
Definition alive {S} (e : endpoint S) (wc : ibv_wc) : io () :=
  if bool_decide (wc_wr_id wc ∈ ep_destroyed e) then Fault OutOfBounds else io_ret ().

(** A message moves when the receiver has posted a request for it: the card reads
    the sender's buffer and writes the receiver's, and both get a completion. *)
Definition card_read (wr : msg_wr) (tx : option msg_buffer) : result message :=
  match tx with
  | Some b => if bool_decide (buf_addr b = mw_addr wr) then Ok (buf_msg b) else Fault OutOfBounds
  | None => Fault OutOfBounds
  end.
Definition card_write (wr : msg_wr) (m : message) (rx : option msg_buffer) : result msg_buffer :=
  match rx with
  | Some b => if bool_decide (buf_addr b = mw_addr wr) then Ok (fill m b) else Fault OutOfBounds
  | None => Fault OutOfBounds
  end.

Definition sent {S} (ss : list msg_wr) (wr : msg_wr) (e : endpoint S) : endpoint S :=
  with_queues (ep_recvs e) ss (ep_cq e ++ [Wc (mw_wr_id wr) IBV_WC_SEND IBV_WC_SUCCESS]) e.
Definition received {S} (rs : list msg_wr) (wr : msg_wr) (e : endpoint S) : endpoint S :=
  with_queues rs (ep_sends e) (ep_cq e ++ [Wc (mw_wr_id wr) IBV_WC_RECV IBV_WC_SUCCESS]) e.

Definition deliver {S R} (from : endpoint S) (tx : option msg_buffer) (to : endpoint R)
    (rx : option msg_buffer) (store : msg_buffer → R → R) : option (result (endpoint S * endpoint R)) :=
  match ep_sends from, ep_recvs to with
  | swr :: ss, rwr :: rs =>
      Some (m ← card_read swr tx;
            b ← card_write rwr m rx;
            Ok (sent ss swr from, received rs rwr (with_user (store b) to)))
  | _, _ => None
  end.

(** [poll_cq] of the client, when [on_completion] has returned. *)
Definition client_completion (w : world) : option (result world) :=
  match poller w, ep_cq (client w) with
  | Idle, wc :: cq =>
      let c := with_queues (ep_recvs (client w)) (ep_sends (client w)) cq (client w) in
      Some (client_ran (World c Idle (server w) (pool w))
              (io_bind (alive c wc) (λ _,
                 ConnectionUtils.poll_wc (λ wc, ClientRuntime.on_completion index_file cm_ids
                                                  (s_ctx (ep_loop c)) wc (ep_user c)) wc))
              (λ r, with_user (λ _, r.1)) snd)
  | _, _ => None
  end.

Definition server_completion (w : world) : option (result world) :=
  match ep_cq (server w) with
  | wc :: cq =>
      let s := with_queues (ep_recvs (server w)) (ep_sends (server w)) cq (server w) in
      Some (server_ran (World (client w) (poller w) s (pool w))
              (io_bind (alive s wc) (λ _,
                 AbstractServer.poll_wc FamServer.on_completion wc (ep_user s)))
              (λ u, with_user (λ _, u)))
  | [] => None
  end.

(** The blocked polling thread of the client goes on; the summary at its end
    reads the client's context, which the main thread destroys when it leaves
    [run_client]. *)
Definition client_poller_step (w : world) : option (result world) :=
  let c := client w in
  let resume r := client_ran w r (λ r, with_user (λ _, r.1)) snd in
  match poller w with
  | Idle => None
  | AwaitConnections _ =>
      if all_connected (zlen cm_ids) (s_ctx (ep_loop c))
      then Some (resume (await_connections vm (s_ctx (ep_loop c)) (ep_user c)))
      else None
  | JoinApp id => resume <$> join_app id (ep_user c)
  | JoinComm id => resume <$> join_comm id (ep_user c)
  | Summarise =>
      Some (if ep_running c then Ok (World c Idle (server w) (pool w)) else Fault OutOfBounds)
  end.

Definition set_returned (u : client_user) : client_user := set_threads Returned (comm_threads u) u.

Definition return_comm (u : client_user) : client_user :=
  set_threads (app_thread u)
    ((λ t, match t with Running => Returned | t => t end) <$> comm_threads u) u.

Definition step (a : actor) (w : world) : option (result world) :=
  match a with
  | ClientEvent ev =>
      if ep_running (client w) && bool_decide ((Client, ev) ∈ pool w)
      then Some (client_ran (take_event (Client, ev) w)
                   (ConnectionUtils.event_step client_callbacks true ev (ep_loop (client w)))
                   left_loop (λ _, poller w))
      else None
  | ServerEvent ev =>
      if ep_running (server w) && bool_decide ((Server, ev) ∈ pool w)
      then Some (server_ran (take_event (Server, ev) w)
                   (AbstractServer.event_step (server_handlers server_fuel) false ev
                      (ep_loop (server w))) left_loop)
      else None
  | ToClient =>
      (λ r, '(s, c) ← r; Ok (World c (poller w) s (pool w)))
      <$> deliver (server w) (srv_tx_msg (ep_user (server w))) (client w) (rx_msg (ep_user (client w)))
            (λ b u, set_bufs (tx_msg u) (Some b) u)
  | ToServer =>
      (λ r, '(c, s) ← r; Ok (World c (poller w) s (pool w)))
      <$> deliver (client w) (tx_msg (ep_user (client w))) (server w)
            (srv_rx_msg (ep_user (server w))) (λ b s, set_messages (srv_tx_msg s) (Some b) s)
  | ClientCompletion => client_completion w
  | ServerCompletion => server_completion w
  | ClientPoller => client_poller_step w
  | KernelReturns =>
      if bool_decide (app_thread (ep_user (client w)) = Running)
      then Some (client_ran w (finish_application base_id (ep_user (client w)))
                   (λ u, with_user (λ _, set_returned u)) (λ _, poller w))
      else None
  | CommReturns =>
      if bool_decide (Running ∈ comm_threads (ep_user (client w)))
         && match ctx_app (ep_user (client w)) with Some a => should_stop a | None => false end
      then Some (Ok (World (with_user return_comm (client w)) (poller w) (server w) (pool w)))
      else None
  end.

(** Sequences of steps; a step that faults ends the session. *)
Inductive steps : world → list actor → world → Prop :=
  | steps_nil w : steps w [] w
  | steps_cons w a w' tr w'' : step a w = Some (Ok w') → steps w' tr w'' → steps w (a :: tr) w''.
End session.

(** The start: both processes before their event loops, the client's first call
    made. *)
Definition start_endpoint {S} (u : S) : endpoint S := Endpoint (loop_start u) true [] [] [] [].

Definition start_session `{BO : Boost, VB : Verbs, NU : Numa, NW : Network}
    (vm server_vm : variables_map) (max_cores : Z) (adj_file : fs_node) (port listener : Z)
    : result (list Z * world) :=
  match run server_vm adj_file port listener, run_client vm max_cores with
  | Ok (s, scalls), Ok ((ids, u), ccalls) =>
      Ok (ids, World (foldl effect (start_endpoint u) ccalls) Idle
                 (foldl effect (start_endpoint s) scalls)
                 (raise Client ccalls (raise Server scalls ∅)))
  | Fault f, _ => Fault f
  | _, Fault f => Fault f
  end.
