(* ===== verification/Protocol.v ===== *)
(** * Protocol: what a session does, abstractly

    An executable machine without buffers, queues or library calls: the phase of
    the session, the stage of every connection, and which of three threads still
    has something to do.  [Refinement] shows that the handlers implement it. *)

From S2P Require Import Prelude Platform Rdma Session.

(** A connection: resolving its address, its route, requested, up, down; the
    flags of the last two say whether the client and the server have yet to hear
    of it. *)
Inductive stage :=
  | Fresh
  | Resolving
  | Routing
  | Requesting
  | Up (c s : bool)
  | Down (c s : bool).

#[export] Instance stage_eq_dec : EqDecision stage.
Proof. solve_decision. Defined.

(** The session: the base connection opens; the server's region is announced
    ([Mr...]); the other connections open ([Waiting]); the kernel runs; the two
    sides say that they are ready and done; the client joins its threads and
    closes the base connection. *)
Inductive phase :=
  | Opening
  | MrFlight
  | MrIn
  | Waiting
  | Kernel
  | ReadyFlight
  | ReadyIn
  | DoneFlight
  | DoneIn
  | JoiningApp
  | JoiningComm
  | Closing
  | Closed.

#[export] Instance phase_eq_dec : EqDecision phase.
Proof. solve_decision. Defined.

(** The server announces its region when it hears of its first connection. *)
Definition heard (p : phase) : phase := match p with Opening => MrFlight | p => p end.

(** [comm_done]: the completion thread has returned; [c_send], [s_send]: the
    completion of the last message sent has not been handled yet. *)
Record state := State {
  ph : phase;
  st : Z → stage;
  comm_done : bool;
  c_send : bool;
  s_send : bool;
}.

Definition upd (id : Z) (s : stage) (f : Z → stage) : Z → stage :=
  λ j, if decide (j = id) then s else f j.

(** The client and the server count a connection when they have heard of it. *)
Definition client_up (s : stage) : bool :=
  match s with Up c _ => negb c | Down _ _ => true | _ => false end.
Definition server_up (s : stage) : bool :=
  match s with Up _ s => negb s | Down _ _ => true | _ => false end.
Definition client_gone (s : stage) : bool := match s with Down c _ => negb c | _ => false end.
Definition server_gone (s : stage) : bool := match s with Down _ s => negb s | _ => false end.

Section protocol.
  Context (base : Z) (cm_ids : list Z).

Definition ids : list Z := base :: cm_ids.

Definition set_st (f : Z → stage) (a : state) : state :=
  State (ph a) f (comm_done a) (c_send a) (s_send a).
Definition set_ph (p : phase) (a : state) : state :=
  State p (st a) (comm_done a) (c_send a) (s_send a).
Definition set_sends (c s : bool) (a : state) : state := State (ph a) (st a) (comm_done a) c s.

Definition next_client_event (ev : rdma_cm_event) (a : state) : option state :=
  let id := ev_id ev in
  match event ev, st a id with
  | RDMA_CM_EVENT_ADDR_RESOLVED, Resolving => Some (set_st (upd id Routing (st a)) a)
  | RDMA_CM_EVENT_ROUTE_RESOLVED, Routing => Some (set_st (upd id Requesting (st a)) a)
  | RDMA_CM_EVENT_ESTABLISHED, Up true s => Some (set_st (upd id (Up false s) (st a)) a)
  | RDMA_CM_EVENT_DISCONNECTED, Down true s => Some (set_st (upd id (Down false s) (st a)) a)
  | _, _ => None
  end.

Definition next_server_event (ev : rdma_cm_event) (a : state) : option state :=
  let id := ev_id ev in
  match event ev, st a id with
  | RDMA_CM_EVENT_CONNECT_REQUEST, Requesting => Some (set_st (upd id (Up true true) (st a)) a)
  | RDMA_CM_EVENT_ESTABLISHED, Up c true =>
      Some (set_ph (heard (ph a)) (set_st (upd id (Up c false) (st a)) a))
  | RDMA_CM_EVENT_DISCONNECTED, Down c true => Some (set_st (upd id (Down c false) (st a)) a)
  | _, _ => None
  end.

(** When the address of the region is known the other connections are opened. *)
Definition open_others (f : Z → stage) : Z → stage := λ j, if decide (j = base) then f j else Resolving.

(** One step; a fault is a dangling pointer. *)
Definition next (x : actor) (a : state) : option (result state) :=
  match x with
  | ClientEvent ev =>
      if bool_decide (ev_id ev ∈ ids) && negb (client_gone (st a base))
      then Ok <$> next_client_event ev a else None
  | ServerEvent ev => if bool_decide (ev_id ev ∈ ids) then Ok <$> next_server_event ev a else None
  | ToClient =>
      match ph a with
      | MrFlight => Some (Ok (State MrIn (st a) (comm_done a) (c_send a) true))
      | DoneFlight => Some (Ok (State DoneIn (st a) (comm_done a) (c_send a) true))
      | _ => None
      end
  | ToServer =>
      match ph a with
      | ReadyFlight => Some (Ok (State ReadyIn (st a) (comm_done a) true (s_send a)))
      | _ => None
      end
  | ClientCompletion =>
      if c_send a then Some (Ok (set_sends false (s_send a) a))
      else match ph a with
           | MrIn => Some (Ok (set_ph Waiting (set_st (open_others (st a)) a)))
           | DoneIn => Some (Ok (set_ph JoiningApp a))
           | _ => None
           end
  | ServerCompletion =>
      if s_send a then
        Some (if server_gone (st a base) then Fault OutOfBounds
              else Ok (set_sends (c_send a) false a))
      else match ph a with
           | ReadyIn => Some (Ok (set_ph DoneFlight a))
           | _ => None
           end
  | ClientPoller =>
      match ph a with
      | Waiting => if forallb (λ id, client_up (st a id)) ids then Some (Ok (set_ph Kernel a)) else None
      | JoiningApp => Some (Ok (set_ph JoiningComm a))
      | JoiningComm =>
          if comm_done a
          then Some (Ok (set_ph Closing (set_st (upd base (Down true true) (st a)) a))) else None
      | Closing =>
          Some (if client_gone (st a base) then Fault OutOfBounds else Ok (set_ph Closed a))
      | _ => None
      end
  | KernelReturns => match ph a with Kernel => Some (Ok (set_ph ReadyFlight a)) | _ => None end
  | CommReturns =>
      match ph a with
      | ReadyFlight | ReadyIn | DoneFlight | DoneIn | JoiningApp | JoiningComm =>
          if comm_done a then None else Some (Ok (State (ph a) (st a) true (c_send a) (s_send a)))
      | _ => None
      end
  end.

(** A schedule, as long as it goes. *)
Fixpoint play (tr : list actor) (a : state) : option state :=
  match tr with
  | [] => Some a
  | x :: tr => match next x a with Some (Ok a) => play tr a | _ => None end
  end.

Definition start : state :=
  State Opening (λ j, if decide (j = base) then Resolving else Fresh) false false false.

(** ** Invariant *)
Definition base_ok (p : phase) (s : stage) : Prop :=
  match p with
  | Opening => match s with Resolving | Routing | Requesting | Up _ true => True | _ => False end
  | MrFlight | MrIn | Waiting => match s with Up _ false => True | _ => False end
  | Closing | Closed => match s with Down _ _ => True | _ => False end
  | _ => s = Up false false
  end.

Definition other_ok (p : phase) (s : stage) : Prop :=
  match p with
  | Opening | MrFlight | MrIn => s = Fresh
  | Waiting => match s with Fresh | Down _ _ => False | _ => True end
  | _ => match s with Up false _ => True | _ => False end
  end.

Definition flags_ok (p : phase) (comm c s : bool) : Prop :=
  match p with
  | Opening | MrFlight => comm = false ∧ c = false ∧ s = false
  | MrIn | Waiting | Kernel => comm = false ∧ c = false
  | ReadyFlight => c = false
  | ReadyIn => True
  | DoneFlight => s = false
  | DoneIn => True
  | JoiningApp | JoiningComm => c = false
  | Closing | Closed => comm = true ∧ c = false
  end.

Record wf (a : state) : Prop := {
  wf_base : base_ok (ph a) (st a base);
  wf_others : Forall (λ id, other_ok (ph a) (st a id)) cm_ids;
  wf_flags : flags_ok (ph a) (comm_done a) (c_send a) (s_send a);
}.

Context (Hnodup : NoDup ids).

Lemma base_not_other id : id ∈ cm_ids → id ≠ base.
Proof. intros Hid ->. apply NoDup_cons in Hnodup as [Hb _]. done. Qed.

Lemma upd_eq id s f : upd id s f id = s.
Proof. unfold upd. by rewrite decide_True. Qed.
Lemma upd_ne id s f j : j ≠ id → upd id s f j = f j.
Proof. intros. unfold upd. by rewrite decide_False. Qed.

Lemma start_wf : wf start.
Proof.
  split; simpl; [by rewrite decide_True| |done].
  apply Forall_forall. intros id Hid. by rewrite decide_False by by apply base_not_other.
Qed.

Lemma wf_other a id : wf a → id ∈ cm_ids → other_ok (ph a) (st a id).
Proof. intros [_ Ho _] Hid. by eapply Forall_forall in Ho. Qed.

(** A move of one connection, possibly with a change of phase that the other
    connections do not notice. *)
Lemma wf_upd a id s p :
  wf a → id ∈ ids →
  (id = base → base_ok p s) → (id ≠ base → base_ok p (st a base) ∧ other_ok p s) →
  (∀ x, other_ok (ph a) x → other_ok p x) →
  flags_ok p (comm_done a) (c_send a) (s_send a) →
  wf (set_ph p (set_st (upd id s (st a)) a)).
Proof.
  intros Hwf Hid Hb Ho Hp Hf. split; simpl; [| |done].
  - destruct (decide (base = id)) as [<-|Hne]; [rewrite upd_eq; auto|].
    rewrite upd_ne by done. by apply Ho.
  - apply Forall_forall. intros j Hj. destruct (decide (j = id)) as [->|Hne].
    + rewrite upd_eq. apply Ho. by apply base_not_other.
    + rewrite upd_ne by done. by apply Hp, wf_other.
Qed.

Lemma stage_ok a id : wf a → id ∈ ids →
  (id = base ∧ base_ok (ph a) (st a id)) ∨ (id ≠ base ∧ other_ok (ph a) (st a id)).
Proof.
  intros Hwf [->|Hid]%elem_of_cons; [left; split; [done|apply Hwf]|].
  right. split; [by apply base_not_other|by apply wf_other].
Qed.

Lemma next_client_event_wf ev a a' :
  wf a → ev_id ev ∈ ids → next_client_event ev a = Some a' → wf a'.
Proof.
  intros Hwf Hid. unfold next_client_event.
  pose proof (stage_ok a (ev_id ev) Hwf Hid) as Hst. destruct (st a (ev_id ev)) eqn:E;
    destruct (event ev); try done; try (destruct c; [|done]); intros [= <-];
    (apply (wf_upd a (ev_id ev)); [done|done| | |done|apply Hwf]);
    destruct Hst as [[Heq Hst]|[Hne Hst]]; intros ?; try done; try (split; [apply Hwf|]);
    destruct (ph a); simpl in *; try done; by destruct s.
Qed.

Lemma next_server_event_wf ev a a' :
  wf a → ev_id ev ∈ ids → next_server_event ev a = Some a' → wf a'.
Proof.
  intros Hwf Hid. unfold next_server_event.
  pose proof (stage_ok a (ev_id ev) Hwf Hid) as Hst. pose proof (wf_flags a Hwf) as Hf.
  pose proof (wf_base a Hwf) as Hb.
  destruct (st a (ev_id ev)) eqn:E; destruct (event ev); try done; try (destruct s; [|done]);
    intros [= <-].
  - apply (wf_upd a (ev_id ev)); [done|done| | |done|apply Hwf];
      destruct Hst as [[Heq Hst]|[Hne Hst]]; intros ?; try done; try (split; [done|]);
      destruct (ph a); simpl in *; done.
  - apply (wf_upd a (ev_id ev)); [done|done| | | |]; destruct (ph a); simpl in *; try done;
      destruct Hst as [[Heq Hst]|[Hne Hst]]; try done; intros; try done; try (by destruct c);
      by split.
  - apply (wf_upd a (ev_id ev)); [done|done| | |done|apply Hwf];
      destruct Hst as [[Heq Hst]|[Hne Hst]]; intros ?; try done; try (split; [done|]);
      destruct (ph a); simpl in *; done.
Qed.

(** Changing the phase while every connection stays as it is. *)
Lemma wf_phase a p comm c s :
  wf a → base_ok p (st a base) → (∀ x, other_ok (ph a) x → other_ok p x) →
  flags_ok p comm c s → wf (State p (st a) comm c s).
Proof.
  intros Hwf Hb Ho Hf. split; [done| |done]. eapply Forall_impl; [apply Hwf|]. auto.
Qed.

Lemma all_up a id : wf a → forallb (λ id, client_up (st a id)) ids = true → id ∈ ids →
  client_up (st a id) = true.
Proof.
  intros _ H Hid. rewrite forallb_forall in H. by apply H, list_elem_of_In.
Qed.

Theorem next_wf x a a' : wf a → next x a = Some (Ok a') → wf a'.
Proof.
  intros Hwf. pose proof (wf_base a Hwf) as Hb. pose proof (wf_flags a Hwf) as Hf.
  destruct x as [ev|ev| | | | | | |]; cbn [next].
  - case_bool_decide as Hid; [|done]. destruct (client_gone (st a base)); [done|]. simpl.
    destruct (next_client_event ev a) eqn:E; [|done]. intros [= <-]. by eapply next_client_event_wf.
  - case_bool_decide as Hid; [|done].
    destruct (next_server_event ev a) eqn:E; [|done]. intros [= <-]. by eapply next_server_event_wf.
  - destruct (ph a) eqn:Ep; try done; intros [= <-]; apply wf_phase; rewrite ?Ep; simpl in *; naive_solver.
  - destruct (ph a) eqn:Ep; try done; intros [= <-]; apply wf_phase; rewrite ?Ep; simpl in *; naive_solver.
  - destruct (c_send a) eqn:Ec.
    { intros [= <-]. apply wf_phase; [done..|]. destruct (ph a); simpl in *; naive_solver. }
    destruct (ph a) eqn:Ep; try done; intros [= <-].
    + split; simpl; rewrite ?Ep in *; [|apply Forall_forall; intros id Hid|naive_solver].
      * unfold open_others. by rewrite decide_True.
      * unfold open_others. by rewrite decide_False by by apply base_not_other.
    + apply wf_phase; rewrite ?Ep; simpl in *; naive_solver.
  - destruct (s_send a) eqn:Es.
    { destruct (server_gone (st a base)); [done|]. intros [= <-].
      apply wf_phase; [done..|]. destruct (ph a); simpl in *; naive_solver. }
    destruct (ph a) eqn:Ep; try done; intros [= <-].
    apply wf_phase; rewrite ?Ep; simpl in *; naive_solver.
  - destruct (ph a) eqn:Ep; try done.
    + destruct (forallb _ _) eqn:Eall; [|done]. intros [= <-]. rewrite ?Ep in *.
      assert (∀ id, id ∈ ids → client_up (st a id) = true) as Hup by (intros; by apply (all_up a)).
      split; simpl; [| |naive_solver].
      * specialize (Hup base ltac:(set_solver)). destruct (st a base) as [| | | |[] []|]; simpl in *; done.
      * apply Forall_forall. intros id Hid. pose proof (wf_other a id Hwf Hid) as Ho.
        specialize (Hup id ltac:(set_solver)). rewrite Ep in Ho. destruct (st a id) as [| | | |[] []|]; simpl in *; done.
    + intros [= <-]. apply wf_phase; rewrite ?Ep; simpl in *; naive_solver.
    + destruct (comm_done a) eqn:Ec; [|done]. intros [= <-].
      apply (wf_upd a base (Down true true) Closing); rewrite ?Ep, ?Ec; simpl in *; try done.
      apply elem_of_cons. by left.
    + destruct (client_gone (st a base)); [done|]. intros [= <-].
      apply wf_phase; rewrite ?Ep; simpl in *; naive_solver.
  - destruct (ph a) eqn:Ep; try done; intros [= <-].
    apply wf_phase; rewrite ?Ep; simpl in *; naive_solver.
  - destruct (ph a) eqn:Ep; try done; (destruct (comm_done a) eqn:Ec; [done|]); intros [= <-];
      apply wf_phase; rewrite ?Ep; simpl in *; naive_solver.
Qed.

(** ** Termination: every step uses up some of the session *)
Definition stage_work (s : stage) : Z :=
  match s with
  | Fresh => 7 | Resolving => 6 | Routing => 5 | Requesting => 4
  | Up c s => 1 + Z.b2z c + Z.b2z s
  | Down c s => Z.b2z c + Z.b2z s
  end.
Definition phase_work (p : phase) : Z :=
  match p with
  | Opening => 12 | MrFlight => 11 | MrIn => 10 | Waiting => 9 | Kernel => 8 | ReadyFlight => 7
  | ReadyIn => 6 | DoneFlight => 5 | DoneIn => 4 | JoiningApp => 3 | JoiningComm => 2
  | Closing => 1 | Closed => 0
  end.
Definition work (a : state) : Z :=
  zsum (λ id, stage_work (st a id)) ids + 3 * phase_work (ph a)
  + Z.b2z (negb (comm_done a)) + Z.b2z (c_send a) + Z.b2z (s_send a).

Lemma work_upd id s f : id ∈ ids →
  zsum (λ j, stage_work (upd id s f j)) ids
  = zsum (λ j, stage_work (f j)) ids + stage_work s - stage_work (f id).
Proof.
  intros Hid. rewrite (zsum_update (λ j, stage_work (f j)) _ ids id Hnodup Hid).
  - by rewrite upd_eq.
  - intros j _ Hj. by rewrite upd_ne.
Qed.

Lemma next_client_event_work ev a a' :
  ev_id ev ∈ ids → next_client_event ev a = Some a' → work a' < work a.
Proof.
  intros Hid. unfold next_client_event, work.
  destruct (event ev), (st a (ev_id ev)) as [| | | |c s|c s] eqn:E; try done; try (destruct c; [|done]);
    intros [= <-]; cbn [st ph comm_done c_send s_send set_st]; rewrite work_upd, E by done; simpl; lia.
Qed.

Lemma next_server_event_work ev a a' :
  ev_id ev ∈ ids → next_server_event ev a = Some a' → work a' < work a.
Proof.
  intros Hid. unfold next_server_event, work.
  destruct (event ev), (st a (ev_id ev)) as [| | | |c s|c s] eqn:E; try done; try (destruct s; [|done]);
    intros [= <-]; cbn [st ph comm_done c_send s_send set_st set_ph]; rewrite work_upd, E by done;
    destruct (ph a); simpl; lia.
Qed.

Lemma open_others_work a : wf a → ph a = MrIn →
  zsum (λ j, stage_work (open_others (st a) j)) ids ≤ zsum (λ j, stage_work (st a j)) ids.
Proof.
  intros Hwf Ep. apply zsum_le. intros j Hj. unfold open_others. case_decide as Hb; [done|].
  destruct (stage_ok a j Hwf Hj) as [[? _]|[_ Ho]]; [done|]. rewrite Ep in Ho. simpl in Ho.
  rewrite Ho. simpl. lia.
Qed.

Theorem next_work x a a' : wf a → next x a = Some (Ok a') → work a' < work a.
Proof.
  intros Hwf. destruct x as [ev|ev| | | | | | |]; cbn [next].
  - case_bool_decide as Hid; [|done]. destruct (client_gone (st a base)); [done|].
    cbn [andb negb]. destruct (next_client_event ev a) eqn:E; [|done]. intros [= <-].
    by eapply next_client_event_work.
  - case_bool_decide as Hid; [|done].
    destruct (next_server_event ev a) eqn:E; [|done]. intros [= <-]. by eapply next_server_event_work.
  - unfold work. destruct (ph a), (s_send a); try done; intros [= <-]; simpl; lia.
  - unfold work. destruct (ph a), (c_send a); try done; intros [= <-]; simpl; lia.
  - destruct (c_send a) eqn:Ec; [intros [= <-]; unfold work; rewrite Ec; simpl; lia|].
    destruct (ph a) eqn:Ep; try done; intros [= <-]; unfold work; cbn [st ph comm_done c_send s_send set_ph set_st];
      rewrite Ep, Ec; simpl phase_work; [|lia].
    pose proof (open_others_work a Hwf Ep). lia.
  - destruct (s_send a) eqn:Ec.
    { destruct (server_gone _); [done|]. intros [= <-]; unfold work; rewrite Ec; simpl; lia. }
    unfold work. destruct (ph a); try done; intros [= <-]; simpl; lia.
  - unfold work. destruct (ph a) eqn:Ep; try done.
    + destruct (forallb _ _); [|done]. intros [= <-]. simpl; lia.
    + intros [= <-]. simpl; lia.
    + destruct (comm_done a) eqn:Ec; [|done]. intros [= <-].
      cbn [st ph comm_done c_send s_send set_ph set_st].
      rewrite work_upd by (apply elem_of_cons; by left).
      pose proof (wf_base a Hwf) as Hb. rewrite Ep in Hb. simpl in Hb. rewrite Hb, Ec. simpl; lia.
    + destruct (client_gone _); [done|]. intros [= <-]. simpl; lia.
  - unfold work. destruct (ph a); try done; intros [= <-]; simpl; lia.
  - unfold work. destruct (ph a), (comm_done a) eqn:Ec; try done; intros [= <-]; simpl; lia.
Qed.

Lemma work_nonneg a : 0 ≤ work a.
Proof.
  unfold work. assert (0 ≤ zsum (λ id, stage_work (st a id)) ids).
  { apply zsum_nonneg. intros j _. destruct (st a j) as [| | | |[] []|[] []]; simpl; lia. }
  destruct (ph a), (comm_done a), (c_send a), (s_send a); cbn [phase_work Z.b2z negb]; lia.
Qed.

Lemma start_work : work start = 43 + 7 * zlen cm_ids.
Proof.
  unfold work, start, ids. cbn [st ph comm_done c_send s_send]. rewrite zsum_cons.
  rewrite decide_True by done.
  rewrite (zsum_ext _ (λ _, 7) cm_ids).
  2:{ intros j Hj. by rewrite decide_False by by apply base_not_other. }
  replace (zsum (λ _ : Z, 7) cm_ids) with (7 * zlen cm_ids); [simpl; lia|].
  unfold zlen. clear. induction cm_ids as [|? l IH]; [done|]. simpl length. rewrite zsum_cons. lia.
Qed.

(** ** Progress: only a finished session stands still *)
Record finished (a : state) : Prop := {
  fin_phase : ph a = Closed;
  fin_base : st a base = Down false false;
  fin_others : Forall (λ id, st a id = Up false false) cm_ids;
  fin_threads : comm_done a = true;
  fin_sends : c_send a = false ∧ s_send a = false;
}.

(** A connection that somebody has yet to hear of can move. *)
Definition settled (s : stage) : bool :=
  match s with Fresh | Up false false | Down false false => true | _ => false end.

Lemma unsettled_moves a id :
  id ∈ ids → settled (st a id) = false → client_gone (st a base) = false →
  ∃ x, is_Some (next x a).
Proof.
  intros Hid Hs Hg.
  assert (Hc : ∀ t, is_Some (next_client_event (CmEvent t id) a) → ∃ x, is_Some (next x a)).
  { intros t [a' Ha]. exists (ClientEvent (CmEvent t id)). cbn [next ev_id].
    rewrite bool_decide_true, Hg, Ha by done. by eexists. }
  assert (Hv : ∀ t, is_Some (next_server_event (CmEvent t id) a) → ∃ x, is_Some (next x a)).
  { intros t [a' Ha]. exists (ServerEvent (CmEvent t id)). cbn [next ev_id].
    rewrite bool_decide_true, Ha by done. by eexists. }
  destruct (st a id) as [| | | |[] []|[] []] eqn:E; try done.
  - apply (Hc RDMA_CM_EVENT_ADDR_RESOLVED). unfold next_client_event. simpl. rewrite E. by eexists.
  - apply (Hc RDMA_CM_EVENT_ROUTE_RESOLVED). unfold next_client_event. simpl. rewrite E. by eexists.
  - apply (Hv RDMA_CM_EVENT_CONNECT_REQUEST). unfold next_server_event. simpl. rewrite E. by eexists.
  - apply (Hc RDMA_CM_EVENT_ESTABLISHED). unfold next_client_event. simpl. rewrite E. by eexists.
  - apply (Hc RDMA_CM_EVENT_ESTABLISHED). unfold next_client_event. simpl. rewrite E. by eexists.
  - apply (Hv RDMA_CM_EVENT_ESTABLISHED). unfold next_server_event. simpl. rewrite E. by eexists.
  - apply (Hc RDMA_CM_EVENT_DISCONNECTED). unfold next_client_event. simpl. rewrite E. by eexists.
  - apply (Hc RDMA_CM_EVENT_DISCONNECTED). unfold next_client_event. simpl. rewrite E. by eexists.
  - apply (Hv RDMA_CM_EVENT_DISCONNECTED). unfold next_server_event. simpl. rewrite E. by eexists.
Qed.

(** After the client has left its loop the server still hears of everything. *)
Lemma server_hears a id c :
  id ∈ ids → st a id = Up c true ∨ st a id = Down c true → ∃ x, is_Some (next x a).
Proof.
  intros Hid [E|E].
  - exists (ServerEvent (CmEvent RDMA_CM_EVENT_ESTABLISHED id)). cbn [next ev_id].
    rewrite bool_decide_true by done. unfold next_server_event. simpl. rewrite E. by eexists.
  - exists (ServerEvent (CmEvent RDMA_CM_EVENT_DISCONNECTED id)). cbn [next ev_id].
    rewrite bool_decide_true by done. unfold next_server_event. simpl. rewrite E. by eexists.
Qed.

Theorem progress a : wf a → (∀ x, next x a = None) → finished a.
Proof.
  intros Hwf Hstuck. pose proof (wf_base a Hwf) as Hb. pose proof (wf_flags a Hwf) as Hf.
  assert (Hno : ∀ x, ¬ is_Some (next x a)) by (intros x; rewrite Hstuck; by intros [? ?]).
  assert (Hset : client_gone (st a base) = false → ∀ id, id ∈ ids → settled (st a id) = true).
  { intros Hg id Hid. destruct (settled (st a id)) eqn:E; [done|].
    destruct (unsettled_moves a id Hid E Hg) as [x Hx]. by destruct (Hno x). }
  assert (Hbase : base ∈ ids) by (apply elem_of_cons; by left).
  pose proof (Hno ToClient) as N1. pose proof (Hno ToServer) as N2.
  pose proof (Hno ClientCompletion) as N3. pose proof (Hno ServerCompletion) as N4.
  pose proof (Hno ClientPoller) as N5. pose proof (Hno KernelReturns) as N6.
  pose proof (Hno CommReturns) as N7. cbn [next] in *.
  assert (Hcs : c_send a = false ∧ s_send a = false).
  { destruct (c_send a), (s_send a); try done; destruct N3; eauto; destruct N4; eauto. }
  destruct Hcs as [Hc Hs]. rewrite Hc in N3. rewrite Hs in N4.
  destruct (ph a) eqn:Ep; simpl in Hb;
    try (destruct N1; by eexists); try (destruct N2; by eexists); try (destruct N3; by eexists);
    try (destruct N4; by eexists); try (destruct N6; by eexists); try (destruct N5; by eexists).
  - specialize (Hset ltac:(by destruct (st a base)) base Hbase). by destruct (st a base) as [| | | |[] []|].
  - destruct N5. assert (Hg : client_gone (st a base) = false) by by destruct (st a base).
    rewrite (proj2 (forallb_forall _ _)); [by eexists|]. intros id Hid%list_elem_of_In.
    specialize (Hset Hg id Hid). clear Hb Hf.
    destruct (stage_ok a id Hwf Hid) as [[_ Hst]|[_ Hst]];
      rewrite Ep in Hst; simpl in Hst; by destruct (st a id) as [| | | |[] []|].
  - destruct (comm_done a); [destruct N5|destruct N7]; by eexists.
  - destruct (st a base) as [| | | | |c s] eqn:E; try done. split; [done| | |apply Hf|done].
    + destruct c; [by specialize (Hset eq_refl base Hbase); rewrite E in Hset|].
      destruct s; [|done]. destruct (server_hears a base false Hbase) as [x Hx]; [by right|].
      by destruct (Hno x).
    + apply Forall_forall. intros id Hid. pose proof (wf_other a id Hwf Hid) as Ho.
      rewrite Ep in Ho. simpl in Ho. assert (Hid' : id ∈ ids) by (apply elem_of_cons; by right).
      destruct (st a id) as [| | | |[] [] |] eqn:E'; try done.
      destruct (server_hears a id false Hid') as [x Hx]; [by left|]. by destruct (Hno x).
Qed.
End protocol.
