(* ===== verification/Refinement.v ===== *)
(** * Refinement: the handlers implement the protocol

    [world_of] is the world of a state of [Protocol]; [session_step] shows
    that a step of the handlers is a step of the protocol, and conversely, when
    the calls of the libraries succeed. *)

From stdpp Require Import gmultiset.
From S2P Require Import Prelude Platform MmapUtil VertexTable ServerFile Options.
From S2P Require Import Rdma AbstractServer ConnectionUtils Numa ClientRuntime FamServer Session.
From S2P Require Import Protocol.

(** What the connection manager documents: which events a call leads to. *)
Definition quiet (c : call) : Prop :=
  match c with
  | ResolveAddr _ | ResolveRoute _ | Connect _ _ | Accept _ _ | Disconnect _ => False
  | _ => True
  end.

Class NetworkLaws `{NW : Network} : Prop := {
  raised_quiet sd c : quiet c → raised sd c = [];
  raised_resolve_addr id :
    raised Client (ResolveAddr id) = [(Client, CmEvent RDMA_CM_EVENT_ADDR_RESOLVED id)];
  raised_resolve_route id :
    raised Client (ResolveRoute id) = [(Client, CmEvent RDMA_CM_EVENT_ROUTE_RESOLVED id)];
  raised_connect id p :
    raised Client (Connect id p) = [(Server, CmEvent RDMA_CM_EVENT_CONNECT_REQUEST id)];
  raised_accept id p :
    raised Server (Accept id p) = [(Client, CmEvent RDMA_CM_EVENT_ESTABLISHED id);
                                   (Server, CmEvent RDMA_CM_EVENT_ESTABLISHED id)];
  raised_disconnect id :
    raised Client (Disconnect id) = [(Client, CmEvent RDMA_CM_EVENT_DISCONNECTED id);
                                     (Server, CmEvent RDMA_CM_EVENT_DISCONNECTED id)];
}.

(** The calls succeed, and all connections use one device. *)
Record calls_succeed `{VB : Verbs} (vb : Z) (tx rx : Z * message) : Prop := {
  cs_ret c : ret c = 0;
  cs_device id : id_verbs id = vb;
  cs_pd : ibv_alloc_pd vb ≠ 0;
  cs_chan : ibv_create_comp_channel vb ≠ 0;
  cs_cq : ibv_create_cq vb (ibv_create_comp_channel vb) ≠ 0;
  cs_tx : posix_memalign true = Some tx;
  cs_rx : posix_memalign false = Some rx;
  cs_reg a : reg_message (ibv_alloc_pd vb) a ≠ 0;
  cs_channel : event_channel ≠ 0;
}.

(** The events a connection has raised and nobody has handled. *)
Definition stage_events (id : Z) (s : stage) : list (side * rdma_cm_event) :=
  match s with
  | Fresh => []
  | Resolving => [(Client, CmEvent RDMA_CM_EVENT_ADDR_RESOLVED id)]
  | Routing => [(Client, CmEvent RDMA_CM_EVENT_ROUTE_RESOLVED id)]
  | Requesting => [(Server, CmEvent RDMA_CM_EVENT_CONNECT_REQUEST id)]
  | Up c s =>
      (if c then [(Client, CmEvent RDMA_CM_EVENT_ESTABLISHED id)] else [])
      ++ (if s then [(Server, CmEvent RDMA_CM_EVENT_ESTABLISHED id)] else [])
  | Down c s =>
      (if c then [(Client, CmEvent RDMA_CM_EVENT_DISCONNECTED id)] else [])
      ++ (if s then [(Server, CmEvent RDMA_CM_EVENT_DISCONNECTED id)] else [])
  end.

Section refinement.
  Context {BO : Boost} {OS : Os} {FM : FileMapping} {VB : Verbs} {NU : Numa} {NW : Network}.
  Context (vm : variables_map) (index_file adj_file : fs_node) (cm_ids : list Z) (server_fuel : nat).
  Context (hp : bool) (flag : Z) (vb : Z) (tx rx : Z * message).
  Context (ptr : RDMA_region) (mr : ibv_mr) (edges nv : Z) (caches : cache_pointers) (kern : kernel).

Notation base := base_id.
Notation ids := (ids base cm_ids).

Definition pool_of (f : Z → stage) : events :=
  list_to_set_disj (ids ≫= λ id, stage_events id (f id)).

(** ** The world of a state of the protocol *)
Definition pd : Z := ibv_alloc_pd vb.
Definition ib_of (n : Z) : fam_ib_context :=
  IbContext vb pd (ibv_create_cq vb (ibv_create_comp_channel vb)) (ibv_create_comp_channel vb) (u64 n).
Definition buf (p : Z * message) (m : message) : msg_buffer := MsgBuffer p.1 (reg_message pd p.1) m.

Definition mr_msg : message := Message MSG_MR (mr_addr mr) (mr_rkey mr) edges.
Definition done_msg : message := set_msg_id MSG_DONE mr_msg.
Definition ready_msg : message := set_msg_id MSG_READY tx.2.

Definition recv_wr : msg_wr := MsgWr base false rx.1 sizeof_message (reg_message pd rx.1).
Definition send_wr : msg_wr := MsgWr base true tx.1 sizeof_message (reg_message pd tx.1).
Definition recv_wc : ibv_wc := Wc base IBV_WC_RECV IBV_WC_SUCCESS.
Definition send_wc : ibv_wc := Wc base IBV_WC_SEND IBV_WC_SUCCESS.

Definition client_began (s : stage) : bool :=
  match s with Fresh | Resolving => false | _ => true end.
Definition server_began (s : stage) : bool :=
  match s with Up _ _ | Down _ _ => true | _ => false end.

Definition client_count (f : Z → stage) : Z := zcount (λ id, client_up (f id)) ids.
Definition server_count (f : Z → stage) : Z := zcount (λ id, server_up (f id)) ids.

Definition ready_sent (p : phase) : bool :=
  match p with Opening | MrFlight | MrIn | Waiting | Kernel => false | _ => true end.

Definition client_tx (p : phase) : message := if ready_sent p then ready_msg else tx.2.
Definition client_rx (p : phase) : message :=
  match p with
  | Opening | MrFlight => rx.2
  | DoneIn | JoiningApp | JoiningComm | Closing | Closed => done_msg
  | _ => mr_msg
  end.
Definition app_of (p : phase) : option application :=
  match p with
  | Opening | MrFlight | MrIn => None
  | _ => Some (Application nv edges (ready_sent p))
  end.
Definition app_thread_of (p : phase) : thread :=
  match p with
  | Opening | MrFlight | MrIn | Waiting => NotStarted
  | Kernel => Running
  | JoiningComm | Closing | Closed => Joined
  | _ => Returned
  end.
Definition comm_threads_of (p : phase) (comm : bool) : list thread :=
  match p with
  | Opening | MrFlight | MrIn | Waiting => []
  | Closing | Closed => [Joined]
  | _ => [if comm then Returned else Running]
  end.
Definition told {A} (p : phase) (x y : A) : A :=
  match p with Opening | MrFlight | MrIn => x | _ => y end.
Definition started {A} (p : phase) (x y : A) : A :=
  match p with Opening | MrFlight | MrIn | Waiting => x | _ => y end.

Definition client_user_of (a : state) : client_user :=
  let p := ph a in
  let have := client_began (st a base) && negb (client_gone (st a base)) in
  ClientUser
    (if have then Some (buf tx (client_tx p)) else None)
    (if have then Some (buf rx (client_rx p)) else None)
    (told p 0 pd) (told p 0 (mr_addr mr)) (told p 0 (mr_rkey mr)) (told p 0 edges) (app_of p)
    (started p Unset caches) (started p None (Some kern))
    (app_thread_of p) (comm_threads_of p (comm_done a)).

Definition client_loop_of (a : state) : loop_state client_user :=
  Loop (client_began (st a base)) false (bool_decide (0 < client_count (st a))) false
    (if client_began (st a base) then Some (ib_of (client_count (st a))) else None)
    (client_user_of a).

Definition client_recvs (a : state) : list msg_wr :=
  match ph a with
  | Opening => if client_began (st a base) then [recv_wr] else []
  | MrFlight | Waiting | Kernel | ReadyFlight | ReadyIn | DoneFlight => [recv_wr]
  | _ => []
  end.
Definition client_cq (a : state) : list ibv_wc :=
  (if c_send a then [send_wc] else [])
  ++ match ph a with MrIn | DoneIn => [recv_wc] | _ => [] end.

Definition client_of (a : state) : endpoint client_user :=
  Endpoint (client_loop_of a) (negb (client_gone (st a base))) (client_recvs a)
    (match ph a with ReadyFlight => [send_wr] | _ => [] end) (client_cq a)
    (if client_gone (st a base) then [base] else []).

Definition poller_of (p : phase) : client_poller :=
  match p with
  | Waiting => AwaitConnections base
  | JoiningApp => JoinApp base
  | JoiningComm => JoinComm base
  | Closing => Summarise
  | _ => Idle
  end.

Definition server_tx (p : phase) : message :=
  match p with
  | Opening => tx.2
  | MrFlight | MrIn | Waiting | Kernel | ReadyFlight | ReadyIn => mr_msg
  | _ => done_msg
  end.
Definition server_rx (p : phase) : message :=
  match p with
  | Opening | MrFlight | MrIn | Waiting | Kernel | ReadyFlight => rx.2
  | _ => ready_msg
  end.

Definition server_user_of (a : state) : server_context :=
  let have := server_began (st a base) && negb (server_gone (st a base)) in
  ServerContext adj_file (match ph a with Opening => [] | _ => [ptr] end)
    (if have then Some (buf tx (server_tx (ph a))) else None)
    (if have then Some (buf rx (server_rx (ph a))) else None) hp flag.

Definition server_loop_of (a : state) : loop_state server_context :=
  Loop false (server_began (st a base)) (match ph a with Opening => false | _ => true end)
    (server_gone (st a base))
    (if server_began (st a base) then Some (ib_of (server_count (st a))) else None)
    (server_user_of a).

Definition server_recvs (a : state) : list msg_wr :=
  match ph a with
  | Opening => if server_began (st a base) then [recv_wr] else []
  | ReadyIn => []
  | _ => [recv_wr]
  end.

Definition server_of (a : state) : endpoint server_context :=
  Endpoint (server_loop_of a) true (server_recvs a)
    (match ph a with MrFlight | DoneFlight => [send_wr] | _ => [] end)
    ((if s_send a then [send_wc] else []) ++ match ph a with ReadyIn => [recv_wc] | _ => [] end)
    (if server_gone (st a base) then [base] else []).

Definition world_of (a : state) : world :=
  World (client_of a) (poller_of (ph a)) (server_of a) (pool_of (st a)).

Context (Hnodup : NoDup ids) (Hids : zlen cm_ids + 1 < 2 ^ 64).
Context (HV : calls_succeed vb tx rx) (HN : NetworkLaws).
Context (Hnv : get_num_verts index_file = Ok nv) (Hcache : choose_cache vm = Ok caches).
Context (Hkern : choose_kernel vm = Ok kern).
Context (Hedges : get_edge_list server_fuel adj_file hp flag = Ok (ptr, mr, edges)).

(** ** The pool of events *)
Lemma pool_split f id : id ∈ ids →
  ∃ rest, pool_of f = list_to_set_disj (stage_events id (f id)) ⊎ rest
    ∧ ∀ s, pool_of (upd id s f) = list_to_set_disj (stage_events id s) ⊎ rest.
Proof.
  intros Hid. destruct (list_elem_of_split _ _ Hid) as (l1 & l2 & E).
  exists (list_to_set_disj ((l1 ≫= λ j, stage_events j (f j)) ++ (l2 ≫= λ j, stage_events j (f j)))).
  assert (Hne : ∀ j, j ∈ l1 ∨ j ∈ l2 → j ≠ id).
  { rewrite E in Hnodup. apply NoDup_app in Hnodup as (_ & Hd & H2).
    apply NoDup_cons in H2 as [H2 _]. intros j [Hj|Hj] ->; [|done].
    apply (Hd id Hj). apply elem_of_cons. by left. }
  assert (Hext : ∀ s l, (∀ j, j ∈ l → j ≠ id) →
    (l ≫= λ j, stage_events j (upd id s f j)) = (l ≫= λ j, stage_events j (f j))).
  { intros s l Hl. induction l as [|j l IH]; [done|]. rewrite !bind_cons, IH by set_solver.
    by rewrite upd_ne by (apply Hl; set_solver). }
  unfold pool_of. rewrite E. split; [|intros s]; rewrite bind_app, bind_cons, ?list_to_set_disj_app.
  - multiset_solver.
  - rewrite upd_eq, !Hext by (intros; apply Hne; auto). multiset_solver.
Qed.

Lemma elem_of_pool sd ev f :
  (sd, ev) ∈ pool_of f ↔ ev_id ev ∈ ids ∧ (sd, ev) ∈ stage_events (ev_id ev) (f (ev_id ev)).
Proof.
  unfold pool_of. rewrite elem_of_list_to_set_disj, list_elem_of_bind. split.
  - intros (j & Hin & Hj). assert (ev_id ev = j) as ->; [|done].
    destruct (f j) as [| | | |[] []|[] []]; set_solver.
  - intros [Hid Hin]. by exists (ev_id ev).
Qed.

(** One event is handled and the calls raise [new] ones. *)
Lemma pool_move f id s x new rest :
  id ∈ ids → stage_events id (f id) ≡ₚ x :: rest → stage_events id s ≡ₚ rest ++ new →
  (pool_of f ∖ {[+ x +]}) ⊎ list_to_set_disj new = pool_of (upd id s f).
Proof.
  intros Hid H1 H2. destruct (pool_split f id Hid) as (r & -> & ->).
  rewrite (list_to_set_disj_perm _ _ H1), (list_to_set_disj_perm _ _ H2), list_to_set_disj_app.
  simpl. multiset_solver.
Qed.

(** What a side has yet to hear of a connection. *)
Definition hears (sd : side) (t : rdma_cm_event_type) (s : stage) : bool :=
  match sd, t, s with
  | Client, RDMA_CM_EVENT_ADDR_RESOLVED, Resolving => true
  | Client, RDMA_CM_EVENT_ROUTE_RESOLVED, Routing => true
  | Server, RDMA_CM_EVENT_CONNECT_REQUEST, Requesting => true
  | Client, RDMA_CM_EVENT_ESTABLISHED, Up c _ => c
  | Server, RDMA_CM_EVENT_ESTABLISHED, Up _ s => s
  | Client, RDMA_CM_EVENT_DISCONNECTED, Down c _ => c
  | Server, RDMA_CM_EVENT_DISCONNECTED, Down _ s => s
  | _, _, _ => false
  end.

Lemma elem_of_stage_events sd t id s :
  (sd, CmEvent t id) ∈ stage_events id s ↔ hears sd t s = true.
Proof.
  destruct s as [| | | |[] []|[] []], sd, t; cbn [stage_events app hears];
    rewrite ?elem_of_cons, ?elem_of_nil; split; intros H; try done;
    repeat destruct H as [H|H]; try done; auto.
Qed.

Lemma pool_hears sd t id f : id ∈ ids →
  bool_decide ((sd, CmEvent t id) ∈ pool_of f) = hears sd t (f id).
Proof.
  intros Hid. apply Bool.eq_iff_eq_true. rewrite bool_decide_eq_true, elem_of_pool.
  cbn [ev_id]. rewrite elem_of_stage_events. naive_solver.
Qed.

(** ** Counting connections *)
Lemma count_upd g f id s : id ∈ ids →
  zcount (λ j, g (upd id s f j)) ids = zcount (λ j, g (f j)) ids + Z.b2z (g s) - Z.b2z (g (f id)).
Proof.
  intros Hid. unfold zcount.
  rewrite (zsum_update (λ j, Z.b2z (g (f j))) _ ids id Hnodup Hid).
  - by rewrite upd_eq.
  - intros j _ Hj. by rewrite upd_ne.
Qed.

Lemma upd_proj {A} (g : stage → A) id s f j : g s = g (f id) → g (upd id s f j) = g (f j).
Proof. intros E. unfold upd. case_decide as Hj; [|done]. by rewrite E, Hj. Qed.

Lemma ids_length : zlen ids < 2 ^ 64.
Proof. unfold Protocol.ids, zlen in *. simpl length. lia. Qed.

Lemma client_count_range f : 0 ≤ client_count f < 2 ^ 64.
Proof.
  pose proof (zcount_bounds (λ id, client_up (f id)) ids). pose proof ids_length.
  unfold client_count. lia.
Qed.
Lemma server_count_range f : 0 ≤ server_count f < 2 ^ 64.
Proof.
  pose proof (zcount_bounds (λ id, server_up (f id)) ids). pose proof ids_length.
  unfold server_count. lia.
Qed.

(** ** A connection that moves unseen by one side leaves that side as it is *)
Lemma server_unseen a id s :
  id ∈ ids → server_up s = server_up (st a id) → server_began s = server_began (st a id) →
  server_gone s = server_gone (st a id) →
  server_of (set_st (upd id s (st a)) a) = server_of a.
Proof.
  intros Hid Hu Hb Hg. unfold server_of, server_loop_of, server_user_of, server_recvs, server_count.
  cbn [st ph comm_done c_send s_send set_st].
  rewrite (count_upd server_up), Hu, (upd_proj server_began), (upd_proj server_gone) by done.
  by replace (zcount (λ j, server_up (st a j)) ids + Z.b2z (server_up (st a id))
    - Z.b2z (server_up (st a id))) with (zcount (λ j, server_up (st a j)) ids) by lia.
Qed.

Lemma client_unseen a id s :
  id ∈ ids → client_up s = client_up (st a id) → client_began s = client_began (st a id) →
  client_gone s = client_gone (st a id) →
  client_of (set_st (upd id s (st a)) a) = client_of a.
Proof.
  intros Hid Hu Hb Hg. unfold client_of, client_loop_of, client_user_of, client_recvs, client_cq, client_count.
  cbn [st ph comm_done c_send s_send set_st].
  rewrite (count_upd client_up), Hu, (upd_proj client_began), (upd_proj client_gone) by done.
  by replace (zcount (λ j, client_up (st a j)) ids + Z.b2z (client_up (st a id))
    - Z.b2z (client_up (st a id))) with (zcount (λ j, client_up (st a j)) ids) by lia.
Qed.

(** ** Calls without an effect on the session *)
Definition inert (c : call) : Prop :=
  match c with PostRecv _ _ | PostSend _ _ | DestroyId _ => False | _ => quiet c end.

Lemma effect_inert {S} (e : endpoint S) c : inert c → effect e c = e.
Proof. by destruct c. Qed.
Lemma inert_quiet c : inert c → quiet c.
Proof. by destruct c. Qed.

Lemma effects_inert {S} (e : endpoint S) cs : Forall inert cs → foldl effect e cs = e.
Proof. induction 1 as [|c cs Hc _ IH]; [done|]. simpl. by rewrite effect_inert. Qed.
Lemma raised_inert sd cs : Forall inert cs → (cs ≫= raised sd) = [].
Proof.
  induction 1 as [|c cs Hc _ IH]; [done|]. rewrite bind_cons, IH.
  by rewrite raised_quiet by by apply inert_quiet.
Qed.

Lemma issued c : issue c = Ok ((), [c]).
Proof. apply issue_ok, (cs_ret _ _ _ HV). Qed.

(** The context is made with the first connection and found by the others. *)
Lemma build_ok n id b began : (began = false → n = 0) →
  ∃ calls, ConnectionUtils.build_connection id b (if began then Some (ib_of n) else None)
           = Ok (ib_of n, calls) ∧ Forall inert calls.
Proof.
  intros Hn. unfold ConnectionUtils.build_connection, ConnectionUtils.build_context, TEST_Z.
  rewrite (cs_device _ _ _ HV). destruct began.
  - rewrite bool_decide_false by (intros H; by apply H). rewrite io_bind_ret, issued.
    eexists; split; [done|]. cbn [app]. by repeat constructor.
  - rewrite Hn by done. rewrite !bool_decide_false by apply HV. cbn [io_lift].
    rewrite !io_bind_ret, !issued. cbn [io_bind io_ret]. rewrite issued. eexists; split; [done|]. cbn [app]. by repeat constructor.
Qed.

Lemma server_build_ok n id b began : (began = false → n = 0) →
  ∃ calls, AbstractServer.build_connection id b (if began then Some (ib_of n) else None)
           = Ok (ib_of n, calls) ∧ Forall inert calls.
Proof. exact (build_ok n id b began). Qed.

Lemma alloc_tx c : ib_pd c = pd → alloc_buffer (ib_pd c) true = Ok (buf tx tx.2, []).
Proof.
  intros ->. unfold alloc_buffer, TEST_Z. rewrite (cs_tx _ _ _ HV). destruct tx as [t m].
  by rewrite bool_decide_false by apply HV.
Qed.
Lemma alloc_rx c : ib_pd c = pd → alloc_buffer (ib_pd c) false = Ok (buf rx rx.2, []).
Proof.
  intros ->. unfold alloc_buffer, TEST_Z. rewrite (cs_rx _ _ _ HV). destruct rx as [t m].
  by rewrite bool_decide_false by apply HV.
Qed.

Lemma client_pre_conn n u :
  ClientRuntime.on_pre_conn base (ib_of n) u
  = Ok (set_bufs (Some (buf tx tx.2)) (Some (buf rx rx.2)) u, [PostRecv base recv_wr]).
Proof.
  unfold ClientRuntime.on_pre_conn. rewrite alloc_tx, alloc_rx by done.
  unfold ClientRuntime.post_receive. cbn [io_bind deref rx_msg set_bufs io_ret].
  by rewrite issued.
Qed.

Lemma server_pre_conn n s :
  FamServer.on_pre_conn base (ib_of n) s
  = Ok (set_messages (Some (buf tx tx.2)) (Some (buf rx rx.2)) s, [PostRecv base recv_wr]).
Proof.
  unfold FamServer.on_pre_conn. rewrite alloc_tx, alloc_rx by done.
  unfold FamServer.post_receive. cbn [io_bind deref srv_rx_msg set_messages io_ret].
  by rewrite issued.
Qed.

(** ** Events of the client *)
Definition client_handles (ev : rdma_cm_event) (a a' : state)
    (new : list (side * rdma_cm_event)) : Prop :=
  ∃ r calls, ConnectionUtils.event_step client_callbacks true ev (client_loop_of a) = Ok (r, calls)
    ∧ foldl effect (left_loop r (client_of a)) calls = client_of a'
    ∧ (calls ≫= raised Client) = new.

Lemma client_event_world ev a id s new rest :
  id ∈ ids → client_handles ev a (set_st (upd id s (st a)) a) new →
  stage_events id (st a id) ≡ₚ (Client, ev) :: rest → stage_events id s ≡ₚ rest ++ new →
  server_up s = server_up (st a id) → server_began s = server_began (st a id) →
  server_gone s = server_gone (st a id) →
  client_ran (take_event (Client, ev) (world_of a))
    (ConnectionUtils.event_step client_callbacks true ev (client_loop_of a)) left_loop
    (λ _, poller_of (ph a))
  = Ok (world_of (set_st (upd id s (st a)) a)).
Proof.
  intros Hid (r & calls & E & He & Hr) H1 H2 Hu Hb Hg. unfold client_ran. rewrite E.
  unfold world_of. cbn [client server pool take_event]. f_equal. f_equal.
  - exact He.
  - symmetry. by apply server_unseen.
  - unfold raise. rewrite Hr. by apply (pool_move _ _ _ _ _ rest).
Qed.

(** Before the base connection has its address no other connection moves. *)
Lemma began_base a id :
  wf base cm_ids a → id ∈ ids → id ≠ base → st a id ≠ Fresh → client_began (st a base) = true.
Proof.
  intros Hwf Hid Hne Hs. destruct (stage_ok _ _ Hnodup a id Hwf Hid) as [[? _]|[_ Ho]]; [done|].
  pose proof (wf_base _ _ _ Hwf) as Hb.
  destruct (ph a); simpl in *; try done; by destruct (st a base).
Qed.

Lemma count_zero_began a :
  wf base cm_ids a → client_began (st a base) = false → client_count (st a) = 0.
Proof.
  intros Hwf Hb. unfold client_count. apply zcount_zero. intros id Hid.
  destruct (decide (id = base)) as [->|Hne]; [by destruct (st a base)|].
  destruct (decide (st a id = Fresh)) as [->|Hs]; [done|].
  by rewrite (began_base a id) in Hb.
Qed.

Ltac raised_calc :=
  simpl;
  rewrite ?raised_resolve_addr, ?raised_resolve_route, ?raised_connect, ?raised_accept,
    ?raised_disconnect;
  rewrite ?raised_quiet by done; done.

Lemma ev_eta ev t : event ev = t → ev = CmEvent t (ev_id ev).
Proof. by destruct ev; simpl; intros ->. Qed.

(** A calls list [inert ++ rest]. *)
Lemma effects_app {S} (e : endpoint S) cs ds :
  Forall inert cs → foldl effect e (cs ++ ds) = foldl effect e ds.
Proof. intros Hc. by rewrite foldl_app, (effects_inert e cs) by done. Qed.
Lemma raised_app sd cs ds : Forall inert cs → ((cs ++ ds) ≫= raised sd) = (ds ≫= raised sd).
Proof. intros Hc. by rewrite bind_app, (raised_inert sd cs) by done. Qed.

Lemma client_count_upd a id s : id ∈ ids →
  client_count (upd id s (st a)) = client_count (st a) + Z.b2z (client_up s) - Z.b2z (client_up (st a id)).
Proof. intros Hid. unfold client_count. by rewrite (count_upd client_up). Qed.
Lemma server_count_upd a id s : id ∈ ids →
  server_count (upd id s (st a)) = server_count (st a) + Z.b2z (server_up s) - Z.b2z (server_up (st a id)).
Proof. intros Hid. unfold server_count. by rewrite (count_upd server_up). Qed.

Lemma base_in : base ∈ ids.
Proof. apply elem_of_cons. by left. Qed.

Lemma base_opening a :
  wf base cm_ids a → client_began (st a base) = false → ph a = Opening ∧ st a base = Resolving.
Proof.
  intros Hwf Hb. pose proof (wf_base _ _ _ Hwf) as Hp.
  destruct (ph a); simpl in Hp; destruct (st a base); done.
Qed.

Lemma client_addr_resolved a id :
  wf base cm_ids a → id ∈ ids → st a id = Resolving → client_gone (st a base) = false →
  client_handles (CmEvent RDMA_CM_EVENT_ADDR_RESOLVED id) a (set_st (upd id Routing (st a)) a)
    [(Client, CmEvent RDMA_CM_EVENT_ROUTE_RESOLVED id)].
Proof.
  intros Hwf Hid Hs Hg. unfold client_handles, ConnectionUtils.event_step.
  cbn [event ev_id client_loop_of latch0 s_ctx user latch2 latch3 latch4].
  destruct (build_ok (client_count (st a)) id (negb (client_began (st a base)))
    (client_began (st a base))) as (cs & -> & Hcs); [by apply count_zero_began|].
  rewrite io_bind_eq.
  destruct (decide (id = base)) as [->|Hne].
  - destruct (base_opening a Hwf) as [Hp _]; [by rewrite Hs|].
    rewrite Hs in *. cbn [client_began negb run_cb fmap option_fmap option_map client_callbacks
      s_on_pre_conn_cb]. rewrite client_pre_conn, issued. cbn [io_bind io_ret].
    eexists _, _. split; [done|]. rewrite effects_app, raised_app by done. split.
    + cbn [foldl app left_loop]. unfold client_of, client_loop_of, client_user_of, client_recvs, client_cq.
      cbn [st ph comm_done c_send s_send set_st].
      rewrite client_count_upd, upd_eq, Hs, Hp by apply base_in. simpl. by rewrite Z.add_0_r, Z.sub_0_r.
    + raised_calc.
  - assert (Hb : client_began (st a base) = true) by (apply (began_base a id); rewrite ?Hs; done).
    rewrite Hb. cbn [negb run_cb fmap option_fmap option_map client_callbacks
      s_on_pre_conn_cb]. rewrite issued. cbn [io_bind io_ret].
    eexists _, _. split; [done|]. rewrite effects_app, raised_app by done. split.
    + cbn [foldl app left_loop effect]. unfold client_of, client_loop_of, client_user_of, client_recvs, client_cq.
      cbn [st ph comm_done c_send s_send set_st with_loop ep_recvs ep_sends ep_cq ep_destroyed].
      rewrite client_count_upd, upd_ne, Hs, Hb, Hg by done. simpl. by rewrite Z.add_0_r, Z.sub_0_r.
    + raised_calc.
Qed.

Lemma running_loop a : client_gone (st a base) = false →
  with_loop (client_loop_of a) true (client_of a) = client_of a.
Proof. intros Hg. unfold client_of, with_loop. cbn. by rewrite Hg. Qed.

Lemma client_route_resolved a id :
  id ∈ ids → st a id = Routing → client_gone (st a base) = false →
  client_handles (CmEvent RDMA_CM_EVENT_ROUTE_RESOLVED id) a (set_st (upd id Requesting (st a)) a)
    [(Server, CmEvent RDMA_CM_EVENT_CONNECT_REQUEST id)].
Proof.
  intros Hid Hs Hg. unfold client_handles, ConnectionUtils.event_step. cbn [event ev_id].
  rewrite issued. eexists _, _. split; [done|]. split; [|raised_calc].
  cbn [foldl app left_loop effect]. rewrite running_loop by done.
  symmetry. by apply client_unseen; rewrite ?Hs.
Qed.

Lemma count_connection_of n : count_connection (ib_of n) = ib_of (n + 1).
Proof. unfold count_connection, ib_of. simpl. f_equal. unfold u64. apply Zplus_mod_idemp_l. Qed.

Lemma client_established a id s :
  wf base cm_ids a → id ∈ ids → st a id = Up true s → client_gone (st a base) = false →
  client_handles (CmEvent RDMA_CM_EVENT_ESTABLISHED id) a (set_st (upd id (Up false s) (st a)) a) [].
Proof.
  intros Hwf Hid Hs Hg. unfold client_handles, ConnectionUtils.event_step.
  assert (Hb : client_began (st a base) = true).
  { destruct (decide (id = base)) as [<-|Hne]; [by rewrite Hs|]. apply (began_base a id); rewrite ?Hs; done. }
  cbn [event ev_id client_loop_of latch0 s_ctx user latch2 latch3 latch4]. rewrite Hb.
  cbn [client_callbacks s_on_connect_cb fmap option_fmap option_map run_cb]. rewrite io_bind_ret.
  eexists _, _. split; [done|]. split; [|done].
  cbn [foldl left_loop]. unfold client_of, client_loop_of, client_user_of, client_recvs, client_cq.
  cbn [st ph comm_done c_send s_send set_st with_loop ep_recvs ep_sends ep_cq ep_destroyed].
  rewrite count_connection_of, client_count_upd, Hs by done.
  pose proof (client_count_range (st a)).
  rewrite (upd_proj client_began), (upd_proj client_gone), Hb, Hg by by rewrite Hs.
  cbn [client_up negb Z.b2z andb]. rewrite Z.sub_0_r. by rewrite (bool_decide_true (0 < client_count (st a) + 1)) by lia.
Qed.

Lemma client_disconnected a id s :
  wf base cm_ids a → id ∈ ids → st a id = Down true s →
  client_handles (CmEvent RDMA_CM_EVENT_DISCONNECTED id) a (set_st (upd id (Down false s) (st a)) a) [].
Proof.
  intros Hwf Hid Hs. unfold client_handles, ConnectionUtils.event_step.
  destruct (stage_ok _ _ Hnodup a id Hwf Hid) as [[-> Hb]|[_ Ho]].
  2:{ rewrite Hs in Ho. by destruct (ph a). }
  cbn [event ev_id client_loop_of latch4 user client_callbacks s_on_disconnect_cb fmap option_fmap
    option_map run_cb negb latch0 latch2 latch3 s_ctx].
  unfold perform, ClientRuntime.on_disconnect, client_user_of. rewrite Hs. cbn [client_began client_gone andb negb].
  eexists _, _. split; [done|]. split; [|raised_calc].
  cbn [foldl left_loop]. unfold client_of, client_loop_of, client_user_of, client_recvs, client_cq.
  cbn [st ph comm_done c_send s_send set_st with_loop ep_recvs ep_sends ep_cq ep_destroyed].
  rewrite client_count_upd, upd_eq, Hs by apply base_in.
  cbn. rewrite Z.add_simpl_r. rewrite Hs in Hb. by destruct (ph a).
Qed.

(** The outcome of a step of the protocol as an outcome of a step of the world. *)
Definition embed (r : option (result state)) : option (result world) :=
  match r with
  | Some (Ok a) => Some (Ok (world_of a))
  | Some (Fault f) => Some (Fault f)
  | None => None
  end.

(** ** The steps *)
Lemma client_event_refines ev a : wf base cm_ids a →
  step vm index_file cm_ids server_fuel (ClientEvent ev) (world_of a)
  = embed (next base cm_ids (ClientEvent ev) a).
Proof.
  intros Hwf. cbn [step next world_of client client_of ep_running ep_loop pool poller].
  destruct (client_gone (st a base)) eqn:Hg; [by rewrite andb_false_r|].
  rewrite andb_true_r. cbn [negb andb].
  destruct ev as [t id]. cbn [ev_id].
  destruct (bool_decide (id ∈ ids)) eqn:Hid;
    [apply bool_decide_eq_true in Hid|apply bool_decide_eq_false in Hid].
  2:{ rewrite bool_decide_false; [done|]. intros [? _]%elem_of_pool. done. }
  rewrite pool_hears by done. unfold next_client_event. cbn [event ev_id].
  assert (Hrun : ∀ t' s new rest,
    client_handles (CmEvent t' id) a (set_st (upd id s (st a)) a) new →
    stage_events id (st a id) ≡ₚ (Client, CmEvent t' id) :: rest → stage_events id s ≡ₚ rest ++ new →
    server_up s = server_up (st a id) → server_began s = server_began (st a id) →
    server_gone s = server_gone (st a id) →
    Some (client_ran (take_event (Client, CmEvent t' id) (world_of a))
      (ConnectionUtils.event_step client_callbacks true (CmEvent t' id) (client_loop_of a)) left_loop
      (λ _, poller_of (ph a)))
    = Some (Ok (world_of (set_st (upd id s (st a)) a)))).
  { intros. f_equal. by eapply client_event_world. }
  revert Hrun. destruct (st a id) as [| | | |[] s|[] s] eqn:Hs, t; cbn [hears]; try done;
    intros Hrun; cbn [embed fmap option_fmap option_map].
  - eapply (Hrun _ _ _ []); [by apply client_addr_resolved|apply Permutation_refl..|done|done|done].
  - eapply (Hrun _ _ _ []); [by apply client_route_resolved|apply Permutation_refl..|done|done|done].
  - eapply Hrun; [by apply client_established|apply Permutation_refl|by rewrite app_nil_r|done..].
  - eapply Hrun; [by apply client_disconnected|apply Permutation_refl|by rewrite app_nil_r|done..].
Qed.

(** ** Events of the server *)
Definition server_handles (ev : rdma_cm_event) (a a' : state)
    (new : list (side * rdma_cm_event)) : Prop :=
  ∃ r calls, AbstractServer.event_step (server_handlers server_fuel) false ev (server_loop_of a)
             = Ok (r, calls)
    ∧ foldl effect (left_loop r (server_of a)) calls = server_of a'
    ∧ (calls ≫= raised Server) = new.

(** The phase of a session and the base connection, when another one moves. *)
Lemma server_began_base a id :
  wf base cm_ids a → id ∈ ids → id ≠ base → st a id ≠ Fresh → server_began (st a base) = true.
Proof.
  intros Hwf Hid Hne Hs. destruct (stage_ok _ _ Hnodup a id Hwf Hid) as [[? _]|[_ Ho]]; [done|].
  pose proof (wf_base _ _ _ Hwf) as Hb.
  destruct (ph a); simpl in *; try done; by destruct (st a base).
Qed.

Lemma server_count_zero a :
  wf base cm_ids a → server_began (st a base) = false → server_count (st a) = 0.
Proof.
  intros Hwf Hb. unfold server_count. apply zcount_zero. intros id Hid.
  destruct (decide (id = base)) as [->|Hne]; [by destruct (st a base)|].
  destruct (decide (st a id = Fresh)) as [->|Hs]; [done|].
  by rewrite (server_began_base a id) in Hb.
Qed.

Lemma server_opening a :
  wf base cm_ids a → server_began (st a base) = false → ph a = Opening.
Proof.
  intros Hwf Hb. pose proof (wf_base _ _ _ Hwf) as Hp.
  destruct (ph a); simpl in Hp; destruct (st a base); done.
Qed.

Lemma server_connect_request a id :
  wf base cm_ids a → id ∈ ids → st a id = Requesting →
  server_handles (CmEvent RDMA_CM_EVENT_CONNECT_REQUEST id) a
    (set_st (upd id (Up true true) (st a)) a)
    [(Client, CmEvent RDMA_CM_EVENT_ESTABLISHED id); (Server, CmEvent RDMA_CM_EVENT_ESTABLISHED id)].
Proof.
  intros Hwf Hid Hs. unfold server_handles, AbstractServer.event_step.
  cbn [event ev_id server_loop_of].
  destruct (server_build_ok (server_count (st a)) id (negb (server_began (st a base)))
    (server_began (st a base))) as (cs & -> & Hcs); [by apply server_count_zero|].
  rewrite io_bind_eq.
  destruct (decide (id = base)) as [->|Hne].
  - assert (Hp : ph a = Opening) by (apply server_opening; [done|by rewrite Hs]).
    rewrite Hs in *. cbn [server_began negb server_handlers AbstractServer.on_pre_conn].
    rewrite server_pre_conn, issued. cbn [io_bind io_ret].
    eexists _, _. split; [done|]. rewrite effects_app, raised_app by done. split.
    + cbn [foldl app left_loop]. unfold server_of, server_loop_of, server_user_of, server_recvs.
      cbn [st ph comm_done c_send s_send set_st].
      rewrite server_count_upd, upd_eq, Hs, Hp by apply base_in. simpl. by rewrite Z.add_0_r, Z.sub_0_r.
    + raised_calc.
  - assert (Hb : server_began (st a base) = true) by (apply (server_began_base a id); rewrite ?Hs; done).
    rewrite Hb. cbn [negb]. rewrite issued. cbn [io_bind io_ret].
    eexists _, _. split; [done|]. rewrite effects_app, raised_app by done. split.
    + cbn [foldl app left_loop effect]. unfold server_of, server_loop_of, server_user_of, server_recvs.
      cbn [st ph comm_done c_send s_send set_st with_loop ep_recvs ep_sends ep_cq ep_destroyed].
      rewrite server_count_upd, upd_ne, Hs, Hb by done. simpl. by rewrite Z.add_0_r, Z.sub_0_r.
    + raised_calc.
Qed.

Lemma announce_ok c s : srv_tx_msg s = Some (buf tx tx.2) →
  adj_filename s = adj_file → use_hp s = hp → fam_thp_flag s = flag →
  FamServer.on_connection server_fuel base c s
  = Ok (ServerContext adj_file (v s ++ [ptr]) (Some (buf tx mr_msg)) (srv_rx_msg s) hp flag,
        [PostSend base send_wr]).
Proof.
  intros Ht Ha Hh Hf. unfold FamServer.on_connection. rewrite Ha, Hh, Hf, Hedges. cbn [io_lift].
  rewrite io_bind_ret. cbn [srv_tx_msg keep_region]. rewrite Ht. cbn [deref]. rewrite io_bind_ret.
  unfold FamServer.send_message. cbn [srv_tx_msg set_messages deref]. rewrite io_bind_ret, issued.
  cbn [io_bind io_ret app]. unfold set_messages, keep_region. simpl. by rewrite Ha, Hh, Hf.
Qed.

Lemma server_established a id c :
  wf base cm_ids a → id ∈ ids → st a id = Up c true →
  server_handles (CmEvent RDMA_CM_EVENT_ESTABLISHED id) a
    (set_ph (heard (ph a)) (set_st (upd id (Up c false) (st a)) a)) [].
Proof.
  intros Hwf Hid Hs. unfold server_handles, AbstractServer.event_step.
  assert (Hb : server_began (st a base) = true).
  { destruct (decide (id = base)) as [<-|Hne]; [by rewrite Hs|].
    apply (server_began_base a id); rewrite ?Hs; done. }
  assert (Hc : server_count (upd id (Up c false) (st a)) = server_count (st a) + 1).
  { rewrite server_count_upd, Hs by done. simpl. lia. }
  cbn [event ev_id server_loop_of]. rewrite Hb.
  destruct (decide (ph a = Opening)) as [Hp|Hp].
  - destruct (stage_ok _ _ Hnodup a id Hwf Hid) as [[-> _]|[_ Ho]]; rewrite Hp in *.
    2:{ simpl in Ho. by rewrite Ho in Hs. }
    cbn [negb server_handlers AbstractServer.on_connection].
    pose proof (announce_ok (ib_of 0) (server_user_of a)) as Ha. unfold server_user_of in Ha |- *.
    rewrite Hs, Hp in *. cbn [server_began server_gone andb negb] in *.
    specialize (Ha eq_refl eq_refl eq_refl eq_refl).
    unfold FamServer.on_connection in *. rewrite Ha. rewrite io_bind_eq. cbn [io_ret].
    eexists _, _. split; [done|]. split; [|raised_calc].
    cbn [foldl left_loop app effect]. unfold server_of, server_loop_of, server_user_of, server_recvs.
    cbn [st ph comm_done c_send s_send set_st set_ph with_loop ep_recvs ep_sends ep_cq ep_destroyed].
    rewrite Hc, upd_eq, Hs, Hp, count_connection_of. done.
  - replace (match ph a with Opening => false | _ => true end) with true by by destruct (ph a).
    cbn [negb]. rewrite io_bind_ret. eexists _, _. split; [done|]. split; [|done].
    replace (heard (ph a)) with (ph a) by by destruct (ph a).
    cbn [foldl left_loop]. unfold server_of, server_loop_of, server_user_of, server_recvs.
    cbn [st ph comm_done c_send s_send set_st set_ph with_loop ep_recvs ep_sends ep_cq ep_destroyed].
    rewrite Hc, count_connection_of, (upd_proj server_began), (upd_proj server_gone), Hb by by rewrite Hs.
    by destruct (ph a).
Qed.

Lemma server_disconnected a id c :
  wf base cm_ids a → id ∈ ids → st a id = Down c true →
  server_handles (CmEvent RDMA_CM_EVENT_DISCONNECTED id) a (set_st (upd id (Down c false) (st a)) a) [].
Proof.
  intros Hwf Hid Hs. unfold server_handles, AbstractServer.event_step.
  destruct (stage_ok _ _ Hnodup a id Hwf Hid) as [[-> Hb]|[_ Ho]].
  2:{ rewrite Hs in Ho. by destruct (ph a). }
  cbn [event ev_id server_loop_of server_handlers AbstractServer.on_disconnect].
  unfold perform, FamServer.on_disconnect, server_user_of. rewrite Hs.
  cbn [server_began server_gone andb negb].
  eexists _, _. split; [done|]. split; [|raised_calc].
  cbn [foldl left_loop]. unfold server_of, server_loop_of, server_user_of, server_recvs.
  cbn [st ph comm_done c_send s_send set_st with_loop ep_recvs ep_sends ep_cq ep_destroyed].
  rewrite server_count_upd, upd_eq, Hs by apply base_in.
  cbn. rewrite Z.add_simpl_r. rewrite Hs in Hb. by destruct (ph a).
Qed.

Lemma server_event_world ev a id s new rest p :
  id ∈ ids → server_handles ev a (set_ph p (set_st (upd id s (st a)) a)) new →
  stage_events id (st a id) ≡ₚ (Server, ev) :: rest → stage_events id s ≡ₚ rest ++ new →
  client_of (set_ph p (set_st (upd id s (st a)) a)) = client_of a → poller_of p = poller_of (ph a) →
  server_ran (take_event (Server, ev) (world_of a))
    (AbstractServer.event_step (server_handlers server_fuel) false ev (server_loop_of a)) left_loop
  = Ok (world_of (set_ph p (set_st (upd id s (st a)) a))).
Proof.
  intros Hid (r & calls & E & He & Hr) H1 H2 Hc Hp. unfold server_ran. rewrite E.
  unfold world_of. cbn [client server pool poller take_event ph set_ph]. rewrite Hc, Hp. f_equal. f_equal.
  - exact He.
  - unfold raise. rewrite Hr. by apply (pool_move _ _ _ _ _ rest).
Qed.

Lemma client_heard a : client_began (st a base) = true →
  client_of (set_ph (heard (ph a)) a) = client_of a ∧ poller_of (heard (ph a)) = poller_of (ph a).
Proof.
  intros Hb. split; [|by destruct (ph a)].
  unfold client_of, client_loop_of, client_user_of, client_recvs, client_cq.
  cbn [st ph comm_done c_send s_send set_ph]. rewrite Hb. by destruct (ph a).
Qed.

Lemma server_event_refines ev a : wf base cm_ids a →
  step vm index_file cm_ids server_fuel (ServerEvent ev) (world_of a)
  = embed (next base cm_ids (ServerEvent ev) a).
Proof.
  intros Hwf. cbn [step next world_of server server_of ep_running ep_loop pool poller andb].
  destruct ev as [t id]. cbn [ev_id].
  destruct (bool_decide (id ∈ ids)) eqn:Hid;
    [apply bool_decide_eq_true in Hid|apply bool_decide_eq_false in Hid].
  2:{ rewrite bool_decide_false; [done|]. intros [? _]%elem_of_pool. done. }
  rewrite pool_hears by done. unfold next_server_event. cbn [event ev_id].
  assert (Hrun : ∀ t' s new rest p,
    server_handles (CmEvent t' id) a (set_ph p (set_st (upd id s (st a)) a)) new →
    stage_events id (st a id) ≡ₚ (Server, CmEvent t' id) :: rest → stage_events id s ≡ₚ rest ++ new →
    client_of (set_ph p (set_st (upd id s (st a)) a)) = client_of a → poller_of p = poller_of (ph a) →
    Some (server_ran (take_event (Server, CmEvent t' id) (world_of a))
      (AbstractServer.event_step (server_handlers server_fuel) false (CmEvent t' id)
         (server_loop_of a)) left_loop)
    = Some (Ok (world_of (set_ph p (set_st (upd id s (st a)) a))))).
  { intros. f_equal. by eapply server_event_world. }
  revert Hrun. destruct (st a id) as [| | | |c []|c []] eqn:Hs, t; cbn [hears]; try done;
    intros Hrun; cbn [embed fmap option_fmap option_map].
  - apply (Hrun _ (Up true true) _ [] (ph a) (server_connect_request a id Hwf Hid Hs));
      [apply Permutation_refl..| |done].
    apply (client_unseen a id (Up true true)); by rewrite ?Hs.
  - assert (Hb : client_began (st a base) = true).
    { destruct (decide (id = base)) as [<-|Hne]; [by rewrite Hs|]. apply (began_base a id); rewrite ?Hs; done. }
    destruct (client_heard (set_st (upd id (Up c false) (st a)) a)) as [Hc Hp].
    { cbn [st set_st]. by rewrite (upd_proj client_began) by by rewrite Hs. }
    eapply (Hrun _ _ _ (if c then [(Client, CmEvent RDMA_CM_EVENT_ESTABLISHED id)] else []));
      [by apply server_established| | |etrans; [exact Hc|]|exact Hp].
    + destruct c; [apply Permutation_swap|apply Permutation_refl].
    + destruct c; apply Permutation_refl.
    + apply (client_unseen a id (Up c false)); by rewrite ?Hs.
  - eapply (Hrun _ (Down c false) _ (if c then [(Client, CmEvent RDMA_CM_EVENT_DISCONNECTED id)] else [])
              (ph a) (server_disconnected a id c Hwf Hid Hs)); [| | |done].
    + destruct c; [apply Permutation_swap|apply Permutation_refl].
    + destruct c; apply Permutation_refl.
    + apply (client_unseen a id (Down c false)); by rewrite ?Hs.
Qed.

(** ** Messages and threads: the base connection is up *)
Record linked (f : Z → stage) : Prop := {
  ln_client : client_began (f base) = true;
  ln_server : server_began (f base) = true;
  ln_client_on : client_gone (f base) = false;
  ln_server_on : server_gone (f base) = false;
}.

Definition mid (p : phase) : bool :=
  match p with Opening | Closing | Closed => false | _ => true end.

Lemma wf_linked a : wf base cm_ids a → mid (ph a) = true → linked (st a).
Proof.
  intros Hwf Hm. pose proof (wf_base _ _ _ Hwf) as Hb.
  split; destruct (ph a); try done; cbn [base_ok] in Hb; destruct (st a base); done.
Qed.

(** Unfold a world whose base connection is up. *)
Ltac world_calc H :=
  unfold world_of, client_of, server_of, client_loop_of, server_loop_of, client_user_of,
    server_user_of, client_recvs, server_recvs, client_cq;
  cbn [ph st comm_done c_send s_send set_ph set_st set_sends];
  rewrite ?(ln_client _ H), ?(ln_server _ H), ?(ln_client_on _ H), ?(ln_server_on _ H);
  cbn -[client_count server_count pool_of];
  rewrite ?(ln_client _ H), ?(ln_server _ H), ?(ln_client_on _ H), ?(ln_server_on _ H);
  cbn -[client_count server_count pool_of].

Lemma to_client_refines a : wf base cm_ids a →
  step vm index_file cm_ids server_fuel ToClient (world_of a) = embed (next base cm_ids ToClient a).
Proof.
  intros Hwf. pose proof (wf_linked a Hwf) as Hl. pose proof (wf_flags _ _ _ Hwf) as Hf.
  destruct a as [p f cd cs ss]. cbn [ph st comm_done c_send s_send mid] in *.
  destruct p; try done; specialize (Hl eq_refl); cbn [flags_ok] in Hf; try done.
  - destruct Hf as (-> & -> & ->). unfold step, deliver. world_calc Hl.
    rewrite (bool_decide_true (tx.1 = tx.1)), (bool_decide_true (rx.1 = rx.1)) by done.
    cbn -[client_count server_count pool_of world_of]. world_calc Hl. done.
  - rewrite Hf. unfold step, deliver. world_calc Hl. rewrite (bool_decide_true (tx.1 = tx.1)), (bool_decide_true (rx.1 = rx.1)) by done.
    cbn -[client_count server_count pool_of world_of]. world_calc Hl. by destruct cs.
Qed.

Lemma to_server_refines a : wf base cm_ids a →
  step vm index_file cm_ids server_fuel ToServer (world_of a) = embed (next base cm_ids ToServer a).
Proof.
  intros Hwf. pose proof (wf_linked a Hwf) as Hl. pose proof (wf_flags _ _ _ Hwf) as Hf.
  destruct a as [p f cd cs ss]. cbn [ph st comm_done c_send s_send mid] in *.
  destruct p; try done; specialize (Hl eq_refl); cbn [flags_ok] in Hf; try done.
  rewrite Hf. unfold step, deliver. world_calc Hl. rewrite (bool_decide_true (tx.1 = tx.1)), (bool_decide_true (rx.1 = rx.1)) by done.
    cbn -[client_count server_count pool_of world_of]. world_calc Hl. by destruct ss.
Qed.

(** ** Completions *)
Lemma alive_ok {S} (e : endpoint S) wc : ep_destroyed e = [] → alive e wc = io_ret ().
Proof. intros H. unfold alive. rewrite H. by rewrite bool_decide_false by set_solver. Qed.

Lemma open_others_pool a : wf base cm_ids a → ph a = MrIn →
  pool_of (open_others base (st a))
  = pool_of (st a) ⊎ list_to_set_disj ((ResolveAddr <$> cm_ids) ≫= raised Client).
Proof.
  intros Hwf Hp. unfold pool_of, Protocol.ids. rewrite !bind_cons, !list_to_set_disj_app.
  assert (Hall : ∀ j, j ∈ cm_ids → st a j = Fresh ∧ open_others base (st a) j = Resolving).
  { intros j Hj. pose proof (wf_other _ _ a j Hwf Hj) as Ho. rewrite Hp in Ho. split; [done|].
    unfold open_others. by rewrite decide_False by by apply (base_not_other base cm_ids). }
  replace (open_others base (st a) base) with (st a base)
    by (unfold open_others; by rewrite decide_True).
  rewrite <- (assoc_L (⊎)). f_equal.
  clear Hwf Hp Hids Hnodup. induction cm_ids as [|j l IH]; [done|].
  rewrite !bind_cons, fmap_cons, bind_cons, !list_to_set_disj_app, IH by set_solver.
  destruct (Hall j) as [-> ->]; [set_solver|]. rewrite raised_resolve_addr. cbn [stage_events].
  multiset_solver.
Qed.

Lemma open_others_counts a : wf base cm_ids a → ph a = MrIn →
  client_count (open_others base (st a)) = client_count (st a)
  ∧ server_count (open_others base (st a)) = server_count (st a)
  ∧ open_others base (st a) base = st a base.
Proof.
  intros Hwf Hp.
  assert (Hb : open_others base (st a) base = st a base)
    by (unfold open_others; by rewrite decide_True).
  split_and!; [| |done]; apply zsum_ext; intros j [->|Hj]%elem_of_cons; rewrite ?Hb; try done;
    pose proof (wf_other _ _ a j Hwf Hj) as Ho; rewrite Hp in Ho; cbn in Ho; rewrite Ho;
    unfold open_others; by rewrite decide_False by by apply (base_not_other base cm_ids).
Qed.

Lemma client_ctx_linked a : linked (st a) →
  s_ctx (ep_loop (client_of a)) = Some (ib_of (client_count (st a))).
Proof. intros Hl. cbn. by rewrite (ln_client _ Hl). Qed.

Lemma mr_completion n u : rx_msg u = Some (buf rx mr_msg) →
  ClientRuntime.on_completion index_file cm_ids (Some (ib_of n)) recv_wc u
  = Ok ((set_server (mr_addr mr) (mr_rkey mr) edges pd (new_application nv edges) u,
         AwaitConnections base), PostRecv base recv_wr :: (ResolveAddr <$> cm_ids)).
Proof.
  intros Hr. unfold ClientRuntime.on_completion. cbn [wc_wr_id wc_opcode recv_wc].
  rewrite bool_decide_true by done. rewrite Hr. cbn [deref]. rewrite io_bind_ret. cbn [buf buf_msg].
  rewrite bool_decide_true by done. unfold ClientRuntime.post_receive. rewrite Hr. cbn [deref].
  rewrite io_bind_ret, issued. rewrite io_bind_eq. cbn [rc_get_pd io_lift]. rewrite io_bind_ret, Hnv.
  cbn [io_lift]. rewrite io_bind_ret, each_issue by (apply Forall_forall; intros; apply (cs_ret _ _ _ HV)).
  rewrite io_bind_eq. cbn [io_ret app]. by rewrite app_nil_r.
Qed.

Lemma done_completion c u : rx_msg u = Some (buf rx done_msg) →
  ClientRuntime.on_completion index_file cm_ids c recv_wc u = Ok ((u, JoinApp base), []).
Proof. intros Hr. unfold ClientRuntime.on_completion. cbn [wc_wr_id wc_opcode recv_wc]. by rewrite Hr. Qed.

Lemma effects_resolve {S} (e : endpoint S) l : foldl effect e (ResolveAddr <$> l) = e.
Proof. by induction l. Qed.

Lemma send_completion_ok a rest : c_send a = true →
  match ph a with ReadyIn | DoneFlight | DoneIn => True | _ => False end → linked (st a) →
  client_cq (set_sends false (s_send a) a) = rest →
  Some (client_ran
    (World (with_queues (ep_recvs (client_of a)) (ep_sends (client_of a)) rest (client_of a)) Idle
       (server (world_of a)) (pool (world_of a)))
    (io_bind (alive (with_queues (ep_recvs (client_of a)) (ep_sends (client_of a)) rest (client_of a))
                send_wc) (λ _,
      ConnectionUtils.poll_wc (λ wc, ClientRuntime.on_completion index_file cm_ids
         (s_ctx (ep_loop (with_queues (ep_recvs (client_of a)) (ep_sends (client_of a)) rest (client_of a))))
         wc (ep_user (with_queues (ep_recvs (client_of a)) (ep_sends (client_of a)) rest (client_of a))))
        send_wc))
    (λ r, with_user (λ _, r.1)) snd)
  = Some (Ok (world_of (set_sends false (s_send a) a))).
Proof.
  intros Hc Hp Hl <-. f_equal. rewrite alive_ok by (cbn; by rewrite (ln_client_on _ Hl)).
  rewrite io_bind_ret. cbn [ConnectionUtils.poll_wc]. unfold ConnectionUtils.poll_wc.
  rewrite bool_decide_true by done. unfold ClientRuntime.on_completion.
  rewrite bool_decide_false by (cbn; by intros []). cbn [client_ran io_ret foldl].
  f_equal. unfold raise. cbn [list_to_set_disj mbind list_bind]. unfold world_of.
  cbn [client server pool poller fst snd]. rewrite (right_id_L ∅ (⊎)).
  replace (poller_of (ph (set_sends false (s_send a) a))) with Idle; [done|].
  cbn. by destruct (ph a).
Qed.

Lemma client_completion_refines a : wf base cm_ids a →
  step vm index_file cm_ids server_fuel ClientCompletion (world_of a)
  = embed (next base cm_ids ClientCompletion a).
Proof.
  intros Hwf. pose proof (wf_linked a Hwf) as Hl. pose proof (wf_flags _ _ _ Hwf) as Hf.
  cbn [step next]. unfold client_completion.
  destruct (ph a) eqn:Hp; cbn [flags_ok mid] in *; try specialize (Hl eq_refl);
    destruct (c_send a) eqn:Hc; try (exfalso; by destruct_and? Hf); cbn [embed];
    cbn [world_of poller client client_of ep_cq]; unfold client_cq; rewrite Hp, Hc; cbn [poller_of app];
    try done.
  - (* MSG_MR *)
    f_equal. rewrite alive_ok by (cbn; by rewrite (ln_client_on _ Hl)). rewrite io_bind_ret.
    unfold ConnectionUtils.poll_wc. rewrite bool_decide_true by done.
    cbn [with_queues ep_loop]. rewrite (client_ctx_linked a Hl), mr_completion.
    2:{ cbn. unfold client_user_of. cbn. by rewrite (ln_client _ Hl), (ln_client_on _ Hl), Hp. }
    cbn [client_ran]. f_equal.
    destruct (open_others_counts a Hwf Hp) as (Hcc & Hsc & Hb).
    unfold world_of. cbn [client server pool poller fst snd st set_ph set_st ph].
    rewrite open_others_pool by done. f_equal.
    + cbn [foldl]. rewrite effects_resolve. unfold client_of, client_loop_of, client_user_of, client_recvs, client_cq.
      cbn [st ph comm_done c_send s_send set_ph set_st]. rewrite Hcc, Hb, Hp, Hc.
      rewrite (ln_client _ Hl), (ln_client_on _ Hl). done.
    + unfold server_of, server_loop_of, server_user_of, server_recvs.
      cbn [st ph comm_done c_send s_send set_ph set_st]. by rewrite Hsc, Hb, Hp.
    + unfold raise. rewrite bind_cons, raised_quiet by done. done.
  - apply send_completion_ok; [done|by rewrite Hp|done|unfold client_cq; cbn; by rewrite Hp].
  - apply send_completion_ok; [done|by rewrite Hp|done|unfold client_cq; cbn; by rewrite Hp].
  - apply send_completion_ok; [done|by rewrite Hp|done|unfold client_cq; cbn; by rewrite Hp].
  - (* MSG_DONE *)
    f_equal. rewrite alive_ok by (cbn; by rewrite (ln_client_on _ Hl)). rewrite io_bind_ret.
    unfold ConnectionUtils.poll_wc. rewrite bool_decide_true by done.
    rewrite done_completion.
    2:{ cbn. unfold client_user_of. cbn. by rewrite (ln_client _ Hl), (ln_client_on _ Hl), Hp. }
    cbn [client_ran foldl]. f_equal. unfold raise. cbn [list_to_set_disj mbind list_bind].
    world_calc Hl. rewrite Hp, Hc. by rewrite (right_id_L ∅ (⊎)).
Qed.

(** The server answers READY with DONE. *)
Lemma ready_completion s : srv_rx_msg s = Some (buf rx ready_msg) → srv_tx_msg s = Some (buf tx mr_msg) →
  FamServer.on_completion recv_wc s
  = Ok (set_messages (Some (buf tx done_msg)) (Some (buf rx ready_msg)) s,
        [PostRecv base recv_wr; PostSend base send_wr]).
Proof.
  intros Hr Ht. unfold FamServer.on_completion. cbn [wc_wr_id wc_opcode recv_wc].
  rewrite bool_decide_true by done. rewrite Hr. cbn [deref]. rewrite io_bind_ret. cbn [buf buf_msg].
  rewrite bool_decide_true by done. unfold FamServer.post_receive. rewrite Hr. cbn [deref].
  rewrite io_bind_ret, issued, io_bind_eq. unfold send_done. rewrite Ht. cbn [deref].
  rewrite io_bind_ret. unfold FamServer.send_message. cbn [srv_tx_msg set_messages deref].
  rewrite io_bind_ret, issued. cbn [io_bind io_ret app]. by rewrite Hr.
Qed.

Lemma server_completion_refines a : wf base cm_ids a →
  step vm index_file cm_ids server_fuel ServerCompletion (world_of a)
  = embed (next base cm_ids ServerCompletion a).
Proof.
  intros Hwf. pose proof (wf_linked a Hwf) as Hl. pose proof (wf_flags _ _ _ Hwf) as Hf.
  cbn [step next]. unfold server_completion. cbn [world_of server server_of ep_cq].
  destruct (s_send a) eqn:Hs; cbn [app].
  - cbn [embed]. f_equal.
    set (s' := with_queues _ _ _ _). replace s' with (server_of (set_sends (c_send a) false a)) by done.
    destruct (server_gone (st a base)) eqn:Hg.
    + unfold alive. cbn [ep_destroyed server_of set_sends st]. by rewrite Hg, bool_decide_true by set_solver.
    + rewrite alive_ok by (cbn; by rewrite Hg). rewrite io_bind_ret.
      unfold AbstractServer.poll_wc. rewrite bool_decide_true by done. unfold FamServer.on_completion.
      rewrite bool_decide_false by (cbn; by intros []). cbn [server_ran io_ret foldl].
      f_equal. unfold raise. cbn [list_to_set_disj mbind list_bind]. unfold world_of.
      cbn [client server pool poller]. by rewrite (right_id_L ∅ (⊎)).
  - destruct (ph a) eqn:Hp; cbn [embed]; try done. specialize (Hl eq_refl). f_equal.
    rewrite alive_ok by (cbn; by rewrite (ln_server_on _ Hl)). rewrite io_bind_ret.
    unfold AbstractServer.poll_wc. rewrite bool_decide_true by done.
    rewrite ready_completion by (cbn; unfold server_user_of; cbn;
      by rewrite (ln_server _ Hl), (ln_server_on _ Hl), Hp).
    cbn [server_ran foldl]. f_equal. unfold raise. cbn [mbind list_bind]. rewrite !raised_quiet by done.
    world_calc Hl. rewrite Hp, Hs. by rewrite (right_id_L ∅ (⊎)).
Qed.

(** ** The threads of the client *)
Lemma zcount_all {A} (p : A → bool) l : zlen l ≤ zcount p l ↔ forallb p l = true.
Proof.
  unfold zcount, zlen. induction l as [|x l IH]; [done|]. simpl length. rewrite zsum_cons.
  pose proof (zcount_bounds p l) as Hb. unfold zcount, zlen in Hb. cbn [forallb].
  destruct (p x); cbn [Z.b2z andb]; [rewrite <- IH; lia|]. split; [lia|done].
Qed.

Lemma all_connected_up a : linked (st a) →
  all_connected (zlen cm_ids) (s_ctx (ep_loop (client_of a)))
  = forallb (λ id, client_up (st a id)) ids.
Proof.
  intros Hl. rewrite client_ctx_linked by done. unfold all_connected. cbn [rc_get_num_connections ib_of connections].
  pose proof (client_count_range (st a)). pose proof (zlen_nonneg cm_ids).
  rewrite !u64_id' by lia. apply Bool.eq_iff_eq_true. rewrite bool_decide_eq_true, <- zcount_all.
  unfold client_count, Protocol.ids, zlen. simpl length. lia.
Qed.

Lemma await_ok n u :
  await_connections vm (Some (ib_of n)) u
  = Ok ((ClientUser (tx_msg u) (rx_msg u) (ctx_pd u) (ctx_peer_addr u) (ctx_peer_rkey u)
           (ctx_num_edges u) (ctx_app u) caches (Some kern) Running (comm_threads u ++ [Running]), Idle), []).
Proof.
  unfold await_connections. cbn [rc_get_num_connections io_lift]. rewrite io_bind_ret.
  rewrite Hcache, Hkern. unfold choose_kernel in Hkern.
  destruct (bool_decide (count vm "double-buffer" ≠ 0)); [done|]. done.
Qed.

Lemma client_poller_refines a : wf base cm_ids a →
  step vm index_file cm_ids server_fuel ClientPoller (world_of a)
  = embed (next base cm_ids ClientPoller a).
Proof.
  intros Hwf. pose proof (wf_linked a Hwf) as Hl. pose proof (wf_flags _ _ _ Hwf) as Hf.
  cbn [step next]. unfold client_poller_step. cbn [world_of poller client].
  destruct (ph a) eqn:Hp; cbn [poller_of embed mid] in *; try done; try specialize (Hl eq_refl).
  - rewrite all_connected_up by done. destruct (forallb _ _) eqn:Hall; [|done]. cbn [embed]. f_equal.
    rewrite client_ctx_linked, await_ok by done. cbn [client_ran foldl]. f_equal.
    unfold raise. cbn [mbind list_bind list_to_set_disj]. world_calc Hl. rewrite Hp. destruct Hf as [-> ->].
    by rewrite (right_id_L ∅ (⊎)).
  - unfold join_app. cbn [client_of ep_user ep_loop client_loop_of user client_user_of app_thread].
    rewrite Hp. cbn [app_thread_of join fmap option_fmap option_map embed]. f_equal.
    cbn [client_ran io_lift io_bind io_ret foldl]. f_equal.
    unfold raise. cbn [mbind list_bind list_to_set_disj app]. world_calc Hl. rewrite Hp.
    by rewrite (right_id_L ∅ (⊎)).
  - unfold join_comm. cbn [client_of ep_user ep_loop client_loop_of user client_user_of comm_threads].
    rewrite Hp. cbn [comm_threads_of]. destruct (comm_done a) eqn:Hcd; [|done].
    cbn [join_all join fmap option_fmap option_map embed mbind result_bind]. f_equal.
    pose proof (wf_base _ _ _ Hwf) as Hb. rewrite Hp in Hb. cbn [base_ok] in Hb.
    cbn [client_ran io_lift io_bind io_ret foldl effect app rc_disconnect perform].
    f_equal. unfold world_of. cbn [client server pool poller fst snd]. f_equal.
    + unfold client_of, client_loop_of, client_user_of, client_recvs, client_cq.
      cbn [st ph comm_done c_send s_send set_ph set_st].
      rewrite client_count_upd, upd_eq, Hb by apply base_in. rewrite Hp, Hcd, Hf.
      cbn -[client_count]. by rewrite Z.add_simpl_r.
    + symmetry. rewrite <- (server_unseen a base (Down true true)) by (rewrite ?Hb; done || apply base_in).
      unfold server_of, server_loop_of, server_user_of, server_recvs.
      cbn [st ph comm_done c_send s_send set_ph set_st]. by rewrite Hp.
    + unfold raise. rewrite bind_cons, raised_disconnect. cbn [mbind list_bind]. rewrite app_nil_r.
      destruct (pool_split (st a) base base_in) as (r & -> & Hr). cbn [st set_ph set_st]. rewrite Hr, Hb.
      cbn [stage_events app list_to_set_disj]. multiset_solver.
  - cbn [client_of ep_running]. destruct (client_gone (st a base)) eqn:Hg; [done|].
    cbn [negb embed]. f_equal. f_equal. unfold world_of, client_of, server_of, client_loop_of,
      server_loop_of, client_user_of, server_user_of, client_recvs, server_recvs, client_cq.
    cbn [st ph comm_done c_send s_send set_ph set_st]. by rewrite Hp, Hg.
Qed.

Lemma finish_ok u nv' e' : ctx_app u = Some (Application nv' e' false) → tx_msg u = Some (buf tx tx.2) →
  finish_application base u
  = Ok (set_bufs (Some (buf tx ready_msg)) (rx_msg u) (set_app (Some (Application nv' e' true)) u),
        [PostSend base send_wr]).
Proof.
  intros Ha Ht. unfold finish_application. rewrite Ha. cbn [deref]. rewrite io_bind_ret.
  cbn [tx_msg set_app]. rewrite Ht. cbn [deref]. rewrite io_bind_ret.
  unfold ClientRuntime.send_message. cbn [tx_msg set_bufs deref]. rewrite io_bind_ret, issued. done.
Qed.

Lemma kernel_returns_refines a : wf base cm_ids a →
  step vm index_file cm_ids server_fuel KernelReturns (world_of a)
  = embed (next base cm_ids KernelReturns a).
Proof.
  intros Hwf. pose proof (wf_linked a Hwf) as Hl. pose proof (wf_flags _ _ _ Hwf) as Hf.
  cbn [step next world_of client client_of ep_user ep_loop client_loop_of user client_user_of app_thread].
  destruct (ph a) eqn:Hp; cbn [app_thread_of embed mid] in *; try done. specialize (Hl eq_refl).
  rewrite bool_decide_true by done. f_equal.
  rewrite (finish_ok _ nv edges); [|unfold client_user_of; cbn; by rewrite Hp
    |unfold client_user_of; cbn; by rewrite (ln_client _ Hl), (ln_client_on _ Hl), Hp].
  cbn [client_ran foldl]. f_equal. unfold raise. cbn [mbind list_bind]. rewrite raised_quiet by done.
  destruct Hf as [Hcd Hc]. world_calc Hl. rewrite Hp, Hcd, Hc. cbn [app list_to_set_disj].
  by rewrite (right_id_L ∅ (⊎)).
Qed.

Lemma comm_returns_refines a : wf base cm_ids a →
  step vm index_file cm_ids server_fuel CommReturns (world_of a)
  = embed (next base cm_ids CommReturns a).
Proof.
  intros Hwf. pose proof (wf_linked a Hwf) as Hl. pose proof (wf_flags _ _ _ Hwf) as Hf.
  cbn [step next world_of client client_of ep_user ep_loop client_loop_of user client_user_of
    comm_threads ctx_app].
  destruct (ph a) eqn:Hp; cbn [comm_threads_of app_of ready_sent should_stop embed mid] in *; try done;
    try (by rewrite bool_decide_false by set_solver); try (by rewrite andb_false_r);
    specialize (Hl eq_refl);
    (destruct (comm_done a) eqn:Hcd; [by rewrite bool_decide_false by set_solver|]);
    rewrite bool_decide_true by set_solver; cbn [andb embed]; f_equal; f_equal;
    world_calc Hl; by rewrite Hp, Hcd.
Qed.

Lemma session_step x a : wf base cm_ids a →
  step vm index_file cm_ids server_fuel x (world_of a) = embed (next base cm_ids x a).
Proof.
  destruct x; [apply client_event_refines|apply server_event_refines|apply to_client_refines
    |apply to_server_refines|apply client_completion_refines|apply server_completion_refines
    |apply client_poller_refines|apply kernel_returns_refines|apply comm_returns_refines].
Qed.

(** A run of the world is a run of the protocol, and each of its steps is work. *)
Lemma steps_refine w tr w' : steps vm index_file cm_ids server_fuel w tr w' →
  ∀ a, w = world_of a → wf base cm_ids a →
  ∃ a', w' = world_of a' ∧ wf base cm_ids a' ∧ work base cm_ids a' + zlen tr ≤ work base cm_ids a.
Proof.
  induction 1 as [w|w x w1 tr w' Hstep _ IH]; intros a -> Hwf.
  - exists a. split_and!; [done|done|]. unfold zlen. simpl. lia.
  - rewrite session_step in Hstep by done. destruct (next base cm_ids x a) as [[a1|]|] eqn:E; try done.
    cbn [embed] in Hstep. injection Hstep as <-.
    destruct (IH a1 eq_refl) as (a' & -> & Hwf' & Hw); [by eapply next_wf|].
    pose proof (next_work base cm_ids Hnodup x a a1 Hwf E). exists a'. split_and!; [done|done|].
    unfold zlen in *. simpl length. lia.
Qed.

Lemma next_faults x a f : next base cm_ids x a = Some (Fault f) →
  f = OutOfBounds ∧ ((x = ClientPoller ∧ ph a = Closing ∧ client_gone (st a base) = true)
                     ∨ (x = ServerCompletion ∧ server_gone (st a base) = true)).
Proof.
  destruct x as [ev|ev| | | | | | |]; cbn [next].
  - destruct (bool_decide _ && _); [|done]. by destruct (next_client_event ev a).
  - destruct (bool_decide _); [|done]. by destruct (next_server_event ev a).
  - by destruct (ph a).
  - by destruct (ph a).
  - destruct (c_send a); [done|]. by destruct (ph a).
  - destruct (s_send a); [|by destruct (ph a)]. destruct (server_gone _) eqn:E; [|done].
    intros [= <-]. auto.
  - destruct (ph a) eqn:Ep; try done.
    + by destruct (forallb _ _).
    + by destruct (comm_done a).
    + destruct (client_gone _) eqn:E; [|done]. intros [= <-]. auto.
  - by destruct (ph a).
  - by destruct (ph a), (comm_done a).
Qed.
End refinement.
