(* ===== verification/Sessions.v ===== *)
(** * Sessions: a client and a server, from start to end

    [session_safe] and [session_ends] are what the refinement of the protocol
    gives for every interleaving of the threads, the messages and the events. *)

From stdpp Require Import gmultiset.
From S2P Require Import Prelude Platform MmapUtil VertexTable ServerFile Options.
From S2P Require Import Rdma AbstractServer ConnectionUtils Numa ClientRuntime FamServer Session.
From S2P Require Import Protocol Refinement.

(** What a session needs: valid options, connections with numbers of their own,
    calls that succeed, an index and an edge file that load, and a cache and a
    kernel that exist.  [n] is the number of connections of the workers. *)
Record session_ready `{BO : Boost, OS : Os, FM : FileMapping, VB : Verbs, NU : Numa, NW : Network}
    (vm server_vm : variables_map) (max_cores : Z) (index_file adj_file : fs_node)
    (server_fuel : nat) (vb : Z) (tx rx : Z * message)
    (ptr : RDMA_region) (mr : ibv_mr) (edges nv : Z) (caches : cache_pointers) (kern : kernel)
    (n : Z) : Prop := {
  sr_client : client_validate_params vm = Ok ();
  sr_server : server_validate_params server_vm = Ok ();
  sr_options : "kernel"%string ∈ present vm ∧ "ofile"%string ∈ present vm
    ∧ "threads"%string ∈ present vm ∧ "cache_ratio"%string ∈ present vm
    ∧ "madvise_thp"%string ∈ present server_vm;
  sr_numa : count vm "no-numa-bind" ≠ 0 ∨ is_ok (do_numa_map n) = true;
  sr_n : n = num_connections (o_threads vm) max_cores;
  sr_range : 0 ≤ n < 2 ^ 64 - 1;
  sr_ids : NoDup (new_id <$> seq 0 (S (Z.to_nat n)));
  sr_calls : calls_succeed vb tx rx;
  sr_index : get_num_verts index_file = Ok nv;
  sr_edges : get_edge_list server_fuel adj_file (bool_decide (count server_vm "hp" ≠ 0))
               (o_madvise_thp server_vm) = Ok (ptr, mr, edges);
  sr_cache : choose_cache vm = Ok caches;
  sr_kernel : choose_kernel vm = Ok kern;
}.

Section sessions.
  Context `{BO : Boost, OS : Os, FM : FileMapping, VB : Verbs, NU : Numa, NW : Network, !NetworkLaws}.
  Context {vm server_vm : variables_map} {max_cores : Z} {index_file adj_file : fs_node}.
  Context {server_fuel : nat} {vb : Z} {tx rx : Z * message} {ptr : RDMA_region} {mr : ibv_mr}.
  Context {edges nv : Z} {caches : cache_pointers} {kern : kernel} {n : Z}.
  Context (port listener : Z).
  Context (Hready : session_ready vm server_vm max_cores index_file adj_file server_fuel vb tx rx
                      ptr mr edges nv caches kern n).

Notation ids_n := (worker_ids (Z.to_nat n)).
Notation world_of := (world_of adj_file ids_n (bool_decide (count server_vm "hp" ≠ 0))
  (o_madvise_thp server_vm) vb tx rx ptr mr edges nv caches kern).

Lemma ready_nodup : NoDup (ids base_id ids_n).
Proof. exact (sr_ids _ _ _ _ _ _ _ _ _ _ _ _ _ _ _ _ Hready). Qed.

Lemma ready_length : zlen ids_n = n.
Proof.
  destruct (sr_range _ _ _ _ _ _ _ _ _ _ _ _ _ _ _ _ Hready). unfold zlen, worker_ids.
  rewrite length_fmap, length_seq. lia.
Qed.


Lemma run_ok :
  exists calls, run server_vm adj_file port listener
    = Ok (ServerContext adj_file [] None None (bool_decide (count server_vm "hp" ≠ 0))
            (o_madvise_thp server_vm), calls) ∧ Forall inert calls.
Proof.
  destruct Hready as [_ Hs (_ & _ & _ & _ & Hm) _ _ _ _ Hc _ _ _ _]. unfold run. rewrite Hs.
  unfold as_value. rewrite (bool_decide_true _ Hm). cbn [io_lift]. rewrite !io_bind_ret.
  unfold TEST_Z. rewrite bool_decide_false by apply Hc. cbn [io_lift]. rewrite io_bind_ret.
  rewrite !(issued _ _ _ Hc). eexists. split; [done|]. cbn [app]. by repeat constructor.
Qed.

Lemma run_client_ok :
  run_client vm max_cores
  = Ok (ids_n, fresh_user,
        [GetAddrInfo; CreateEventChannel; CreateId base_id; ResolveAddr base_id]
        ++ (CreateId <$> ids_n)).
Proof.
  destruct Hready as [Hs _ (Hk & Ho & Ht & Hr & _) Hnuma Hn _ _ Hc _ _ _ _]. unfold run_client. rewrite Hs.
  unfold as_value. rewrite !bool_decide_true by done. cbn [io_lift]. rewrite !io_bind_ret, <- Hn.
  assert (Hb : (if bool_decide (count vm "no-numa-bind" ≠ 0) then io_ret ()
    else io_bind (io_lift (do_numa_map n)) (λ _, io_ret ())) = io_ret ()).
  { case_bool_decide as Hnb; [done|]. destruct Hnuma as [?|Hok]; [done|]. by destruct (do_numa_map n). }
  rewrite Hb, io_bind_ret. unfold rc_client_open, TEST_Z. rewrite bool_decide_false by apply Hc.
  rewrite each_issue by (apply Forall_forall; intros; apply Hc).
  rewrite !(issued _ _ _ Hc). cbn [io_lift io_bind io_ret app]. by rewrite app_nil_r.
Qed.

Lemma start_st_other j : j ∈ ids_n → st (start base_id) j = Fresh.
Proof.
  intros Hj. cbn. rewrite decide_False; [done|]. by apply (base_not_other base_id ids_n ready_nodup).
Qed.

Lemma start_world :
  start_session vm server_vm max_cores adj_file port listener
  = Ok (ids_n, world_of (start base_id)).
Proof.
  unfold start_session. destruct run_ok as (calls & -> & Hcalls). rewrite run_client_ok. f_equal. f_equal.
  rewrite (effects_inert _ calls Hcalls). unfold raise. rewrite (raised_inert _ Server calls Hcalls).
  assert (Hids : Forall inert (CreateId <$> ids_n)).
  { apply Forall_forall. intros c (i & -> & _)%list_elem_of_fmap. done. }
  rewrite bind_app, (raised_inert _ Client _ Hids). cbn [mbind list_bind].
  rewrite !raised_quiet by done. rewrite raised_resolve_addr. cbn [app].
  assert (Hcc : zcount (λ id, client_up (st (start base_id) id)) (ids base_id ids_n) = 0).
  { apply zcount_zero. intros j [->|Hj]%elem_of_cons; [cbn; by rewrite decide_True|].
    by rewrite start_st_other. }
  unfold Refinement.world_of. f_equal.
  - cbn [foldl effect]. rewrite (effects_inert _ _ Hids).
    unfold client_of, client_loop_of, client_user_of, client_recvs, client_cq, client_count. rewrite Hcc.
    cbn. by rewrite decide_True.
  - unfold server_of, server_loop_of, server_user_of, server_recvs. cbn. by rewrite decide_True.
  - unfold pool_of, Protocol.ids. rewrite bind_cons.
    assert (Hnil : (ids_n ≫= λ id, stage_events id (st (start base_id) id)) = []).
    { generalize start_st_other. generalize ids_n. intros l. induction l as [|j l IH]; [done|].
      intros Hl. rewrite bind_cons, Hl, IH by set_solver. done. }
    rewrite Hnil. cbn [st start]. rewrite decide_True by done. cbn [stage_events app list_to_set_disj].
    multiset_solver.
Qed.

Notation reaches w tr w' := (steps vm index_file ids_n server_fuel w tr w').

(** Everything a session can reach is the world of a state of the protocol. *)
Lemma reached w0 tr w :
  start_session vm server_vm max_cores adj_file port listener = Ok (ids_n, w0) → reaches w0 tr w →
  ∃ a, w = world_of a ∧ wf base_id ids_n a ∧ work base_id ids_n a + zlen tr ≤ 43 + 7 * n.
Proof.
  intros H0 Hsteps. rewrite start_world in H0. injection H0 as <-.
  pose proof (start_wf base_id ids_n ready_nodup) as Hwf.
  destruct (sr_range _ _ _ _ _ _ _ _ _ _ _ _ _ _ _ _ Hready).
  eapply steps_refine in Hsteps; try done; try apply ready_nodup; try (rewrite ready_length; lia);
    try apply Hready.
  destruct Hsteps as (a & -> & Hwf' & Hw). exists a. split_and!; [done|done|].
  rewrite (start_work base_id ids_n ready_nodup), ready_length in Hw. done.
Qed.

Lemma session_step_ready x a : wf base_id ids_n a →
  step vm index_file ids_n server_fuel x (world_of a)
  = embed adj_file ids_n (bool_decide (count server_vm "hp" ≠ 0)) (o_madvise_thp server_vm) vb tx rx
      ptr mr edges nv caches kern (next base_id ids_n x a).
Proof.
  intros Hwf. destruct (sr_range _ _ _ _ _ _ _ _ _ _ _ _ _ _ _ _ Hready).
  eapply session_step; try done; try apply ready_nodup; try (rewrite ready_length; lia);
    try apply Hready.
Qed.

(** Schedules of the protocol are schedules of the session. *)
Lemma play_reaches tr a a' : wf base_id ids_n a → play base_id ids_n tr a = Some a' →
  reaches (world_of a) tr (world_of a').
Proof.
  revert a. induction tr as [|x tr IH]; intros a Hwf; cbn [play].
  - intros [= <-]. constructor.
  - destruct (next base_id ids_n x a) as [[a1|]|] eqn:E; try done. intros Hp.
    econstructor; [by rewrite session_step_ready, E|]. apply IH; [|done].
    by apply (next_wf base_id ids_n ready_nodup x a).
Qed.

Lemma play_wf tr a a' : wf base_id ids_n a → play base_id ids_n tr a = Some a' → wf base_id ids_n a'.
Proof.
  revert a. induction tr as [|x tr IH]; intros a Hwf; cbn [play]; [by intros [= <-]|].
  destruct (next base_id ids_n x a) as [[a1|]|] eqn:E; try done.
  apply IH. by apply (next_wf base_id ids_n ready_nodup x a).
Qed.

(** ** Theorems *)

(** C6: a session between a client and a server is safe, however the events, the
    messages and the threads of both interleave.  The only steps that can go wrong
    come after the kernel's thread has been joined: the client's polling thread
    printing its summary after the main thread has left [run_client], and the
    server handling a completion after its event loop has destroyed the
    connection.  The kernel is started only when all n+1 connections are
    established, with the address, the key and the number of edges of the region
    that the server registered for its edge file and still holds. *)
Theorem session_safe w0 tr w :
  start_session vm server_vm max_cores adj_file port listener = Ok (ids_n, w0) → reaches w0 tr w →
  (∀ x f, step vm index_file ids_n server_fuel x w = Some (Fault f) →
     app_thread (ep_user (client w)) = Joined
     ∧ ((x = ClientPoller ∧ poller w = Summarise ∧ ep_running (client w) = false)
        ∨ (x = ServerCompletion ∧ base_id ∈ ep_destroyed (server w))))
  ∧ (app_thread (ep_user (client w)) ≠ NotStarted →
     ctx_peer_addr (ep_user (client w)) = mr_addr mr ∧ ctx_peer_rkey (ep_user (client w)) = mr_rkey mr
     ∧ ctx_num_edges (ep_user (client w)) = edges
     ∧ ctx_kernel (ep_user (client w)) = Some kern ∧ ctx_caches (ep_user (client w)) = caches
     ∧ v (ep_user (server w)) = [ptr]
     ∧ (connections <$> s_ctx (ep_loop (client w))) = Some (n + 1)
     ∧ ∃ stop, ctx_app (ep_user (client w)) = Some (Application nv edges stop)).
Proof.
  intros H0 Hr. destruct (reached w0 tr w H0 Hr) as (a & -> & Hwf & _). split.
  - intros x f Hf. rewrite session_step_ready in Hf by done.
    destruct (next base_id ids_n x a) as [[a'|f']|] eqn:E; try done.
    pose proof (wf_base _ _ _ Hwf) as Hb.
    apply next_faults in E as (_ & [(-> & Hp & Hg)|(-> & Hg)]); cbn.
    + rewrite Hp, Hg. auto.
    + rewrite Hg. split; [|right; set_solver]. by destruct (ph a); cbn in Hb; destruct (st a base_id).
  - intros Ht. pose proof (wf_base _ _ _ Hwf) as Hb. cbn in Ht.
    assert (Hcount : client_count ids_n (st a) = n + 1).
    { assert (Hall : zlen (ids base_id ids_n) ≤ client_count ids_n (st a)).
      { unfold client_count. apply zcount_all, forallb_forall. intros j Hj%list_elem_of_In.
        clear Hb. destruct (stage_ok _ _ ready_nodup a j Hwf Hj) as [[_ Hs]|[_ Hs]];
          destruct (ph a); try done; cbn in Hs; by destruct (st a j) as [| | | |[] []|]. }
      pose proof (zcount_bounds (λ id, client_up (st a id)) (ids base_id ids_n)).
      pose proof ready_length. unfold client_count, ids, zlen in *. simpl length in *. lia. }
    destruct (sr_range _ _ _ _ _ _ _ _ _ _ _ _ _ _ _ _ Hready).
    cbn -[client_count]. rewrite Hcount.
    assert (client_began (st a base_id) = true) as -> by (destruct (ph a); try done; by destruct (st a base_id)).
    destruct (ph a); try done; cbn; rewrite u64_id' by lia; split_and!; try done; by eexists.
Qed.

(** C7: every session ends: whatever the order of events, messages and threads, it
    takes at most 43 + 7n steps for n connections of workers, and when no step is
    left the kernel's thread and the completion thread have been joined, the client
    has left its event loop, the server is still in its own and has destroyed the
    connection, and no event and no completion is left unhandled. *)
Theorem session_ends w0 tr w :
  start_session vm server_vm max_cores adj_file port listener = Ok (ids_n, w0) → reaches w0 tr w →
  zlen tr ≤ 43 + 7 * n
  ∧ ((∀ x, step vm index_file ids_n server_fuel x w = None) →
     app_thread (ep_user (client w)) = Joined ∧ comm_threads (ep_user (client w)) = [Joined]
     ∧ poller w = Idle ∧ ep_running (client w) = false ∧ ep_cq (client w) = []
     ∧ ep_running (server w) = true ∧ ep_cq (server w) = [] ∧ base_id ∈ ep_destroyed (server w)
     ∧ pool w = ∅).
Proof.
  intros H0 Hr. destruct (reached w0 tr w H0 Hr) as (a & -> & Hwf & Hw).
  pose proof (work_nonneg base_id ids_n a). split; [lia|].
  intros Hstuck. destruct (progress base_id ids_n ready_nodup a Hwf) as [Hp Hb Ho Hc [Hcs Hss]].
  { intros x. specialize (Hstuck x). rewrite session_step_ready in Hstuck by done.
    by destruct (next base_id ids_n x a) as [[?|?]|]; cbn [embed] in Hstuck. }
  cbn -[pool_of]. rewrite Hp, Hb. unfold client_cq. rewrite Hp, Hcs, Hss. split_and!; try done; [set_solver|].
  unfold pool_of, Protocol.ids. rewrite bind_cons, Hb. cbn.
  replace (ids_n ≫= λ id, stage_events id (st a id)) with (@nil (side * rdma_cm_event)); [done|].
  clear -Ho. induction Ho as [|j l Hj _ IH]; [done|]. by rewrite bind_cons, Hj, <- IH.
Qed.
End sessions.
