(* ===== verification/Witnesses.v ===== *)
(** * Witnesses: the theorems applied to concrete inputs

    A graph of four vertices (0 and 1 joined to 2 and to each other, 3 hanging
    off 2), its index and edges as the server would hold them, and concrete
    instances of every class.  Each lemma applies one theorem of the development
    there. *)

From Stdlib Require Import SpecFloat.
From stdpp Require Import sorting.
From S2P Require Import Prelude Platform StdLib MmapUtil VertexTable Bitmap Stats PackWindow.
From S2P Require Import Engine EdgeEngine Bfs Kcore ConnectedComponents Mis PagerankDelta.
From S2P Require Import Csr GrTools ServerFile Options KernelCtx EndToEnd Analyses Ranks.

#[local] Existing Instances default_build plain_boost plain_os gmap_combinable gmap_ets
  halves_scheduler ready_nic steady_clock.

(** [mmap] of a file always succeeds. *)
Program Definition plain_files : FileMapping := {|
  mmap_file content offset length _ := Some (slice offset length content);
|}.
Next Obligation. done. Qed.
#[local] Existing Instance plain_files.

(** ** The graph *)
Definition demo_offs : list Z := [0; 2; 4; 7].
Definition demo_words : list Z := [1; 2; 0; 2; 0; 1; 3; 2].
Definition demo_idx : list vertex := Vertex <$> demo_offs.
Definition demo_remote : remote_region := Remote 4096 9 demo_words.
Definition demo_ctx : client_context :=
  ClientContext (new_application 4 8) 4096 9
    {| mr_addr := 65536; mr_length := 24; mr_lkey := 7; mr_rkey := 9 |} [101; 102] None None.
Definition demo_garbage : window :=
  Window (replicate 40 (Wr None None 0 0 0 0 0)) (replicate 40 (Sge 0 0 0))
    (replicate 40 (VRange 0 0)).
Definition demo_mem : list Z := replicate 6 5.
Definition demo_empty : Bitmap := Bitmap_new 4 false 0.

(** Checking a property of the four vertices. *)
Lemma forall_four (P : Z → Prop) : P 0 → P 1 → P 2 → P 3 → ∀ v, 0 ≤ v < 4 → P v.
Proof.
  intros H0 H1 H2 H3 v Hv. assert (v = 0 ∨ v = 1 ∨ v = 2 ∨ v = 3) as [->|[->|[->| ->]]] by lia; done.
Qed.

Lemma demo_csr : csr_ok demo_idx 4 8.
Proof. split; try done. by apply forall_four. Qed.

Lemma demo_served : served demo_remote demo_ctx.
Proof. split; try done. repeat constructor; done. Qed.

Lemma demo_engine : engine_ok demo_ctx demo_idx 3 demo_garbage 6.
Proof.
  split; try done; try (simpl; lia).
  - exact demo_csr.
  - by apply forall_four.
Qed.

Lemma demo_cold : caches_coherent demo_ctx demo_idx demo_words.
Proof. intros mgr Hm. unfold demo_ctx in Hm. simpl in Hm. discriminate. Qed.

Lemma demo_run : run_ok demo_remote demo_ctx demo_idx 3 demo_garbage 6 1.
Proof.
  split.
  - exact demo_served.
  - exact demo_engine.
  - done.
  - lia.
  - exact demo_cold.
  - repeat constructor; simpl; lia.
  - done.
Qed.

Definition demo_ops : EngineOps := rdma_ops demo_remote demo_ctx demo_idx 3 demo_garbage 1.
Definition demo_engine_inst : EdgeEngine (EO := demo_ops) :=
  rdma_engine demo_remote demo_ctx demo_idx 3 demo_garbage 6 1 demo_run.
Definition demo_tm : timing := Timing new_stats 0.
Definition demo_cell : eng_cell := EngCell demo_mem demo_tm 0 0.

Lemma demo_bitmap : bm_wf demo_empty ∧ size demo_empty = 4
  ∧ frontier_size demo_empty = comb_new ∧ ∀ v, 0 ≤ v < 4 → bm_get demo_empty v = false.
Proof. apply Bitmap_new_spec; [lia|by eexists]. Qed.

#[local] Existing Instances demo_ops demo_engine_inst.

(** ** Kernels *)
Lemma demo_degrees v :
  0 ≤ v < 4 → get_num_edges v demo_idx 4 8 = Ok (g_deg eng_graph v) ∧ g_deg eng_graph v < 2 ^ 32.
Proof. revert v. by refine (forall_four _ _ _ _ _). Qed.

Lemma demo_edge u v : 0 ≤ u < 4 → v ∈ g_adj eng_graph u → u ∈ g_adj eng_graph v.
Proof.
  intros Hu Hv. assert (Forall (λ u, Forall (λ v, u ∈ g_adj eng_graph v) (g_adj eng_graph u)) (rng 0 4)) as H.
  { by apply (bool_decide_unpack _). }
  rewrite Forall_forall in H. specialize (H u). rewrite elem_of_rng, Forall_forall in H. by apply H.
Qed.

Lemma bfs_correct_witness :
  ∃ st, bfs_kernel 5 0 demo_empty demo_empty (replicate 4 (BfsVertex NULLVERT false)) demo_cell = Ok st
    ∧ distances 0 (vtable st).
Proof.
  destruct demo_bitmap as (Hw & Hs & _ & Hz).
  apply (bfs_correct 5 0 demo_empty demo_empty); try done; try (simpl; lia).
  by refine (forall_four _ _ _ _ _).
Defined.

Lemma kcore_correct_witness :
  ∃ st, kcore_kernel 5 2 demo_idx 8 demo_empty demo_empty (replicate 4 0) demo_cell = Ok st
    ∧ is_core 2 (degree st).
Proof.
  destruct demo_bitmap as (Hw & Hs & _ & Hz).
  apply (kcore_correct 5 2 demo_idx 8 demo_empty demo_empty); try done; try (simpl; lia).
  - intros v w. revert v. refine (forall_four _ _ _ _ _); revert w; by refine (forall_four _ _ _ _ _).
  - exact demo_degrees.
Defined.

Lemma kth_core_membership_correct_witness :
  kth_core_membership 0 [3; 2; 1; 0] 4 2
  = Ok (zcount (λ v, bool_decide (2 ≤ at_ [3; 2; 1; 0] v)) (rng 0 4)).
Proof. by apply (kth_core_membership_correct 0 [3; 2; 1; 0] 4 2). Defined.

(** The first compare-exchange fails because the label was lowered to 4. *)
Definition busy (k : nat) : ConnectedComponents.turn :=
  if decide (k = 0)%nat
  then ConnectedComponents.Turn id (Z.min 4) false
  else quiet_turn.

Lemma update_atomic_min_witness :
  ∃ b id', update_atomic busy 2 3 9 = Ok (b, id') ∧ id' ≤ 9 ∧ id' ≤ 3 ∧ (b = true → id' = 3 ∧ 3 < 9).
Proof.
  apply (update_atomic_min busy 1 3 9). split.
  - intros k x. unfold busy. by case_decide.
  - intros k x. unfold busy. case_decide; simpl; [lia|done].
  - intros k Hk. unfold busy. rewrite decide_False by lia. done.
Defined.

Lemma print_top_n_correct_witness :
  ∃ total non_trivial largest,
    print_top_n [0; 0; 3; 0] 4 = Ok (total, non_trivial, largest)
    ∧ total = zlen (remove_dups [0; 0; 3; 0])
    ∧ non_trivial = zcount (λ x, bool_decide (1 < occ x [0; 0; 3; 0])) (remove_dups [0; 0; 3; 0])
    ∧ (∃ x, x ∈ [0; 0; 3; 0] ∧ occ x [0; 0; 3; 0] = largest)
    ∧ ∀ x, x ∈ [0; 0; 3; 0] → occ x [0; 0; 3; 0] ≤ largest.
Proof. by apply (print_top_n_correct [0; 0; 3; 0] 4). Defined.

Lemma cc_correct_witness :
  ∃ st, cc_kernel 18 demo_empty demo_empty (replicate 4 0) demo_cell = Ok st
    ∧ (∀ v, 0 ≤ v < 4 → 0 ≤ at_ (labels st) v < 4 ∧ rtc ConnectedComponents.edge (at_ (labels st) v) v
         ∧ ∀ u, 0 ≤ u < 4 → rtc ConnectedComponents.edge u v → at_ (labels st) v ≤ u)
    ∧ ((∀ u v, ConnectedComponents.edge u v → ConnectedComponents.edge v u) → ∀ u v, 0 ≤ u < 4 → 0 ≤ v < 4 →
         at_ (labels st) u = at_ (labels st) v ↔ rtc ConnectedComponents.edge u v).
Proof.
  destruct demo_bitmap as (Hw & Hs & Hf & Hz).
  apply (cc_correct (EO := demo_ops) 18 demo_empty demo_empty (replicate 4 0) demo_cell); try done; try (simpl; lia).
Defined.

Lemma mis_correct_witness :
  ∃ st, mis_kernel 9 2 demo_idx 8 demo_empty demo_empty (replicate 4 UNDECIDED) demo_cell = Ok st
    ∧ greedy (ms_flags st)
    ∧ (undirected →
       (∀ v w, 0 ≤ v < 4 → w ∈ g_adj eng_graph v → v ≠ w →
          ¬ (at_ (ms_flags st) v = IN ∧ at_ (ms_flags st) w = IN))
       ∧ ∀ v, 0 ≤ v < 4 → at_ (ms_flags st) v ≠ IN →
           ∃ w, w ∈ g_adj eng_graph v ∧ at_ (ms_flags st) w = IN).
Proof.
  destruct demo_bitmap as (Hw & Hs & _ & Hz).
  apply (mis_correct (EO := demo_ops) 9 2 demo_idx 8 demo_empty demo_empty (replicate 4 UNDECIDED) demo_cell); try done; try (simpl; lia).
  - intros v Hv. by apply demo_degrees.
  - by refine (forall_four _ _ _ _ _).
Defined.

Lemma mis_stalls_witness :
  mis_kernel 1000 25 demo_idx 8 demo_empty demo_empty (replicate 4 UNDECIDED) demo_cell = Fault OutOfFuel.
Proof.
  destruct demo_bitmap as ([Hok _] & Hs & _ & Hz).
  apply (mis_stalls 1000 25 demo_idx 8 demo_empty demo_empty _ _ 0); try done; try (simpl; lia).
  - intros v Hv. by apply demo_degrees.
  - by refine (forall_four _ _ _ _ _).
Defined.

Lemma get_cardinality_correct_witness :
  get_cardinality 0 [IN; OUT; OUT; IN] 4
  = Ok (zcount (λ v, bool_decide (at_ [IN; OUT; OUT; IN] v = IN)) (rng 0 4)).
Proof. by apply (get_cardinality_correct 0 [IN; OUT; OUT; IN] 4). Defined.

(** The residual is changed by another thread before the first exchange. *)
Definition busy_residual (k : nat) : PagerankDelta.turn :=
  if decide (k = 0)%nat then PagerankDelta.Turn (f32_add alpha) false
  else PagerankDelta.Turn id false.

Lemma update_add_atomic_adds_witness :
  ∃ k, (k ≤ 1)%nat ∧ update_add_atomic busy_residual 2 alpha f32_zero
                     = Ok (true, f32_add (residual_at busy_residual k f32_zero) alpha).
Proof.
  apply (update_add_atomic_adds busy_residual 1). intros k Hk.
  unfold busy_residual. by rewrite decide_False by lia.
Defined.

Lemma pagerank_correct_witness :
  ∃ st k init act, pagerank_kernel 5 demo_empty demo_empty (replicate 4 inhabitant) demo_cell = Ok st
    ∧ (k ≤ 4)%nat
    ∧ (∀ v, 0 ≤ v < 4 → at_ init v = PrVertex f32_zero INIT_RESIDUAL f32_zero ∧ act v = true)
    ∧ pr_rounds k init act (vtab st) (bm_get (PagerankDelta.frontier st))
    ∧ (k = 4%nat ∨ ∀ v, 0 ≤ v < 4 → bm_get (PagerankDelta.frontier st) v = false).
Proof.
  destruct demo_bitmap as (Hw & Hs & Hf & Hz).
  apply (pagerank_correct (EO := demo_ops) 5 demo_empty demo_empty (replicate 4 inhabitant) demo_cell); try done; try (simpl; lia).
Defined.

(** ** Index, frontiers, packing *)
Lemma demo_tables n : n ∈ [4; 5] → tables_mapped 4 false n.
Proof.
  intros Hn. apply elem_of_cons in Hn as [-> | Hn];
    [|apply list_elem_of_singleton in Hn as ->];
    (split; [lia|]; split; [lia|]; split; [lia|]; split; by eexists).
Qed.

Lemma index_file_roundtrip_witness :
  get_num_verts (Regular (le_words 8 demo_offs)) = Ok 4
  ∧ get_vertex_table 4 0 (Regular (le_words 8 demo_offs)) 4 false 0 = Ok (demo_idx, [0; 0; 0; 0])
  ∧ (∀ n rest, 4 < n → zlen rest < 8 → tables_mapped 4 false n →
       get_vertex_table 4 0 (Regular (le_words 8 demo_offs ++ rest)) n false 0
       = Fault (Thrown "can't read index data"))
  ∧ ∀ n, get_vertex_table 4 0 Missing n false 0 = Fault (Thrown "file not found").
Proof.
  apply (index_file_roundtrip 4 0 false 0 demo_offs); [by repeat constructor|done|].
  apply demo_tables. compute_done.
Defined.

Lemma out_degrees_correct_witness :
  (∀ v, 0 ≤ v < 4 → get_num_edges v demo_idx 4 8 = Ok (zlen (adj_of demo_idx 8 demo_words v)))
  ∧ (rng 0 4 ≫= adj_of demo_idx 8 demo_words) = slice (off demo_idx 8 0) (8 - off demo_idx 8 0) demo_words
  ∧ ∃ d, get_max_out_degree demo_idx 4 8 = Ok d
      ∧ (∀ v, 0 ≤ v < 4 → zlen (adj_of demo_idx 8 demo_words v) ≤ d)
      ∧ ∃ v, 0 ≤ v < 4 ∧ zlen (adj_of demo_idx 8 demo_words v) = d.
Proof. by apply (out_degrees_correct demo_idx 4 8 demo_words demo_csr). Defined.

Lemma set_bits_any_order_witness :
  let l := [(0%nat, 3); (1%nat, 1); (0%nat, 1)] in
  ∃ b', set_bits l demo_empty = Ok b' ∧ bm_wf b'
    ∧ let mem j := bool_decide (j ∈ l.*2) || bm_get demo_empty j in
      (∀ j, 0 ≤ j < 4 → get_bit b' j = Ok (if mem j then 2 ^ (j mod 64) else 0))
    ∧ num_set b' = zcount mem (rng 0 4)
    ∧ (is_empty b' = true ↔ ∀ j, 0 ≤ j < 4 → mem j = false)
    ∧ ∀ l', l'.*2 ≡ₚ l.*2 →
        ∃ b2, set_bits l' demo_empty = Ok b2 ∧ bm_wf b2 ∧ b2 ≡ b' ∧ num_set b2 = num_set b'.
Proof.
  intros l. apply (set_bits_any_order l demo_empty); [apply demo_bitmap|].
  intros ti Hti. simpl. assert (Forall (λ ti : nat * Z, 0 ≤ ti.2 < 4) l) as H by (repeat constructor; simpl; lia).
  rewrite Forall_forall in H. by apply H.
Defined.

Lemma frontier_fill_correct_witness :
  (bm_wf demo_empty ∧ is_empty demo_empty = true ∧ ∀ i, 0 ≤ i < 4 → get_bit demo_empty i = Ok 0)
  ∧ (∃ b', clear 0 demo_empty = Ok b' ∧ bm_wf b' ∧ is_empty b' = true
       ∧ ∀ i, 0 ≤ i < 4 → get_bit b' i = Ok 0)
  ∧ ∃ b', set_all 0 0 demo_empty = Ok b' ∧ bm_wf b' ∧ num_set b' = 4
       ∧ ∀ i, 0 ≤ i < 4 → get_bit b' i = Ok (2 ^ (i mod 64)).
Proof.
  apply (frontier_fill_correct 4 false 0 0 0 demo_empty); [lia|by eexists|apply demo_bitmap|done].
Defined.

Lemma demo_pack : pack_ok demo_ctx 0 demo_idx 3 demo_mem.
Proof. by apply (engine_pack_ok _ _ _ _ _ demo_engine 0 demo_mem); simpl; [lia|]. Qed.

(** The frontier of the vertices 0 and 3. *)
Definition demo_front : Bitmap :=
  match set_bits [(0%nat, 0); (1%nat, 3)] demo_empty with Ok b => b | Fault _ => demo_empty end.

Lemma demo_front_ok : bm_wf demo_front ∧ size demo_front = 4.
Proof.
  unfold demo_front. destruct (set_bits_spec [(0%nat, 0); (1%nat, 3)] demo_empty) as (b & -> & Hw & Hs & _);
    [apply demo_bitmap| |by split].
  intros ti Hti. assert (Forall (λ ti : nat * Z, 0 ≤ ti.2 < size demo_empty) [(0%nat, 0); (1%nat, 3)]) as H
    by (repeat constructor; simpl; lia).
  rewrite Forall_forall in H. by apply H.
Qed.

Lemma pack_window_correct_witness :
  ∃ v p gs, pack_window demo_ctx 0 0 3 demo_idx 0 4 demo_front demo_garbage demo_mem demo_tm
              = Ok (v, p, count_sends 0 p demo_tm)
    ∧ pack_result demo_ctx 0 demo_idx 3 demo_mem (bm_get demo_front) 0 4 v gs p ∧ (0 < 4 → 0 < v).
Proof.
  destruct demo_front_ok as ([Hok _] & Hs).
  apply (pack_window_correct demo_ctx 0 demo_idx 3 demo_mem demo_pack demo_garbage 0 4);
    done || (simpl; lia).
Defined.

Lemma pack_window2_correct_witness :
  ∃ v p gs, pack_window2 demo_ctx 0 0 3 demo_idx 0 4 demo_garbage demo_mem 0 0 demo_tm
              = Ok (v, p, zlen (members gs), count_sends 0 p demo_tm)
    ∧ pack_result demo_ctx 0 demo_idx 3 demo_mem (λ _, true) 0 4 v gs p ∧ (0 < 4 → 0 < v).
Proof.
  apply (pack_window2_correct demo_ctx 0 demo_idx 3 demo_mem demo_pack demo_garbage 0 4);
    done || (simpl; lia).
Defined.

(** A client that notes the vertices it is called on, and its invariant. *)
Definition note (t : nat) (v : Z) (edges : list Z) (m : Z) (u : list (Z * list Z))
    : result (list (Z * list Z)) := Ok ((v, edges) :: u).
Definition noted (dn : list Z) (u : list (Z * list Z)) : Prop :=
  u = (λ v, (v, adj_of demo_idx 8 demo_words v)) <$> dn.

(** A cache that holds vertex 0. *)
Definition demo_cached : client_context :=
  ClientContext (app demo_ctx) 4096 9 (heap_mr demo_ctx) (cm_ids demo_ctx) None
    (Some {| is_vertex_exist v := bool_decide (v = 0); get_neighbors _ := [1; 2]; get_out_degree _ := 2 |}).

Lemma demo_cached_coherent : caches_coherent demo_cached demo_idx demo_words.
Proof. intros mgr [= <-] v Hv. simpl in Hv. apply bool_decide_eq_true in Hv as ->. done. Qed.

Lemma cache_pack_window_correct_witness :
  ∃ v p tm' u' gs,
    cache_pack_window note demo_cached 0 0 3 demo_idx 0 4 demo_front demo_garbage demo_mem demo_tm []
      = Ok (v, p, tm', u')
    ∧ pack_result demo_cached 0 demo_idx 3 demo_mem
        (λ v, bm_get demo_front v && negb (in_cache demo_cached v)) 0 4 v gs p ∧ (0 < 4 → 0 < v)
    ∧ noted (reverse (filter (λ v, bm_get demo_front v = true ∧ in_cache demo_cached v = true) (rng 0 v))
             ++ []) u'.
Proof.
  destruct demo_front_ok as ([Hok _] & Hs).
  assert (Hp : pack_ok demo_cached 0 demo_idx 3 demo_mem) by (destruct demo_pack; by split).
  apply (cache_pack_window_correct demo_cached 0 demo_idx 3 demo_mem Hp demo_garbage 0 4
    ltac:(lia) ltac:(done) ltac:(done) ltac:(done) ltac:(done) note noted demo_words); try done.
  - exact demo_cached_coherent.
  - intros t v dn u Hv _ Hn ->. by eexists.
  - intros x Hx. by apply elem_of_nil in Hx.
Defined.

(** ** The engines *)
Lemma note_ok act : client_ok demo_remote note demo_ctx demo_idx act noted.
Proof. intros t v dn u Hv _ Hn ->. by eexists. Qed.

Lemma demo_queue : queue_drains 1.
Proof. intros k. exists 0%nat. split; [lia|]. split; [done|]. lia. Qed.

Definition demo_estate : @estate _ (list (Z * list Z)) := EState demo_mem demo_tm 0 0 [].

Lemma ccy_engine_correct_witness :
  ∃ e' l, ccy_for_each_active_batch demo_remote note 1 0 demo_ctx demo_idx demo_garbage 3 demo_front 0 4
            demo_estate = Ok e'
    ∧ zlen (e_mem e') = 6 ∧ covers (active_in demo_front 0 4) (deg demo_idx 8) (rng 0 4) l
    ∧ noted l (e_user e').
Proof.
  destruct demo_front_ok as ([Hok _] & Hs).
  apply (ccy_engine_correct demo_remote note demo_ctx demo_idx 3 demo_garbage 6 noted demo_served
    demo_engine 1 demo_front 0 0 4 demo_estate); try done.
  - exact demo_queue.
  - apply note_ok.
Defined.

Lemma range_engine_correct_witness :
  ∃ e' l, for_each_range demo_remote note 0 demo_ctx demo_idx demo_garbage 3 0 4 demo_estate = Ok e'
    ∧ zlen (e_mem e') = 6 ∧ covers (linked_in demo_ctx demo_idx 0 4) (deg demo_idx 8) (rng 0 4) l
    ∧ noted l (e_user e').
Proof.
  apply (range_engine_correct demo_remote note demo_ctx demo_idx 3 demo_garbage 6 noted demo_served
    demo_engine 0 0 4 demo_estate); try done.
  apply note_ok.
Defined.

Lemma workers_isolated_witness :
  ∃ e', worker_loop demo_remote note (λ buf0 next w mem tm u,
          '(v, p, tm, u) ←
            cache_pack_window note demo_ctx 1 buf0 3 demo_idx next 4 demo_front w mem tm u;
          Ok (v, p, clocked PackWindowTime 1 tm, u))
        (λ p, bool_decide (0 < pk_wrs p)) (post_retry 1) demo_ctx demo_idx demo_garbage 3 1 2 4 demo_estate
      = Ok e'
    ∧ ∀ t', (t' < 2)%nat → t' ≠ 1%nat →
        slice (Z.of_nat t' * 3) 3 (e_mem e') = slice (Z.of_nat t' * 3) 3 (e_mem demo_estate).
Proof.
  destruct demo_front_ok as ([Hok _] & Hs).
  apply (workers_isolated demo_remote note demo_ctx demo_idx 3 demo_garbage 6 noted demo_served
    demo_engine 1 demo_front 1 2 4 demo_estate); try done; try (simpl; lia).
  - exact demo_queue.
  - apply note_ok.
Defined.

Lemma demo_window : ∃ gs p, packed demo_ctx 0 demo_idx demo_mem gs p ∧ total_edges p ≤ 3
  ∧ gs ≠ [] ∧ NoDup (members gs).
Proof.
  destruct (pack_window2_spec demo_ctx 0 demo_idx 3 demo_mem demo_pack demo_garbage 0 4) with
    (t := 0%nat) (tm := demo_tm) as (v & p & gs & _ & Hr); try done; try lia.
  pose proof (pack_progress _ _ _ _ _ demo_pack _ _ _ _ _ _ Hr ltac:(lia) ltac:(done)).
  destruct Hr as [Hv Hp Hm Ht _ _]. exists gs, p. split; [done|]. split; [done|].
  rewrite Hm. split; [|apply NoDup_filter, NoDup_rng].
  intros ->. assert (0 ∈ wanted demo_ctx demo_idx (λ _, true) 0 v) as Hin.
  { unfold wanted. rewrite list_elem_of_filter, elem_of_rng. split; [done|lia]. }
  rewrite <- Hm in Hin. by apply elem_of_nil in Hin.
Qed.

Lemma window_drained_correctly_witness :
  ∃ gs p words d, packed demo_ctx 0 demo_idx demo_mem gs p
    ∧ posted_words demo_remote demo_ctx (pk_win p) = Ok words
    ∧ drain note demo_ctx demo_idx 0 (pk_win p) (pk_wrs p)
        (Drain (Flight (pk_mem p) words 0) 0 demo_tm []) = Ok d
    ∧ noted (reverse (members gs) ++ []) (d_user d)
    ∧ ∀ i, 0 ≤ i → ¬ (0 ≤ i < 0 + total_edges p) → at_ (f_mem (d_flight d)) i = at_ demo_mem i.
Proof.
  destruct demo_window as (gs & p & Hp & Ht & Hgs & Hnd). exists gs, p.
  destruct (window_drained_correctly demo_remote note demo_ctx demo_idx 3 (λ _, true) noted demo_served
    (note_ok _) 0 demo_mem demo_pack gs p Hp Ht 0 0 demo_tm [] []) as (words & d & H); try done.
  - intros v _. apply not_elem_of_nil.
  - by exists words, d.
Defined.

(** ** Context, server, options *)
Definition demo_vm : variables_map := {|
  present := ["mode"; "threads"; "cache_ratio"; "cache_file_path"]; o_mode := "client"; o_kernel := "bfs";
  o_cache_file_path := "/data/g.bin_cache"; o_indexfile := "g.idx"; o_edgefile := "g.adj";
  o_threads := 2; o_cache_ratio := SpecFloat.S754_finite false 1 (-1); o_kcore_k := 2; o_delta := 2;
  o_start_vertex := 0; o_edgewindow := 1; o_madvise_thp := 0 |}%string.

Definition demo_vm0 : variables_map := {|
  present := ["mode"; "threads"; "cache_ratio"]; o_mode := "clint"; o_kernel := "bfs"; o_cache_file_path := "";
  o_indexfile := "g.idx"; o_edgefile := "g.adj"; o_threads := default_threads;
  o_cache_ratio := SpecFloat.S754_zero false; o_kcore_k := 2; o_delta := 2; o_start_vertex := 0;
  o_edgewindow := 1; o_madvise_thp := 0 |}%string.

Lemma main_mode_witness :
  main demo_vm0 = if bool_decide ("mode"%string ∈ present demo_vm0)
            then if SpecFloat.SFltb cache_ratio_min (o_cache_ratio demo_vm0)
                    && bool_decide ("cache_file_path"%string ∉ present demo_vm0)
                 then Fault (Thrown "cache_file_path")
                 else Ok (if bool_decide (o_mode demo_vm0 = "client"%string) then RunClient else RunServer)
            else Fault (Thrown "bad_any_cast").
Proof.
  apply (main_mode demo_vm0); compute_done.
Defined.

Lemma choose_cache_correct_witness :
  (choose_cache demo_vm = Ok BinCache ↔ ∃ p, o_cache_file_path demo_vm = (p ++ ".bin_cache")%string)
  ∧ (choose_cache demo_vm = Ok OriginalCache ↔ ∃ p, o_cache_file_path demo_vm = (p ++ ".cache")%string)
  ∧ (choose_cache demo_vm = Ok Unset ↔ ∀ p, o_cache_file_path demo_vm ≠ (p ++ ".bin_cache")%string
                                       ∧ o_cache_file_path demo_vm ≠ (p ++ ".cache")%string).
Proof.
  apply (choose_cache_correct demo_vm); [by apply (bool_decide_unpack _)..|done].
Defined.

Lemma get_edge_list_correct_witness :
  (∃ region mr, get_edge_list 2 (Regular (le_words 4 demo_words ++ [1])) false 0 = Ok (region, mr, 8)
     ∧ mr_addr mr = map_base ∧ mr_length mr = 32 ∧ region_mr region = mr
     ∧ slice 0 8 (region_words region) = demo_words)
  ∧ get_edge_list 2 Missing false 0 = Fault (Thrown ".adj file not found").
Proof.
  by apply (get_edge_list_correct 2 demo_words [1] 0); try done; repeat constructor.
Defined.

Lemma demo_loads vm : flag_set vm "hp" = false → o_madvise_thp vm = 0 →
  index_loads 4 0 vm (Regular (le_words 8 demo_offs)) 4 8 demo_idx.
Proof.
  intros Hhp Hthp. unfold index_loads. rewrite Hhp, Hthp.
  split; [done|]. split; [|exact demo_csr].
  rewrite get_vertex_table_content by (lia || apply demo_tables; compute_done). vm_compute. done.
Qed.

Lemma demo_max : max_degree demo_idx 4 8 3.
Proof. split; [by refine (forall_four _ _ _ _ _)|by exists 2]. Qed.

Lemma demo_stored vm : present vm = present demo_vm ∨ present vm = present demo_vm0 → stored vm.
Proof.
  intros H o Ho. assert (Forall (λ o, o ∈ declared) (present vm)) as Hf.
  { destruct H as [-> | ->]; by apply (bool_decide_unpack _). }
  rewrite Forall_forall in Hf. by apply Hf.
Qed.

Lemma generic_ctx_correct_witness :
  ∃ g, new_Generic_ctx 4 0 demo_vm (Regular (le_words 8 demo_offs)) 8 SINGLE = Ok g
    ∧ gc_num_vertices g = 4 ∧ gc_index g = demo_idx ∧ gc_num_edges g = 8
    ∧ gc_table g = replicate 4 0 ∧ gc_edge_buf_size g = 3
    ∧ engine_ok (worker_context g 4096 9 [101; 102] None None) demo_idx 3 demo_garbage
        (zlen (region_words (RDMA_window g)))
    ∧ (bm_wf (frontierA g) ∧ size (frontierA g) = 4 ∧ is_empty (frontierA g) = true)
    ∧ (bm_wf (frontierB g) ∧ size (frontierB g) = 4 ∧ is_empty (frontierB g) = true).
Proof.
  apply (generic_ctx_correct 4 0 demo_vm (Regular (le_words 8 demo_offs)) demo_idx 4 8 3
    (demo_stored demo_vm ltac:(by left)) (demo_loads demo_vm eq_refl eq_refl) ltac:(lia) demo_max
    demo_garbage 4096 9 [101; 102] None None); try done; try (simpl; lia).
Defined.

Lemma default_threads_fail_witness :
  new_Generic_ctx 4 0 demo_vm0 (Regular (le_words 8 demo_offs)) 8 SINGLE = Fault (Thrown "ibv_reg_mr failed")
  ∧ ∀ cores, num_connections (o_threads demo_vm0) cores = cores.
Proof.
  by apply (default_threads_fail 4 0 demo_vm0 (Regular (le_words 8 demo_offs)) demo_idx 4 8 3
    (demo_stored demo_vm0 ltac:(by right)) (demo_loads demo_vm0 eq_refl eq_refl) ltac:(lia) demo_max SINGLE).
Defined.

(** ** Tools *)
Lemma fg2gr_correct_witness :
  ∃ gr, fg2gr (Regular (le_words 8 demo_offs)) (Regular (le_words 4 demo_words)) = Ok gr
    ∧ gr = gr_bytes ([2; 4; 7] ++ [zlen demo_words]) demo_words ∧ (8 | zlen gr).
Proof. apply (fg2gr_correct 0 [2; 4; 7] demo_words); done || (repeat constructor; done). Defined.

Lemma compare_gr_correct_witness :
  compare_gr (Regular (gr_bytes [2; 3] [1; 0; 1])) (Regular (gr_bytes [2; 3] [1; 1; 1]))
  = Ok (Some (diffs 0 [2; 3] [2; 3], diffs 0 [1; 0; 1] [1; 1; 1]))
  ∧ (diffs 0 [2; 3] [2; 3] = [] ∧ diffs 0 [1; 0; 1] [1; 1; 1] = [] ↔ [2; 3] = [2; 3] ∧ [1; 0; 1] = [1; 1; 1]).
Proof. apply (compare_gr_correct [2; 3] [1; 0; 1] [2; 3] [1; 1; 1]); done || (repeat constructor; done). Defined.

Lemma compare_headers_accepts_witness :
  ∃ sA sB, compare_headers (gr_bytes [2; 3] [1; 0; 1]) (gr_bytes [1] [0]) = Ok (true, 2, 3, sA, sB).
Proof. by apply (compare_headers_accepts [2; 3] [1; 0; 1] [1] [0]). Defined.

(** The last vertex has the largest degree, four, and is not seen. *)
Lemma max_degree_tools_correct_witness :
  memusage_max_degree (Regular (le_words 8 [0; 2; 3])) = Ok 2
  ∧ maxd_max_degree (Regular (le_words 8 [0; 2; 3])) = Fault DivByZero
  ∧ ∀ v, 0 ≤ v < 2 → deg (Vertex <$> [0; 2; 3]) 7 v ≤ 2.
Proof.
  apply (max_degree_tools_correct [0; 2; 3] 7); [|done].
  split; [done|]. split; repeat constructor; done.
Defined.

(** ** From the text to the result: the edges "0 1", "1 2", "0 2", "2 3" *)
Definition demo_text : list Z :=
  [48; 32; 49; 10; 49; 32; 50; 10; 48; 32; 50; 10; 50; 32; 51; 10].
Definition demo_edges : list (Z * Z) :=
  [(0, 1); (1, 0); (1, 2); (2, 1); (0, 2); (2, 0); (2, 3); (3, 2)].

Lemma demo_sizes : sizes demo_edges 3 3.
Proof.
  split; try done.
  - intros u Hu. assert (0 ≤ u < 4) as Hu' by lia. clear Hu. revert u Hu'. by refine (forall_four _ _ _ _ _).
  - split; [by exists 2|done].
Qed.

Lemma demo_deployment_posts sizeof_V post_fuel :
  (0 < post_fuel)%nat → sizeof_V ∈ [1; 4; 8; 12] →
  deployment sizeof_V demo_vm [101; 102] demo_garbage post_fuel 2 4 8 3.
Proof.
  intros Hp Hs. split; try done; try (simpl; lia).
  - by apply demo_stored; left.
  - rewrite !elem_of_cons, elem_of_nil in Hs. destruct Hs as [-> |[-> |[-> |[-> |[]]]]];
      (split; [split; [lia|]; split; [done|]; split; [done|]; split; by eexists|by eexists|split; by eexists]).
Qed.

Lemma demo_deployment sizeof_V :
  sizeof_V ∈ [1; 4; 8; 12] → deployment sizeof_V demo_vm [101; 102] demo_garbage 1 2 4 8 3.
Proof. by apply demo_deployment_posts, Nat.lt_0_1. Qed.

Lemma bfs_end_to_end_witness :
  ∃ files remote table, encode false true false demo_text = Ok files
    ∧ announce 2 (Regular (adj_file files)) 0 = Ok (remote, 8)
    ∧ run_bfs demo_vm (Regular (idx_file files)) [101; 102] demo_garbage demo_tm 1 5 remote 8 = Ok table
    ∧ ∀ u, 0 ≤ u ≤ 3 →
        (parent (at_ table u) = NULLVERT ∧ ∀ k, ¬ path demo_edges 0 k u)
        ∨ ∃ k, parent (at_ table u) = Z.of_nat k ∧ shortest demo_edges 0 k u.
Proof.
  destruct (bfs_end_to_end false true demo_text demo_vm [101; 102] demo_garbage demo_tm 1 2 5)
    as (v & m & E & H).
  assert (read_edges false true demo_text = Ok (demo_edges, 3)) as E' by (vm_compute; done).
  rewrite E' in E. injection E as <- <-. apply (H 3); [exact demo_sizes| |simpl; lia|simpl; lia].
  apply demo_deployment. compute_done.
Defined.

Lemma kcore_end_to_end_witness :
  ∃ files remote table, encode false true false demo_text = Ok files
    ∧ announce 2 (Regular (adj_file files)) 0 = Ok (remote, 8)
    ∧ run_kcore demo_vm (Regular (idx_file files)) [101; 102] demo_garbage demo_tm 1 5 remote 8 = Ok table
    ∧ dense demo_edges 3 2 (λ u, bool_decide (2 ≤ at_ table u))
    ∧ ∀ T, dense demo_edges 3 2 T → ∀ u, 0 ≤ u ≤ 3 → T u = true → 2 ≤ at_ table u.
Proof.
  destruct (kcore_end_to_end false demo_text demo_vm [101; 102] demo_garbage demo_tm 1 2 5)
    as (v & m & E & H).
  assert (read_edges false true demo_text = Ok (demo_edges, 3)) as E' by (vm_compute; done).
  rewrite E' in E. injection E as <- <-. apply (H 3); [exact demo_sizes| |simpl; lia].
  apply demo_deployment. compute_done.
Defined.

Lemma cc_end_to_end_witness :
  ∃ files remote table, encode false true false demo_text = Ok files
    ∧ announce 2 (Regular (adj_file files)) 0 = Ok (remote, 8)
    ∧ run_cc demo_vm (Regular (idx_file files)) [101; 102] demo_garbage demo_tm 1 20 remote 8 = Ok table
    ∧ (∀ u, 0 ≤ u ≤ 3 → 0 ≤ at_ table u ≤ 3 ∧ connected demo_edges (at_ table u) u
         ∧ ∀ x, 0 ≤ x ≤ 3 → connected demo_edges x u → at_ table u ≤ x)
    ∧ (true = true → ∀ u w, 0 ≤ u ≤ 3 → 0 ≤ w ≤ 3 →
         at_ table u = at_ table w ↔ connected demo_edges u w).
Proof.
  destruct (cc_end_to_end false true demo_text demo_vm [101; 102] demo_garbage demo_tm 1 2 20)
    as (v & m & E & H).
  assert (read_edges false true demo_text = Ok (demo_edges, 3)) as E' by (vm_compute; done).
  rewrite E' in E. injection E as <- <-. apply (H 3); [exact demo_sizes| |simpl; lia].
  apply demo_deployment. compute_done.
Defined.

Lemma mis_end_to_end_witness :
  ∃ files remote table, encode false true false demo_text = Ok files
    ∧ announce 2 (Regular (adj_file files)) 0 = Ok (remote, 8)
    ∧ run_mis demo_vm (Regular (idx_file files)) [101; 102] demo_garbage demo_tm 1 9 remote 8 = Ok table
    ∧ (∀ u, 0 ≤ u ≤ 3 → at_ table u = IN ↔ ∀ w, (u, w) ∈ demo_edges → w < u → at_ table w ≠ IN)
    ∧ (∀ u w, (u, w) ∈ demo_edges → u ≠ w → ¬ (at_ table u = IN ∧ at_ table w = IN))
    ∧ ∀ u, 0 ≤ u ≤ 3 → at_ table u = IN
        ∨ at_ table u = OUT ∧ ∃ w, (u, w) ∈ demo_edges ∧ at_ table w = IN.
Proof.
  destruct (mis_end_to_end false demo_text demo_vm [101; 102] demo_garbage demo_tm 1 2 9)
    as (v & m & E & H).
  assert (read_edges false true demo_text = Ok (demo_edges, 3)) as E' by (vm_compute; done).
  rewrite E' in E. injection E as <- <-. apply (H 3); [exact demo_sizes| |done|done|simpl; lia].
  apply demo_deployment. compute_done.
Defined.

Lemma pagerank_end_to_end_witness :
  ∃ files remote table ranks, encode false true false demo_text = Ok files
    ∧ announce 2 (Regular (adj_file files)) 0 = Ok (remote, 8)
    ∧ run_pagerank demo_vm (Regular (idx_file files)) [101; 102] demo_garbage demo_tm 1 5 remote 8
      = Ok (table, ranks)
    ∧ (∃ k init act act', (k ≤ 4)%nat
         ∧ (∀ u, 0 ≤ u ≤ 3 → at_ init u = PrVertex f32_zero INIT_RESIDUAL f32_zero ∧ act u = true)
         ∧ rounds_of (rank_round demo_edges 3) k init act table act'
         ∧ (k = 4%nat ∨ ∀ u, 0 ≤ u ≤ 3 → act' u = false))
    ∧ text_ranks 3 table ranks.
Proof.
  destruct (pagerank_end_to_end false true demo_text demo_vm [101; 102] demo_garbage demo_tm 1 2 5)
    as (v & m & E & H).
  assert (read_edges false true demo_text = Ok (demo_edges, 3)) as E' by (vm_compute; done).
  rewrite E' in E. injection E as <- <-. apply (H 3); [exact demo_sizes| |simpl; lia].
  apply demo_deployment. compute_done.
Defined.

Lemma demo_text_edges : edges_of_text demo_text [(0, 1); (1, 2); (0, 2); (2, 3)].
Proof.
  repeat (eapply text_edge; [apply extract_u32_number; vm_compute; reflexivity..|]).
  apply text_end. by intros ???? H%extract_u32_number.
Qed.

Lemma encode_roundtrip_witness :
  (∀ es, edges_of_text demo_text es → es = [(0, 1); (1, 2); (0, 2); (2, 3)])
  ∧ ∃ files, encode false true false demo_text = Ok files
    ∧ loads_as 4 0 false 0 files 4 (adjacency demo_edges).
Proof.
  destruct (encode_roundtrip 4 0 false 0 false true demo_text)
    as (es & v & m & _ & Hes & _ & _ & _ & E & _ & H).
  assert (read_edges false true demo_text = Ok (demo_edges, 3)) as E' by (vm_compute; done).
  rewrite E' in E. injection E as <- <-. split.
  - intros es' Hes'. rewrite (Hes _ Hes'). symmetry. apply Hes, demo_text_edges.
  - apply H; [done|done| |apply demo_tables; compute_done].
    intros u Hu. pose proof (sz_degrees _ _ _ demo_sizes u Hu). lia.
Defined.
