(* ===== verification/ConcurrentWitnesses.v ===== *)
(** * ConcurrentWitnesses: the kernels with racing workers on a concrete graph

    The theorems about interleaved workers at the graph of [Witnesses], and rounds
    of two workers under concrete schedules. *)

From Stdlib Require Import SpecFloat.
From S2P Require Import Prelude Platform StdLib MmapUtil VertexTable Bitmap Stats PackWindow.
From S2P Require Import Engine EdgeEngine.
From S2P Require Import Interleaving Workers Bfs BfsConcurrent Kcore KcoreConcurrent.
From S2P Require Import ConnectedComponents CcConcurrent Mis MisConcurrent.
From S2P Require Import PagerankDelta PagerankConcurrent Witnesses.

#[local] Existing Instances default_build plain_boost plain_os gmap_combinable gmap_ets
  halves_scheduler ready_nic steady_clock plain_files demo_ops demo_engine_inst.

(** ** The kernels *)
Lemma bfs_concurrent_witness :
  ∃ st, bfs_enter 0 demo_empty demo_empty (replicate 4 (BfsVertex NULLVERT false)) demo_cell = Ok st
    ∧ ends bfs_stop bfs_tasks bfs_open bfs_close (λ st', distances 0 (vtable st')) (Head st).
Proof.
  destruct demo_bitmap as (Hw & Hs & _ & Hz). apply (bfs_concurrent 0). split; try done.
  split; [done|]. by refine (forall_four _ _ _ _ _).
Defined.

Lemma kcore_concurrent_witness :
  ∃ st, kcore_enter 2 demo_idx 8 demo_empty demo_empty (replicate 4 0) demo_cell = Ok st
    ∧ ends kcore_stop (kcore_tasks 2) kcore_open kcore_close (λ st', is_core 2 (degree st')) (Head st).
Proof.
  destruct demo_bitmap as (Hw & Hs & _ & Hz). apply (kcore_concurrent 2).
  - intros v w. revert v. refine (forall_four _ _ _ _ _); revert w; by refine (forall_four _ _ _ _ _).
  - split; try done. exact demo_degrees.
Defined.

Lemma cc_concurrent_witness :
  ∃ st, cc_enter demo_empty demo_empty (replicate 4 0) demo_cell = Ok st
    ∧ ends cc_stop (cc_tasks 6) cc_open cc_close (λ m, components (labels m.1)) (Head (st, [false; true])).
Proof.
  destruct demo_bitmap as (Hw & Hs & Hf & Hz).
  apply (cc_concurrent 6 [false; true]); [|simpl; lia]. by split.
Defined.

Lemma mis_concurrent_witness :
  ∃ delta st, mis_enter 2 demo_idx 8 demo_empty demo_empty (replicate 4 UNDECIDED) demo_cell = Ok (delta, st)
    ∧ ends mis_stop mis_tasks mis_open (mis_close delta)
        (λ p, ∃ st', p = MisConcurrent.At_test st' ∧ maximal_independent (ms_flags st'))
        (Head (MisConcurrent.At_test st)).
Proof.
  destruct demo_bitmap as (Hw & Hs & _ & Hz). apply (mis_concurrent 2). split; try done.
  - intros v Hv. by apply demo_degrees.
  - split; [done|]. by refine (forall_four _ _ _ _ _).
Defined.

Lemma pagerank_concurrent_witness :
  ∃ st, pagerank_enter demo_empty demo_empty (replicate 4 inhabitant) demo_cell = Ok st ∧ initial st
    ∧ ends pagerank_stop (pagerank_tasks 11) pagerank_open pagerank_close
        (λ p, ∃ st' o k, p = PagerankConcurrent.At_test st' o ∧ (k ≤ 4)%nat
           ∧ rounds_of async_round k (vtab st) (bm_get (PagerankDelta.frontier st))
               (vtab st') (bm_get (PagerankDelta.frontier st'))
           ∧ (k = 4%nat ∨ ∀ v, 0 ≤ v < 4 → bm_get (PagerankDelta.frontier st') v = false))
        (Head (PagerankConcurrent.At_test st [true; true])).
Proof.
  destruct demo_bitmap as (Hw & Hs & Hf & Hz).
  apply (pagerank_concurrent (EO := demo_ops) 11 [true; true]); [|vm_compute; lia]. by split.
Defined.

(** ** Schedules *)

(** What a schedule leaves behind, and whether all workers are done. *)
Definition observe {S A} (schedule : list nat) (c : cfg S) (view : S → A) : result (A * bool) :=
  (λ c : cfg S, (view (shared c), finished c)) <$> interleave schedule c.

(** Workers 0 and 1 push vertices 0 and 1, which are both joined to 2.  Worker 1
    reads the vertex as not visited before worker 0 claims it, and loses the
    exchange. *)
Definition demo_claim : cfg (list bfs_vertex * Bitmap) :=
  Cfg ([BfsVertex 1 true; BfsVertex 1 true; BfsVertex NULLVERT false; BfsVertex NULLVERT false], demo_empty)
    [BfsConcurrent.push_edge 2 0 2; BfsConcurrent.push_edge 2 1 2].

Example both_see_it_unvisited :
  observe [1; 0; 0; 1; 0; 0; 0; 0]%nat demo_claim (λ s, (parent <$> s.1, bm_get s.2 2))
  = Ok ([1; 1; 2; NULLVERT], true, true).
Proof. by vm_compute. Qed.

(** Worker 0 offers 1 to a vertex labelled 5, worker 1 offers 0; worker 0 has read 5
    when worker 1 writes 0, and gives up after its exchange failed. *)
Definition demo_offer : cfg (CcConcurrent.table * Bitmap) :=
  Cfg (CcConcurrent.Table [0; 1; 5; 3] [], demo_empty)
    [CcConcurrent.push_edge 4 1 0 2; CcConcurrent.push_edge 4 0 1 2].

Example smaller_offer_wins :
  observe [0; 0; 1; 1; 1; 0; 0; 1; 1; 1]%nat demo_offer (λ s, (ids s.1, bm_get s.2 2)) = Ok ([0; 1; 0; 3], true, true).
Proof. by vm_compute. Qed.

(** The counter of vertex 2 is at 3 when two workers subtract; one of them sees 2 and
    puts the vertex into the frontier. *)
Definition demo_subtract : cfg (list Z * Bitmap) :=
  Cfg ([2; 2; 3; 1], demo_empty) [KcoreConcurrent.push_edge 2 0 2; KcoreConcurrent.push_edge 2 1 2].

Example one_sees_the_threshold :
  observe [1; 0; 0; 0; 0]%nat demo_subtract (λ s, (s.1, bm_get s.2 2, num_set s.2)) = Ok ([2; 2; 1; 1], true, 1, true).
Proof. by vm_compute. Qed.

(** Two workers set the same bit at the same time: one of them finds it unset. *)
Definition demo_collide : cfg (unit * Bitmap) :=
  Cfg ((), demo_empty) [_ ← set_bit_c 0 1; mret (); _ ← set_bit_c 1 1; mret ()].

Example one_collision :
  observe [0; 1; 1; 0]%nat demo_collide (λ s, (num_set s.2, no_collide_count s.2, collide_count s.2))
  = Ok (1, 1, 1, true).
Proof. by vm_compute. Qed.
