(* ===== verification/EngineWitnesses.v ===== *)
(** * EngineWitnesses: racing workers and the card on a concrete graph

    The theorems of [EngineConcurrent] and [EngineKernels] at the graph of
    [Witnesses], with a card whose queues are full at every other post, those of
    [RacingEndToEnd] at the text of [Witnesses], and a round of
    two workers and the card under concrete schedules. *)

From stdpp Require Import sorting.
From S2P Require Import Prelude Platform StdLib MmapUtil VertexTable Bitmap Stats PackWindow.
From S2P Require Import Engine EdgeEngine Interleaving Hiding Workers EngineConcurrent.
From S2P Require Import Bfs BfsConcurrent Kcore KcoreConcurrent.
From S2P Require Import ConnectedComponents CcConcurrent Mis MisConcurrent.
From S2P Require Import PagerankDelta PagerankConcurrent EngineKernels QpTest.
From S2P Require Import Options KernelCtx ServerFile Csr EndToEnd Analyses Ranks RacingEndToEnd Witnesses.

#[local] Existing Instances default_build plain_boost plain_os gmap_combinable gmap_ets
  halves_scheduler ready_nic steady_clock plain_files.

(** ** The card *)

(** Every other post finds the queue full. *)
Definition busy_qp (t k : nat) : Z := if Nat.even k then ENOMEM else 0.

Lemma busy_qp_drains t : qp_drains busy_qp t 2.
Proof.
  intros k. unfold busy_qp. destruct (Nat.even k) eqn:E.
  - exists 1%nat. split; [lia|]. replace (k + 1)%nat with (S k) by lia. rewrite Nat.even_succ.
    unfold Nat.odd. rewrite E. split; [done|]. intros i Hi. assert (i = 0%nat) as -> by lia.
    by rewrite Nat.add_0_r, E.
  - exists 0%nat. rewrite Nat.add_0_r, E. split; [lia|]. split; [done|]. lia.
Qed.

Lemma demo_busy_run : run_ok demo_remote demo_ctx demo_idx 3 demo_garbage 6 2.
Proof. destruct demo_run. by split; try lia. Qed.

#[local] Instance busy_ops : EngineOps := rdma_ops demo_remote demo_ctx demo_idx 3 demo_garbage 2.
#[local] Instance busy_engine : EdgeEngine :=
  rdma_engine demo_remote demo_ctx demo_idx 3 demo_garbage 6 2 demo_busy_run.

Definition demo_nic : nic_state := NicState demo_mem [[]; []] demo_tm 0 [0; 0]%nat.

Lemma demo_nic_ready : nic_ready 6 demo_nic.
Proof. by split. Qed.

(** ** The kernels *)
Abbreviation on_engine_ends stop tasks open close :=
  (ends (stop_e stop) (round_e tasks) (open_e open) (close_e close (nic_after id))).

Lemma bfs_on_engine_witness :
  ∃ st, bfs_enter 0 demo_empty demo_empty (replicate 4 (BfsVertex NULLVERT false)) demo_cell = Ok st
    ∧ on_engine_ends bfs_stop (bfs_round demo_remote demo_ctx demo_idx 3 demo_garbage 2 busy_qp)
        bfs_open bfs_close (λ s, nic_ready 6 s.1 ∧ distances 0 (vtable s.2)) (Head (demo_nic, st)).
Proof.
  destruct demo_bitmap as (Hw & Hs & _ & Hz).
  apply (bfs_on_engine demo_remote demo_ctx demo_idx 3 demo_garbage 6 2 demo_busy_run busy_qp
    (λ t _, busy_qp_drains t) id 0); [|exact demo_nic_ready]. split; try done.
  split; [done|]. by refine (forall_four _ _ _ _ _).
Defined.

Lemma kcore_on_engine_witness :
  ∃ st, kcore_enter 2 demo_idx 8 demo_empty demo_empty (replicate 4 0) demo_cell = Ok st
    ∧ on_engine_ends kcore_stop (kcore_round demo_remote demo_ctx demo_idx 3 demo_garbage 2 busy_qp 2)
        kcore_open kcore_close (λ s, nic_ready 6 s.1 ∧ is_core 2 (degree s.2)) (Head (demo_nic, st)).
Proof.
  destruct demo_bitmap as (Hw & Hs & _ & Hz).
  apply (kcore_on_engine demo_remote demo_ctx demo_idx 3 demo_garbage 6 2 demo_busy_run busy_qp
    (λ t _, busy_qp_drains t) id 2); [| |exact demo_nic_ready].
  - intros v w. revert v. refine (forall_four _ _ _ _ _); revert w; by refine (forall_four _ _ _ _ _).
  - split; try done. exact demo_degrees.
Defined.

Lemma cc_on_engine_witness :
  ∃ st, cc_enter demo_empty demo_empty (replicate 4 0) demo_cell = Ok st
    ∧ on_engine_ends cc_stop (cc_round demo_remote demo_ctx demo_idx 3 demo_garbage 2 busy_qp 6)
        cc_open cc_close (λ s, nic_ready 6 s.1 ∧ components (labels s.2.1))
        (Head (demo_nic, (st, [false; true]))).
Proof.
  destruct demo_bitmap as (Hw & Hs & Hf & Hz).
  apply (cc_on_engine demo_remote demo_ctx demo_idx 3 demo_garbage 6 2 demo_busy_run busy_qp
    (λ t _, busy_qp_drains t) id 6 [false; true]); [by split|simpl; lia|exact demo_nic_ready].
Defined.

(** [for_each_range] does not post again, so the queues are never full here. *)
Definition free_qp (t k : nat) : Z := 0.

Lemma free_qp_drains t : qp_drains free_qp t 2.
Proof. intros k. exists 0%nat. split; [lia|]. split; [done|]. lia. Qed.

Lemma mis_on_engine_witness :
  ∃ delta st, mis_enter 2 demo_idx 8 demo_empty demo_empty (replicate 4 UNDECIDED) demo_cell = Ok (delta, st)
    ∧ on_engine_ends mis_stop (mis_round demo_remote demo_ctx demo_idx 3 demo_garbage 2 free_qp)
        mis_open (mis_close delta)
        (λ s, nic_ready 6 s.1 ∧ ∃ st', s.2 = MisConcurrent.At_test st' ∧ maximal_independent (ms_flags st'))
        (Head (demo_nic, MisConcurrent.At_test st)).
Proof.
  destruct demo_bitmap as (Hw & Hs & _ & Hz).
  apply (mis_on_engine demo_remote demo_ctx demo_idx 3 demo_garbage 6 2 demo_busy_run free_qp
    (λ t _, free_qp_drains t) id 2 8); [done| |exact demo_nic_ready]. split; try done.
  - intros v Hv. by apply demo_degrees.
  - split; [done|]. by refine (forall_four _ _ _ _ _).
Defined.

Lemma pagerank_on_engine_witness :
  ∃ st, pagerank_enter demo_empty demo_empty (replicate 4 inhabitant) demo_cell = Ok st ∧ initial st
    ∧ on_engine_ends pagerank_stop (pagerank_round demo_remote demo_ctx demo_idx 3 demo_garbage 2 busy_qp 11)
        pagerank_open pagerank_close
        (λ s, nic_ready 6 s.1 ∧ ∃ st' o k, s.2 = PagerankConcurrent.At_test st' o ∧ (k ≤ 4)%nat
           ∧ rounds_of async_round k (vtab st) (bm_get (PagerankDelta.frontier st))
               (vtab st') (bm_get (PagerankDelta.frontier st'))
           ∧ (k = 4%nat ∨ ∀ v, 0 ≤ v < 4 → bm_get (PagerankDelta.frontier st') v = false))
        (Head (demo_nic, PagerankConcurrent.At_test st [true; true])).
Proof.
  destruct demo_bitmap as (Hw & Hs & Hf & Hz).
  apply (pagerank_on_engine demo_remote demo_ctx demo_idx 3 demo_garbage 6 2 demo_busy_run busy_qp
    (λ t _, busy_qp_drains t) id 11 [true; true]); [by split|vm_compute; lia|exact demo_nic_ready].
Defined.

(** ** From the text *)
Abbreviation demo_prepared und sizeof_V V_init files remote g :=
  (prepared demo_text false demo_vm 2 und sizeof_V V_init demo_edges files remote g).
Abbreviation demo_ends g := (racing_ends demo_tm id g).
Abbreviation on_demo qp remote g round :=
  (round remote (client_ctx [101; 102] remote g) (gc_index g) (gc_edge_buf_size g) demo_garbage 2%nat qp).

Lemma bfs_racing_end_to_end_witness :
  ∃ files remote g st, demo_prepared true 8 (BfsVertex NULLVERT false) files remote g
    ∧ bfs_enter (EO := client_ops [101; 102] demo_garbage 2 remote g) 0 (frontierA g) (frontierB g)
        (gc_table g) (first_state demo_tm g) = Ok st
    ∧ demo_ends g bfs_stop (on_demo busy_qp remote g bfs_round) bfs_open bfs_close
        (λ st', text_distances demo_edges 3 0 (vtable st')) st.
Proof.
  destruct (bfs_racing_end_to_end demo_text false demo_vm [101; 102] demo_garbage demo_tm 2 2 busy_qp id
    (λ t _, busy_qp_drains t) true) as (v & m & E & H).
  assert (read_edges false true demo_text = Ok (demo_edges, 3)) as E' by (vm_compute; done).
  rewrite E' in E. injection E as <- <-. apply (H 3); [exact demo_sizes| |simpl; lia].
  apply demo_deployment_posts; [lia|compute_done].
Defined.

Lemma kcore_racing_end_to_end_witness :
  ∃ files remote g st, demo_prepared true 4 0 files remote g
    ∧ kcore_enter (EO := client_ops [101; 102] demo_garbage 2 remote g) 2 (gc_index g) 8
        (frontierA g) (frontierB g) (gc_table g) (first_state demo_tm g) = Ok st
    ∧ demo_ends g kcore_stop (on_demo busy_qp remote g kcore_round 2) kcore_open kcore_close
        (λ st', text_core demo_edges 3 2 (degree st')) st.
Proof.
  destruct (kcore_racing_end_to_end demo_text false demo_vm [101; 102] demo_garbage demo_tm 2 2 busy_qp id
    (λ t _, busy_qp_drains t)) as (v & m & E & H).
  assert (read_edges false true demo_text = Ok (demo_edges, 3)) as E' by (vm_compute; done).
  rewrite E' in E. injection E as <- <-. apply (H 3); [exact demo_sizes|].
  apply demo_deployment_posts; [lia|compute_done].
Defined.

Lemma cc_racing_end_to_end_witness :
  ∃ files remote g st, demo_prepared true 4 0 files remote g
    ∧ cc_enter (EO := client_ops [101; 102] demo_garbage 2 remote g) (frontierA g) (frontierB g)
        (gc_table g) (first_state demo_tm g) = Ok st
    ∧ demo_ends g cc_stop (on_demo busy_qp remote g cc_round 6) cc_open cc_close
        (λ x, text_components demo_edges 3 true (labels x.1)) (st, [false; true]).
Proof.
  destruct (cc_racing_end_to_end demo_text false demo_vm [101; 102] demo_garbage demo_tm 2 2 busy_qp id
    (λ t _, busy_qp_drains t) true 6 [false; true]) as (v & m & E & H).
  assert (read_edges false true demo_text = Ok (demo_edges, 3)) as E' by (vm_compute; done).
  rewrite E' in E. injection E as <- <-. apply (H 3); [exact demo_sizes| |simpl; lia].
  apply demo_deployment_posts; [lia|compute_done].
Defined.

Lemma mis_racing_end_to_end_witness :
  ∃ files remote g delta st, demo_prepared true 1 UNDECIDED files remote g
    ∧ mis_enter (EO := client_ops [101; 102] demo_garbage 2 remote g) (o_delta demo_vm) (gc_index g) 8
        (frontierA g) (frontierB g) (gc_table g) (first_state demo_tm g) = Ok (delta, st)
    ∧ demo_ends g mis_stop (on_demo free_qp remote g mis_round) mis_open (mis_close delta)
        (λ p, ∃ st', p = MisConcurrent.At_test st' ∧ text_independent demo_edges 3 (ms_flags st'))
        (MisConcurrent.At_test st).
Proof.
  destruct (mis_racing_end_to_end demo_text false demo_vm [101; 102] demo_garbage demo_tm 2 2 free_qp id
    (λ t _, free_qp_drains t) (λ t k _, eq_refl)) as (v & m & E & H).
  assert (read_edges false true demo_text = Ok (demo_edges, 3)) as E' by (vm_compute; done).
  rewrite E' in E. injection E as <- <-. apply (H 3); [exact demo_sizes| |done|done].
  apply demo_deployment_posts; [lia|compute_done].
Defined.

Lemma pagerank_racing_end_to_end_witness :
  ∃ files remote g st, demo_prepared true 12 (PrVertex f32_zero f32_zero f32_zero) files remote g
    ∧ pagerank_enter (EO := client_ops [101; 102] demo_garbage 2 remote g) (frontierA g) (frontierB g)
        (gc_table g) (first_state demo_tm g) = Ok st
    ∧ demo_ends g pagerank_stop (on_demo busy_qp remote g pagerank_round 11) pagerank_open pagerank_close
        (λ p, ∃ st' o k init act ranks, p = PagerankConcurrent.At_test st' o ∧ (k ≤ 4)%nat
           ∧ (∀ u, 0 ≤ u ≤ 3 → at_ init u = PrVertex f32_zero INIT_RESIDUAL f32_zero ∧ act u = true)
           ∧ rounds_of (free_rank_round demo_edges 3) k init act
               (vtab st') (bm_get (PagerankDelta.frontier st'))
           ∧ (k = 4%nat ∨ ∀ u, 0 ≤ u ≤ 3 → bm_get (PagerankDelta.frontier st') u = false)
           ∧ print_top_20 (vtab st') (gc_num_vertices g) = Ok ranks ∧ text_ranks 3 (vtab st') ranks)
        (PagerankConcurrent.At_test st [true; true]).
Proof.
  destruct (pagerank_racing_end_to_end demo_text false demo_vm [101; 102] demo_garbage demo_tm 2 2 busy_qp id
    (λ t _, busy_qp_drains t) true 11 [true; true]) as (v & m & E & H).
  assert (read_edges false true demo_text = Ok (demo_edges, 3)) as E' by (vm_compute; done).
  rewrite E' in E. injection E as <- <-. apply (H 3); [exact demo_sizes| |simpl; lia].
  apply demo_deployment_posts; [lia|compute_done].
Defined.

(** ** One round

    Worker 0 has the vertices 0 and 1, worker 1 the vertices 2 and 3; on its own account
    the card delivers two words for worker 1 and one for worker 0. *)
Definition demo_programs {U} (function : edge_function U) (frontier : Bitmap)
    : list (prog (nic_state * U) unit) :=
  imap (λ t cs, each cs (λ c, ccy_worker_c demo_remote demo_ctx demo_idx 3 demo_garbage busy_qp
                                function 2 frontier t c.1 c.2))
    [[(0, 2)]; [(2, 4)]] ++ [card_c [(1, 2); (0, 1)]%nat].

Lemma demo_programs_round {U} (function : edge_function U) frontier :
  engine_round (ccy_worker_c demo_remote demo_ctx demo_idx 3 demo_garbage busy_qp function 2 frontier)
    0 4 (demo_programs function frontier).
Proof.
  exists [[(0, 2)]; [(2, 4)]], [(1, 2); (0, 1)]%nat. split; [done|]. split; [|by split].
  repeat constructor; simpl; lia.
Qed.

Lemma ccy_refines_witness :
  ∃ st, bfs_enter 0 demo_empty demo_empty (replicate 4 (BfsVertex NULLVERT false)) demo_cell = Ok st
    ∧ round_ends (λ s, nic_ready 6 s.1 ∧ ∃ st', bfs_close st s.2 = Ok st' ∧ ∃ r, Bfs.round_inv 0 r st')
        (Cfg (demo_nic, bfs_open st) (demo_programs (bfs_function (u32 (Bfs.round st + 1))) (Bfs.frontier st))).
Proof.
  destruct demo_bitmap as (Hw & Hs & _ & Hz).
  destruct (bfs_enter_ok (EO := busy_ops) 0 demo_empty demo_empty (replicate 4 (BfsVertex NULLVERT false)) demo_cell)
    as (st & E & Hri & Hl).
  { split; try done. split; [done|]. by refine (forall_four _ _ _ _ _). }
  assert (Hgo : bfs_stop <$> Ok st = Ok false) by (rewrite <- E; by vm_compute).
  exists st. split; [done|]. destruct (Bfs.ri_front _ _ _ Hri) as [[Hbm _] Hsz].
  apply (ccy_refines demo_remote demo_ctx demo_idx 3 demo_garbage busy_qp demo_served 6 demo_engine
    (λ t v, each (adj_of demo_idx 8 demo_words v) (BfsConcurrent.push_edge (u32 (Bfs.round st + 1)) t))
    (bfs_function (u32 (Bfs.round st + 1))) 2 (Bfs.frontier st) 0 4
    (λ s, ∃ st', bfs_close st s = Ok st' ∧ ∃ r, Bfs.round_inv 0 r st') demo_nic (bfs_open st)); try done.
  - apply bfs_follows.
  - intros t _. apply busy_qp_drains.
  - apply demo_programs_round.
  - intros parts Hc. eapply round_ends_mono; [|apply (bfs_round_ends 0 0 st); [done|done|done| |]].
    + cbv beta. intros s (st' & E' & (r & Hr & _) & _). eauto.
    + by injection Hgo.
    + exists parts. split; [|done]. by apply (rdma_covers _ _ _ _ _ _ _ demo_busy_run _ (bm_get (Bfs.frontier st))).
Defined.

(** The two workers in a BFS round from the vertices 0 and 3, which are both joined to
    2: after the round 2 is reached, and so is 1; nothing is in flight. *)
Definition demo_levels : list bfs_vertex :=
  [BfsVertex 1 true; BfsVertex NULLVERT false; BfsVertex NULLVERT false; BfsVertex 1 true].

Definition observe_round (schedule : list nat) :=
  (λ c : cfg (nic_state * (list bfs_vertex * Bitmap)),
     (parent <$> (shared c).2.1, queues (shared c).1, posted (shared c).1, finished c))
  <$> interleave schedule (Cfg (demo_nic, (demo_levels, demo_empty)) (demo_programs (bfs_function 2) demo_front)).

Definition turns (n : nat) (l : list nat) : list nat := concat (replicate n l).
Definition in_turn : list nat := turns 40 [0; 1; 2]%nat.
Definition one_first : list nat := turns 40 [1]%nat ++ turns 40 [0]%nat ++ [2; 2]%nat.

Example round_in_turn : observe_round in_turn = Ok ([1; 2; 2; 1], [[]; []], [2; 2]%nat, true).
Proof. by vm_compute. Qed.

Example round_one_first : observe_round one_first = Ok ([1; 2; 2; 1], [[]; []], [2; 2]%nat, true).
Proof. by vm_compute. Qed.

(** ** Trying the queue pairs *)
Definition third_poll (i : Z) (k : nat) : Z * Z := if decide (k = 2)%nat then (1, 0) else (0, 0).

Lemma test_all_qp_correct_witness :
  test_all_qp demo_remote (λ _, 0) (λ _, 0) third_poll (λ _, false) 8 77 3 [demo_ctx; demo_ctx] (TestState [] [])
  = Ok (TestState [] [Successful 0 1; Successful 1 1]).
Proof.
  assert (Hmr : ∃ mr, ibv_reg_mr 8 4 = Some mr) by by eexists. destruct Hmr as [mr Hmr].
  apply (test_all_qp_correct demo_remote (λ _, 0) (λ _, 0) third_poll (λ _, false) 8 77 3 [demo_ctx; demo_ctx]
    (TestState [] []) mr 1 [2; 0; 2; 0; 1; 3; 2]); [done|done|].
  intros [|[|i]] ctx [= <-]; (split; try done); exists 2%nat; (split; [lia|]); (split; [done|]);
    intros k Hk; unfold third_poll; by rewrite decide_False by lia.
Defined.
