(* ===== verification/SessionWitnesses.v ===== *)
(** * SessionWitnesses: a session with two workers

    Concrete instances of the connection manager and the verbs, a schedule of a
    whole session, and the theorems about sessions, connections and memory nodes
    applied to them.  [summary_race] and [late_completion_race] are schedules that
    end in a dangling pointer. *)

From stdpp Require Import gmultiset.
From S2P Require Import Prelude Platform MmapUtil VertexTable ServerFile Options.
From S2P Require Import Rdma AbstractServer ConnectionUtils Numa ClientRuntime FamServer Session.
From S2P Require Import Protocol Refinement Sessions Witnesses.

#[local] Existing Instances default_build plain_boost plain_os plain_files.

(** ** The libraries *)
Definition demo_verbs : Verbs := {|
  id_verbs _ := 1; ibv_alloc_pd _ := 2; ibv_create_comp_channel _ := 3; ibv_create_cq _ _ := 4;
  posix_memalign is_tx := Some (if is_tx then 8192 else 12288, Message 0 0 0 0);
  reg_message _ _ := 5; ret _ := 0; event_channel := 6; new_id k := 100 + Z.of_nat k;
|}.

Definition demo_numa : Numa := {|
  numa_available := 0; numa_num_configured_cpus := 8; numa_num_configured_nodes := 2;
  mask_allocated := true; mask_size := 64; set_mempolicy _ := 0;
|}.

Definition demo_network : Network := {|
  raised sd c :=
    match sd, c with
    | Client, ResolveAddr id => [(Client, CmEvent RDMA_CM_EVENT_ADDR_RESOLVED id)]
    | Client, ResolveRoute id => [(Client, CmEvent RDMA_CM_EVENT_ROUTE_RESOLVED id)]
    | Client, Connect id _ => [(Server, CmEvent RDMA_CM_EVENT_CONNECT_REQUEST id)]
    | Server, Accept id _ => [(Client, CmEvent RDMA_CM_EVENT_ESTABLISHED id);
                              (Server, CmEvent RDMA_CM_EVENT_ESTABLISHED id)]
    | Client, Disconnect id => [(Client, CmEvent RDMA_CM_EVENT_DISCONNECTED id);
                                (Server, CmEvent RDMA_CM_EVENT_DISCONNECTED id)]
    | _, _ => []
    end;
|}.
#[local] Existing Instances demo_verbs demo_numa demo_network.

#[local] Instance demo_laws : NetworkLaws.
Proof. split; try done. by intros [] []. Qed.

(** ** The session *)
Definition client_vm : variables_map := {|
  present := ["mode"; "server-addr"; "port"; "indexfile"; "kernel"; "ofile"; "threads"; "cache_ratio"];
  o_mode := "client"; o_kernel := "bfs"; o_cache_file_path := ""; o_indexfile := "g.idx";
  o_edgefile := ""; o_threads := 2; o_cache_ratio := SpecFloat.S754_zero false; o_kcore_k := 100;
  o_delta := 25; o_start_vertex := 1; o_edgewindow := 1; o_madvise_thp := 0 |}%string.
Definition server_vm : variables_map := {|
  present := ["mode"; "server-addr"; "port"; "edgefile"; "madvise_thp"];
  o_mode := "server"; o_kernel := ""; o_cache_file_path := ""; o_indexfile := "";
  o_edgefile := "g.adj"; o_threads := 0; o_cache_ratio := SpecFloat.S754_zero false; o_kcore_k := 100;
  o_delta := 25; o_start_vertex := 1; o_edgewindow := 1; o_madvise_thp := 0 |}%string.

Notation demo_index := (Regular (le_words 8 demo_offs)).
Notation demo_adj := (Regular (le_words 4 demo_words ++ [])).
Notation msg0 := (Message 0 0 0 0).
Definition demo_mr : ibv_mr := {| mr_addr := 65536; mr_length := 32; mr_lkey := 7; mr_rkey := 9 |}.

Lemma demo_calls : calls_succeed 1 (8192, msg0) (12288, msg0).
Proof. by split. Qed.

Lemma demo_ready : ∃ ptr,
  session_ready client_vm server_vm 4 demo_index demo_adj 2 1 (8192, msg0) (12288, msg0)
    ptr demo_mr 8 4 NoCache BFS 2.
Proof.
  destruct (get_edge_list_ok 2 demo_words [] 0 4096 demo_mr) as (ptr & E & _);
    [by apply (bool_decide_unpack _)|done..|]. exists ptr.
  split; first [done|by right|exact demo_calls|by apply (bool_decide_unpack _)].
Qed.

(** ** Schedules *)
Definition opens (id : Z) : list actor :=
  [ClientEvent (CmEvent RDMA_CM_EVENT_ADDR_RESOLVED id);
   ClientEvent (CmEvent RDMA_CM_EVENT_ROUTE_RESOLVED id);
   ServerEvent (CmEvent RDMA_CM_EVENT_CONNECT_REQUEST id);
   ClientEvent (CmEvent RDMA_CM_EVENT_ESTABLISHED id);
   ServerEvent (CmEvent RDMA_CM_EVENT_ESTABLISHED id)].
Definition to_kernel : list actor :=
  opens 100 ++ [ToClient; ClientCompletion] ++ opens 102 ++ opens 101 ++ [ClientPoller].
Definition to_close : list actor :=
  to_kernel ++ [ServerCompletion; KernelReturns; ToServer; CommReturns; ClientCompletion;
                ServerCompletion; ToClient; ClientCompletion; ClientPoller; ClientPoller].
Definition whole_session : list actor :=
  to_close ++ [ClientPoller; ClientEvent (CmEvent RDMA_CM_EVENT_DISCONNECTED 100); ServerCompletion;
               ServerEvent (CmEvent RDMA_CM_EVENT_DISCONNECTED 100)].

Notation demo_steps := (steps client_vm demo_index (worker_ids 2) 2).
Notation demo_start := (start_session client_vm server_vm 4 demo_adj 18515 200).

Lemma played tr : is_Some (play base_id (worker_ids 2) tr (start base_id)) →
  ∃ w0 w, demo_start = Ok (worker_ids 2, w0) ∧ demo_steps w0 tr w.
Proof.
  intros [a Ha]. destruct demo_ready as [ptr Hr].
  eexists _, _. split; [by apply (start_world 18515 200 Hr)|].
  eapply (play_reaches Hr); [|exact Ha]. apply start_wf, (ready_nodup Hr).
Qed.

Lemma session_safe_witness : ∃ w0 w, demo_start = Ok (worker_ids 2, w0) ∧ demo_steps w0 to_kernel w
  ∧ (app_thread (ep_user (client w)) ≠ NotStarted →
     ctx_peer_addr (ep_user (client w)) = 65536 ∧ ctx_peer_rkey (ep_user (client w)) = 9
     ∧ ctx_num_edges (ep_user (client w)) = 8 ∧ (connections <$> s_ctx (ep_loop (client w))) = Some 3).
Proof.
  destruct (played to_kernel) as (w0 & w & H0 & Hw); [vm_compute; by eexists|].
  exists w0, w. split; [done|]. split; [done|]. destruct demo_ready as [ptr Hr].
  destruct (session_safe 18515 200 Hr w0 to_kernel w H0 Hw) as [_ H]. intros Ht.
  by destruct (H Ht) as (? & ? & ? & _ & _ & _ & ? & _).
Defined.

Lemma session_ends_witness : ∃ w0 w, demo_start = Ok (worker_ids 2, w0) ∧ demo_steps w0 whole_session w
  ∧ zlen whole_session ≤ 57
  ∧ ((∀ x, step client_vm demo_index (worker_ids 2) 2 x w = None) →
     app_thread (ep_user (client w)) = Joined).
Proof.
  destruct (played whole_session) as (w0 & w & H0 & Hw); [vm_compute; by eexists|].
  exists w0, w. split; [done|]. split; [done|]. destruct demo_ready as [ptr Hr].
  destruct (session_ends 18515 200 Hr w0 whole_session w H0 Hw) as [Hl H]. split; [exact Hl|].
  intros Hx. by destruct (H Hx).
Defined.

(** ** Two schedules that end in a dangling pointer *)
Lemma faults tr x a : play base_id (worker_ids 2) tr (start base_id) = Some a →
  next base_id (worker_ids 2) x a = Some (Fault OutOfBounds) →
  ∃ w0 w, demo_start = Ok (worker_ids 2, w0) ∧ demo_steps w0 tr w
    ∧ step client_vm demo_index (worker_ids 2) 2 x w = Some (Fault OutOfBounds).
Proof.
  intros Ha Hx. destruct demo_ready as [ptr Hr].
  assert (Hwf : wf base_id (worker_ids 2) (start base_id)) by apply start_wf, (ready_nodup Hr).
  eexists _, _. split; [by apply (start_world 18515 200 Hr)|].
  split; [by apply (play_reaches Hr tr _ a)|]. rewrite (session_step_ready Hr); [by change (Z.to_nat 2) with 2%nat; rewrite Hx|].
  by apply (play_wf Hr tr (start base_id)).
Qed.

(** The client leaves [run_client] before its polling thread prints the summary. *)
Lemma summary_race : ∃ tr w0 w, demo_start = Ok (worker_ids 2, w0) ∧ demo_steps w0 tr w
  ∧ step client_vm demo_index (worker_ids 2) 2 ClientPoller w = Some (Fault OutOfBounds).
Proof.
  exists (to_close ++ [ClientEvent (CmEvent RDMA_CM_EVENT_DISCONNECTED 100)]).
  eapply faults; vm_compute; reflexivity.
Qed.

(** The server destroys the connection before it handles the completion of its
    last message. *)
Lemma late_completion_race : ∃ tr w0 w, demo_start = Ok (worker_ids 2, w0) ∧ demo_steps w0 tr w
  ∧ step client_vm demo_index (worker_ids 2) 2 ServerCompletion w = Some (Fault OutOfBounds).
Proof.
  exists (to_close ++ [ServerEvent (CmEvent RDMA_CM_EVENT_DISCONNECTED 100)]).
  eapply faults; vm_compute; reflexivity.
Qed.

(** ** Connections, memory nodes and the completion thread *)
Lemma do_numa_map_correct_witness :
  ∃ k, do_numa_map 6 = Ok (Some (rng 0 k)) ∧ 0 < k ≤ 2 ∧ 6 `min` 8 ≤ 4 * k
    ∧ ∀ k', 6 `min` 8 ≤ 4 * k' → k ≤ k'.
Proof. by apply (do_numa_map_correct (NU := demo_numa) 6 4). Defined.

Definition demo_polls (k : nat) (id : Z) : list Z := if decide (k = 1%nat) then [0; 0; 0] else [].

Lemma comm_runtime_worker2_ends_witness :
  comm_runtime_worker2 3 demo_polls (λ r, bool_decide (1 ≤ r)%nat) [101; 102]
  = Ok (Some (u64 (squares (nth_poll demo_polls [101; 102]) 0 (1 * comm_batch * 2)))).
Proof.
  apply (comm_runtime_worker2_ends demo_polls [101; 102]).
  - intros k id. unfold demo_polls. case_decide; repeat constructor.
  - done.
  - intros k Hk. apply bool_decide_false. lia.
  - lia.
Defined.
