(* ===== verification/EdgeMapWitnesses.v ===== *)
(** * EdgeMapWitnesses: batches of edges on the graph of four vertices

    The theorems about [edgemap.hpp] applied to the graph of [Witnesses], and two
    runs that show what the code does beyond them: with the vector of libstdc++,
    which starts with room for one element, a batch of two requests is read through
    dangling pointers, and the first vertex of a subrange is processed although it
    is not in the frontier. *)

From S2P Require Import Prelude Platform VertexTable Bitmap Stats PackWindow Engine.
From S2P Require Import IntervalBatch EdgeMap Witnesses.

#[local] Existing Instances default_build plain_boost plain_os gmap_combinable gmap_ets
  halves_scheduler ready_nic steady_clock.

(** A vector that starts with room for eight elements, and one that doubles. *)
Program Definition roomy : VectorGrowth := {| grow n := (n + 8)%nat |}.
Next Obligation. intros n. cbn. try case_decide; lia. Qed.
Program Definition doubling : VectorGrowth := {| grow n := (if decide (n = 0) then 1 else 2 * n)%nat |}.
Next Obligation. intros n. cbn. try case_decide; lia. Qed.
#[local] Existing Instance roomy.

(** The client notes what it is called with; [heard]: these are the words of the
    edges it was given. *)
Definition hear (t : nat) (v : Z) (words : list Z) (n d : Z) (u : list (Z * list Z))
    : result (list (Z * list Z)) := Ok (u ++ [(v, words)]).
Definition heard (dn : list (Z * Z)) (u : list (Z * list Z)) : Prop :=
  (u ≫= λ x, pair x.1 <$> x.2)
  = (λ p, (p.1, at_ demo_words (off demo_idx 8 p.1 + p.2))) <$> dn.

Lemma demo_edgemap : edgemap_ok demo_remote demo_ctx demo_idx 6 0 3.
Proof.
  split; try done; try (simpl; lia).
  - exact demo_served.
  - exact demo_csr.
Qed.

Lemma hear_ok : fragments_ok demo_remote hear demo_ctx demo_idx heard.
Proof.
  intros t i dn u Hi Hu. eexists; split; [done|]. unfold heard in *.
  rewrite bind_app, fmap_app, Hu, bind_singleton. cbn [fst snd]. f_equal.
  rewrite (fragment_addrs demo_remote demo_ctx demo_idx 6 0 3 demo_edgemap)
    by by apply (iv_in_graph demo_remote demo_ctx demo_idx 6 0 3 demo_edgemap).
  pose proof (iv_edges_ok _ _ i Hi (deg_u32 demo_remote demo_ctx demo_idx 6 0 3 demo_edgemap _ (proj1 Hi))) as He.
  unfold iv_addrs, iv_expand, rng. rewrite He, <- !list_fmap_compose.
  replace (_ + _ + _ - _) with (iv_end i - iv_start i) by lia.
  rewrite <- fmap_add_seqZ, <- list_fmap_compose. by apply list_fmap_ext.
Qed.

Definition demo_em : @em_state (list (Z * list Z)) := EmState demo_mem 0 0 [].

Lemma edgemap_correct_witness :
  ∃ e', edgemap demo_remote hear 0 demo_ctx demo_idx demo_front 0 3 0 4 demo_em = Ok e'
    ∧ zlen (em_mem e') = 6
    ∧ heard (halves 0 4 ≫= λ c, edges_left demo_front (c_end c) (deg demo_idx 8) (new_next_batch (c_begin c)))
        (em_user e').
Proof.
  destruct demo_front_ok as ([Hok _] & Hs).
  apply (edgemap_correct demo_remote hear demo_ctx demo_idx heard hear_ok 6 0 3 demo_edgemap 0 demo_front
    0 4 demo_em); done || (rewrite ?Hs; simpl; lia).
Defined.

(** Five edges are left and a batch has three. *)
Lemma next_batch_correct_witness :
  ∃ vec s', get_next_batch demo_front 4 3 (λ v, Ok (deg demo_idx 8 v)) (NextBatch 2 0) = Ok (vec, s')
    ∧ vec ≫= iv_expand = take 3 (edges_left demo_front 4 (deg demo_idx 8) (NextBatch 2 0))
    ∧ edges_left demo_front 4 (deg demo_idx 8) s'
      = drop 3 (edges_left demo_front 4 (deg demo_idx 8) (NextBatch 2 0))
    ∧ (is_done 4 s' = true ∨ zlen (vec ≫= iv_expand) = 3)
    ∧ batch_valid 4 (deg demo_idx 8) s' ∧ Forall (iv_ok 4 (deg demo_idx 8)) vec ∧ chained vec.
Proof.
  destruct demo_front_ok as ([Hok _] & Hs).
  apply (next_batch_correct demo_front 4 3 (deg demo_idx 8) (λ v, Ok (deg demo_idx 8 v)) Hok).
  - rewrite Hs. lia.
  - intros v Hv. split; [done|]. by apply (csr_deg _ _ _ demo_csr).
  - lia.
  - split; [simpl; lia|by left].
  - simpl. lia.
Defined.

(** Vertices 0 and 3: two requests, posted while the vector has room. *)
Definition demo_runs : list v_interval := [VInterval 0 2 0 2; VInterval 3 1 0 1].

Lemma demo_runs_ok : Forall (in_graph demo_ctx demo_idx) demo_runs.
Proof. repeat constructor; done. Qed.

Lemma requests_posted_witness :
  (WRs ← make_WRs demo_runs 9 7 4096 65536 demo_idx 0; post_all demo_remote demo_ctx WRs 0)
  = Ok (1%nat, [(0, 1); (1, 2); (2, 2)])
  ∧ (WRs ← make_WRs (VG := doubling) demo_runs 9 7 4096 65536 demo_idx 0;
     post_all demo_remote demo_ctx WRs 0) = Fault OutOfBounds.
Proof.
  split.
  - refine (eq_trans (requests_posted demo_remote demo_ctx demo_idx demo_csr _ _ demo_served _ _
      demo_runs 0 0 demo_runs_ok _ _ _) _); done.
  - refine (eq_trans (requests_posted (VG := doubling) demo_remote demo_ctx demo_idx demo_csr _ _
      demo_served _ _ demo_runs 0 0 demo_runs_ok _ _ _) _); done.
Defined.

(** The frontier is empty, and yet the function is called on vertices 2 and 0,
    where the two subranges begin. *)
Lemma first_vertex_taken :
  (λ e, em_user e) <$> edgemap demo_remote hear 0 demo_ctx demo_idx demo_empty 0 3 0 4 demo_em
  = Ok [(2, [0; 1; 3]); (0, [1; 2])].
Proof. vm_compute. reflexivity. Qed.
