(* ===== verification/ToolWitnesses.v ===== *)
(** * ToolWitnesses: ranks and weighted graphs

    The theorems about [print_top_20] and about [encode_weighted] at concrete
    inputs, and what the client reads from a weighted graph. *)

From Stdlib Require Import SpecFloat.
From stdpp Require Import sorting.
From S2P Require Import Prelude Platform StdLib VertexTable Csr CsrWeighted PagerankDelta.

(** The ranks of 23 vertices. *)
Definition demo_ranks : list pagerank_delta_vertex :=
  (λ v, let x := f32_of_u32 (v * 7 mod 23) in PrVertex x x x) <$> rng 0 23.

Lemma demo_ranks_numbers v : 0 ≤ v < zlen demo_ranks → not_nan (value (at_ demo_ranks v)).
Proof.
  intros Hv. assert (Hall : Forall (λ p, value p ≠ S754_nan) demo_ranks) by (by apply (bool_decide_unpack _)).
  rewrite Forall_lookup in Hall. apply (Hall (Z.to_nat v)). unfold at_.
  apply list_lookup_lookup_total_lt. unfold zlen in *. lia.
Qed.

Example demo_top_20 : (λ l, take 3 l.*2) <$> print_top_20 demo_ranks 23 = Ok [13; 3; 16].
Proof. by vm_compute. Qed.

Lemma print_top_20_ok_witness :
  ∃ l, print_top_20 demo_ranks 23 = Ok l
    ∧ zlen l = 20
    ∧ NoDup l.*2
    ∧ Forall (ranked demo_ranks) l
    ∧ StronglySorted (λ p q, ranked_lt p q = false) l
    ∧ ∀ p v, p ∈ l → 0 ≤ v < 23 → v ∉ l.*2 → SFltb p.1 (value (at_ demo_ranks v)) = false.
Proof. apply (print_top_20_ok demo_ranks demo_ranks_numbers 23); by vm_compute. Defined.

(** ** Weights *)
Lemma std_sort_wedges v :
  Forall (λ p, not_nan p.2) v → sorted_by wedge_lt (std_sort wedge_lt v).
Proof.
  apply (std_sort_sorted wedge_lt (λ p, not_nan p.2)); intros;
    [by apply wedge_lt_asym|by apply (wedge_nlt_trans x y z)].
Qed.
#[local] Instance insertion_sort : DplSort := {|
  dpl_sort := std_sort wedge_lt;
  dpl_sort_perm := std_sort_perm wedge_lt;
  dpl_sort_sorted := std_sort_wedges |}.

(** Two edges of vertex 0: "0 2 1.5" and "0 1 .25". *)
Definition weighted_text : list Z :=
  [48; 32; 50; 32; 49; 46; 53; 10; 48; 32; 49; 32; 46; 50; 53; 10].
Definition weighted_edges : list wedge := [(0, 2, f32_of_decimal false 15 (-1)); (0, 1, f32_of_decimal false 25 (-2))].
Definition weighted_words : list Z := [1; 0x3e800000; 2; 0x3fc00000].

Example weighted_files :
  encode_weighted false false weighted_text
  = Ok (CsrFiles (le_words 8 [0; 2; 2]) (le_words 4 weighted_words)).
Proof. by vm_compute. Qed.

Lemma weighted_encode_correct_witness :
  ∃ targets,
    w_encode false false false weighted_text
      = Ok (CsrFiles (le_words 8 (before weighted_edges.*1 <$> rng 0 3)) (le_words 4 (targets ≫= w_entry)))
    ∧ zlen targets = 2
    ∧ ∀ u, 0 ≤ u ≤ 2 →
        let ts := slice (before weighted_edges.*1 u) (zlen (w_neighbours weighted_edges u)) targets in
        ts ≡ₚ w_neighbours weighted_edges u ∧ StronglySorted Z.le ts.*1.
Proof.
  destruct (weighted_encode_correct false false weighted_text) as (v & m & E & _ & H).
  assert (read_w_edges false false weighted_text = Ok (weighted_edges, 2)) as E' by (by vm_compute).
  rewrite E' in E. injection E as <- <-. by apply H.
Defined.

(** The client counts words, not entries: it takes a weight for a neighbour of
    vertex 0, and gives vertex 2, which has no edge, two of them. *)
Example weighted_file_misread :
  adj_of (Vertex <$> [0; 2; 2]) (zlen weighted_words) weighted_words 0 = [1; 0x3e800000]
  ∧ adj_of (Vertex <$> [0; 2; 2]) (zlen weighted_words) weighted_words 2 = [2; 0x3fc00000].
Proof. done. Qed.
