(* ===== verification/CommandLineWitnesses.v ===== *)
(** * CommandLineWitnesses: the command line with a concrete parser

    A parser that satisfies the laws of [ProgramOptions], and the theorems about the
    options for the arguments of a client. *)

From Stdlib Require Import SpecFloat.
From S2P Require Import Prelude Platform Options CommandLine.

(** ** A parser *)

(** A parser of pairs of an option and its value that knows strings only. *)
Definition read_token (s : semantic) (token : string) : option value :=
  match s with
  | Switch => Some (StringValue "")
  | Takes std_string | Defaults (StringValue _) => Some (StringValue token)
  | _ => None
  end.

Definition with_defaults (ds : list option_description) : gmap string value :=
  foldr (λ d m, match takes d with Defaults v => <[long_name d := v]> m | _ => m end) ∅ ds.

Fixpoint read_pairs (ds : list option_description) (argv : list string)
    (m : gmap string value) : result (gmap string value) :=
  match argv with
  | name :: token :: argv =>
      match List.find (λ d, bool_decide (long_name d = name)) ds with
      | Some d =>
          match read_token (takes d) token with
          | Some x => read_pairs ds argv (<[name := x]> m)
          | None => Fault (Thrown "invalid_option_value"%string)
          end
      | None => Fault (Thrown "unknown_option"%string)
      end
  | _ => Ok m
  end.

Lemma with_defaults_ok ds o x :
  with_defaults ds !! o = Some x → ∃ d, d ∈ ds ∧ long_name d = o ∧ value_ok (takes d) x.
Proof.
  induction ds as [|d ds IH]; cbn; [by rewrite lookup_empty|].
  assert (Hrest : with_defaults ds !! o = Some x → ∃ d', d' ∈ d :: ds ∧ long_name d' = o ∧ value_ok (takes d') x).
  { intros Hx. destruct (IH Hx) as (d' & ? & ? & ?). exists d'. split; [set_solver|done]. }
  destruct (takes d) as [| |v] eqn:Ed; [exact Hrest..|].
  intros [[<- <-]|[_ Hx]]%lookup_insert_Some; [|by apply Hrest].
  exists d. split; [set_solver|]. split; [done|]. by rewrite Ed.
Qed.

Lemma with_defaults_all ds d v :
  d ∈ ds → takes d = Defaults v → is_Some (with_defaults ds !! long_name d).
Proof.
  intros Hd Ev. induction ds as [|d' ds IH]; [by apply not_elem_of_nil in Hd|].
  cbn. apply elem_of_cons in Hd as [->|Hd].
  - rewrite Ev. by rewrite lookup_insert_eq.
  - specialize (IH Hd). destruct (takes d'); [done..|].
    destruct (decide (long_name d' = long_name d)) as [->|Hne]; [by rewrite lookup_insert_eq|].
    by rewrite lookup_insert_ne.
Qed.

Lemma read_pairs_ok ds argv m0 m :
  (∀ o x, m0 !! o = Some x → ∃ d, d ∈ ds ∧ long_name d = o ∧ value_ok (takes d) x) →
  read_pairs ds argv m0 = Ok m →
  (∀ o x, m !! o = Some x → ∃ d, d ∈ ds ∧ long_name d = o ∧ value_ok (takes d) x)
  ∧ ∀ o, is_Some (m0 !! o) → is_Some (m !! o).
Proof.
  revert m0. cut (∀ k argv m0, (length argv ≤ k)%nat →
    (∀ o x, m0 !! o = Some x → ∃ d, d ∈ ds ∧ long_name d = o ∧ value_ok (takes d) x) →
    read_pairs ds argv m0 = Ok m →
    (∀ o x, m !! o = Some x → ∃ d, d ∈ ds ∧ long_name d = o ∧ value_ok (takes d) x)
    ∧ ∀ o, is_Some (m0 !! o) → is_Some (m !! o)); [intros H m0; by apply (H (length argv))|].
  clear argv. induction k as [|k IH]; intros [|name [|token argv]] m0 Hk H0; cbn in *; try lia;
    try (by intros [= <-]).
  destruct (List.find _ ds) as [d|] eqn:Ef; [|done].
  apply List.find_some in Ef as [Hd%list_elem_of_In Hn%bool_decide_eq_true].
  destruct (read_token (takes d) token) as [x|] eqn:Ex; [|done]. intros Hm.
  destruct (IH argv (<[name := x]> m0)) as [H1 H2]; [lia| |done|].
  - intros o y [[<- <-]|[_ Hy]]%lookup_insert_Some; [|by apply H0].
    exists d. split; [done|]. split; [done|].
    destruct (takes d) as [|[]|[]]; cbn in *; by simplify_eq.
  - split; [done|]. intros o Ho. apply H2. destruct (decide (name = o)) as [->|Hne];
      [by rewrite lookup_insert_eq|by rewrite lookup_insert_ne].
Qed.

Program Definition pair_parser : ProgramOptions := {|
  parse_command_line ds argv := read_pairs ds argv (with_defaults ds);
|}.
Next Obligation.
  intros ds argv m o x Hm. cbn in Hm.
  by apply (read_pairs_ok ds argv (with_defaults ds) m (with_defaults_ok ds)).
Qed.
Next Obligation.
  intros ds argv m d v Hm Hd Ht. cbn in Hm.
  apply (read_pairs_ok ds argv (with_defaults ds) m (with_defaults_ok ds) Hm).
  by eapply with_defaults_all.
Qed.

#[local] Existing Instance pair_parser.

(** ** A client *)
Definition demo_argv : list string :=
  ["mode"; "client"; "indexfile"; "g.idx"; "kernel"; "bfs"; "hp"; ""]%string.
Definition demo_parsed : gmap string value :=
  or_else (parse_command_line desc demo_argv) ∅.

Definition accepted {A} (r : result A) : bool := match r with Ok _ => true | Fault _ => false end.

Lemma or_else_ok {A} (r : result A) x : accepted r = true → r = Ok (or_else r x).
Proof. by destruct r. Qed.

Example demo_main : main_argv demo_argv = Ok RunClient.
Proof. by vm_compute. Qed.

Example demo_no_mode :
  main_argv ["kernel"; "bfs"]%string = Fault (Thrown "bad_any_cast"%string)
  ∧ exit_status (main_argv ["kernel"; "bfs"]%string) = Some 1.
Proof. by vm_compute. Qed.

Lemma options_typed_witness :
  (∀ o t, (o, t) ∈ reads →
     match any_cast demo_parsed o t with
     | Ok v => type_of v = t
     | Fault f => f = Thrown "bad_any_cast"%string ∧ demo_parsed !! o = None ∧ o ∈ no_default
     end)
  ∧ o_kernel (view demo_parsed) = "bfs"%string.
Proof.
  assert (E : parse_command_line desc demo_argv = Ok demo_parsed) by (apply or_else_ok; by vm_compute).
  split; [by apply (options_typed demo_argv demo_parsed E)|by vm_compute].
Defined.

Lemma main_argv_correct_witness :
  main_argv demo_argv
  = (if bool_decide (is_Some (demo_parsed !! "help"%string)) then Ok Help
     else
       mode ← as_string demo_parsed "mode";
       ratio ← as_double demo_parsed "cache_ratio";
       if SFltb cache_ratio_min ratio && bool_decide (demo_parsed !! "cache_file_path"%string = None)
       then Fault (Thrown "cache_file_path"%string)
       else Ok (if bool_decide (mode = "client"%string) then RunClient else RunServer)).
Proof.
  destruct (main_argv_correct demo_argv) as [_ H].
  apply (H demo_parsed). apply or_else_ok. by vm_compute.
Defined.
