(* ===== verification/ToolMainWitnesses.v ===== *)
(** * ToolMainWitnesses: the tools on a concrete disk

    The theorems of [ToolMains] for a text of two edges, and runs in which a tool
    overwrites its own input, another one's output, or is ended by an exception. *)

From Stdlib Require Import Ascii.
From stdpp Require Import sorting.
From S2P Require Import Prelude Platform VertexTable Csr CsrWeighted GrTools CommandLine ToolMains.
From S2P Require Import CommandLineWitnesses ToolWitnesses.

#[local] Existing Instances pair_parser insertion_sort.

(** ** Paths *)

(** What is left of a path without its extension. *)
Fixpoint without_extension (p : string) : string :=
  match p with
  | EmptyString => EmptyString
  | String c s => if bool_decide (c = "."%char) && plain s then EmptyString else String c (without_extension s)
  end.

Lemma without_extension_app base e :
  plain e = true → without_extension (base +:+ "." +:+ e) = base.
Proof.
  intros He. induction base as [|c base IH].
  - change (without_extension (String "." e) = EmptyString). cbn. by rewrite He.
  - change (without_extension (String c (base +:+ "." +:+ e)) = String c base). cbn [without_extension].
    rewrite IH, plain_app. cbn [plain]. by rewrite !andb_false_r.
Qed.

#[local] Program Instance plain_paths : Paths := {|
  replace_extension p e := without_extension p +:+ e;
  can_read _ := true;
  can_write p := negb (bool_decide (p = "/sealed.idx"%string));
|}.
Next Obligation. intros p. by exists (without_extension p). Qed.
Next Obligation. intros base e e' _ _ He. cbn. by rewrite without_extension_app. Qed.

(** ** A text of two edges *)

(** "0 1" and "2 1". *)
Definition demo_text : list Z := [48; 32; 49; 10; 50; 32; 49; 10].
Definition demo_disk : gmap string fs_node := {[ "edges.txt"%string := Regular demo_text ]}.
Definition demo_world : world := World demo_disk [].

Definition convert_args : list string :=
  ["infile"; "edges.txt"; "outdir"; "g/"; "make-undirected"; ""]%string.
Definition fg2gr_args : list string := ["idx"; "g/csr.idx"; "adj"; "g/csr.adj"]%string.
Definition convert_vm : parsed := or_else (parse_command_line converter_desc convert_args) ∅.
Definition fg2gr_vm : parsed := or_else (parse_command_line fg2gr_desc fg2gr_args) ∅.
Definition demo_edges : list edge := [(0, 1); (1, 0); (2, 1); (1, 2)].

(** Of a run: the status, the nodes at some paths and what was printed. *)
Definition observe_tool (paths : list string) (r : world * result Z) : result Z * list fs_node * list line :=
  (r.2, node_of (files r.1) <$> paths, printed r.1).

Example convert_and_pack :
  let r := converter_main csr convert_args demo_world in
  observe_tool ["g/csr.idx"; "g/csr.adj"]%string r
    = (Ok 0, [Regular (le_words 8 [0; 1; 3]); Regular (le_words 4 [1; 0; 2; 1])], [])
  ∧ observe_tool ["g/csr.gr"]%string (fg2gr_main fg2gr_args r.1)
    = (Ok 0, [Regular (gr_bytes [1; 3; 4] [1; 0; 2; 1])], []).
Proof. by vm_compute. Qed.

Lemma text_to_gr_witness :
  ∃ w1 w2,
    converter_main csr convert_args demo_world = (w1, Ok 0) ∧ fg2gr_main fg2gr_args w1 = (w2, Ok 0)
    ∧ node_of (files w2) "g/csr.gr"
      = Regular (gr_bytes ((λ u, before demo_edges (u + 1)) <$> rng 0 3) (rng 0 3 ≫= adjacency demo_edges)).
Proof.
  destruct (text_to_gr false convert_args fg2gr_args convert_vm fg2gr_vm "edges.txt" "g/" demo_text demo_world)
    as (v & m & E & _ & H); [by vm_compute..|].
  assert (E' : read_edges false true demo_text = Ok (demo_edges, 2)) by (by vm_compute).
  change (read_edges false true demo_text = Ok (v, m)) in E. rewrite E' in E. injection E as <- <-.
  destruct H as (w1 & w2 & words & H1 & H2 & _ & H3 & ->); [by vm_compute..|].
  exists w1, w2. split; [exact H1|]. split; [exact H2|]. apply H3. by vm_compute.
Defined.

Definition compare_args : list string := ["A"; "a.gr"; "B"; "b.gr"]%string.
Definition compare_vm : parsed := or_else (parse_command_line compare_desc compare_args) ∅.
Definition gr_world : world :=
  World {[ "a.gr"%string := Regular (gr_bytes [2; 3] [1; 0; 1]); "b.gr"%string := Regular (gr_bytes [2; 3] [1; 1; 1]) ]} [].

Lemma compare_gr_main_correct_witness :
  compare_gr_main compare_args gr_world
  = (World (files gr_world) ([Counts 2 3; ComparingIndex] ++ differ (diffs 0 [2; 3] [2; 3])
       ++ [ComparingAdj] ++ differ (diffs 0 [1; 0; 1] [1; 1; 1])), Ok 0)
  ∧ (diffs 0 [2; 3] [2; 3] = [] ∧ diffs 0 [1; 0; 1] [1; 1; 1] = [] ↔ [2; 3] = [2; 3] ∧ [1; 0; 1] = [1; 1; 1]).
Proof.
  assert (Hf : ∀ k, (4 ≤ k)%nat → fits k [2; 3] ∧ fits k [1; 0; 1] ∧ fits k [1; 1; 1]).
  { intros k Hk. pose proof (Z.pow_le_mono_r 256 4 (Z.of_nat k)). unfold fits. rewrite !Forall_cons. repeat split; try lia; by apply Forall_nil. }
  destruct (Hf 8%nat) as (? & _ & _); [lia|]. destruct (Hf 4%nat) as (_ & ? & ?); [lia|].
  apply (compare_gr_main_correct compare_args compare_vm "a.gr" "b.gr" [2; 3] [1; 0; 1] [2; 3] [1; 1; 1] gr_world);
    first [assumption|reflexivity|by vm_compute].
Defined.

(** ** Surprises *)

(** The missing input file is thrown as a string literal: the handler does not catch it. *)
Example missing_input_terminates :
  observe_tool [] (converter_main csr ["infile"; "nowhere"; "outdir"; "g/"]%string demo_world)
  = (Fault (Terminated "Input file not found"), [], []).
Proof. by vm_compute. Qed.

(** Both converters write g.idx and g.adj when told to write g.v1. *)
Example converters_collide :
  let args := ["infile"; "edges.txt"; "outdir"; "g.v1"]%string in
  let r := converter_main csr args demo_world in
  observe_tool ["g.idx"; "g.adj"]%string r
    = (Ok 0, [Regular (le_words 8 [0; 1; 1]); Regular (le_words 4 [1; 1])], [])
  ∧ observe_tool ["g.idx"; "g.adj"]%string (converter_main decsr args r.1)
    = (Ok 0, [Regular (le_words 8 [0; 0; 2]); Regular (le_words 4 [0; 2])], []).
Proof. by vm_compute. Qed.

(** An index called g.gr is the output file of [fg2gr] and is emptied before it is read. *)
Example index_overwritten :
  observe_tool ["g.gr"]%string
    (fg2gr_main ["idx"; "g.gr"; "adj"; "g.adj"]%string
       (World {[ "g.gr"%string := Regular (le_words 8 [0; 1]); "g.adj"%string := Regular (le_words 4 [1; 0]) ]} []))
  = (Ok 1, [Regular (write_header 0 2 [])], [Caught "can't read index data"]).
Proof. by vm_compute. Qed.

(** Nobody looks whether the output could be opened. *)
Example unwritable_output :
  observe_tool ["/sealed.idx"; "/sealed.adj"]%string
    (converter_main csr ["infile"; "edges.txt"; "outdir"; "/sealed.x"]%string demo_world)
  = (Ok 0, [Missing; Regular (le_words 4 [1; 1])], []).
Proof. by vm_compute. Qed.
